(* ===== verification/_CoqProject ===== *)
-Q . S2P
Prelude.v
Libc.v
Sys.v
Buffer.v
SList.v
Hashlib.v
Hashring.v
Protocol.v
Validate.v
YamlConfig.v
ParserType.v
Tcpclient.v
Backend.v
Stats.v
StatsCalls.v
Session.v
Listener.v
Tcpserver.v
Udpserver.v
Server.v
StatsLaws.v
Service.v
Log.v
Main.v
Stathasher.v
Demo.v
