(* ===== verification/Prelude.v ===== *)
(** * statsrelay: a verified model of the relay

    statsrelay (C, under src/src/) receives metric lines over UDP and TCP, and
    forwards each one to the backend that the hash of its key selects from a
    ring of virtual shards.  It is a single-threaded event loop over libev; the
    hard parts are the byte buffers, the connection state machine of a backend
    client, objects shared between the ring, a list and libev, and input that
    arrives in arbitrary pieces.

    ** How the program is modelled

    Memory is explicit where the code handles it by hand: a block is a list of
    cells, a read or write outside it is undefined behaviour ([ub]), as are a
    use of NULL and of freed memory.  Calls to the kernel, to malloc and to
    libev are the constructors of [call] (Sys); they are answered by an
    arbitrary environment and recorded in a trace, from which the active
    watchers ([Tcpclient.watchers]) and the bytes sent ([Tcpclient.taken]) are
    read off.  A theorem holds for every environment; [OSLaws] is what the
    manual pages promise (a send takes at most what it is given, a receive
    returns at most what was asked for), and [Plenty], where it is assumed, says
    that malloc succeeds.  Machine integers are Z with [wrap32] and [wrap64]
    written where the C types wrap; the counters of the parser are [int]s, whose
    overflow is undefined ([int_add]).

    ** The files

    - Prelude: bytes, C strings, machine integers, tactics and hints.
    - Libc: character classes, [strtol], decimal output.
    - Sys: the calls, the monad [M], weakest preconditions [wp], and [keeps],
      the logic of which calls an operation may make.
    - Buffer: buffer.c.  [buffer_refines_queue]: on well-formed buffers the
      operations implement a queue of bytes and stay inside their block.
    - SList: list.c, growable arrays of pointers.
    - Hashlib: hashlib.c.  The hash equals a reference by recursion on the key.
    - Hashring: hashring.c, over the class [RingAlloc] of the callbacks that
      create and destroy backends, whose laws ([RingAllocLaws]) stats.c
      discharges.  Choosing, loading, sharing and destroying.
    - Protocol, Validate: protocol.c and validate.c, keys and line validation.
    - YamlConfig: yaml_config.c.  libyaml is a list of events; a configuration
      written as events is read back ([parse_config_roundtrip]).
    - Tcpclient: tcpclient.c.  The states that libev's events reach ([reach]),
      the invariant that ties the state, the [started] flags and the active
      watchers together ([client_safe]), and the stream theorem
      ([client_stream]): nothing accepted is lost, repeated or reordered.
    - Backend: stats.c up to [stats_server_reload]: the store of backends, their
      creation through the ring, sharing by normalised address, destruction.
    - Stats: the rest of stats.c: relaying a line, TCP sessions, datagrams and
      the status report.  The class [LineProtocol] is what it needs of a parser
      and a validator; statsd and carbon (server.c) are its instances.
    - StatsCalls: which calls the handlers of stats.c make, and about which
      clients.
    - Session: several reads of one TCP connection ([session_stream_pieces]), up to an
      end that the kernel or a refused line accounts for ([recv_ended]).
    - ParserType: what the parser returns for an arbitrary file
      ([parse_config_type]).
    - Listener: what tcpserver.c and udpserver.c share: the watchers that they
      allocate, against those that libev has started, and binding an address.
    - Tcpserver, Udpserver: tcpserver.c and udpserver.c, proved against classes
      ([ConnLaw], [RecvLaw], [DatagramLaw]) that say what their callbacks promise:
      every event of an active watcher is safe ([tcp_event_safe]), the ends of
      an accept with the answers that lead to them, the attempts of binding
      ([Listener.attempts]), and what destroying does.
    - Server: server.c.  The two servers, the memory they share with their listeners
      and sessions ([world]), and the step of libev ([run_event]).
    - StatsLaws: the handlers of stats.c keep the promises of Tcpserver and
      Udpserver ([stats_conn_law], [stats_recv_law], [stats_datagram_law]).
    - Service: the whole relay under libev.  [served] are the states that connecting
      and any sequence of events reach.  [service_safe]: no event has undefined
      behaviour; [service_connects], [service_routes]: which backends there are and
      where lines go; [service_accounts]: what the counters mean;
      [service_shutdown]: what destroying the servers frees and stops, and the sessions
      that it leaves.
    - Log: log.c.  What reaches stderr and syslog, and the messages whose
      formatting is undefined.
    - Main: main.c.  From the options and the file to a state of Service, or to an exit
      with the reason for it ([main_serves]), the check of a file ([main_checks]), and
      from a signal through the events pending with it to the end ([main_stops]).
    - Stathasher: stathasher.c, a second client of the ring: what it prints
      ([stathasher_reports]), and that on the configuration of a running relay it prints
      the backend to which the relay sends ([stathasher_predicts]).
    - Demo: a concrete program to which the theorems are applied.

    Two proofs of a property may go through an interface: Hashring is proved against
    [RingAllocLaws], which Backend and Stathasher discharge; Stats against
    [LineProtocol], which the statsd and carbon parsers and validators discharge; the
    listeners against the laws that StatsLaws discharges.

    ** Fuel and bounds

    Loops that are not structural have fuel that is enough, which is proved:
    [process_lines] and [udp_loop] consume a byte per round, [send_response]
    sends one, [write_loop] writes one or stops, [make_room] doubles a queue of at
    least a byte and is refused by malloc before 64 rounds
    ([make_room_terminates]), [format_loop] doubles an [int], and [parse_loop] and [load_lines] follow their
    input.  Running out of fuel is [ub], so a theorem that excludes [ub] also
    proves termination.  The bounds in hypotheses (rings of less than 2^32
    slots, at most 2^31 shards in a file, configuration lines of less than 2^30 bytes, keys of less than 8192
    and lines of up to 65536 bytes) are those at which the code's own types and
    static buffers end; [stats_key_overflow] and [stats_line_overflow] show that
    the last two are necessary.

    ** What is not modelled

    stresstest.c and the scripts are test drivers.  Inside the handlers the log
    messages are left out: Log shows what one message does, and that one of 256 bytes or
    more or with a string conversion is undefined.  The handlers log received lines that
    they refuse (stats.c:307, validate.c:32 to 100), so the theorems about the handlers,
    [service_safe] first of all, hold of what they do apart from those calls; Main keeps
    its own messages.  [struct ev_loop] pointers, the text of addresses, the messages
    about options and the backlog of a listener are left out.  Addresses of freed
    watchers and clients are not used again, so that using one is seen as undefined.
    The event loop itself is libev's: Service lets any active watcher be reported at
    any time, and the connection timers fire at any time they are active.  [ev_break]
    ends the loop after the events that are already pending, which [main_stop] has as
    an argument; a pending event whose watcher was stopped in the meantime is dropped. *)
From Stdlib Require Export Ascii.
From stdpp Require Export base tactics list strings gmap.
From Stdlib Require Export ZArith Lia.

Open Scope Z_scope.

(** ** Bytes and C strings *)

Abbreviation char := ascii.
Abbreviation bytes := (list ascii).

Definition NUL : ascii := "000"%char.
Definition LF : ascii := "010"%char.
Definition SPACE : ascii := " "%char.
Definition COLON : ascii := ":"%char.
Definition PIPE : ascii := "|"%char.
Definition AT : ascii := "@"%char.

(** A literal as the bytes of its characters. *)
Definition lit (s : string) : bytes := String.list_ascii_of_string s.

(** The value of a byte read as [uint8_t]. *)
Definition byte_val (c : ascii) : Z := Z.of_N (N_of_ascii c).

(** [memchr] over a whole list: the index of the first [c]. *)
Fixpoint index_of (c : ascii) (l : bytes) : option nat :=
  match l with
  | [] => None
  | x :: l' => if decide (x = c) then Some 0%nat else S <$> index_of c l'
  end.

(** What stands before and after the first [c]. *)
Definition split_at (c : char) (l : bytes) : option (bytes * bytes) :=
  (fun i => (take i l, drop (S i) l)) <$> index_of c l.

(** How often [c] occurs. *)
Fixpoint occurrences (c : char) (l : bytes) : nat :=
  match l with
  | [] => 0
  | x :: l' => (if decide (x = c) then 1 else 0) + occurrences c l'
  end.

(** The C string that starts at the head of [l]: the bytes before the first
    NUL (all of [l] when it holds none; the callers keep a terminator). *)
Fixpoint cstr (l : bytes) : bytes :=
  match l with
  | [] => []
  | x :: l' => if decide (x = NUL) then [] else x :: cstr l'
  end.

(** The length of a list as a C integer. *)
Definition len {A} (l : list A) : Z := Z.of_nat (length l).

(** [memchr(blk + off, c, n)]: the offset of the first [c], [Some None] for
    NULL, and [None] (undefined) when the scan would leave the block. *)
Definition memchr (blk : bytes) (off : Z) (c : char) (n : Z) : option (option Z) :=
  match index_of c (take (Z.to_nat n) (drop (Z.to_nat off) blk)) with
  | Some i => Some (Some (off + Z.of_nat i))
  | None => if off + n <=? len blk then Some None else None
  end.

(** ** Machine integers *)

Definition wrap32 (z : Z) : Z := z mod 2 ^ 32.
Definition wrap64 (z : Z) : Z := z mod 2 ^ 64.

(** ** Automation *)

Create HintDb relay.
Create Rewrite HintDb relay_rw.

(** Turn the boolean tests of the code in the context into propositions. *)
Ltac zbool :=
  repeat match goal with
  | H : (_ <? _) = true |- _ => apply Z.ltb_lt in H
  | H : (_ <? _) = false |- _ => apply Z.ltb_ge in H
  | H : (_ <=? _) = true |- _ => apply Z.leb_le in H
  | H : (_ <=? _) = false |- _ => apply Z.leb_gt in H
  | H : (_ =? _) = true |- _ => apply Z.eqb_eq in H
  | H : (_ =? _) = false |- _ => apply Z.eqb_neq in H
  | H : (_ && _)%bool = true |- _ => apply andb_true_iff in H as [? ?]
  | H : negb _ = true |- _ => apply negb_true_iff in H
  | H : negb _ = false |- _ => apply negb_false_iff in H
  end.

(** Case analysis on the tests of the goal. *)
Ltac case_tests :=
  repeat match goal with
  | |- context [if ?b then _ else _] => destruct b eqn:?
  end; zbool.

(** Lengths of lists to linear arithmetic. *)
Ltac lens :=
  unfold len in *;
  repeat (rewrite ?length_app, ?length_take, ?length_drop, ?length_replicate in * ;
          simpl length in *);
  lia.

(** ** Lemmas on bytes *)

Lemma len_nonneg {A} (l : list A) : 0 <= len l.
Proof. unfold len; lia. Qed.

Lemma len_app {A} (l k : list A) : len (l ++ k) = len l + len k.
Proof. lens. Qed.

Lemma len_nil {A} : len (@nil A) = 0.
Proof. done. Qed.

Lemma len_cons {A} (x : A) l : len (x :: l) = len l + 1.
Proof. lens. Qed.

Lemma len_zero_nil {A} (l : list A) : len l = 0 -> l = [].
Proof. destruct l; [done|lens]. Qed.

Lemma len_to_nat {A} (l : list A) : Z.to_nat (len l) = length l.
Proof. lens. Qed.

#[export] Hint Resolve len_nonneg : relay.
#[export] Hint Rewrite @len_app @len_nil @len_cons @len_to_nat : relay_rw.

Lemma index_of_Some c l i :
  index_of c l = Some i <-> l !! i = Some c /\ c ∉ take i l.
Proof.
  revert i; induction l as [|x l IH]; intros i; simpl.
  { split; [done|intros [? _]; done]. }
  case_decide as Hx.
  - subst; split; [intros [= <-]; split; [done|set_solver]|].
    intros [Hi Hn]; destruct i; [done|]; simpl in Hn; set_solver.
  - destruct i; simpl.
    + split; [intros (? & ? & ?)%fmap_Some; done|intros [[= ->] _]; done].
    + rewrite fmap_Some; split.
      * intros (j & Hj & [= ->]); apply IH in Hj as [? ?]; set_solver.
      * intros [Hi Hn]; exists i; split; [apply IH; set_solver|done].
Qed.

Lemma index_of_None c l : index_of c l = None <-> c ∉ l.
Proof.
  induction l as [|x l IH]; simpl; [set_solver|].
  case_decide; [set_solver|].
  rewrite fmap_None, IH; set_solver.
Qed.

Lemma index_of_lt c l i : index_of c l = Some i -> (i < length l)%nat.
Proof. intros [? _]%index_of_Some; by eapply lookup_lt_Some. Qed.

Lemma index_of_app c l k : c ∉ l -> index_of c (l ++ c :: k) = Some (length l).
Proof.
  intros Hn; apply index_of_Some; split.
  - by apply list_lookup_middle.
  - by rewrite take_app_length.
Qed.

(** A list holding [c] splits at its first occurrence. *)
Lemma index_of_split c l i :
  index_of c l = Some i ->
  exists l1 l2, l = l1 ++ c :: l2 /\ length l1 = i /\ c ∉ l1.
Proof.
  intros Hi; pose proof (index_of_lt _ _ _ Hi) as Hlt.
  apply index_of_Some in Hi as [Hi Hn].
  exists (take i l), (drop (S i) l); split; [|split; [|done]].
  - by rewrite take_drop_middle.
  - rewrite length_take; lia.
Qed.

Lemma split_at_Some c l l1 l2 :
  split_at c l = Some (l1, l2) <-> l = l1 ++ c :: l2 /\ (c ∉ l1).
Proof.
  unfold split_at. split.
  - intros (i & Hi & [= -> ->])%fmap_Some.
    destruct (index_of_split _ _ _ Hi) as (k1 & k2 & -> & <- & Hn).
    rewrite take_app_length, drop_app_ge, Nat.sub_succ_l, Nat.sub_diag by lia. done.
  - intros [-> Hn]. rewrite index_of_app by done. simpl.
    rewrite take_app_length, drop_app_ge, Nat.sub_succ_l, Nat.sub_diag by lia. done.
Qed.

Lemma split_at_None c l : split_at c l = None <-> c ∉ l.
Proof. unfold split_at. by rewrite fmap_None, index_of_None. Qed.

Lemma split_at_index c l l1 l2 :
  split_at c l = Some (l1, l2) -> index_of c l = Some (length l1).
Proof. intros [-> Hn]%split_at_Some. by apply index_of_app. Qed.

Lemma occurrences_zero c l : c ∉ l -> occurrences c l = 0%nat.
Proof.
  induction l as [|x l IH]; intros Hn; simpl; [done|].
  apply not_elem_of_cons in Hn as [? ?]. rewrite decide_False by done. by rewrite IH.
Qed.

Lemma occurrences_app c l k : occurrences c (l ++ k) = (occurrences c l + occurrences c k)%nat.
Proof. induction l as [|x l IH]; simpl; [done|]. rewrite IH. lia. Qed.

(** [memchr] on the [n] bytes that follow a prefix of the block. *)
Lemma memchr_in pre mid post c :
  memchr (pre ++ mid ++ post) (len pre) c (len mid) =
    Some ((fun i => len pre + Z.of_nat i) <$> index_of c mid).
Proof.
  unfold memchr. rewrite !len_to_nat, drop_app_length, take_app_length.
  destruct (index_of c mid); [done|]. rewrite (proj2 (Z.leb_le _ _)); [done|lens].
Qed.

Lemma cstr_app_nul l k : NUL ∉ l -> cstr (l ++ NUL :: k) = l.
Proof.
  induction l as [|x l IH]; intros Hn; simpl; [done|].
  apply not_elem_of_cons in Hn as [? ?].
  rewrite decide_False by done; by rewrite IH.
Qed.

Lemma cstr_id l : NUL ∉ l -> cstr l = l.
Proof.
  induction l as [|x l IH]; intros Hn; simpl; [done|].
  apply not_elem_of_cons in Hn as [? ?].
  rewrite decide_False by done; by rewrite IH.
Qed.

Lemma len_cstr l : len (cstr l) <= len l.
Proof. induction l as [|x l IH]; simpl; [done|]. case_decide; lens. Qed.

Lemma cstr_no_nul l : NUL ∉ cstr l.
Proof. induction l; simpl; [set_solver|case_decide; set_solver]. Qed.

(** ** Lemmas on machine integers *)

Lemma wrap32_range z : 0 <= wrap32 z < 2 ^ 32.
Proof. apply Z.mod_pos_bound; lia. Qed.

Lemma wrap64_range z : 0 <= wrap64 z < 2 ^ 64.
Proof. apply Z.mod_pos_bound; lia. Qed.

Lemma wrap32_small z : 0 <= z < 2 ^ 32 -> wrap32 z = z.
Proof. apply Z.mod_small. Qed.

Lemma wrap64_small z : 0 <= z < 2 ^ 64 -> wrap64 z = z.
Proof. apply Z.mod_small. Qed.

Lemma byte_val_range c : 0 <= byte_val c < 256.
Proof. destruct c as [[] [] [] [] [] [] [] []]; vm_compute; split; discriminate || reflexivity. Qed.

Lemma byte_val_inj c d : byte_val c = byte_val d -> c = d.
Proof.
  unfold byte_val. intros H%N2Z.inj.
  by rewrite <- (ascii_N_embedding c), <- (ascii_N_embedding d), H.
Qed.

Lemma no_nul_lit (s : string) : bool_decide (NUL ∉ lit s) = true -> NUL ∉ lit s.
Proof. by intros ?%bool_decide_eq_true. Qed.
