(* ===== verification/Libc.v ===== *)
(** * The parts of the C library that the code observes: character classes,
    [strtol], and the decimal conversions of [printf] *)
From S2P Require Import Prelude.

Definition isspace (c : char) : bool :=
  let v := byte_val c in ((9 <=? v) && (v <=? 13)) || (v =? 32).

Definition isdigit (c : char) : bool :=
  let v := byte_val c in (48 <=? v) && (v <=? 57).

Definition digit_val (c : char) : Z := byte_val c - 48.

Definition digit_char (d : Z) : char := ascii_of_N (Z.to_N (48 + d)).

(** ** strtol, base 10 *)

(** The value of the digits at the start of a string, and how many there are. *)
Fixpoint digits_value (s : bytes) (acc : Z) (count : nat) : Z * nat :=
  match s with
  | c :: s' =>
      if isdigit c then digits_value s' (10 * acc + digit_val c) (S count) else (acc, count)
  | [] => (acc, count)
  end.

Definition LONG_MAX : Z := 2 ^ 63 - 1.
Definition LONG_MIN : Z := - 2 ^ 63.

Definition strtol_signed (s : bytes) : Z * bool :=
  let '(neg, s) :=
    match s with
    | c :: s' =>
        if decide (c = "-"%char) then (true, s')
        else if decide (c = "+"%char) then (false, s') else (false, s)
    | [] => (false, [])
    end in
  let '(v, count) := digits_value s 0 0 in
  let v := if neg : bool then - v else v in
  (Z.max LONG_MIN (Z.min LONG_MAX v), negb (Nat.eqb count 0)).

(** The value, and whether [endptr != str]. *)
Fixpoint strtol (s : bytes) : Z * bool :=
  match s with
  | c :: s' => if isspace c then strtol s' else strtol_signed s
  | [] => (0, false)
  end.

Lemma digits_value_count s acc n :
  (n <= (digits_value s acc n).2)%nat /\
  ((digits_value s acc n).2 = n -> (digits_value s acc n).1 = acc).
Proof.
  revert acc n. induction s as [|c s IH]; intros acc n; simpl; [done|].
  destruct (isdigit c); [|done]. destruct (IH (10 * acc + digit_val c) (S n)) as [? _].
  split; [lia|]. intros ?. lia.
Qed.

(** What is not a number reads as 0. *)
Lemma strtol_no_digits s : (strtol s).2 = false -> (strtol s).1 = 0.
Proof.
  induction s as [|c s IH]; simpl; [done|]. destruct (isspace c); [done|].
  unfold strtol_signed. intros Hn.
  destruct (decide (c = "-"%char)); [|destruct (decide (c = "+"%char))].
  all: match goal with |- context [digits_value ?k 0 0] =>
    pose proof (proj2 (digits_value_count k 0 0)) as Hz; destruct (digits_value k 0 0) end.
  all: apply negb_false_iff, Nat.eqb_eq in Hn; simpl in *; by rewrite Hz.
Qed.

(** ** "%lu" and the like, for nonnegative values *)

Fixpoint dec_go (fuel : nat) (z : Z) (acc : bytes) : bytes :=
  match fuel with
  | O => acc
  | S fuel =>
      let acc := digit_char (z mod 10) :: acc in
      if z <? 10 then acc else dec_go fuel (z / 10) acc
  end.

(** The number of bits of [z] bounds the number of its digits. *)
Definition print_dec (z : Z) : bytes := dec_go (S (Z.to_nat (Z.log2 z))) z [].

(** ** Round trip *)

Lemma digit_char_ok d : 0 <= d < 10 -> isdigit (digit_char d) = true /\ digit_val (digit_char d) = d.
Proof.
  intros Hd.
  assert (d = 0 \/ d = 1 \/ d = 2 \/ d = 3 \/ d = 4 \/ d = 5 \/ d = 6 \/ d = 7 \/ d = 8 \/ d = 9)
    as Hcases by lia.
  by repeat (destruct Hcases as [->|Hcases]; [done|]); subst.
Qed.

(** Reading back the digits that [dec_go] puts in front of [acc]. *)
Lemma dec_go_spec fuel z acc :
  0 <= z -> z < 2 ^ Z.of_nat fuel -> (0 < fuel)%nat ->
  exists ds, dec_go fuel z acc = ds ++ acc /\ ds <> [] /\ Forall (fun c => isdigit c = true) ds /\
    forall v0 n0, digits_value (ds ++ acc) v0 n0 =
      digits_value acc (v0 * 10 ^ len ds + z) (n0 + length ds).
Proof.
  revert z acc. induction fuel as [|fuel IH]; intros z acc Hz Hf Hpos; [lia|].
  cbn [dec_go]. destruct (digit_char_ok (z mod 10)) as [Hd Hv]; [by apply Z.mod_pos_bound|].
  destruct (Z.ltb_spec z 10) as [Hlt|Hge].
  - exists [digit_char (z mod 10)]. rewrite (Z.mod_small z) in * by lia.
    split_and!; [done|done|by repeat constructor|]. intros v0 n0. simpl. rewrite Hd, Hv.
    f_equal; lens.
  - rewrite Nat2Z.inj_succ, Z.pow_succ_r in Hf by lia.
    assert (Hz' : 0 <= z / 10) by (apply Z.div_pos; lia).
    assert (Hlt' : z / 10 < 2 ^ Z.of_nat fuel) by (apply Z.div_lt_upper_bound; lia).
    assert (Hfuel : (0 < fuel)%nat) by (destruct fuel; simpl in Hf; lia).
    destruct (IH (z / 10) (digit_char (z mod 10) :: acc) Hz' Hlt' Hfuel)
      as (ds & -> & Hne & Hds & Hval).
    exists (ds ++ [digit_char (z mod 10)]). rewrite <- app_assoc. split_and!.
    + done.
    + by destruct ds.
    + apply Forall_app. split; [done|by repeat constructor].
    + intros v0 n0. cbn [app] in Hval |- *. rewrite Hval. cbn [digits_value]. rewrite Hd, Hv.
      rewrite length_app, len_app. cbn [length]. replace (len [digit_char (z mod 10)]) with 1 by done.
      rewrite Z.pow_add_r by (try apply len_nonneg; lia).
      pose proof (Z.div_mod z 10 ltac:(done)). f_equal; lia.
Qed.

Lemma print_dec_spec z :
  0 <= z ->
  print_dec z <> [] /\ Forall (fun c => isdigit c = true) (print_dec z) /\
  digits_value (print_dec z) 0 0 = (z, length (print_dec z)).
Proof.
  intros Hz. unfold print_dec.
  destruct (dec_go_spec (S (Z.to_nat (Z.log2 z))) z []) as (ds & -> & Hne & Hds & Hval); [done| |lia|].
  { destruct (Z.eq_dec z 0) as [->|]; [done|].
    rewrite Nat2Z.inj_succ, Z2Nat.id by apply Z.log2_nonneg. apply Z.log2_spec. lia. }
  rewrite app_nil_r in *. rewrite Hval. split_and!; [done..|]. simpl. f_equal; lia.
Qed.

Lemma dec_go_len fuel z acc : len (dec_go fuel z acc) <= Z.of_nat fuel + len acc.
Proof.
  revert z acc. induction fuel as [|fuel IH]; intros z acc; cbn [dec_go]; [lia|].
  destruct (z <? 10); [rewrite len_cons; lia|].
  specialize (IH (z / 10) (digit_char (z mod 10) :: acc)). rewrite len_cons in IH. lia.
Qed.

(** A 64-bit number has at most 64 digits. *)
Lemma print_dec_len z : 0 <= z < 2 ^ 64 -> 0 < len (print_dec z) <= 64.
Proof.
  intros Hz. split.
  - destruct (print_dec_spec z) as [Hne _]; [lia|]. destruct (print_dec z); [done|lens].
  - unfold print_dec. pose proof (dec_go_len (S (Z.to_nat (Z.log2 z))) z []) as Hl.
    rewrite len_nil in Hl. pose proof (Z.log2_nonneg z).
    assert (Z.log2 z < 64).
    { destruct (Z.eq_dec z 0) as [->|]; [done|]. apply Z.log2_lt_pow2; lia. }
    lia.
Qed.

Lemma isdigit_range c : isdigit c = true -> 48 <= byte_val c <= 57.
Proof. unfold isdigit. intros ?; zbool. lia. Qed.

(** [strtol] reads back what "%lu" prints. *)
Lemma strtol_print_dec z : 0 <= z <= LONG_MAX -> strtol (print_dec z) = (z, true).
Proof.
  intros Hz. destruct (print_dec_spec z) as (Hne & Hds & Hval); [lia|].
  destruct (print_dec z) as [|c ds]; [done|].
  apply Forall_cons in Hds as [Hc _]. apply isdigit_range in Hc.
  cbn [strtol]. assert (isspace c = false) as ->.
  { unfold isspace. destruct (Z.leb_spec (byte_val c) 13); [lia|].
    rewrite andb_false_r. simpl. apply Z.eqb_neq. lia. }
  unfold strtol_signed. rewrite !decide_False by (intros ->; vm_compute in Hc; naive_solver).
  rewrite Hval. simpl. f_equal. unfold LONG_MAX, LONG_MIN in *. lia.
Qed.

(** ** Characters *)

Definition char_code (c : ascii) : Z := Z.of_nat (nat_of_ascii c).

(** The conversion to [int8_t]. *)
Definition int8 (c : Z) : Z := (c + 128) mod 256 - 128.

(** ** Signed 32-bit arithmetic *)

Definition INT_MIN : Z := - 2 ^ 31.
Definition INT_MAX : Z := 2 ^ 31 - 1.

(** [a + b] on [int]s: undefined when it overflows. *)
Definition int_add (a b : Z) : option Z :=
  if (INT_MIN <=? a + b) && (a + b <=? INT_MAX) then Some (a + b) else None.

Lemma int_add_Some a b : INT_MIN <= a + b <= INT_MAX -> int_add a b = Some (a + b).
Proof. intros [??]. unfold int_add. by rewrite (proj2 (Z.leb_le _ _)), (proj2 (Z.leb_le _ _)). Qed.

Lemma int_add_inv a b c : int_add a b = Some c -> c = a + b /\ INT_MIN <= c <= INT_MAX.
Proof. unfold int_add. destruct (_ && _) eqn:E; [|done]. intros [= <-]. zbool. lia. Qed.
