(* ===== verification/Sys.v ===== *)
(** * The operating system and libev, as an interface

    The program is a set of event handlers that call the C library, the kernel
    and libev.  Those calls are the constructors of [call]; a handler is a
    computation of the monad [M], which records the calls it makes in a trace
    and obtains the answer of each one from the environment [os], an arbitrary
    function of the calls made so far (class [OS]).  A theorem proved for every
    [os] therefore holds for every behaviour of the environment: every malloc
    may fail, a send may take any number of bytes, the clock may do anything.

    [M] also has a failure, [ub], for a step that is undefined behaviour in C
    (a write outside a block, a use of a NULL block).  [wp m Q tr] says that
    [m], run after the trace [tr], has no undefined behaviour and ends in [Q]. *)
From S2P Require Import Prelude.

(** ** Calls and their answers *)

Inductive socktype := SOCK_STREAM | SOCK_DGRAM.

Record addrinfo := AddrInfo {
  ai_family : Z;
  ai_socktype : socktype;
  ai_protocol : Z;
}.

(** The [ev_io] watchers of a client, and the address of their owner. *)
Inductive io_kind := ConnectW | ReadW | WriteW.

(** The watchers that are allocated by themselves, by the file that does. *)
Inductive ev_kind := TcpEv | UdpEv.

Inductive call :=
  | Malloc (n : Z)                 (* malloc, calloc, realloc, strdup: [n] bytes *)
  | Time                           (* time(NULL) *)
  | Getaddrinfo (host port : bytes) (t : socktype)
  | Freeaddrinfo
  | Socket (family : Z) (t : socktype) (protocol : Z)
  | SetCork (sd : Z)               (* setsockopt TCP_CORK *)
  | FcntlGetfl (sd : Z)
  | FcntlSetfl (sd flags : Z)
  | Connect (sd : Z)
  | GetSoError (sd : Z)            (* getsockopt SO_ERROR *)
  | Send (sd : Z) (data : bytes)
  | Recv (sd n : Z)                (* recv, or read on a UDP socket *)
  | Close (sd : Z)
  | IoStart (owner : nat) (k : io_kind)
  | IoStop (owner : nat) (k : io_kind)
  | TimerStart (owner : nat)
  | TimerStop (owner : nat)
  | SetReuseaddr (sd : Z)          (* setsockopt SO_REUSEADDR *)
  | Bind (sd : Z)
  | Listen (sd : Z)
  | Accept (sd : Z)
  | GetaddrinfoAll (host port : bytes) (t : socktype)   (* the whole list *)
  | InetNtop (a : addrinfo)
  | EvStart (k : ev_kind) (w : nat) (* ev_io_start of a watcher allocated by itself *)
  | EvStop (k : ev_kind) (w : nat)
  | Fwrite (data : bytes)          (* fwrite to stderr, of bytes *)
  | Syslog (message : bytes).

#[export] Instance socktype_eq_dec : EqDecision socktype.
Proof. solve_decision. Defined.
#[export] Instance addrinfo_eq_dec : EqDecision addrinfo.
Proof. solve_decision. Defined.
#[export] Instance io_kind_eq_dec : EqDecision io_kind.
Proof. solve_decision. Defined.
#[export] Instance ev_kind_eq_dec : EqDecision ev_kind.
Proof. solve_decision. Defined.
#[export] Instance call_eq_dec : EqDecision call.
Proof. solve_decision. Defined.

(** - [Malloc]: [None] for NULL, else whatever the fresh block holds;
    - [Getaddrinfo]: [None] when it returns an error;
    - [Connect]: 0, or the errno of the failure;
    - [GetSoError]: [None] when getsockopt fails, else the pending error;
    - [Send]: the result, negative on error;
    - [Recv]: [None] on error, [Some []] when the peer closed;
    - [GetaddrinfoAll]: as [Getaddrinfo], with every address;
    - [InetNtop]: does it succeed;
    - [Accept]: the new descriptor, negative on error;
    - [Fwrite]: the number of bytes written. *)
Definition answer (c : call) : Type :=
  match c with
  | Malloc _ => option bytes
  | Getaddrinfo _ _ _ => option addrinfo
  | GetSoError _ => option Z
  | Recv _ _ => option bytes
  | GetaddrinfoAll _ _ _ => option (list addrinfo)
  | InetNtop _ => bool
  | Time | Socket _ _ _ | SetCork _ | FcntlGetfl _ | FcntlSetfl _ _
  | Connect _ | Send _ _ | SetReuseaddr _ | Bind _ | Listen _ | Accept _ | Fwrite _ => Z
  | _ => unit
  end.

Abbreviation trace := (list call).

Definition O_NONBLOCK : Z := 2048.

(** Events, as bits of [revents]. *)
Definition EV_READ : Z := 1.
Definition EV_WRITE : Z := 2.
Definition EV_ERROR : Z := 2147483648.

Class OS := os : trace -> forall c : call, answer c.

(** What the documentation of the calls promises about their answers. *)
Class OSLaws `{OS} : Prop := {
  send_at_most : forall tr sd d, os tr (Send sd d) <= len d;
  malloc_at_most : forall tr n g, os tr (Malloc n) = Some g -> n < 2 ^ 63;
  recv_at_most : forall tr sd n d, os tr (Recv sd n) = Some d -> len d <= Z.max 0 n;
  fwrite_at_most : forall tr d, 0 <= os tr (Fwrite d) <= len d;
}.

(** ** The monad *)

Definition M (A : Type) : Type := trace -> option (A * trace).

#[export] Instance M_ret : MRet M := fun A a tr => Some (a, tr).
#[export] Instance M_bind : MBind M := fun A B k m tr =>
  match m tr with
  | Some (a, tr') => k a tr'
  | None => None
  end.

(** Undefined behaviour. *)
Definition ub {A} : M A := fun _ => None.

(** A call of the environment. *)
Definition sys `{OS} (c : call) : M (answer c) :=
  fun tr => Some (os tr c, tr ++ [c]).

(** An expression whose evaluation may be undefined. *)
Definition defined {A} (o : option A) : M A :=
  match o with Some a => mret a | None => ub end.

(** [malloc(n)]: NULL, or a block of [n] bytes that hold anything. *)
Definition malloc `{OS} (n : Z) : M (option bytes) :=
  r ← sys (Malloc n);
  mret (resize (Z.to_nat n) NUL <$> r).

(** ** Growth of the trace *)

(** [tr'] extends [tr] by calls that all satisfy [P]. *)
Definition grows (P : call -> Prop) (tr tr' : trace) : Prop :=
  exists l, tr' = tr ++ l /\ Forall P l.

Definition is_malloc (c : call) : Prop :=
  match c with Malloc _ => True | _ => False end.

#[export] Instance grows_preorder P : PreOrder (grows P).
Proof.
  split.
  - intros tr; exists []; by rewrite app_nil_r.
  - intros tr1 tr2 tr3 (l1 & -> & H1) (l2 & -> & H2).
    exists (l1 ++ l2); rewrite app_assoc; split; [done|by apply Forall_app].
Qed.

Lemma grows_one (P : call -> Prop) tr c : P c -> grows P tr (tr ++ [c]).
Proof. intros; exists [c]; by repeat constructor. Qed.

Lemma grows_mono (P P' : call -> Prop) tr tr' :
  (forall c, P c -> P' c) -> grows P tr tr' -> grows P' tr tr'.
Proof. intros HP (l & -> & Hl); exists l; split; [done|by eapply Forall_impl]. Qed.

Lemma grows_prefix (P : call -> Prop) tr tr' : grows P tr tr' -> tr `prefix_of` tr'.
Proof. intros (l & -> & _). by exists l. Qed.

#[export] Hint Resolve grows_one : relay.
#[export] Hint Extern 1 (is_malloc _) => exact I : relay.
#[export] Hint Extern 1 (grows _ ?t ?t) => reflexivity : relay.

(** ** Weakest preconditions *)

Definition wp {A} (m : M A) (Q : A -> trace -> Prop) (tr : trace) : Prop :=
  match m tr with
  | Some (a, tr') => Q a tr'
  | None => False
  end.

Section wp.
Context {A B : Type}.
Implicit Types (Q : A -> trace -> Prop) (tr : trace).

Lemma wp_ret (a : A) Q tr : Q a tr -> wp (mret a) Q tr.
Proof. done. Qed.

Lemma wp_bind (m : M B) (k : B -> M A) Q tr :
  wp m (fun b => wp (k b) Q) tr -> wp (m ≫= k) Q tr.
Proof. unfold wp, mbind, M_bind. by destruct (m tr) as [[??]|]. Qed.

Lemma wp_mono (m : M A) Q Q' tr :
  wp m Q tr -> (forall a tr', Q a tr' -> Q' a tr') -> wp m Q' tr.
Proof. unfold wp. destruct (m tr) as [[??]|]; auto. Qed.

Lemma wp_defined (o : option A) a Q tr : o = Some a -> Q a tr -> wp (defined o) Q tr.
Proof. by intros ->. Qed.

Lemma wp_run (m : M A) Q tr a tr' : m tr = Some (a, tr') -> Q a tr' -> wp m Q tr.
Proof. unfold wp. by intros ->. Qed.

Lemma wp_conj (m : M A) Q Q' tr :
  wp m Q tr -> wp m Q' tr -> wp m (fun a tr' => Q a tr' /\ Q' a tr') tr.
Proof. unfold wp. destruct (m tr) as [[??]|]; auto. Qed.

Lemma wp_elim (m : M A) Q tr a tr' : wp m Q tr -> m tr = Some (a, tr') -> Q a tr'.
Proof. unfold wp. intros Hm E. by rewrite E in Hm. Qed.

Lemma wp_inv (m : M A) Q tr : wp m Q tr -> exists a tr', m tr = Some (a, tr') /\ Q a tr'.
Proof. unfold wp. destruct (m tr) as [[a tr']|]; [eauto|done]. Qed.

(** The run itself, in the postcondition. *)
Lemma wp_ran (m : M A) Q tr : wp m Q tr -> wp m (fun a tr' => Q a tr' /\ m tr = Some (a, tr')) tr.
Proof. unfold wp. by destruct (m tr) as [[a tr']|]. Qed.
End wp.

(** The partial version: undefined behaviour satisfies anything. *)
Definition wlp {A} (m : M A) (Q : A -> trace -> Prop) (tr : trace) : Prop :=
  match m tr with
  | Some (a, tr') => Q a tr'
  | None => True
  end.

Lemma wlp_bind {A B} (m : M B) (k : B -> M A) Q tr :
  wlp m (fun b => wlp (k b) Q) tr -> wlp (m ≫= k) Q tr.
Proof. unfold wlp, mbind, M_bind. by destruct (m tr) as [[??]|]. Qed.

Lemma wlp_wp {A} (m : M A) Q tr : wp m Q tr -> wlp m Q tr.
Proof. unfold wp, wlp. by destruct (m tr) as [[??]|]. Qed.

Lemma wlp_mono {A} (m : M A) Q Q' tr :
  wlp m Q tr -> (forall a tr', Q a tr' -> Q' a tr') -> wlp m Q' tr.
Proof. unfold wlp. destruct (m tr) as [[??]|]; auto. Qed.

Lemma wp_wlp {A} (m : M A) Q Q' tr :
  wp m Q tr -> wlp m Q' tr -> wp m (fun a tr' => Q a tr' /\ Q' a tr') tr.
Proof. unfold wp, wlp. destruct (m tr) as [[??]|]; auto. Qed.

Lemma wlp_ret {A} (a : A) (Q : A -> trace -> Prop) tr : Q a tr -> wlp (mret a) Q tr.
Proof. done. Qed.

Lemma wlp_any {A} (m : M A) (Q : A -> trace -> Prop) tr : (forall a tr', Q a tr') -> wlp m Q tr.
Proof. unfold wlp. destruct (m tr) as [[??]|]; auto. Qed.

Lemma wlp_defined {A B} (o : option B) (k : B -> M A) (Q : A -> trace -> Prop) tr :
  (forall b, o = Some b -> wlp (k b) Q tr) -> wlp (defined o ≫= k) Q tr.
Proof. destruct o; [intros Hk; by apply Hk|done]. Qed.

(** Follow an operation of whose calls nothing matters. *)
Ltac wlp_step :=
  lazymatch goal with
  | |- wlp (mret _) _ _ => apply wlp_ret
  | |- wlp (defined _ ≫= _) _ _ => apply wlp_defined; intros ? ?
  | |- wlp (if ?b then _ else _) _ _ => destruct b
  | |- wlp (match ?o with _ => _ end) _ _ => destruct o eqn:?
  | |- wlp (mbind _ _) _ _ => apply wlp_bind, wlp_any; intros ? ?
  end; cbn beta iota zeta.

Lemma wlp_run {A} (m : M A) Q tr a tr' : wlp m Q tr -> m tr = Some (a, tr') -> Q a tr'.
Proof. unfold wlp. intros Hm E. by rewrite E in Hm. Qed.

Lemma wp_sys `{OS} c (Q : answer c -> trace -> Prop) tr :
  Q (os tr c) (tr ++ [c]) -> wp (sys c) Q tr.
Proof. done. Qed.

(** [malloc], with the reason when there is no block. *)
Lemma wp_malloc_why `{OSLaws} n (Q : option bytes -> trace -> Prop) tr :
  0 <= n ->
  (os tr (Malloc n) = None -> Q None (tr ++ [Malloc n])) ->
  (forall cells, len cells = n -> n < 2 ^ 63 -> Q (Some cells) (tr ++ [Malloc n])) ->
  wp (malloc n) Q tr.
Proof.
  intros Hn Hnull Hblock. unfold malloc. apply wp_bind, (wp_sys (Malloc n)), wp_ret.
  destruct (os tr (Malloc n)) as [g|] eqn:E; simpl; [apply Hblock|by apply Hnull].
  - unfold len. rewrite length_resize. lia.
  - by eapply malloc_at_most.
Qed.

Lemma wp_malloc `{OSLaws} n (Q : option bytes -> trace -> Prop) tr :
  0 <= n ->
  Q None (tr ++ [Malloc n]) ->
  (forall cells, len cells = n -> n < 2 ^ 63 -> Q (Some cells) (tr ++ [Malloc n])) ->
  wp (malloc n) Q tr.
Proof.
  intros Hn Hnull Hblock. by apply wp_malloc_why.
Qed.

(** No allocation fails. *)
Class Plenty `{OS} : Prop :=
  plenty : forall tr n, n < 2 ^ 63 -> is_Some (os tr (Malloc n)).

Lemma wp_malloc_plenty `{OS, !Plenty} n (Q : option bytes -> trace -> Prop) tr :
  0 <= n < 2 ^ 63 ->
  (forall cells, len cells = n -> Q (Some cells) (tr ++ [Malloc n])) -> wp (malloc n) Q tr.
Proof.
  intros Hn HQ. unfold malloc. apply wp_bind, (wp_sys (Malloc n)), wp_ret.
  destruct (plenty tr n) as [g Hg]; [lia|]. rewrite Hg. apply HQ.
  unfold len. rewrite length_resize. lia.
Qed.

(** One step of a handler under [wp]. *)
Ltac wp_step :=
  lazymatch goal with
  | |- wp (mbind _ _) _ _ => apply wp_bind
  | |- wp (mret _) _ _ => apply wp_ret
  | |- wp (sys ?c) _ _ => apply (wp_sys c)
  | |- wp (if ?b then _ else _) _ _ => destruct b eqn:?
  | |- wp (match ?o with Some _ => _ | None => _ end) _ _ => destruct o eqn:?
  | |- wp (let '(_, _) := ?p in _) _ _ => destruct p eqn:?
  end; cbn beta iota zeta.

Ltac wp_steps := repeat wp_step.

(** ** What an operation may call, and what it preserves *)

(** Wherever [m] starts, it makes only calls that satisfy [P], and its result,
    if it has one, satisfies [R]. *)
Definition keeps {A} (P : call -> Prop) (R : A -> Prop) (m : M A) : Prop :=
  forall tr, wlp m (fun a tr' => grows P tr tr' /\ R a) tr.

Section keeps.
Context {A B : Type}.
Implicit Types (P : call -> Prop) (R : A -> Prop).

Lemma keeps_ret P R (a : A) : R a -> keeps P R (mret a).
Proof. by intros Ha tr. Qed.

Lemma keeps_ub P R : keeps P R (ub : M A).
Proof. by intros tr. Qed.

Lemma keeps_bind P (R' : B -> Prop) R (m : M B) (k : B -> M A) :
  keeps P R' m -> (forall b, R' b -> keeps P R (k b)) -> keeps P R (m ≫= k).
Proof.
  intros Hm Hk tr. apply wlp_bind. eapply wlp_mono; [apply Hm|].
  intros b tr1 [Hg Hb]. eapply wlp_mono; [by apply Hk|].
  intros a tr2 [Hg2 Ha]. split; [by etrans|done].
Qed.

Lemma keeps_mono P P' R R' (m : M A) :
  keeps P R m -> (forall c, P c -> P' c) -> (forall a, R a -> R' a) -> keeps P' R' m.
Proof.
  intros Hm HP HR tr. eapply wlp_mono; [apply Hm|]. intros a tr' [Hg Ha].
  split; [by eapply grows_mono|auto].
Qed.

Lemma wp_keeps P R (m : M A) Q tr :
  wp m Q tr -> keeps P R m -> wp m (fun a tr' => Q a tr' /\ grows P tr tr' /\ R a) tr.
Proof. intros Hm Hk. specialize (Hk tr). unfold wp, wlp in *. by destruct (m tr) as [[??]|]. Qed.
End keeps.

Lemma keeps_sys {A} `{OS} P (R : A -> Prop) c (k : answer c -> M A) :
  P c -> (forall x, keeps P R (k x)) -> keeps P R (sys c ≫= k).
Proof.
  intros Hc Hk. apply (keeps_bind _ (fun _ => True)); [|auto].
  intros tr. split; [by apply grows_one|done].
Qed.

Lemma keeps_malloc {A} `{OS} P (R : A -> Prop) n (k : option bytes -> M A) :
  P (Malloc n) -> (forall x, keeps P R (k x)) -> keeps P R (malloc n ≫= k).
Proof.
  intros Hc Hk. apply (keeps_bind _ (fun _ => True)); [|auto].
  intros tr. split; [by apply grows_one|done].
Qed.

Lemma keeps_defined {A B} P (R : A -> Prop) (o : option B) (k : B -> M A) :
  (forall x, o = Some x -> keeps P R (k x)) -> keeps P R (defined o ≫= k).
Proof. intros Hk tr. destruct o as [x|]; [by apply Hk|done]. Qed.

(** Follow the structure of an operation. *)
Ltac keeps_step :=
  lazymatch goal with
  | |- keeps _ _ (mret _) => apply keeps_ret
  | |- keeps _ _ ub => apply keeps_ub
  | |- keeps _ _ (sys ?c ≫= ?k) => apply (keeps_sys _ _ c k); [|intros ?]
  | |- keeps _ _ (malloc _ ≫= _) => apply keeps_malloc; [|intros ?]
  | |- keeps _ _ (defined _ ≫= _) => apply keeps_defined; intros ? ?
  | |- keeps _ _ (if ?b then _ else _) => destruct b
  | |- keeps _ _ (match ?o with _ => _ end) => destruct o
  end; cbn beta iota zeta.

Ltac keeps_tac := repeat keeps_step.

Lemma keeps_defined_only {B} P (o : option B) : keeps P (fun _ => True) (defined o).
Proof. intros tr. by destruct o. Qed.

(** The same through every sub-operation, when nothing is said of its result. *)
Ltac keeps_auto :=
  repeat first
    [ keeps_step
    | apply keeps_defined_only
    | lazymatch goal with
      | |- keeps _ _ (mbind _ _) => apply (keeps_bind _ (fun _ => True)); [|intros ? _]
      end ];
  try done.

(** ** A concrete environment, for the witnesses *)

(** An environment in which every allocation succeeds, every call returns 0
    and nothing is ever received. *)
Definition quiet_os : OS := fun _ cl =>
  match cl return answer cl with
  | Malloc n => if n <? 2 ^ 63 then Some [] else None
  | Getaddrinfo _ _ t => Some (AddrInfo 2 t 6)
  | GetSoError _ => Some 0
  | Recv _ _ => None
  | GetaddrinfoAll _ _ t => Some [AddrInfo 2 t 6]
  | InetNtop _ => true
  | Time | Socket _ _ _ | SetCork _ | FcntlGetfl _ | FcntlSetfl _ _
  | Connect _ | Send _ _ | SetReuseaddr _ | Bind _ | Listen _ | Accept _ | Fwrite _ => 0
  | _ => tt
  end.

Lemma quiet_laws : @OSLaws quiet_os.
Proof.
  split; unfold os, quiet_os; intros;
    [apply len_nonneg| |discriminate|by split; [|apply len_nonneg]].
  destruct (Z.ltb_spec n (2 ^ 63)) in *; [lia|discriminate].
Qed.

(** An environment that is out of memory, and is otherwise [quiet_os]. *)
Definition oom_os : OS := fun tr cl =>
  match cl return answer cl with
  | Malloc n => None
  | cl => quiet_os tr cl
  end.

Lemma oom_laws : @OSLaws oom_os.
Proof.
  split; unfold os, oom_os; intros;
    [apply len_nonneg|discriminate|discriminate|by split; [|apply len_nonneg]].
Qed.

Lemma quiet_plenty : @Plenty quiet_os.
Proof. intros tr n Hn. unfold os, quiet_os. by rewrite (proj2 (Z.ltb_lt n _)). Qed.
