(* ===== verification/Buffer.v ===== *)
(** * buffer.c: growable byte queues

    A [buffer] is the C struct: the block [ptr] points to, [head] and [tail] as
    offsets from it, and [size].  The reads and writes of the code are [load]
    and [store], which are undefined outside the block, so every theorem about
    an operation also says that it stays inside.  Under [buffer_wf] a buffer
    stands for the bytes between head and tail, [buffer_data]; the theorems
    relate each operation to its effect on that queue. *)
From S2P Require Import Prelude Sys.

(** ** Memory *)

(** What a [char *] obtained from malloc points to. *)
Inductive block := Null | Freed | Cells (c : bytes).

(** Read [n] bytes at offset [off]. *)
Definition load (b : block) (off n : Z) : option bytes :=
  match b with
  | Cells c =>
      if (0 <=? off) && (0 <=? n) && (off + n <=? len c)
      then Some (take (Z.to_nat n) (drop (Z.to_nat off) c)) else None
  | _ => None
  end.

(** Write [d] at offset [off]. *)
Definition store (b : block) (off : Z) (d : bytes) : option block :=
  match b with
  | Cells c =>
      if (0 <=? off) && (off + len d <=? len c)
      then Some (Cells (take (Z.to_nat off) c ++ d ++ drop (Z.to_nat off + length d) c))
      else None
  | _ => None
  end.

(** ** The struct and its operations *)

Record buffer := Buffer {
  ptr : block;
  head : Z;
  tail : Z;
  size : Z;
}.

Definition INITIAL_BUFFER_SIZE : Z := 4096.

(** [sizeof(buffer_t)]: three pointers and a [size_t]. *)
Definition sizeof_buffer : Z := 32.

(** A struct whose fields were never assigned. *)
Definition uninit_buffer : buffer := Buffer Null 0 0 0.

Section ops.
  Context `{OS}.

Definition buffer_allocate (b : buffer) (sz : Z) : M (Z * buffer) :=
  p ← malloc sz;
  match p with
  | None => mret (-1, Buffer Null b.(head) b.(tail) sz)
  | Some c => mret (0, Buffer (Cells c) 0 0 sz)
  end.

Definition buffer_init (b : buffer) : M (Z * buffer) :=
  buffer_allocate b INITIAL_BUFFER_SIZE.

Definition create_buffer (sz : Z) : M (option buffer) :=
  ret ← malloc sizeof_buffer;
  match ret with
  | None => ub (* buffer_allocate writes through the NULL pointer *)
  | Some _ =>
      '(r, b) ← buffer_allocate uninit_buffer sz;
      mret (if r =? 0 then Some b else None)
  end.

Definition buffer_datacount (b : buffer) : Z := wrap64 (b.(tail) - b.(head)).

Definition buffer_spacecount (b : buffer) : Z := wrap64 (b.(size) - b.(tail)).

Definition buffer_head (b : buffer) : Z := b.(head).

Definition buffer_tail (b : buffer) : Z := b.(tail).

Definition myrealloc (p : block) (old new : Z) : M (option block) :=
  pnew ← malloc new;
  match pnew with
  | None => mret None
  | Some c =>
      d ← defined (load p 0 old);
      q ← defined (store (Cells c) 0 d);
      mret (Some q)
  end.

Definition buffer_newsize (b : buffer) (newsize : Z) : M (Z * buffer) :=
  pnew ← myrealloc b.(ptr) b.(size) newsize;
  match pnew with
  | None => mret (-1, b)
  | Some q => mret (0, Buffer q b.(head) b.(tail) newsize)
  end.

Definition buffer_expand (b : buffer) : M (Z * buffer) :=
  buffer_newsize b (wrap64 (b.(size) * 2)).

Definition buffer_consume (b : buffer) (amt : Z) : Z * buffer :=
  if b.(tail) <? b.(head) + amt then (-1, b)
  else (0, Buffer b.(ptr) (b.(head) + amt) b.(tail) b.(size)).

Definition buffer_produced (b : buffer) (amt : Z) : Z * buffer :=
  if b.(size) <? wrap64 (b.(tail) + amt) then (-1, b)
  else (0, Buffer b.(ptr) b.(head) (wrap64 (b.(tail) + amt)) b.(size)).

Definition buffer_set (b : buffer) (data : bytes) (sz : Z) : M (Z * buffer) :=
  '(r, b) ← (if b.(size) <? sz then buffer_newsize b sz else mret (0, b));
  if negb (r =? 0) then mret (-1, b) else
  d ← defined (load (Cells data) 0 sz);
  q ← defined (store b.(ptr) 0 d);
  mret (buffer_produced (Buffer q b.(head) b.(tail) b.(size)) sz).

Definition buffer_init_contents (b : buffer) (data : bytes) (sz : Z) : M (Z * buffer) :=
  '(_, b) ← buffer_allocate b sz;
  buffer_set b data sz.

Definition buffer_realign (b : buffer) : M (Z * buffer) :=
  p ← (if b.(tail) =? b.(head) then mret b.(ptr) else
       d ← defined (load b.(ptr) b.(head) (b.(tail) - b.(head)));
       defined (store b.(ptr) 0 d));
  mret (0, Buffer p 0 (b.(tail) - b.(head)) b.(size)).

(** [head] and [tail] become NULL, which is represented by 0; [ptr] keeps the
    address of the freed block.  Freeing the block twice is undefined. *)
Definition buffer_destroy (b : buffer) : M buffer :=
  match b.(ptr) with
  | Freed => ub
  | Null => mret (Buffer Null 0 0 0)
  | Cells _ => mret (Buffer Freed 0 0 0)
  end.

Definition delete_buffer (b : buffer) : M unit :=
  _ ← buffer_destroy b;
  mret ().

Definition buffer_wrap (b : buffer) (data : bytes) (sz : Z) : buffer :=
  Buffer (Cells data) 0 sz 0.

(** The memcpy to, or recv into, [buffer_tail(b)] of the callers. *)
Definition buffer_write (b : buffer) (d : bytes) : M buffer :=
  q ← defined (store b.(ptr) (buffer_tail b) d);
  mret (Buffer q b.(head) b.(tail) b.(size)).

(** The bytes from [buffer_head(b)] that the callers read: [n] of them. *)
Definition buffer_read (b : buffer) (n : Z) : M bytes :=
  defined (load b.(ptr) (buffer_head b) n).
End ops.

(** ** The abstraction: a well-formed buffer is a queue of bytes *)

Record buffer_wf (b : buffer) : Prop := {
  wf_cells : exists c, b.(ptr) = Cells c /\ len c = b.(size);
  wf_head : 0 <= b.(head);
  wf_order : b.(head) <= b.(tail);
  wf_tail : b.(tail) <= b.(size);
  wf_size : b.(size) < 2 ^ 63;
}.

Definition buffer_data (b : buffer) : bytes :=
  match b.(ptr) with
  | Cells c => take (Z.to_nat (b.(tail) - b.(head))) (drop (Z.to_nat b.(head)) c)
  | _ => []
  end.

Arguments load : simpl never.
Arguments store : simpl never.
Arguments buffer_data : simpl never.

(** ** Memory lemmas *)

Implicit Types (c d : bytes) (b : buffer) (tr : trace).

Lemma load_ok c off n :
  0 <= off -> 0 <= n -> off + n <= len c ->
  load (Cells c) off n = Some (take (Z.to_nat n) (drop (Z.to_nat off) c)).
Proof.
  intros. unfold load. by rewrite !(proj2 (Z.leb_le _ _)) by lia.
Qed.

Lemma store_ok c off d :
  0 <= off -> off + len d <= len c ->
  store (Cells c) off d =
    Some (Cells (take (Z.to_nat off) c ++ d ++ drop (Z.to_nat off + length d) c)).
Proof.
  intros. unfold store. by rewrite !(proj2 (Z.leb_le _ _)) by lia.
Qed.

Lemma len_store c off d :
  0 <= off -> off + len d <= len c ->
  len (take (Z.to_nat off) c ++ d ++ drop (Z.to_nat off + length d) c) = len c.
Proof. lens. Qed.

(** What is read back at [off] after a store at [off]. *)
Lemma drop_store c off d :
  0 <= off -> off <= len c ->
  drop (Z.to_nat off) (take (Z.to_nat off) c ++ d ++ drop (Z.to_nat off + length d) c)
  = d ++ drop (Z.to_nat off + length d) c.
Proof. intros. apply drop_app_length'. lens. Qed.

(** Bytes before the stored ones are kept. *)
Lemma take_drop_store c h t d :
  0 <= h -> h <= t -> t + len d <= len c ->
  take (Z.to_nat (t + len d - h)) (drop (Z.to_nat h)
    (take (Z.to_nat t) c ++ d ++ drop (Z.to_nat t + length d) c))
  = take (Z.to_nat (t - h)) (drop (Z.to_nat h) c) ++ d.
Proof.
  intros. rewrite drop_app_le by lens.
  rewrite app_assoc, take_app_length'.
  - f_equal. rewrite skipn_firstn_comm. f_equal. lia.
  - lens.
Qed.

(** ** Queue lemmas *)

Section spec.
Lemma buffer_wf_intro c h t s :
  len c = s -> 0 <= h -> h <= t -> t <= s -> s < 2 ^ 63 ->
  buffer_wf (Buffer (Cells c) h t s).
Proof. intros; constructor; simpl; eauto. Qed.

Lemma buffer_wf_inv b :
  buffer_wf b -> exists c h t,
    b = Buffer (Cells c) h t (len c) /\ 0 <= h /\ h <= t /\ t <= len c /\ len c < 2 ^ 63.
Proof.
  intros [(c & Hp & Hc) ????]. destruct b as [p h t s]; simpl in *; subst.
  eauto 10.
Qed.

Lemma datacount_eq b : buffer_wf b -> buffer_datacount b = b.(tail) - b.(head).
Proof. intros []. apply wrap64_small. lia. Qed.

Lemma spacecount_eq b : buffer_wf b -> buffer_spacecount b = b.(size) - b.(tail).
Proof. intros []. apply wrap64_small. lia. Qed.

Lemma len_buffer_data b : buffer_wf b -> len (buffer_data b) = b.(tail) - b.(head).
Proof.
  intros (c & h & t & -> & ? & ? & ? & ?)%buffer_wf_inv. unfold buffer_data; simpl. lens.
Qed.

Lemma datacount_len b : buffer_wf b -> buffer_datacount b = len (buffer_data b).
Proof. intros. by rewrite datacount_eq, len_buffer_data. Qed.

Lemma datacount_bound b : buffer_wf b -> 0 <= buffer_datacount b <= b.(size).
Proof. intros H. rewrite datacount_eq by done. destruct H. lia. Qed.

Lemma buffer_load_data b :
  buffer_wf b -> load b.(ptr) b.(head) (b.(tail) - b.(head)) = Some (buffer_data b).
Proof.
  intros (c & h & t & -> & ? & ? & ? & ?)%buffer_wf_inv. apply load_ok; simpl; lia.
Qed.

Lemma buffer_consume_spec b n :
  buffer_wf b -> 0 <= n -> n <= buffer_datacount b ->
  exists b', buffer_consume b n = (0, b') /\ buffer_wf b' /\ b'.(size) = b.(size) /\
    buffer_data b' = drop (Z.to_nat n) (buffer_data b).
Proof.
  intros Hwf. rewrite datacount_eq by done. unfold buffer_consume.
  destruct (buffer_wf_inv _ Hwf) as (c & h & t & -> & ? & ? & ? & ?); simpl. intros.
  rewrite (proj2 (Z.ltb_ge _ _)) by lia. eexists; split; [done|].
  split; [apply buffer_wf_intro; lia|split; [done|]].
  unfold buffer_data; simpl. rewrite skipn_firstn_comm, drop_drop.
  repeat f_equal; lia.
Qed.

Lemma buffer_consume_too_much b n :
  buffer_wf b -> buffer_datacount b < n -> buffer_consume b n = (-1, b).
Proof.
  intros Hwf. rewrite datacount_eq by done. intros. unfold buffer_consume.
  by rewrite (proj2 (Z.ltb_lt _ _)) by lia.
Qed.

(** A write of [d] at the tail followed by [buffer_produced] appends [d]. *)
Lemma buffer_append_spec b d tr (Q : buffer -> trace -> Prop) :
  buffer_wf b -> len d <= buffer_spacecount b ->
  (forall b1 b2, buffer_produced b1 (len d) = (0, b2) -> buffer_wf b2 ->
     b2.(size) = b.(size) -> buffer_data b2 = buffer_data b ++ d -> Q b1 tr) ->
  wp (buffer_write b d) Q tr.
Proof.
  intros Hwf. rewrite spacecount_eq by done. intros Hd HQ.
  destruct (buffer_wf_inv _ Hwf) as (c & h & t & -> & ? & ? & ? & ?). simpl in *.
  pose proof (len_nonneg d).
  unfold buffer_write, buffer_tail; simpl ptr; simpl tail.
  rewrite store_ok by lia. simpl. apply wp_bind, wp_ret, wp_ret.
  eapply HQ.
  - unfold buffer_produced; simpl.
    rewrite wrap64_small, (proj2 (Z.ltb_ge _ _)) by lia. done.
  - apply buffer_wf_intro; [by rewrite len_store by lia|lia..].
  - done.
  - unfold buffer_data; simpl. apply take_drop_store; lia.
Qed.

Lemma buffer_produced_overflow b n :
  buffer_wf b -> buffer_spacecount b < n -> n < 2 ^ 63 -> buffer_produced b n = (-1, b).
Proof.
  intros Hwf. rewrite spacecount_eq by done. destruct Hwf. intros. unfold buffer_produced.
  rewrite wrap64_small by lia. by rewrite (proj2 (Z.ltb_lt _ _)) by lia.
Qed.
End spec.

Section monadic_spec.
Context `{OSLaws}.

(** The effect of an operation that only moves memory around. *)
Definition same_queue b tr (p : Z * buffer) (tr' : trace) : Prop :=
  grows is_malloc tr tr' /\ buffer_wf p.2 /\ buffer_data p.2 = buffer_data b.

Lemma same_queue_intro b b' r tr tr' :
  grows is_malloc tr tr' -> buffer_wf b' -> buffer_data b' = buffer_data b ->
  same_queue b tr (r, b') tr'.
Proof. done. Qed.

Lemma buffer_allocate_spec b n tr :
  0 <= n ->
  wp (buffer_allocate b n) (fun p tr' => grows is_malloc tr tr' /\
    (p.1 = 0 /\ buffer_wf p.2 /\ buffer_data p.2 = [] /\ p.2.(size) = n \/
     p.1 = -1 /\ p.2.(ptr) = Null)) tr.
Proof.
  intros. unfold buffer_allocate. apply wp_bind, wp_malloc; [done|..].
  - apply wp_ret; simpl; auto with relay.
  - intros c Hc Hn. apply wp_ret; simpl. split; [auto with relay|left].
    split_and!; [done|apply buffer_wf_intro; lia|done|done].
Qed.

Lemma buffer_newsize_spec b n tr :
  buffer_wf b -> b.(size) <= n ->
  wp (buffer_newsize b n) (fun p tr' => same_queue b tr p tr' /\
    (p.1 = 0 /\ p.2.(size) = n /\ p.2.(head) = b.(head) /\ p.2.(tail) = b.(tail) \/
     p.1 = -1 /\ p.2 = b)) tr.
Proof.
  intros Hwf. destruct (buffer_wf_inv _ Hwf) as (c & h & t & -> & ? & ? & ? & ?); simpl.
  intros. unfold buffer_newsize, myrealloc; simpl ptr; simpl size.
  apply wp_bind, wp_bind, wp_malloc; [lia|..].
  { apply wp_ret, wp_ret. split; [apply same_queue_intro; auto with relay|by right]. }
  intros c' Hc' Hn. rewrite load_ok by lia. apply wp_bind, wp_ret.
  rewrite drop_0, len_to_nat, firstn_all, store_ok by lia. simpl.
  do 3 apply wp_bind || apply wp_ret. apply wp_ret.
  split; [apply same_queue_intro; auto with relay|by left].
  - apply buffer_wf_intro; lens.
  - unfold buffer_data; simpl. rewrite drop_app_le by lens.
    by rewrite take_app_le by lens.
Qed.

(** It fails for one reason. *)
Lemma buffer_newsize_fails b n tr :
  wlp (buffer_newsize b n) (fun p _ => p.1 <> 0 -> os tr (Malloc n) = None) tr.
Proof.
  unfold wlp, buffer_newsize, myrealloc, malloc, sys, mbind, M_bind; cbn.
  destruct (os tr (Malloc n)); cbn; [|done].
  destruct (load _ _ _); cbn; [|done]. by destruct (store _ _ _); cbn.
Qed.

Lemma buffer_expand_spec b tr :
  buffer_wf b ->
  wp (buffer_expand b) (fun p tr' => same_queue b tr p tr' /\
    (p.1 = 0 /\ p.2.(size) = b.(size) * 2 /\ p.2.(head) = b.(head) /\ p.2.(tail) = b.(tail)
     \/ p.1 = -1 /\ p.2 = b)) tr.
Proof.
  intros Hwf. destruct (Hwf). unfold buffer_expand.
  rewrite wrap64_small by lia. by apply buffer_newsize_spec; [|lia].
Qed.

(** While there is memory, a buffer of less than 2^62 bytes can be doubled. *)
Lemma buffer_expand_plenty `{!Plenty} b tr :
  buffer_wf b -> wp (buffer_expand b) (fun p _ => p.1 = 0 \/ 2 ^ 62 <= b.(size)) tr.
Proof.
  intros Hwf. destruct (decide (2 ^ 62 <= b.(size))) as [Hbig|Hsmall].
  { eapply wp_mono; [by apply buffer_expand_spec|]. by right. }
  eapply wp_mono; [apply wp_wlp; [by apply buffer_expand_spec|apply buffer_newsize_fails]|].
  intros p tr' [[_ [[-> _]|[Hr _]]] Hf]; [by left|]. destruct (Hwf).
  rewrite wrap64_small in Hf by lia. destruct (plenty tr (b.(size) * 2)) as [c Hc]; [lia|].
  rewrite Hf in Hc; [done|lia].
Qed.

Lemma buffer_realign_spec b tr :
  buffer_wf b ->
  wp (buffer_realign b) (fun p tr' => same_queue b tr p tr' /\ tr' = tr /\ p.1 = 0 /\
    p.2.(head) = 0 /\ p.2.(size) = b.(size)) tr.
Proof.
  intros Hwf. pose proof (buffer_load_data _ Hwf) as Hload. pose proof (len_buffer_data _ Hwf) as Hlen.
  unfold buffer_realign. destruct (Z.eqb_spec b.(tail) b.(head)) as [Heq|Hne].
  - apply wp_bind, wp_ret, wp_ret. destruct Hwf.
    split_and!; [apply same_queue_intro; auto with relay|done..].
    { constructor; simpl; auto; lia. }
    rewrite (len_zero_nil (buffer_data b)) by lia.
    apply len_zero_nil. destruct wf_cells0 as (c & Hc & _).
    unfold buffer_data; simpl; rewrite Hc. lens.
  - destruct (buffer_wf_inv _ Hwf) as (c & h & t & -> & ? & ? & ? & ?).
    remember (buffer_data _) as q eqn:Hq. cbn [head tail ptr size] in *.
    apply wp_bind, wp_bind. rewrite Hload. apply wp_ret. cbn [ptr size].
    rewrite store_ok by lia. do 2 apply wp_ret.
    split_and!; [apply same_queue_intro; auto with relay|done..].
    + apply buffer_wf_intro; lens.
    + rewrite <- Hq. unfold buffer_data; simpl. apply take_app_length'. lens.
Qed.

(** On a buffer that holds nothing and starts at its block, [buffer_set] is
    what its comment says: the contents become [data]. *)
Lemma buffer_set_empty_spec b c tr :
  buffer_wf b -> b.(tail) = 0 ->
  wp (buffer_set b c (len c)) (fun p tr' => grows is_malloc tr tr' /\ buffer_wf p.2 /\
    (p.1 = 0 /\ buffer_data p.2 = c \/ p.1 = -1 /\ p.2 = b)) tr.
Proof.
  intros Hwf Ht. pose proof (len_nonneg c) as Hc. unfold buffer_set.
  assert (Hgrow : wp (if b.(size) <? len c then buffer_newsize b (len c) else mret (0, b))
    (fun p tr' => grows is_malloc tr tr' /\ (p.1 = -1 /\ p.2 = b \/ p.1 = 0 /\
      exists k, p.2 = Buffer (Cells k) 0 0 (len k) /\ len c <= len k < 2 ^ 63)) tr).
  { pose proof Hwf as Hwf'.
    destruct (buffer_wf_inv _ Hwf) as (k & h & t & -> & ? & ? & ? & ?); simpl in *.
    assert (h = 0) as -> by lia. subst t. case_tests.
    - eapply wp_mono; [apply buffer_newsize_spec; [done|simpl; lia]|].
      intros [r b'] tr' [(? & Hb & _) [(? & ? & ? & ?)|[? ?]]]; simpl in *; split; auto.
      right; split; [done|].
      destruct (buffer_wf_inv _ Hb) as (k' & h & t & -> & ? & ? & ? & ?); simpl in *; subst.
      eexists; split; [done|lia].
    - apply wp_ret; simpl; split; [auto with relay|right; split; [done|]].
      eexists; split; [done|lia]. }
  apply wp_bind. eapply wp_mono; [exact Hgrow|]. clear Hgrow.
  intros [r b'] tr' [Hg [[? ?]|[? (k & ? & ?)]]]; simpl in *; subst; simpl.
  - apply wp_ret; simpl. auto.
  - rewrite load_ok by lia. apply wp_bind, wp_ret.
    rewrite drop_0, len_to_nat, firstn_all, store_ok by lia. apply wp_bind, wp_ret, wp_ret.
    unfold buffer_produced; simpl. rewrite wrap64_small, (proj2 (Z.ltb_ge _ _)) by lia. simpl.
    split_and!; [done|apply buffer_wf_intro; lens|].
    left; split; [done|]. unfold buffer_data; simpl.
    apply take_app_length'. lens.
Qed.
End monadic_spec.

(** ** Refinement: a buffer implements a byte queue *)

(** The ways the program drives a buffer: append what was received or is to be
    sent when there is room, drop what was handled, make room. *)
Inductive buffer_cmd :=
  | CAppend (d : bytes)
  | CConsume (n : Z)
  | CRealign
  | CExpand.

Definition exec_cmd `{OS} (b : buffer) (cmd : buffer_cmd) : M (Z * buffer) :=
  match cmd with
  | CAppend d =>
      if buffer_spacecount b <? len d then mret (-1, b) else
      b ← buffer_write b d;
      mret (buffer_produced b (len d))
  | CConsume n => mret (buffer_consume b n)
  | CRealign => buffer_realign b
  | CExpand => buffer_expand b
  end.

Fixpoint exec_cmds `{OS} (b : buffer) (cmds : list buffer_cmd) : M (list Z * buffer) :=
  match cmds with
  | [] => mret ([], b)
  | cmd :: cmds =>
      '(r, b) ← exec_cmd b cmd;
      '(rs, b) ← exec_cmds b cmds;
      mret (r :: rs, b)
  end.

(** The queue of bytes: a command that returns an error leaves it alone. *)
Definition queue_cmd (q : bytes) (cmd : buffer_cmd) (r : Z) : bytes :=
  if r =? 0 then
    match cmd with
    | CAppend d => q ++ d
    | CConsume n => drop (Z.to_nat n) q
    | CRealign | CExpand => q
    end
  else q.

Fixpoint queue_cmds (q : bytes) (cmds : list buffer_cmd) (rs : list Z) : bytes :=
  match cmds, rs with
  | cmd :: cmds, r :: rs => queue_cmds (queue_cmd q cmd r) cmds rs
  | _, _ => q
  end.

(** Only a negative amount, which no caller passes, is excluded. *)
Definition cmd_ok (cmd : buffer_cmd) : Prop :=
  match cmd with CConsume n => 0 <= n | _ => True end.

Section refinement.
Context `{OSLaws}.

Lemma exec_cmd_spec b cmd tr :
  buffer_wf b -> cmd_ok cmd ->
  wp (exec_cmd b cmd) (fun p tr' => grows is_malloc tr tr' /\ buffer_wf p.2 /\
    buffer_data p.2 = queue_cmd (buffer_data b) cmd p.1) tr.
Proof.
  intros Hwf Hok. destruct cmd as [d|n| |]; unfold exec_cmd.
  - destruct (Z.ltb_spec (buffer_spacecount b) (len d)) as [Hlt|Hge].
    { apply wp_ret; simpl; auto with relay. }
    apply wp_bind, buffer_append_spec; [done|lia|].
    intros b1 b2 Hp Hwf2 _ Hd. apply wp_ret. rewrite Hp; simpl; auto with relay.
  - apply wp_ret. simpl in Hok.
    destruct (Z.le_gt_cases n (buffer_datacount b)) as [Hle|Hgt].
    + destruct (buffer_consume_spec b n Hwf Hok Hle) as (b' & -> & ? & _ & ?); simpl; auto with relay.
    + rewrite buffer_consume_too_much by done. simpl; auto with relay.
  - eapply wp_mono; [by apply buffer_realign_spec|].
    intros [r b'] tr' ((? & ? & ?) & _ & ? & _); simpl in *; subst; auto.
  - eapply wp_mono; [by apply buffer_expand_spec|].
    intros [r b'] tr' ((? & ? & ?) & [[? _]|[? ?]]); simpl in *; subst; auto.
Qed.

(** C13. The buffer of buffer.c refines a queue of bytes: whatever sequence of
    appends, consumes, realigns and expands the program issues on a
    well-formed buffer, and however its allocations turn out, no operation
    reads or writes outside its block, the buffer stays well-formed, and its
    contents are those of the abstract queue driven by the same commands. *)
Theorem buffer_refines_queue b cmds tr :
  buffer_wf b -> Forall cmd_ok cmds ->
  wp (exec_cmds b cmds) (fun p tr' => buffer_wf p.2 /\
    buffer_data p.2 = queue_cmds (buffer_data b) cmds p.1) tr.
Proof.
  intros Hwf Hok. revert b tr Hwf. induction Hok as [|cmd cmds Hcmd _ IH]; intros b tr Hwf.
  - by apply wp_ret.
  - simpl. apply wp_bind. eapply wp_mono; [by apply exec_cmd_spec|].
    intros [r b1] tr1 (_ & Hwf1 & Hd1). apply wp_bind.
    eapply wp_mono; [by apply IH|]. intros [rs b2] tr2 [Hwf2 Hd2].
    apply wp_ret. simpl in *. by rewrite <- Hd1.
Qed.
End refinement.

Lemma buffer_refines_queue_witness :
  let b := Buffer (Cells (lit "abcdefgh")) 2 4 8 in
  let cmds := [CAppend (lit "wxyz"); CAppend (lit "!"); CConsume 3; CExpand; CConsume 9] in
  buffer_wf b /\ Forall cmd_ok cmds /\
  @wp _ (@exec_cmds quiet_os b cmds) (fun p tr' => buffer_wf p.2 /\
      buffer_data p.2 = queue_cmds (buffer_data b) cmds p.1) [].
Proof.
  intros b cmds.
  assert (Hwf : buffer_wf b) by (apply buffer_wf_intro; done).
  assert (Hok : Forall cmd_ok cmds) by (repeat constructor; done).
  split; [exact Hwf|split; [exact Hok|]].
  exact (@buffer_refines_queue quiet_os quiet_laws b cmds [] Hwf Hok).
Defined.

(** [buffer_set] does not set the contents of a buffer that already holds
    data, as its comment says it does: it writes the new bytes at the start of
    the block and then moves the tail forward by their number, so a buffer that
    held ["abc"] and is set to ["XY"] holds ["XYc"] and two stale bytes. *)
Theorem buffer_set_keeps_stale_data :
  @buffer_set quiet_os (Buffer (Cells (lit "abc....")) 0 3 7) (lit "XY") 2 []
    = Some ((0, Buffer (Cells (lit "XYc....")) 0 5 7), []) /\
  buffer_data (Buffer (Cells (lit "XYc....")) 0 5 7) = lit "XYc..".
Proof. by vm_compute. Qed.
