(* ===== verification/SList.v ===== *)
(** * list.c: growable arrays of pointers

    [slist A] is the C struct: [data] is NULL or an array of [allocated_size]
    cells, of which the unassigned ones are [None].  [rep l xs] says that the
    array is consistent and holds [xs]. *)
From S2P Require Import Prelude Sys.

Record slist (A : Type) := SList {
  allocated_size : Z;
  lsize : Z;
  data : option (list (option A));
}.
Arguments SList {A} _ _ _.
Arguments allocated_size {A} _.
Arguments lsize {A} _.
Arguments data {A} _.

(** [sizeof(struct statsrelay_list)] and [sizeof(void * )]. *)
Definition sizeof_list : Z := 24.
Definition sizeof_ptr : Z := 8.

(** What [statsrelay_list_destroy] frees: the array and the structure. *)
Inductive list_block (A : Type) :=
  | DataBlock (p : option (list (option A)))
  | ListBlock (l : slist A).
Arguments DataBlock {A} _.
Arguments ListBlock {A} _.

Section ops.
  Context `{OS} {A : Type}.
  Implicit Types l : slist A.

(** The cells behind [data]. *)
Definition cells l : list (option A) := default [] l.(data).

Definition statsrelay_list_new : M (option (slist A)) :=
  p ← malloc sizeof_list;
  mret (match p with None => None | Some _ => Some (SList 0 0 None) end).

(** The result is the index of the new slot, or [None] for NULL. *)
Definition statsrelay_list_expand l : M (option Z * slist A) :=
  let index := l.(lsize) in
  let sz := wrap64 (l.(lsize) + 1) in
  if l.(allocated_size) <? sz then
    if l.(allocated_size) =? 0 then
      p ← malloc sizeof_ptr;
      match p with
      | None => mret (None, SList 1 sz None)
      | Some _ => mret (Some index, SList 1 sz (Some [None]))
      end
    else
      let alloc := wrap64 (Z.shiftl l.(allocated_size) 1) in
      p ← malloc (wrap64 (sizeof_ptr * alloc));
      match p with
      | None => mret (None, SList alloc sz l.(data))
      | Some _ =>
          mret (Some index,
                SList alloc sz (Some (resize (Z.to_nat alloc) None (cells l))))
      end
  else mret (Some index, SList l.(allocated_size) sz l.(data)).

(** [list->data[i] = v]. *)
Definition list_set l (i : Z) (v : A) : option (slist A) :=
  if (0 <=? i) && (i <? len (cells l))
  then Some (SList l.(allocated_size) l.(lsize) (Some (<[Z.to_nat i := Some v]> (cells l))))
  else None.

(** [list->data[i]]: undefined outside the array and on an unassigned cell. *)
Definition list_get l (i : Z) : option A :=
  if 0 <=? i then mjoin (cells l !! Z.to_nat i) else None.

(** [free(list->data[i])] for every [i] below the size: the elements freed. *)
Fixpoint free_elements l (i : Z) (n : nat) : M (list A) :=
  match n with
  | O => mret []
  | S n =>
      x ← defined (list_get l i);
      xs ← free_elements l (i + 1) n;
      mret (x :: xs)
  end.

(** The pointers given to [free], in order; [list->data] may be NULL. *)
Definition statsrelay_list_destroy l : M (list (list_block A)) :=
  mret [DataBlock l.(data); ListBlock l].

Definition statsrelay_list_destroy_full l : M (list A * list (list_block A)) :=
  xs ← free_elements l 0 (Z.to_nat l.(lsize));
  blocks ← statsrelay_list_destroy l;
  mret (xs, blocks).
End ops.

(** ** Representation *)

(** The array doubles: it is empty, or a power of two less than twice the
    number of elements. *)
Definition capacity_ok (n alloc : Z) : Prop :=
  n = 0 /\ alloc = 0 \/ exists k, 0 <= k /\ alloc = 2 ^ k /\ n <= alloc < 2 * n.

Record rep {A} (l : slist A) (xs : list A) : Prop := {
  rep_size : l.(lsize) = len xs;
  rep_cells : exists junk, cells l = (Some <$> xs) ++ junk /\
                len xs + len junk = l.(allocated_size);
  rep_capacity : capacity_ok (len xs) l.(allocated_size);
  rep_max : l.(allocated_size) < 2 ^ 60;
}.

Section spec.
Context {A : Type}.
Implicit Types (l : slist A) (xs : list A).

Lemma rep_empty : rep (SList 0 0 None) (@nil A).
Proof. constructor; simpl; [done|by exists []|by left|done]. Qed.

Lemma rep_inj l xs ys : rep l xs -> rep l ys -> xs = ys.
Proof.
  intros [Hs (j & Hc & _) _ _] [Hs' (j' & Hc' & _) _ _]. rewrite Hc in Hc'.
  apply app_inj_1 in Hc' as [Hc' _]; [|rewrite !length_fmap; unfold len in *; lia].
  by apply list_fmap_eq_inj in Hc'; [|intros ?? [= ?]].
Qed.

Lemma slist_get l xs i :
  rep l xs -> 0 <= i < len xs -> list_get l i = xs !! Z.to_nat i.
Proof.
  intros [_ (junk & Hc & _) _ _] Hi. unfold list_get.
  rewrite (proj2 (Z.leb_le _ _)) by lia. rewrite Hc, lookup_app_l by (rewrite length_fmap; lens).
  rewrite list_lookup_fmap.
  destruct (lookup_lt_is_Some_2 xs (Z.to_nat i)) as [x ->]; [lens|done].
Qed.

(** Assigning the slot after the elements of a list that has room. *)
Lemma slist_set l xs v :
  l.(lsize) = len xs + 1 ->
  (exists junk, cells l = (Some <$> xs) ++ junk /\ len xs + len junk = l.(allocated_size)) ->
  len xs < l.(allocated_size) -> capacity_ok (len xs + 1) l.(allocated_size) ->
  l.(allocated_size) < 2 ^ 60 ->
  exists l', list_set l (len xs) v = Some l' /\ rep l' (xs ++ [v]).
Proof.
  intros Hs (junk & Hc & Hj) Hlt Hcap Hmax.
  destruct junk as [|y junk]; [lens|].
  unfold list_set. rewrite Hc, (proj2 (Z.leb_le _ _)) by apply len_nonneg.
  rewrite (proj2 (Z.ltb_lt _ _)) by (rewrite len_app; unfold len; rewrite length_fmap; simpl; lia).
  eexists; split; [done|]. rewrite len_to_nat.
  rewrite insert_app_r_alt by (by rewrite length_fmap).
  rewrite length_fmap, Nat.sub_diag. constructor; simpl.
  - by rewrite len_app.
  - exists junk. rewrite fmap_app, <- app_assoc. split; [done|]. lens.
  - by rewrite len_app.
  - done.
Qed.

Lemma free_elements_spec `{OS} l xs i n tr :
  rep l xs -> 0 <= i -> i + Z.of_nat n = len xs ->
  wp (free_elements l i n) (fun ys tr' => tr' = tr /\ ys = drop (Z.to_nat i) xs) tr.
Proof.
  intros Hrep. revert i tr. induction n as [|n IH]; intros i tr Hi Hn; simpl.
  - apply wp_ret. split; [done|]. rewrite drop_ge; [done|lens].
  - destruct (lookup_lt_is_Some_2 xs (Z.to_nat i)) as [x Hx]; [lens|].
    apply wp_bind, wp_defined with x; [by rewrite (slist_get l xs) by (done || lia)|].
    apply wp_bind. eapply wp_mono; [apply IH; lia|].
    intros ys tr' [-> ->]. apply wp_ret. split; [done|].
    rewrite (drop_S xs x (Z.to_nat i)) by done. do 2 f_equal. lia.
Qed.

(** Destroying a consistent list frees its elements, its array and itself. *)
Lemma destroy_full_spec `{OS} l xs tr :
  rep l xs ->
  wp (statsrelay_list_destroy_full l) (fun p tr' => tr' = tr /\
    p = (xs, [DataBlock l.(data); ListBlock l])) tr.
Proof.
  intros Hrep. apply wp_bind. eapply wp_mono; [apply (free_elements_spec l xs); [done|done|]|].
  { rewrite (rep_size _ _ Hrep). unfold len. lia. }
  intros ys tr' [-> ->]. by apply wp_bind, wp_ret, wp_ret.
Qed.
End spec.

Section expand.
Context `{OSLaws} {A : Type}.
Implicit Types (l : slist A) (xs : list A).

(** What the callers rely on: a slot to assign, or an error. *)
Lemma slist_expand_spec l xs tr :
  rep l xs ->
  wp (statsrelay_list_expand l) (fun p tr' => grows is_malloc tr tr' /\
    match p.1 with
    | Some i => i = len xs /\ p.2.(lsize) = len xs + 1 /\
                forall v, exists l', list_set p.2 i v = Some l' /\ rep l' (xs ++ [v])
    | None => p.2.(lsize) = len xs + 1 /\ list_get p.2 (len xs) = None
    end) tr.
Proof.
  intros [Hs (junk & Hc & Hj) Hcap Hmax]. pose proof (len_nonneg xs).
  pose proof (len_nonneg junk). unfold statsrelay_list_expand.
  rewrite Hs, wrap64_small by lia.
  assert (Hnone : len junk = 0 -> list_get l (len xs) = None).
  { intros Hj0. unfold list_get. rewrite (proj2 (Z.leb_le _ _)) by lia.
    rewrite Hc, (len_zero_nil junk), app_nil_r by done. rewrite len_to_nat.
    by rewrite list_lookup_fmap, lookup_ge_None_2. }
  destruct (Z.ltb_spec l.(allocated_size) (len xs + 1)); cycle 1.
  { apply wp_ret; simpl. split_and!; [auto with relay|done..|].
    intros v. apply slist_set; simpl; [done|by exists junk|lia| |lia].
    destruct Hcap as [|(k & ? & ? & ?)]; [lia|right; exists k; lia]. }
  destruct (Z.eqb_spec l.(allocated_size) 0) as [Hz|Hz].
  - assert (xs = []) as -> by (apply len_zero_nil; lia).
    apply wp_bind, wp_malloc; [done|apply wp_ret; simpl; auto with relay|].
    intros c _ _. apply wp_ret; simpl. split_and!; [auto with relay|done..|].
    intros v. apply (slist_set _ []); simpl; [done|by exists [None]|done| |done].
    right; exists 0; lia.
  - destruct Hcap as [|(k & ? & Hk & ?)]; [lia|].
    rewrite Z.shiftl_mul_pow2, Z.pow_1_r by lia. unfold sizeof_ptr.
    rewrite (wrap64_small (_ * 2)), wrap64_small by lia.
    apply wp_bind, wp_malloc; [lia|..].
    { apply wp_ret; simpl. split_and!; [auto with relay|done|]. apply Hnone; lia. }
    intros c _ Hmax'. apply wp_ret; simpl. split_and!; [auto with relay|done..|].
    intros v. apply slist_set; simpl; [done| |lia| |lia].
    + exists (replicate (Z.to_nat l.(allocated_size)) None).
      rewrite (len_zero_nil junk) in Hc by lia. rewrite app_nil_r in Hc.
      unfold cells at 1; simpl. rewrite Hc, resize_ge by (rewrite length_fmap; lens).
      split; [do 2 f_equal; rewrite length_fmap; lens|lens].
    + right; exists (k + 1). rewrite Z.pow_add_r by lia. lia.
Qed.

Lemma expand_plenty `{!Plenty} l xs tr :
  rep l xs -> len xs < 2 ^ 58 ->
  wp (statsrelay_list_expand l) (fun p _ => is_Some p.1) tr.
Proof.
  intros [Hs _ Hcap Hmax] Hn. unfold statsrelay_list_expand.
  rewrite Hs, wrap64_small by (pose proof (len_nonneg xs); lia).
  destruct (Z.ltb_spec l.(allocated_size) (len xs + 1)); [|by apply wp_ret; eauto].
  destruct (Z.eqb_spec l.(allocated_size) 0).
  - apply wp_bind, wp_malloc_plenty; [done|]. intros; apply wp_ret; simpl; eauto.
  - destruct Hcap as [|(k & ? & ? & ?)]; [lia|].
    rewrite Z.shiftl_mul_pow2, Z.pow_1_r by lia. unfold sizeof_ptr.
    rewrite (wrap64_small (_ * 2)), wrap64_small by lia.
    apply wp_bind, wp_malloc_plenty; [lia|]. intros; apply wp_ret; simpl; eauto.
Qed.

(** With memory, there is always a slot. *)
Lemma expand_slot `{!Plenty} l xs tr :
  rep l xs -> len xs < 2 ^ 58 ->
  wp (statsrelay_list_expand l) (fun p tr' => p.1 = Some (len xs) /\
    p.2.(lsize) - 1 = len xs /\ grows is_malloc tr tr' /\
    forall v, exists l', list_set p.2 (len xs) v = Some l' /\ rep l' (xs ++ [v])) tr.
Proof.
  intros Hrep Hn.
  eapply wp_mono; [by apply wp_conj; [apply slist_expand_spec|apply (expand_plenty l xs)]|].
  intros [r l'] tr' [[Hg Hp] [i Hr]]. simpl in *. subst r.
  destruct Hp as (-> & -> & Hset). split_and!; [done|lia|done|done].
Qed.

(** list.c: from any consistent list and for every outcome of its
    allocations, [statsrelay_list_expand] either returns a slot whose
    assignment appends one element to the list (the capacity staying a power
    of two below twice the number of elements), or returns NULL. *)
Theorem list_expand_appends l xs tr :
  rep l xs ->
  wp (statsrelay_list_expand l) (fun p _ =>
    forall i v, p.1 = Some i -> exists l', list_set p.2 i v = Some l' /\ rep l' (xs ++ [v])) tr.
Proof.
  intros Hrep. eapply wp_mono; [by apply slist_expand_spec|].
  intros [[i|] l'] tr' [_ Hp] j v; simpl in *; [|done].
  intros [= <-]. destruct Hp as (_ & _ & Hset). apply Hset.
Qed.

(** When [statsrelay_list_expand] returns NULL it has already counted the
    new element: destroying the list and its elements afterwards, as
    [parse_config] does on that error, reads past the end of the array. *)
Theorem list_expand_failure_destroy_ub l xs tr l' tr' :
  rep l xs ->
  statsrelay_list_expand l tr = Some ((None, l'), tr') ->
  statsrelay_list_destroy_full l' tr' = None.
Proof.
  intros Hrep Hrun. pose proof (slist_expand_spec l xs tr Hrep) as Hwp.
  unfold wp in Hwp. rewrite Hrun in Hwp. destruct Hwp as (_ & Hs & Hget); simpl in *.
  unfold statsrelay_list_destroy_full. rewrite Hs.
  replace (Z.to_nat (len xs + 1)) with (S (length xs)) by lens.
  enough (Hub : free_elements l' 0 (S (length xs)) tr' = None) by (unfold mbind, M_bind; by rewrite Hub).
  assert (Hgen : forall n i tr0, 0 <= i -> i + Z.of_nat n = len xs ->
    free_elements l' i (S n) tr0 = None).
  { induction n as [|n IH]; intros i tr0 Hi Hn.
    - replace i with (len xs) by lia. simpl. unfold mbind, M_bind. by rewrite Hget.
    - cbn [free_elements]. unfold mbind, M_bind at 1.
      destruct (list_get l' i); [|done]. simpl.
      specialize (IH (i + 1) tr0 ltac:(lia) ltac:(lia)).
      unfold M_bind. cbn [free_elements] in IH. unfold mbind, M_bind in IH. by rewrite IH. }
  apply Hgen; lens.
Qed.
End expand.

Lemma list_expand_appends_witness :
  let l := SList 1 1 (Some [Some 7]) in
  rep l [7] /\
  @wp _ (@statsrelay_list_expand quiet_os Z l) (fun p _ =>
    forall i v, p.1 = Some i -> exists l', list_set p.2 i v = Some l' /\ rep l' ([7] ++ [v])) [].
Proof.
  intros l.
  assert (Hrep : rep l [7]).
  { constructor; [done|by exists []| |done]. right; exists 0; vm_compute; split_and!; congruence. }
  split; [exact Hrep|].
  exact (@list_expand_appends quiet_os quiet_laws Z l [7] [] Hrep).
Defined.

Lemma list_expand_failure_destroy_ub_witness :
  let l := SList 1 1 (Some [Some 7]) in
  let l' := SList 2 2 (Some [Some 7]) in
  @statsrelay_list_expand oom_os Z l [] = Some ((None, l'), [Malloc 16]) /\
  statsrelay_list_destroy_full l' [Malloc 16] = None.
Proof.
  intros l l'.
  assert (Hrep : rep l [7]).
  { constructor; [done|by exists []| |done]. right; exists 0; vm_compute; split_and!; congruence. }
  assert (Hrun : @statsrelay_list_expand oom_os Z l [] = Some ((None, l'), [Malloc 16]))
    by (vm_compute; reflexivity).
  split; [exact Hrun|].
  exact (@list_expand_failure_destroy_ub oom_os oom_laws Z l [7] [] l' [Malloc 16] Hrep Hrun).
Defined.
