(* ===== verification/Hashlib.v ===== *)
(** * hashlib.c: MurmurHash3 (32 bits) and the shard hash

    [murmur3_32] follows the C function statement by statement on [uint32_t]
    values kept in [0, 2^32).  [murmur_body] and [fmix] restate it by recursion
    on the bytes; the equivalence of the two carries the proofs. *)
From S2P Require Import Prelude.

(** ** The code *)

Definition HASHLIB_SEED : Z := 0xaccd3d34.
Definition c1 : Z := 0xcc9e2d51.
Definition c2 : Z := 0x1b873593.
Definition r1 : Z := 15.
Definition r2 : Z := 13.
Definition m : Z := 5.
Definition n : Z := 0xe6546b64.

(** [(x << r) | (x >> (32 - r))] on [uint32_t]. *)
Definition rotl (x r : Z) : Z :=
  Z.lor (wrap32 (Z.shiftl x r)) (Z.shiftr x (32 - r)).

(** [key[i]] as an unsigned byte; [stats_hash] checks that it is in range. *)
Definition byte_at (key : bytes) (i : Z) : Z :=
  default 0 (byte_val <$> key !! Z.to_nat i).

(** [blocks[i]], loaded as on a little-endian machine. *)
Definition block_at (key : bytes) (i : Z) : Z :=
  Z.lor (byte_at key (4 * i))
    (Z.lor (Z.shiftl (byte_at key (4 * i + 1)) 8)
       (Z.lor (Z.shiftl (byte_at key (4 * i + 2)) 16)
          (Z.shiftl (byte_at key (4 * i + 3)) 24))).

(** The [for] loop, from block [i] on, with [k] blocks left. *)
Fixpoint murmur_blocks (key : bytes) (i : Z) (k : nat) (hash : Z) : Z :=
  match k with
  | O => hash
  | S k' =>
      let k := block_at key i in
      let k := wrap32 (k * c1) in
      let k := rotl k r1 in
      let k := wrap32 (k * c2) in
      let hash := Z.lxor hash k in
      let hash := wrap32 (wrap32 (rotl hash r2 * m) + n) in
      murmur_blocks key (i + 1) k' hash
  end.

(** The [switch] on [len & 3], whose cases fall through. *)
Definition murmur_tail (key : bytes) (len tail hash : Z) : Z :=
  let sw := Z.land len 3 in
  let k1 := 0 in
  let k1 := if sw =? 3 then Z.lxor k1 (Z.shiftl (byte_at key (tail + 2)) 16) else k1 in
  let k1 := if 2 <=? sw then Z.lxor k1 (Z.shiftl (byte_at key (tail + 1)) 8) else k1 in
  if 1 <=? sw then
    let k1 := Z.lxor k1 (byte_at key tail) in
    let k1 := wrap32 (k1 * c1) in
    let k1 := rotl k1 r1 in
    let k1 := wrap32 (k1 * c2) in
    Z.lxor hash k1
  else hash.

Definition murmur3_32 (key : bytes) (len seed : Z) : Z :=
  let hash := seed in
  let nblocks := len / 4 in
  let hash := murmur_blocks key 0 (Z.to_nat nblocks) hash in
  let hash := murmur_tail key len (nblocks * 4) hash in
  let hash := Z.lxor hash len in
  let hash := Z.lxor hash (Z.shiftr hash 16) in
  let hash := wrap32 (hash * 0x85ebca6b) in
  let hash := Z.lxor hash (Z.shiftr hash 13) in
  let hash := wrap32 (hash * 0xc2b2ae35) in
  let hash := Z.lxor hash (Z.shiftr hash 16) in
  hash.

(** [None] where the C code is undefined: a read past the key, or a reduction
    modulo 0. *)
Definition stats_hash (key : bytes) (keylen output_domain : Z) : option Z :=
  if (keylen <=? len key) && negb (output_domain =? 0)
  then Some (murmur3_32 key keylen HASHLIB_SEED mod output_domain)
  else None.

(** ** The reference: recursion on the bytes *)

Definition le32 (a b c d : char) : Z :=
  Z.lor (byte_val a) (Z.lor (Z.shiftl (byte_val b) 8)
    (Z.lor (Z.shiftl (byte_val c) 16) (Z.shiftl (byte_val d) 24))).

Definition mix_k (k : Z) : Z := wrap32 (rotl (wrap32 (k * c1)) r1 * c2).

Definition mix_h (h k : Z) : Z :=
  wrap32 (wrap32 (rotl (Z.lxor h (mix_k k)) r2 * m) + n).

Fixpoint murmur_body (l : bytes) (h : Z) : Z :=
  match l with
  | a :: b :: c :: d :: l' => murmur_body l' (mix_h h (le32 a b c d))
  | [a; b; c] =>
      Z.lxor h (mix_k (Z.lxor (Z.lxor (Z.shiftl (byte_val c) 16)
        (Z.shiftl (byte_val b) 8)) (byte_val a)))
  | [a; b] => Z.lxor h (mix_k (Z.lxor (Z.shiftl (byte_val b) 8) (byte_val a)))
  | [a] => Z.lxor h (mix_k (byte_val a))
  | [] => h
  end.

Definition xorshift (s x : Z) : Z := Z.lxor x (Z.shiftr x s).

Definition fmix (h : Z) : Z :=
  xorshift 16 (wrap32 (xorshift 13 (wrap32 (xorshift 16 h * 0x85ebca6b)) * 0xc2b2ae35)).

Definition murmur_ref (key : bytes) (seed : Z) : Z :=
  fmix (Z.lxor (murmur_body key seed) (len key)).

(** ** Equivalence *)

Lemma byte_at_app pre l i :
  0 <= i -> byte_at (pre ++ l) (len pre + i) = byte_at l i.
Proof.
  intros. unfold byte_at. rewrite lookup_app_r by lens.
  do 3 f_equal. lens.
Qed.

(** Induction on a list four elements at a time. *)
Lemma list_ind4 {A} (P : list A -> Prop) :
  P [] -> (forall a, P [a]) -> (forall a b, P [a; b]) -> (forall a b c, P [a; b; c]) ->
  (forall a b c d l, P l -> P (a :: b :: c :: d :: l)) -> forall l, P l.
Proof.
  intros H0 H1 H2 H3 H4 l.
  enough (forall k l, (length l < k)%nat -> P l) by eauto.
  induction k as [|k IH]; intros [|a [|b [|c [|d l']]]] Hl; simpl in Hl; try lia; auto.
  apply H4, IH. lia.
Qed.

Lemma land3_add4 z : Z.land (z + 4) 3 = Z.land z 3.
Proof.
  change 3 with (Z.ones 2). rewrite !Z.land_ones by lia.
  change (2 ^ 2) with 4. by rewrite <- (Z.mod_add z 1 4) by lia.
Qed.

Lemma murmur_tail_eq l pre N h :
  (length l < 4)%nat -> Z.land N 3 = len l ->
  murmur_tail (pre ++ l) N (len pre) h = murmur_body l h.
Proof.
  intros Hl HN. unfold murmur_tail. rewrite HN.
  rewrite !byte_at_app by lia. rewrite <- (Z.add_0_r (len pre)), byte_at_app by lia.
  by destruct l as [|a [|b [|c [|d l]]]]; simpl in Hl; try lia.
Qed.

Lemma block_at_app pre a b c d l i :
  len pre = 4 * i -> block_at (pre ++ a :: b :: c :: d :: l) i = le32 a b c d.
Proof.
  intros Hi. unfold block_at. rewrite <- Hi, !byte_at_app by lia.
  rewrite <- (Z.add_0_r (len pre)), byte_at_app by lia. done.
Qed.

Lemma murmur_blocks_S key i k h :
  murmur_blocks key i (S k) h = murmur_blocks key (i + 1) k (mix_h h (block_at key i)).
Proof. unfold mix_h, mix_k. cbn [murmur_blocks]. cbv zeta. reflexivity. Qed.

Lemma murmur_body_eq l pre i N h :
  len pre = 4 * i -> 0 <= i -> Z.land N 3 = Z.land (len l) 3 ->
  murmur_tail (pre ++ l) N (4 * (i + len l / 4))
    (murmur_blocks (pre ++ l) i (Z.to_nat (len l / 4)) h) = murmur_body l h.
Proof.
  revert pre i h. induction l as [| | | |a b c d l IH] using list_ind4; intros pre i h Hpre Hi HN.
  1-4: match goal with |- context [len ?l / 4] => change (len l / 4) with 0 end;
    rewrite Z.add_0_r, <- Hpre; apply murmur_tail_eq; simpl; [lia|exact HN].
  assert (Hlen : len (a :: b :: c :: d :: l) = len l + 4) by lens.
  rewrite Hlen in HN |- *. rewrite land3_add4 in HN.
  assert (Hdiv : (len l + 4) / 4 = len l / 4 + 1) by (by rewrite <- Z.div_add by lia).
  rewrite Hdiv. pose proof (len_nonneg l). pose proof (Z.div_pos (len l) 4).
  rewrite (Z.add_1_r (len l / 4)), Z2Nat.inj_succ by lia.
  rewrite murmur_blocks_S, block_at_app by done. cbn [murmur_body].
  rewrite <- (IH (pre ++ [a; b; c; d]) (i + 1)); [|rewrite len_app; unfold len at 2; simpl; lia|lia|done].
  rewrite <- app_assoc. simpl app.
  by replace (i + Z.succ (len l / 4)) with (i + 1 + len l / 4) by lia.
Qed.

(** The indexed loops of the code compute the recursive reference. *)
Lemma murmur3_32_ref key seed : murmur3_32 key (len key) seed = murmur_ref key seed.
Proof.
  unfold murmur3_32, murmur_ref. rewrite (Z.mul_comm _ 4).
  pose proof (murmur_body_eq key [] 0 (len key) seed) as Heq. simpl app in Heq.
  rewrite Z.add_0_l in Heq. rewrite Heq by done. done.
Qed.

(** ** Ranges *)

Lemma rotl_range x r : 0 <= x < 2 ^ 32 -> 0 < r < 32 -> 0 <= rotl x r < 2 ^ 32.
Proof.
  intros Hx Hr. unfold rotl. pose proof (wrap32_range (Z.shiftl x r)).
  assert (0 <= Z.shiftr x (32 - r)) by (apply Z.shiftr_nonneg; lia).
  split; [apply Z.lor_nonneg; lia|].
  destruct (Z.eq_dec (Z.lor (wrap32 (Z.shiftl x r)) (Z.shiftr x (32 - r))) 0) as [->|Hne]; [done|].
  apply Z.log2_lt_pow2; [pose proof (proj2 (Z.lor_nonneg (wrap32 (Z.shiftl x r))
    (Z.shiftr x (32 - r)))); lia|].
  rewrite Z.log2_lor by lia. apply Z.max_lub_lt.
  - destruct (Z.eq_dec (wrap32 (Z.shiftl x r)) 0) as [->|]; [done|].
    apply Z.log2_lt_pow2; lia.
  - rewrite Z.shiftr_div_pow2 in * by lia.
    assert (x / 2 ^ (32 - r) <= x) by (apply Z.div_le_upper_bound; nia).
    destruct (Z.eq_dec (x / 2 ^ (32 - r)) 0) as [->|]; [done|].
    apply Z.log2_lt_pow2; lia.
Qed.

Lemma lxor_range32 x y :
  0 <= x < 2 ^ 32 -> 0 <= y < 2 ^ 32 -> 0 <= Z.lxor x y < 2 ^ 32.
Proof.
  intros Hx Hy. assert (0 <= Z.lxor x y) by (apply Z.lxor_nonneg; lia).
  split; [done|]. destruct (Z.eq_dec (Z.lxor x y) 0) as [->|]; [done|].
  apply Z.log2_lt_pow2; [lia|].
  pose proof (Z.log2_lxor x y ltac:(lia) ltac:(lia)) as Hl.
  assert (Hlog : forall z, 0 <= z < 2 ^ 32 -> Z.log2 z < 32).
  { intros z Hz. destruct (Z.eq_dec z 0) as [->|]; [done|]. apply Z.log2_lt_pow2; lia. }
  pose proof (Hlog _ Hx). pose proof (Hlog _ Hy). lia.
Qed.

Lemma shiftr_range32 x s : 0 <= x < 2 ^ 32 -> 0 <= s -> 0 <= Z.shiftr x s < 2 ^ 32.
Proof.
  intros Hx Hs. rewrite Z.shiftr_div_pow2 by lia. split; [apply Z.div_pos; lia|].
  apply Z.le_lt_trans with x; [|lia]. apply Z.div_le_upper_bound; [lia|].
  assert (1 <= 2 ^ s) by (pose proof (Z.pow_pos_nonneg 2 s); lia). nia.
Qed.

(** ** Every mixing step is injective on [uint32_t] *)

Definition u32 (x : Z) : Prop := 0 <= x < 2 ^ 32.

Definition inj32 (f : Z -> Z) : Prop := forall x y, u32 x -> u32 y -> f x = f y -> x = y.

Lemma mul_odd_inj k kinv : wrap32 (k * kinv) = 1 -> inj32 (fun x => wrap32 (x * k)).
Proof.
  intros Hinv.
  assert (Hback : forall x, u32 x -> wrap32 (wrap32 (x * k) * kinv) = x).
  { intros x Hx. unfold wrap32 in *. rewrite Z.mul_mod_idemp_l, <- Z.mul_assoc by lia.
    rewrite <- Z.mul_mod_idemp_r, Hinv, Z.mul_1_r by lia. by apply Z.mod_small. }
  intros x y Hx Hy Heq. by rewrite <- (Hback x), <- (Hback y), Heq.
Qed.

Lemma add_inj k : inj32 (fun x => wrap32 (x + k)).
Proof.
  assert (Hback : forall x, u32 x -> wrap32 (wrap32 (x + k) - k) = x).
  { intros x Hx. unfold wrap32. rewrite Zminus_mod_idemp_l. rewrite Z.add_simpl_r.
    by apply Z.mod_small. }
  intros x y Hx Hy Heq. by rewrite <- (Hback x), <- (Hback y), Heq.
Qed.

(** The two halves of a rotation do not overlap. *)
Lemma rotl_add x r :
  u32 x -> 0 < r < 32 -> rotl x r = (x mod 2 ^ (32 - r)) * 2 ^ r + x / 2 ^ (32 - r).
Proof.
  unfold u32. intros Hx Hr. unfold rotl, wrap32.
  assert (Hs : Z.shiftl x r mod 2 ^ 32 = (x mod 2 ^ (32 - r)) * 2 ^ r).
  { rewrite Z.shiftl_mul_pow2 by lia. replace (2 ^ 32) with (2 ^ (32 - r) * 2 ^ r).
    - apply Zmult_mod_distr_r.
    - rewrite <- Z.pow_add_r by lia. f_equal; lia. }
  rewrite Hs, <- Z.shiftr_div_pow2 by lia. symmetry. apply Z.add_nocarry_lor.
  apply Z.bits_inj'. intros i Hi. rewrite Z.land_spec, Z.bits_0.
  destruct (Z.lt_ge_cases i r) as [Hlt|Hge].
  - by rewrite Z.mul_pow2_bits_low.
  - rewrite (Z.shiftr_spec x) by lia. rewrite (Z.bits_above_log2 x), andb_false_r; [done|lia|].
    destruct (Z.eq_dec x 0) as [->|]; [simpl; lia|].
    apply Z.lt_le_trans with 32; [apply Z.log2_lt_pow2; lia|lia].
Qed.

Lemma rotl_inj r : 0 < r < 32 -> inj32 (fun x => rotl x r).
Proof.
  intros Hr x y Hx Hy. rewrite !rotl_add by done. unfold u32 in *.
  assert (Hq : forall z, 0 <= z < 2 ^ 32 -> 0 <= z / 2 ^ (32 - r) < 2 ^ r).
  { intros z Hz. split; [apply Z.div_pos; lia|]. apply Z.div_lt_upper_bound; [lia|].
    rewrite <- Z.pow_add_r by lia. replace (32 - r + r) with 32 by lia. lia. }
  intros Heq.
  assert (x / 2 ^ (32 - r) = y / 2 ^ (32 - r) /\ x mod 2 ^ (32 - r) = y mod 2 ^ (32 - r)) as [Hd Hm].
  { pose proof (Hq x Hx). pose proof (Hq y Hy).
    pose proof (Z.div_mod_unique (2 ^ r) (x mod 2 ^ (32 - r)) (y mod 2 ^ (32 - r))
      (x / 2 ^ (32 - r)) (y / 2 ^ (32 - r)) ltac:(lia) ltac:(lia)) as [-> ->];
      [rewrite !(Z.mul_comm (2 ^ r)); exact Heq|done]. }
  rewrite (Z.div_mod x (2 ^ (32 - r))), (Z.div_mod y (2 ^ (32 - r))) by lia. by rewrite Hd, Hm.
Qed.

Lemma xorshift_inj s : 0 < s -> inj32 (xorshift s).
Proof.
  intros Hs x y Hx Hy Heq. unfold xorshift, u32 in *.
  assert (Hhigh : forall z i, 0 <= z < 2 ^ 32 -> 32 <= i -> Z.testbit z i = false).
  { intros z i Hz Hi. destruct (Z.eq_dec z 0) as [->|]; [apply Z.bits_0|].
    apply Z.bits_above_log2; [lia|]. apply Z.lt_le_trans with 32; [apply Z.log2_lt_pow2; lia|lia]. }
  apply Z.bits_inj'. intros i Hi.
  enough (Hall : forall k i, 0 <= i -> 32 - i <= Z.of_nat k -> Z.testbit x i = Z.testbit y i)
    by (apply (Hall 32%nat); lia).
  clear i Hi. induction k as [|k IH]; intros i Hi Hk; [rewrite !Hhigh by lia; done|].
  apply (f_equal (fun z => Z.testbit z i)) in Heq.
  rewrite !Z.lxor_spec, !Z.shiftr_spec, (IH (i + s)) in Heq by lia.
  by destruct (Z.testbit x i), (Z.testbit y i), (Z.testbit y (i + s)).
Qed.

Lemma lxor_inj_l k x y : Z.lxor x k = Z.lxor y k -> x = y.
Proof.
  intros Heq. rewrite <- (Z.lxor_0_r x), <- (Z.lxor_nilpotent k), <- Z.lxor_assoc, Heq.
  by rewrite Z.lxor_assoc, Z.lxor_nilpotent, Z.lxor_0_r.
Qed.

Lemma lxor_inj_r k x y : Z.lxor k x = Z.lxor k y -> x = y.
Proof. rewrite !(Z.lxor_comm k). apply lxor_inj_l. Qed.

Lemma mix_k_range k : u32 (mix_k k).
Proof. apply wrap32_range. Qed.

Lemma mix_k_inj : inj32 mix_k.
Proof.
  intros x y Hx Hy Heq. unfold mix_k in Heq.
  apply (mul_odd_inj c2 0x56ed309b) in Heq; [|done|apply rotl_range; [apply wrap32_range|done]..].
  apply rotl_inj in Heq; [|done|apply wrap32_range..].
  by apply (mul_odd_inj c1 0xdee13bb1) in Heq.
Qed.

Lemma mix_h_range h k : u32 (mix_h h k).
Proof. apply wrap32_range. Qed.

(** The last two steps of [mix_h]. *)
Lemma mix_step_inj : inj32 (fun x => wrap32 (wrap32 (rotl x r2 * m) + n)).
Proof.
  intros x y Hx Hy Heq.
  apply add_inj in Heq; [|apply wrap32_range..].
  apply (mul_odd_inj m 0xcccccccd) in Heq; [|done|by apply rotl_range..].
  by apply rotl_inj in Heq.
Qed.

Lemma mix_h_inj_h k : inj32 (fun h => mix_h h k).
Proof.
  intros x y Hx Hy Heq. apply mix_step_inj in Heq;
    [by eapply lxor_inj_l|apply lxor_range32; [done|apply mix_k_range]..].
Qed.

Lemma mix_h_inj_k h x y : u32 h -> u32 x -> u32 y -> mix_h h x = mix_h h y -> x = y.
Proof.
  intros Hh Hx Hy Heq. apply mix_step_inj in Heq;
    [by apply mix_k_inj; [..|eapply lxor_inj_r]|apply lxor_range32; [done|apply mix_k_range]..].
Qed.

Lemma murmur_body_range l h : u32 h -> u32 (murmur_body l h).
Proof.
  revert h. induction l as [| | | |a b c d l IH] using list_ind4; intros h Hh; simpl;
    [done|apply lxor_range32; [done|apply mix_k_range]..|apply IH, mix_h_range].
Qed.

Lemma murmur_body_inj l : inj32 (murmur_body l).
Proof.
  induction l as [| | | |a b c d l IH] using list_ind4; intros x y Hx Hy Heq; simpl in Heq;
    [done|by eapply lxor_inj_l..|].
  apply IH in Heq; [|apply mix_h_range..]. by eapply mix_h_inj_h.
Qed.

Lemma fmix_inj : inj32 fmix.
Proof.
  assert (Hr : forall s x, 0 <= s -> u32 x -> u32 (xorshift s x))
    by (intros; apply lxor_range32, shiftr_range32; done).
  intros x y Hx Hy Heq. unfold fmix in Heq.
  apply xorshift_inj in Heq; [|done|apply wrap32_range..].
  apply (mul_odd_inj _ 0x7ed1b41d) in Heq; [|done|apply Hr; [done|apply wrap32_range]..].
  apply xorshift_inj in Heq; [|done|apply wrap32_range..].
  apply (mul_odd_inj _ 0xa5cb9243) in Heq; [|done|by apply Hr..].
  by apply xorshift_inj in Heq.
Qed.

Lemma lor_shiftl_add x y s : 0 <= s -> 0 <= x < 2 ^ s -> Z.lor x (Z.shiftl y s) = x + y * 2 ^ s.
Proof.
  intros Hs Hx. rewrite <- Z.shiftl_mul_pow2 by done. symmetry. apply Z.add_nocarry_lor.
  apply Z.bits_inj'. intros i Hi. rewrite Z.land_spec, Z.bits_0, Z.shiftl_spec by done.
  destruct (Z.lt_ge_cases i s) as [Hlt|Hge].
  - by rewrite (Z.testbit_neg_r y), andb_false_r by lia.
  - destruct (Z.eq_dec x 0) as [->|]; [by rewrite Z.bits_0|].
    rewrite (Z.bits_above_log2 x); [done|lia|]. apply Z.lt_le_trans with s; [|lia].
    apply Z.log2_lt_pow2; lia.
Qed.

Lemma le32_eq a b c d :
  le32 a b c d = byte_val a + (byte_val b + (byte_val c + byte_val d * 2 ^ 8) * 2 ^ 8) * 2 ^ 8.
Proof.
  unfold le32. pose proof (byte_val_range a). pose proof (byte_val_range b).
  pose proof (byte_val_range c).
  change 16 with (8 + 8). change 24 with (8 + 8 + 8). rewrite <- !Z.shiftl_shiftl by done.
  rewrite <- !Z.shiftl_lor, !lor_shiftl_add by done. done.
Qed.

Lemma le32_range a b c d : u32 (le32 a b c d).
Proof.
  rewrite le32_eq. unfold u32. pose proof (byte_val_range a). pose proof (byte_val_range b).
  pose proof (byte_val_range c). pose proof (byte_val_range d). lia.
Qed.

Lemma le32_inj a b c d a' b' c' d' :
  le32 a b c d = le32 a' b' c' d' -> [a; b; c; d] = [a'; b'; c'; d'].
Proof.
  rewrite !le32_eq. intros Heq.
  pose proof (byte_val_range a). pose proof (byte_val_range b).
  pose proof (byte_val_range c). pose proof (byte_val_range d).
  pose proof (byte_val_range a'). pose proof (byte_val_range b').
  pose proof (byte_val_range c'). pose proof (byte_val_range d').
  rewrite (byte_val_inj a a'), (byte_val_inj b b'), (byte_val_inj c c'), (byte_val_inj d d')
    by lia. done.
Qed.

(** The body over a prefix of whole blocks. *)
Lemma murmur_body_app (pre : bytes) h :
  (length pre mod 4 = 0)%nat -> u32 h ->
  exists h', u32 h' /\ forall l, murmur_body (pre ++ l) h = murmur_body l h'.
Proof.
  revert h. induction pre as [| | | |a b c d pre IH] using list_ind4; intros h Hm Hh;
    try done; [by exists h|].
  apply (IH (mix_h h (le32 a b c d))); [|apply mix_h_range].
  revert Hm. change (length (a :: b :: c :: d :: pre)) with (4 + length pre)%nat.
  rewrite Nat.add_comm, <- (Nat.mul_1_l 4) at 1. by rewrite Nat.Div0.mod_add.
Qed.

(** ** Properties *)

Section properties.
Implicit Types (key : bytes).

Lemma stats_hash_eq key dom :
  0 < dom ->
  stats_hash key (len key) dom = Some (murmur_ref key HASHLIB_SEED mod dom) /\
  0 <= murmur_ref key HASHLIB_SEED mod dom < dom.
Proof.
  intros Hd. unfold stats_hash. rewrite Z.leb_refl, (proj2 (Z.eqb_neq dom 0)) by lia.
  rewrite murmur3_32_ref. split; [done|by apply Z.mod_pos_bound].
Qed.

(** C27. hashlib.c: the indexed block loop, the fall-through switch and the
    finaliser of [murmur3_32] compute the recursive MurmurHash3 reference on
    every key; [stats_hash] reduces it modulo the output domain, to a value
    below it, and is undefined for the domain 0. *)
Theorem stats_hash_reference key dom seed :
  murmur3_32 key (len key) seed = murmur_ref key seed /\
  stats_hash key (len key) 0 = None /\
  (0 < dom -> exists h, stats_hash key (len key) dom = Some h /\ 0 <= h < dom /\
     h = murmur_ref key HASHLIB_SEED mod dom).
Proof.
  split_and!; [apply murmur3_32_ref|unfold stats_hash; by rewrite andb_false_r|].
  intros Hd. destruct (stats_hash_eq key dom Hd) as [-> ?]. eauto.
Qed.

(** hashlib.c never maps two keys that differ in a single aligned block
    of four bytes to the same 32-bit hash: every mixing step and the
    finaliser are injective on [uint32_t]. *)
Theorem murmur_block_collision_free pre suf (b1 b2 : bytes) :
  (length pre mod 4 = 0)%nat -> length b1 = 4%nat -> length b2 = 4%nat -> b1 <> b2 ->
  len (pre ++ b1 ++ suf) < 2 ^ 32 ->
  murmur3_32 (pre ++ b1 ++ suf) (len (pre ++ b1 ++ suf)) HASHLIB_SEED <>
  murmur3_32 (pre ++ b2 ++ suf) (len (pre ++ b2 ++ suf)) HASHLIB_SEED.
Proof.
  intros Hpre H1 H2 Hne Hlen Heq. rewrite !murmur3_32_ref in Heq. unfold murmur_ref in Heq.
  assert (Hl : len (pre ++ b2 ++ suf) = len (pre ++ b1 ++ suf)) by (rewrite !len_app; lens).
  rewrite Hl in Heq. pose proof (len_nonneg (pre ++ b1 ++ suf)).
  assert (Hs : u32 HASHLIB_SEED) by done.
  apply fmix_inj in Heq; [|apply lxor_range32; [by apply murmur_body_range|done]..].
  apply lxor_inj_l in Heq.
  destruct (murmur_body_app pre HASHLIB_SEED Hpre Hs) as (h & Hh & Hbody).
  rewrite !Hbody in Heq.
  destruct b1 as [|x1 [|x2 [|x3 [|x4 [|]]]]]; try done.
  destruct b2 as [|y1 [|y2 [|y3 [|y4 [|]]]]]; try done. simpl in Heq.
  apply murmur_body_inj in Heq; [|apply mix_h_range..].
  apply mix_h_inj_k in Heq; [|done|apply le32_range..].
  by apply le32_inj in Heq.
Qed.

(** The hashes that tests/test_hashlib.c fixes. *)
Theorem stats_hash_golden :
  map (fun k => stats_hash (lit k) (len (lit k)) (2 ^ 32 - 1))
    ["apple"; "banana"; "orange"; "lemon"]%string
  = [Some 2699884538; Some 558421143; Some 2279140812; Some 4183924513].
Proof. by vm_compute. Qed.
End properties.

Lemma stats_hash_reference_witness :
  0 < 4 /\ exists h, stats_hash (lit "apple") (len (lit "apple")) 4 = Some h /\ 0 <= h < 4 /\
     h = murmur_ref (lit "apple") HASHLIB_SEED mod 4.
Proof.
  split; [done|].
  exact (proj2 (proj2 (stats_hash_reference (lit "apple") 4 HASHLIB_SEED)) ltac:(done)).
Defined.

Lemma murmur_block_collision_free_witness :
  murmur3_32 (lit "servabcd.cpu") (len (lit "servabcd.cpu")) HASHLIB_SEED <>
  murmur3_32 (lit "servwxyz.cpu") (len (lit "servwxyz.cpu")) HASHLIB_SEED.
Proof.
  exact (murmur_block_collision_free (lit "serv") (lit ".cpu") (lit "abcd") (lit "wxyz")
    eq_refl eq_refl eq_refl ltac:(discriminate) ltac:(done)).
Defined.
