(* ===== verification/Hashring.v ===== *)
(** * hashring.c: the ring of virtual shards

    The ring stores, per shard, a pointer made by the client's [alloc]
    callback; several shards may hold the same pointer.  The two callbacks are
    the class [RingAlloc], over the client's state (the [alloc_data] of the C
    code); what the ring needs of them is the class [RingAllocLaws], against
    which its theorems are proved. *)
From S2P Require Import Prelude Sys SList Hashlib.

(** ** The client's callbacks *)

(** [hashring_alloc_func] and [hashring_dealloc_func]: objects are pointers of
    type [A], the state they work on is [St]. *)
Class RingAlloc (A St : Type) := {
  ra_alloc : bytes -> St -> M (option A * St);
  ra_dealloc : A -> St -> M St;
}.

(** ** The ring *)

(** [backends] is NULL when its allocation failed. *)
Record hashring (A : Type) := Hashring { backends : option (slist A) }.
Arguments Hashring {A} _.
Arguments backends {A} _.

Definition sizeof_hashring : Z := 32.

Section ops.
  Context `{OS} {A St : Type} `{EqDecision A} {RA : RingAlloc A St}.
  Implicit Types (ring : hashring A) (l : slist A) (st : St).

Definition hashring_init : M (option (hashring A)) :=
  ring ← malloc sizeof_hashring;
  match ring with
  | None => mret None
  | Some _ =>
      l ← statsrelay_list_new;
      mret (Some (Hashring l))
  end.

(** [line] is [None] for NULL. *)
Definition hashring_add ring (line : option bytes) st : M (bool * hashring A * St) :=
  match line with
  | None => mret (false, ring, st)
  | Some line =>
      '(obj, st) ← ra_alloc line st;
      match obj with
      | None => mret (false, ring, st)
      | Some obj =>
          l ← defined ring.(backends);
          '(r, l) ← statsrelay_list_expand l;
          match r with
          | None =>
              st ← ra_dealloc obj st;
              mret (false, Hashring (Some l), st)
          | Some _ =>
              l ← defined (list_set l (l.(lsize) - 1) obj);
              mret (true, Hashring (Some l), st)
          end
      end
  end.

Definition hashring_size (ring : option (hashring A)) : M Z :=
  match ring with
  | None => mret 0
  | Some ring => l ← defined ring.(backends); mret l.(lsize)
  end.

(** [key] is the memory the key pointer points to.  The result is NULL, or the
    backend and the shard number. *)
Definition hashring_choose (ring : option (hashring A)) (key : bytes) : M (option (A * Z)) :=
  match ring ≫= backends with
  | None => mret None
  | Some l =>
      let ring_size := l.(lsize) in
      if ring_size =? 0 then mret None else
      let key := cstr key in
      index ← defined (stats_hash key (wrap32 (len key)) (wrap32 ring_size));
      x ← defined (list_get l index);
      mret (Some (x, index))
  end.

(** The inner loop: is [data[i]] among [data[j]], ..., for the next [k]? *)
Fixpoint seen_before l (i j : Z) (k : nat) : M bool :=
  match k with
  | O => mret false
  | S k =>
      x ← defined (list_get l i);
      y ← defined (list_get l j);
      if decide (x = y) then mret true else seen_before l i (j + 1) k
  end.

(** The outer loop, from index [i] on, with [k] indices left. *)
Fixpoint dealloc_from l (i : Z) (k : nat) st : M St :=
  match k with
  | O => mret st
  | S k =>
      seen ← seen_before l i 0 (Z.to_nat i);
      st ← (if seen : bool then mret st else
            x ← defined (list_get l i);
            ra_dealloc x st);
      dealloc_from l (i + 1) k st
  end.

Definition hashring_dealloc (ring : option (hashring A)) st : M St :=
  match ring ≫= backends with
  | None => mret st
  | Some l =>
      st ← dealloc_from l 0 (Z.to_nat l.(lsize)) st;
      _ ← statsrelay_list_destroy l;
      mret st
  end.

(** The loop of [hashring_load_from_config] over the lines of the config. *)
Fixpoint load_lines (ring_cfg : slist (option bytes)) (i : Z) (k : nat) ring st
    : M (option (hashring A) * St) :=
  match k with
  | O => mret (Some ring, st)
  | S k =>
      line ← defined (list_get ring_cfg i);
      '(ok, ring, st) ← hashring_add ring line st;
      if ok : bool then load_lines ring_cfg (i + 1) k ring st else
      st ← hashring_dealloc (Some ring) st;
      mret (None, st)
  end.

Definition hashring_load_from_config (ring_cfg : slist (option bytes)) st
    : M (option (hashring A) * St) :=
  ring ← hashring_init;
  match ring with
  | None => mret (None, st)
  | Some ring => load_lines ring_cfg 0 (Z.to_nat ring_cfg.(lsize)) ring st
  end.
End ops.

(** ** Choosing a backend *)

(** The shard of a key in a ring of [n] shards. *)
Definition shard_of (key : bytes) (n : Z) : Z := murmur_ref key HASHLIB_SEED mod n.

(** A key as the program passes it: terminated, shorter than 2^32. *)
Definition key_ok (key : bytes) : Prop := (NUL ∉ key) /\ len key < 2 ^ 32.

Section choose.
Context {A : Type}.
Implicit Types (xs : list A) (key junk : bytes).

Lemma choose_spec l xs key junk tr :
  rep l xs -> 0 < len xs < 2 ^ 32 -> key_ok key ->
  exists b, xs !! Z.to_nat (shard_of key (len xs)) = Some b /\
    hashring_choose (Some (Hashring (Some l))) (key ++ NUL :: junk) tr =
      Some (Some (b, shard_of key (len xs)), tr).
Proof.
  intros Hrep Hn [Hnul Hk]. pose proof (len_nonneg key).
  destruct (stats_hash_eq key (len xs)) as [Hh Hb]; [lia|].
  destruct (lookup_lt_is_Some_2 xs (Z.to_nat (shard_of key (len xs)))) as [b Hx].
  { unfold shard_of. lens. }
  exists b. split; [done|]. unfold hashring_choose. simpl.
  rewrite (rep_size _ _ Hrep), (proj2 (Z.eqb_neq _ 0)), cstr_app_nul, !wrap32_small by (done || lia).
  rewrite Hh. unfold mbind, M_bind; simpl.
  rewrite (slist_get l xs) by done. fold (shard_of key (len xs)). by rewrite Hx.
Qed.

Lemma choose_lookup l xs key junk tr :
  rep l xs -> len xs < 2 ^ 32 -> key_ok key ->
  hashring_choose (Some (Hashring (Some l))) (key ++ NUL :: junk) tr =
    Some ((fun b => (b, shard_of key (len xs))) <$>
            (xs !! Z.to_nat (shard_of key (len xs))), tr).
Proof.
  intros Hrep Hn Hk. destruct (decide (xs = [])) as [->|Hne].
  - unfold hashring_choose; simpl. by rewrite (rep_size _ _ Hrep).
  - assert (0 < len xs) by (destruct xs; [done|lens]).
    destruct (choose_spec l xs key junk tr) as (b & Hb & ->); [done|lia|done|]. by rewrite Hb.
Qed.

(** C25. hashring.c: on a ring whose slots hold [xs], any key is sent to the
    backend of slot [hash(key) mod size], and that slot number is reported:
    the index is always in range, nothing is undefined, and an empty or NULL
    ring answers NULL. *)
Theorem hashring_choose_functional l xs key junk tr :
  rep l xs -> len xs < 2 ^ 32 -> key_ok key ->
  hashring_choose (Some (Hashring (Some l))) (key ++ NUL :: junk) tr =
    Some ((fun b => (b, shard_of key (len xs))) <$>
            (xs !! Z.to_nat (shard_of key (len xs))), tr) /\
  hashring_choose (None : option (hashring A)) (key ++ NUL :: junk) tr = Some (None, tr).
Proof.
  intros Hrep Hn Hk. split; [by apply choose_lookup|done].
Qed.

(** C26. Virtual sharding (README, "Scaling With Virtual Shards"): giving shard
    [j] of a ring to another backend moves exactly the keys of shard [j];
    every other key keeps its shard number and its backend. *)
Theorem hashring_reassign_one_shard l l' xs j b key junk tr :
  rep l xs -> rep l' (<[j := b]> xs) -> (j < length xs)%nat -> len xs < 2 ^ 32 -> key_ok key ->
  hashring_choose (Some (Hashring (Some l'))) (key ++ NUL :: junk) tr =
    if decide (shard_of key (len xs) = Z.of_nat j) then Some (Some (b, Z.of_nat j), tr)
    else hashring_choose (Some (Hashring (Some l))) (key ++ NUL :: junk) tr.
Proof.
  intros Hrep Hrep' Hj Hn Hk.
  assert (Hlen : len (<[j:=b]> xs) = len xs) by (unfold len; by rewrite length_insert).
  assert (0 < len xs) by lens.
  destruct (choose_spec l xs key junk tr) as (c & Hc & ->); [done|lia|done|].
  destruct (choose_spec l' (<[j:=b]> xs) key junk tr) as (c' & Hc' & ->); [done|lia|done|].
  rewrite Hlen in *.
  destruct (stats_hash_eq key (len xs)) as [_ Hb]; [lia|]. fold (shard_of key (len xs)) in Hb.
  case_decide as Hd.
  - rewrite Hd, Nat2Z.id, list_lookup_insert_eq in Hc' by done. injection Hc' as <-. by rewrite Hd.
  - rewrite list_lookup_insert_ne in Hc' by lia. congruence.
Qed.
End choose.

(** ** Destroying a ring *)

(** The elements of a list in order of first occurrence. *)
Fixpoint distinct_from {A} `{EqDecision A} (seen xs : list A) : list A :=
  match xs with
  | [] => []
  | x :: xs =>
      (if decide (x ∈ seen) then [] else [x]) ++ distinct_from (seen ++ [x]) xs
  end.

Definition distinct {A} `{EqDecision A} (xs : list A) : list A := distinct_from [] xs.

Fixpoint dealloc_all {A St} {RA : RingAlloc A St} (xs : list A) (st : St) : M St :=
  match xs with
  | [] => mret st
  | x :: xs => st ← ra_dealloc x st; dealloc_all xs st
  end.

Section dealloc.
Context {A St : Type} `{EqDecision A} {RA : RingAlloc A St}.
Implicit Types (xs seen : list A) (l : slist A) (st : St).

Lemma elem_of_distinct_from xs seen x :
  x ∈ distinct_from seen xs <-> x ∈ xs /\ x ∉ seen.
Proof.
  revert seen. induction xs as [|y xs IH]; intros seen; simpl; [set_solver|].
  rewrite elem_of_app, IH, !elem_of_app, !elem_of_cons, !elem_of_nil.
  case_decide; rewrite ?elem_of_nil, ?list_elem_of_singleton;
    destruct (decide (x = y)); naive_solver.
Qed.

Lemma NoDup_distinct_from xs seen : NoDup (distinct_from seen xs).
Proof.
  revert seen. induction xs as [|y xs IH]; intros seen; simpl; [by constructor|].
  case_decide; simpl; [apply IH|]. constructor; [|apply IH].
  rewrite elem_of_distinct_from. set_solver.
Qed.

Lemma seen_before_spec l xs x i j k tr :
  rep l xs -> xs !! Z.to_nat i = Some x -> 0 <= i -> 0 <= j -> j + Z.of_nat k <= len xs ->
  seen_before l i j k tr = Some (bool_decide (x ∈ take k (drop (Z.to_nat j) xs)), tr).
Proof.
  intros Hrep Hx Hi. revert j. induction k as [|k IH]; intros j Hj Hk; cbn [seen_before].
  { by rewrite take_0, bool_decide_false by apply not_elem_of_nil. }
  assert (Hy : is_Some (xs !! Z.to_nat j)) by (apply lookup_lt_is_Some_2; lens).
  destruct Hy as [y Hy]. pose proof (lookup_lt_Some _ _ _ Hx).
  rewrite !(slist_get l xs) by (done || lens). rewrite Hx, Hy.
  rewrite (drop_S xs y) by done. rewrite firstn_cons. unfold mbind, M_bind. cbn -[bool_decide].
  case_decide as Hxy.
  - subst. by rewrite bool_decide_true by (apply list_elem_of_here).
  - rewrite IH by lia. replace (Z.to_nat (j + 1)) with (S (Z.to_nat j)) by lia.
    do 2 f_equal. apply bool_decide_ext. rewrite elem_of_cons. naive_solver.
Qed.

Lemma dealloc_from_spec l xs i k st tr :
  rep l xs -> 0 <= i -> i + Z.of_nat k = len xs ->
  dealloc_from l i k st tr =
    dealloc_all (distinct_from (take (Z.to_nat i) xs) (drop (Z.to_nat i) xs)) st tr.
Proof.
  intros Hrep. revert i st tr. induction k as [|k IH]; intros i st tr Hi Hk; simpl.
  { by rewrite drop_ge by lens. }
  assert (Hx : is_Some (xs !! Z.to_nat i)) by (apply lookup_lt_is_Some_2; lens).
  destruct Hx as [x Hx]. unfold mbind at 1, M_bind at 1.
  rewrite (seen_before_spec l xs x) by (done || lia). rewrite drop_0.
  rewrite (drop_S xs x) by done. simpl. rewrite <- (take_S_r _ _ _ Hx).
  replace (S (Z.to_nat i)) with (Z.to_nat (i + 1)) by lia.
  case_bool_decide as Hseen.
  - rewrite decide_True by done. apply (IH (i + 1)); lia.
  - rewrite decide_False by done. simpl. rewrite (slist_get l xs), Hx by (done || lens).
    unfold mbind, M_bind; simpl. destruct (ra_dealloc x st tr) as [[st' tr']|]; [|done].
    apply (IH (i + 1)); lia.
Qed.

Lemma hashring_dealloc_eq l xs st tr :
  rep l xs ->
  hashring_dealloc (Some (Hashring (Some l))) st tr = dealloc_all (distinct xs) st tr.
Proof.
  intros Hrep. unfold hashring_dealloc; simpl. unfold mbind, M_bind.
  rewrite (dealloc_from_spec l xs); [|done|done|by rewrite (rep_size _ _ Hrep); lens].
  rewrite take_0. unfold distinct. by destruct (dealloc_all _ st tr) as [[??]|].
Qed.

(** C29. hashring.c: destroying a ring calls the client's [dealloc] exactly
    once for each distinct backend, in the order of first appearance, however
    many shards share it. *)
Theorem hashring_dealloc_once l xs st tr :
  rep l xs ->
  hashring_dealloc (Some (Hashring (Some l))) st tr = dealloc_all (distinct xs) st tr /\
  NoDup (distinct xs) /\ (forall x, x ∈ distinct xs <-> x ∈ xs).
Proof.
  intros Hrep. split_and!; [by apply hashring_dealloc_eq|apply NoDup_distinct_from|].
  intros x. unfold distinct. rewrite elem_of_distinct_from. set_solver.
Qed.
End dealloc.

(** ** What a ring calls

    Allocations, and what its client's callbacks call. *)

Section ring_calls.
Context `{OS} {A St : Type} `{EqDecision A} {RA : RingAlloc A St}.
Variables (P : call -> Prop) (R : St -> Prop).
Hypothesis malloc_call : forall n, P (Malloc n).
Hypothesis alloc_calls : forall line st, R st -> keeps P (fun p => R p.2) (ra_alloc line st).
Hypothesis dealloc_calls : forall x st, R st -> keeps P R (ra_dealloc x st).
Implicit Types (l : slist A) (ring : hashring A) (st : St).

Lemma keeps_dealloc_from l i k st : R st -> keeps P R (dealloc_from l i k st).
Proof.
  revert i st. induction k as [|k IH]; intros i st Hst; cbn [dealloc_from]; [by apply keeps_ret|].
  apply (keeps_bind _ (fun _ => True)).
  { generalize 0, (Z.to_nat i). intros j n. revert j. induction n as [|n IHn]; intros j; cbn [seen_before];
      [by apply keeps_ret|]. keeps_tac; [done|apply IHn]. }
  intros seen _. apply (keeps_bind _ R); [|by intros; apply IH].
  destruct seen; [by apply keeps_ret|]. apply keeps_defined. intros x _. by apply dealloc_calls.
Qed.

Lemma keeps_add ring line st : R st -> keeps P (fun p => R p.2) (hashring_add ring line st).
Proof.
  intros Hst. unfold hashring_add. destruct line as [line|]; [|by apply keeps_ret].
  eapply keeps_bind; [by apply alloc_calls|]. intros [[obj|] st1] Hst1; [|by apply keeps_ret].
  apply keeps_defined. intros l _. apply (keeps_bind _ (fun _ => True)).
  { unfold statsrelay_list_expand. keeps_auto. }
  intros [[i|] l1] _; [by keeps_tac|].
  eapply keeps_bind; [by apply dealloc_calls|]. intros; by apply keeps_ret.
Qed.

Lemma keeps_load cfg st : R st -> keeps P (fun p => R p.2) (hashring_load_from_config cfg st).
Proof.
  intros Hst. unfold hashring_load_from_config, hashring_init, statsrelay_list_new.
  apply (keeps_bind _ (fun _ => True)); [keeps_auto|]. intros [ring|] _; [|by apply keeps_ret].
  generalize 0, (Z.to_nat cfg.(lsize)). intros i k. revert i ring st Hst.
  induction k as [|k IH]; intros i ring st Hst; cbn [load_lines]; [by apply keeps_ret|].
  apply keeps_defined. intros line _. eapply keeps_bind; [by apply keeps_add|].
  intros [[ok ring1] st1] Hst1. cbn [snd] in Hst1. destruct ok; [by apply IH|].
  apply (keeps_bind _ R); [|by intros; apply keeps_ret].
  unfold hashring_dealloc. destruct (_ ≫= _); [|by apply keeps_ret].
  eapply keeps_bind; [by apply keeps_dealloc_from|]. intros. apply (keeps_bind _ (fun _ => True)); [by apply keeps_ret|]. intros. by apply keeps_ret.
Qed.
End ring_calls.

(** ** Loading a ring, against the interface of the callbacks *)

(** A line of the configuration: a C string, of less than 2^30 bytes. *)
Definition address_ok (line : bytes) : Prop := (NUL ∉ line) /\ len line < 2 ^ 30.

(** [owed xs st tr]: after the trace [tr], in the state [st], the objects [xs] are
    still to be deallocated. *)
Class RingDeallocLaws {A St} {RA : RingAlloc A St} (owed : list A -> St -> trace -> Prop)
    : Prop := {
  dealloc_law : forall x xs st tr, owed (x :: xs) st tr ->
    wp (ra_dealloc x st) (fun st' tr' => owed xs st' tr') tr;
}.

(** [built lines xs st tr]: after the trace [tr], in the state [st], [xs] are the
    objects made for [lines]. *)
Class RingAllocLaws {A St} `{OS} `{EqDecision A} {RA : RingAlloc A St}
    (built : list bytes -> list A -> St -> trace -> Prop)
    (owed : list A -> St -> trace -> Prop) : Prop := {
  alloc_law : forall lines xs line st tr, built lines xs st tr ->
    address_ok line -> len (lines ++ [line]) < 2 ^ 58 ->
    wp (ra_alloc line st) (fun p tr' =>
      match p.1 with
      | Some x => built (lines ++ [line]) (xs ++ [x]) p.2 tr'
      | None => built lines xs p.2 tr'
      end) tr;
  built_owed : forall lines xs st tr, built lines xs st tr -> owed (distinct xs) st tr;
  alloc_dealloc_laws :: RingDeallocLaws owed;
  built_malloc : forall lines xs st tr tr',
    grows is_malloc tr tr' -> built lines xs st tr -> built lines xs st tr';
}.

Section owing.
Context {A St : Type} `{EqDecision A} {RA : RingAlloc A St} `{!RingDeallocLaws owed}.
Implicit Types (xs : list A) (l : slist A) (st : St).

Lemma dealloc_all_spec xs st tr :
  owed xs st tr -> wp (dealloc_all xs st) (fun st' tr' => owed [] st' tr') tr.
Proof.
  revert st tr. induction xs as [|x xs IH]; intros st tr Ho; simpl; [by apply wp_ret|].
  apply wp_bind. eapply wp_mono; [by apply dealloc_law|]. eauto.
Qed.

Lemma dealloc_ring_owed l xs st tr :
  rep l xs -> owed (distinct xs) st tr ->
  wp (hashring_dealloc (Some (Hashring (Some l))) st) (fun st' tr' => owed [] st' tr') tr.
Proof. intros Hrep Ho. unfold wp. rewrite (hashring_dealloc_eq l xs st tr Hrep). by apply dealloc_all_spec. Qed.
End owing.

Section load.
Context `{OSLaws, !Plenty} {A St : Type} `{EqDecision A} {RA : RingAlloc A St}.
Context `{!RingAllocLaws (RA := RA) built owed}.
Implicit Types (xs : list A) (l : slist A) (st : St) (lines : list bytes).

(** What one line adds to a ring. *)
Definition ring_built ring lines st tr : Prop :=
  exists l xs, ring = Hashring (Some l) /\ rep l xs /\ built lines xs st tr /\
    length xs = length lines.

Lemma hashring_add_spec ring line lines st tr :
  ring_built ring lines st tr -> address_ok line -> len (lines ++ [line]) < 2 ^ 58 ->
  wp (hashring_add ring (Some line) st) (fun '(ok, ring', st') tr' =>
    ring_built ring' (if ok : bool then lines ++ [line] else lines) st' tr') tr.
Proof.
  intros (l & xs & -> & Hrep & Hb & Hlen) Hnul Hn. unfold hashring_add.
  apply wp_bind. eapply wp_mono; [by apply alloc_law|].
  intros [[x|] st'] tr' Hb'; simpl in Hb'; [|apply wp_ret; by exists l, xs].
  apply wp_bind, wp_ret, wp_bind.
  eapply wp_mono; [apply expand_slot; [done|lens]|].
  intros [r l'] tr'' (Hr & Hs & Hg & Hset). simpl in *; subst r. rewrite Hs.
  destruct (Hset x) as (l'' & -> & Hrep''). apply wp_bind, wp_ret, wp_ret.
  exists l'', (xs ++ [x]). rewrite !length_app. simpl.
  split_and!; [done..|by eapply built_malloc|lia].
Qed.

Lemma hashring_dealloc_spec ring lines st tr :
  ring_built ring lines st tr ->
  wp (hashring_dealloc (Some ring) st) (fun st' tr' => owed [] st' tr') tr.
Proof.
  intros (l & xs & -> & Hrep & Hb & _). eapply dealloc_ring_owed; [done|by eapply built_owed].
Qed.

(** What the caller of [hashring_load_from_config] gets. *)
Definition load_post lines (p : option (hashring A) * St) tr : Prop :=
  match p.1 with
  | Some ring => ring_built ring lines p.2 tr
  | None => owed [] p.2 tr
  end.

Lemma load_lines_spec cfg lines i k ring st tr :
  rep cfg (Some <$> lines) -> Forall address_ok lines ->
  len lines < 2 ^ 58 -> 0 <= i -> i + Z.of_nat k = len lines ->
  ring_built ring (take (Z.to_nat i) lines) st tr ->
  wp (load_lines cfg i k ring st) (fun p tr' => load_post lines p tr') tr.
Proof.
  intros Hcfg Hnul Hn. revert i ring st tr.
  induction k as [|k IH]; intros i ring st tr Hi Hk Hring; cbn [load_lines].
  { apply wp_ret. unfold load_post; simpl. by rewrite take_ge in Hring by lens. }
  destruct (lookup_lt_is_Some_2 lines (Z.to_nat i)) as [line Hline]; [lens|].
  rewrite (slist_get _ _ _ Hcfg), list_lookup_fmap, Hline
    by (unfold len; rewrite length_fmap; lens).
  apply wp_bind, wp_ret, wp_bind.
  rewrite Forall_forall in Hnul.
  eapply wp_mono; [apply hashring_add_spec;
    [done|by eapply Hnul, list_elem_of_lookup_2|lens]|].
  intros [[ok ring'] st'] tr' Hring'. destruct ok.
  - apply IH; [lia..|]. rewrite Z.add_1_r, Z2Nat.inj_succ by done.
    by rewrite (take_S_r _ _ line).
  - apply wp_bind. eapply wp_mono; [by eapply hashring_dealloc_spec|].
    intros st'' tr'' Ho. by apply wp_ret.
Qed.

Lemma load_from_config_spec cfg lines st tr :
  rep cfg (Some <$> lines) -> Forall address_ok lines ->
  len lines < 2 ^ 58 -> built [] [] st tr ->
  wp (hashring_load_from_config cfg st) (fun p tr' => load_post lines p tr') tr.
Proof.
  intros Hcfg Hnul Hn Hb. unfold hashring_load_from_config, hashring_init, statsrelay_list_new.
  apply wp_bind, wp_bind, wp_malloc_plenty; [done|]. intros c _.
  apply wp_bind, wp_bind, wp_malloc_plenty; [done|]. intros c' _.
  do 2 apply wp_ret. apply load_lines_spec; [done..| |].
  - rewrite (rep_size _ _ Hcfg). unfold len. rewrite length_fmap. lens.
  - rewrite take_0. exists (SList 0 0 None), []. split_and!; auto using rep_empty.
    eapply built_malloc; [|exact Hb]. etrans; by apply grows_one.
Qed.

(** When the client's [alloc] does not fail, neither does loading. *)
Section total.
Hypothesis alloc_total : forall lines xs line st tr, built lines xs st tr -> address_ok line ->
  wp (ra_alloc line st) (fun p _ => is_Some p.1) tr.

Lemma hashring_add_total ring line lines st tr :
  ring_built ring lines st tr -> address_ok line -> len (lines ++ [line]) < 2 ^ 58 ->
  wp (hashring_add ring (Some line) st) (fun p _ => p.1.1 = true) tr.
Proof.
  intros (l & xs & -> & Hrep & Hb & Hlen) Hline Hn. unfold hashring_add. apply wp_bind.
  eapply wp_mono; [by apply wp_conj; [eapply (alloc_law lines)|eapply alloc_total]|].
  intros [r st'] tr' [Hb' [x Hx]]. cbn [fst] in *. subst r. apply wp_bind, wp_ret, wp_bind.
  eapply wp_mono; [apply (expand_slot l xs); [done|lens]|]. intros [r l'] tr'' (Hr & Hs & _ & Hset).
  cbn [fst snd] in *. subst r. rewrite Hs. destruct (Hset x) as (l'' & -> & _). by apply wp_bind, wp_ret, wp_ret.
Qed.

Lemma load_lines_total cfg lines i k ring st tr :
  rep cfg (Some <$> lines) -> Forall address_ok lines ->
  len lines < 2 ^ 58 -> 0 <= i -> i + Z.of_nat k = len lines ->
  ring_built ring (take (Z.to_nat i) lines) st tr ->
  wp (load_lines cfg i k ring st) (fun p _ => is_Some p.1) tr.
Proof.
  intros Hcfg Hnul Hn. revert i ring st tr.
  induction k as [|k IH]; intros i ring st tr Hi Hk Hring; cbn [load_lines]; [by apply wp_ret|].
  destruct (lookup_lt_is_Some_2 lines (Z.to_nat i)) as [line Hline]; [lens|].
  rewrite (slist_get _ _ _ Hcfg), list_lookup_fmap, Hline
    by (unfold len; rewrite length_fmap; lens).
  apply wp_bind, wp_ret, wp_bind.
  assert (Hok : address_ok line) by (rewrite Forall_forall in Hnul; by eapply Hnul, list_elem_of_lookup_2).
  assert (Hsum : len (take (Z.to_nat i) lines ++ [line]) < 2 ^ 58) by lens.
  eapply wp_mono; [apply wp_conj; [by eapply hashring_add_spec|by eapply hashring_add_total]|].
  intros [[ok ring'] st'] tr' [Hring' Htrue]. cbn in Htrue. subst ok.
  apply IH; [lia..|]. rewrite Z.add_1_r, Z2Nat.inj_succ by done. by rewrite (take_S_r _ _ line).
Qed.

Lemma load_from_config_total cfg lines st tr :
  rep cfg (Some <$> lines) -> Forall address_ok lines ->
  len lines < 2 ^ 58 -> built [] [] st tr ->
  wp (hashring_load_from_config cfg st) (fun p _ => is_Some p.1) tr.
Proof.
  intros Hcfg Hnul Hn Hb. unfold hashring_load_from_config, hashring_init, statsrelay_list_new.
  apply wp_bind, wp_bind, wp_malloc_plenty; [done|]. intros c _.
  apply wp_bind, wp_bind, wp_malloc_plenty; [done|]. intros c' _.
  do 2 apply wp_ret. apply (load_lines_total cfg lines); [done..| |].
  - rewrite (rep_size _ _ Hcfg). unfold len. rewrite length_fmap. lens.
  - rewrite take_0. exists (SList 0 0 None), []. split_and!; auto using rep_empty.
    eapply built_malloc; [|exact Hb]. etrans; by apply grows_one.
Qed.
End total.

(** C28. hashring.c: loading a ring from the [lines] of a configuration makes
    one object per line, in order, with the client's [alloc], and slot [i] of
    the ring holds the object of line [i]; when a line is refused, every
    object made so far is deallocated once and NULL is returned.  Proved
    against the interface of the callbacks, when memory suffices. *)
Theorem hashring_load_builds cfg lines st tr :
  rep cfg (Some <$> lines) -> Forall address_ok lines ->
  len lines < 2 ^ 58 -> built [] [] st tr ->
  wp (hashring_load_from_config cfg st) (fun p tr' => load_post lines p tr') tr.
Proof. apply load_from_config_spec. Qed.
End load.

(** ** Examples *)

(** A ring of three slots, the first two of which share an object. *)
Definition demo_slots (x y z : nat) : slist nat := SList 4 3 (Some [Some x; Some y; Some z; None]).

Lemma demo_slots_rep x y z : rep (demo_slots x y z) [x; y; z].
Proof.
  split; [done|by exists [None]|right; exists 2; by split_and!|done].
Qed.

Lemma demo_key_ok : key_ok (lit "ab").
Proof. split; [by apply no_nul_lit|done]. Qed.

Lemma hashring_choose_functional_witness :
  hashring_choose (Some (Hashring (Some (demo_slots 5 5 6)))) (lit "ab" ++ [NUL; LF]) [] =
    Some ((fun b => (b, shard_of (lit "ab") 3)) <$>
            ([5; 5; 6]%nat !! Z.to_nat (shard_of (lit "ab") 3)), []).
Proof.
  exact (proj1 (hashring_choose_functional (demo_slots 5 5 6) [5; 5; 6]%nat (lit "ab") [LF] []
    (demo_slots_rep 5 5 6) ltac:(reflexivity) demo_key_ok)).
Defined.

Lemma hashring_reassign_one_shard_witness :
  hashring_choose (Some (Hashring (Some (demo_slots 5 9 6)))) (lit "ab" ++ [NUL; LF]) [] =
    if decide (shard_of (lit "ab") 3 = 1) then Some (Some (9%nat, 1), [])
    else hashring_choose (Some (Hashring (Some (demo_slots 5 5 6)))) (lit "ab" ++ [NUL; LF]) [].
Proof.
  exact (hashring_reassign_one_shard (demo_slots 5 5 6) (demo_slots 5 9 6) [5; 5; 6]%nat 1 9%nat
    (lit "ab") [LF] [] (demo_slots_rep 5 5 6) (demo_slots_rep 5 9 6) ltac:(simpl; lia)
    ltac:(reflexivity) demo_key_ok).
Defined.

(** Callbacks that record what they are called with. *)
Definition demo_alloc : RingAlloc nat (list nat) := {|
  ra_alloc := fun line st => mret (Some (length line), st);
  ra_dealloc := fun x st => mret (st ++ [x]);
|}.

Lemma hashring_dealloc_once_witness :
  hashring_dealloc (RA := demo_alloc) (Some (Hashring (Some (demo_slots 5 5 6)))) [] [] =
    dealloc_all (RA := demo_alloc) (distinct [5; 5; 6]%nat) [] [].
Proof.
  exact (proj1 (hashring_dealloc_once (RA := demo_alloc) (demo_slots 5 5 6) [5; 5; 6]%nat [] []
    (demo_slots_rep 5 5 6))).
Defined.
