(* ===== verification/Protocol.v ===== *)
(** * protocol.c: where the hash key of a line ends *)
From S2P Require Import Prelude.

(** [instr] is [None] for NULL; the result is [None] when the scan leaves the
    memory behind [instr]. *)
Definition simple_parse (instr : option bytes) (inlen : Z) (needle : char) : option Z :=
  match instr with
  | None => Some 0
  | Some s =>
      if inlen =? 0 then Some 0 else
      p ← memchr s 0 needle inlen;
      Some (default 0 p)
  end.

Definition protocol_parser_carbon (instr : option bytes) (inlen : Z) : option Z :=
  simple_parse instr inlen SPACE.

Definition protocol_parser_statsd (instr : option bytes) (inlen : Z) : option Z :=
  simple_parse instr inlen COLON.

(** The separator that ends the key of each protocol. *)
Definition key_length (sep : char) (line : bytes) : Z :=
  match index_of sep line with Some i => Z.of_nat i | None => 0 end.

Section spec.
Implicit Types (line junk : bytes) (sep : char).

Lemma simple_parse_spec line junk sep :
  simple_parse (Some (line ++ junk)) (len line) sep = Some (key_length sep line).
Proof.
  unfold simple_parse, key_length. destruct (Z.eqb_spec (len line) 0) as [Hz|_].
  - by rewrite (len_zero_nil line).
  - pose proof (memchr_in [] line junk sep) as Hm. rewrite len_nil in Hm.
    simpl app in Hm. rewrite Hm. simpl.
    by destruct (index_of sep line).
Qed.

(** The key of a line that has one: what stands before the first separator. *)
Lemma key_length_split line sep :
  0 < key_length sep line ->
  exists key rest, line = key ++ sep :: rest /\ len key = key_length sep line /\
    (sep ∉ key) /\ key <> [].
Proof.
  unfold key_length. destruct (index_of sep line) as [i|] eqn:Hi; [|lia].
  intros Hpos. destruct (index_of_split _ _ _ Hi) as (key & rest & -> & <- & Hn).
  exists key, rest. split_and!; [done|done|done|by destruct key].
Qed.

(** protocol.c: both parsers return the number of bytes before the first
    separator of the line (a space for carbon, a colon for statsd), which is
    0, their failure value, exactly when the line starts with the separator
    or does not hold it; they read nothing beyond the line. *)
Theorem protocol_parser_key line junk :
  protocol_parser_carbon (Some (line ++ junk)) (len line) = Some (key_length SPACE line) /\
  protocol_parser_statsd (Some (line ++ junk)) (len line) = Some (key_length COLON line) /\
  forall sep, key_length sep line = 0 <-> (sep ∉ line) \/ head line = Some sep.
Proof.
  split_and!; [apply simple_parse_spec..|]. intros sep. unfold key_length.
  destruct (index_of sep line) as [i|] eqn:Hi.
  - pose proof (proj1 (index_of_Some _ _ _) Hi) as [Hl Hn]. destruct i; simpl.
    + split; [|done]. intros _; right. by destruct line.
    + split; [lia|]. intros [Hno|Hh].
      * destruct Hno. by eapply list_elem_of_lookup_2.
      * destruct line; [done|]. injection Hh as ->. destruct Hn. apply list_elem_of_here.
  - split; [|done]. intros _; left. by apply index_of_None.
Qed.
End spec.
