(* ===== verification/Validate.v ===== *)
(** * validate.c: are lines well formed?

    [validate_statsd] works on a heap copy of the line, which it scans with
    [memchr] and writes to; the copy is the block of bytes [strndup] returns,
    and every access outside it is undefined.  [strtod] and [strncmp] are
    modelled as far as the code observes them. *)
From S2P Require Import Prelude Libc Sys.

(** ** The C library *)

(** A letter, compared without regard to case. *)
Definition is_letter (lower : char) (c : char) : bool :=
  (byte_val c =? byte_val lower) || (byte_val c =? byte_val lower - 32).

(** Does [strtod] convert a number at the start of the C string [s]?  After
    white space and a sign, that takes a digit, a point and a digit, or "inf"
    or "nan" in any case (C locale).  It returns 0 and leaves [err == start]
    exactly when it converts nothing. *)
Definition strtod_unsigned (s : bytes) : bool :=
  match s with
  | c :: s' =>
      isdigit c
      || (bool_decide (c = "."%char) && match s' with d :: _ => isdigit d | [] => false end)
      || match s' with
         | d :: e :: _ =>
             (is_letter "i" c && is_letter "n" d && is_letter "f" e)
             || (is_letter "n" c && is_letter "a" d && is_letter "n" e)
         | _ => false
         end
  | [] => false
  end.

Definition strtod_signed (s : bytes) : bool :=
  match s with
  | c :: s' => strtod_unsigned (if decide (c = "+"%char \/ c = "-"%char) then s' else s)
  | [] => false
  end.

Fixpoint strtod_converts (s : bytes) : bool :=
  match s with
  | c :: s' => if isspace c then strtod_converts s' else strtod_signed s
  | [] => false
  end.

(** [strndup(line, n)]: the copy, with its terminator; reading past the memory
    of [line] is undefined. *)
Definition strndup `{OS} (line : bytes) (n : Z) : M (option bytes) :=
  let s := take (Z.to_nat n) line in
  _ ← defined (if bool_decide (NUL ∈ s) || (n <=? len line) then Some () else None);
  p ← malloc (len (cstr s) + 1);
  mret (match p with None => None | Some _ => Some (cstr s ++ [NUL]) end).

(** [strncmp(a, b, n) == 0]. *)
Fixpoint strncmp_eq (n : nat) (a b : bytes) : option bool :=
  match n with
  | O => Some true
  | S n =>
      match a, b with
      | x :: a, y :: b =>
          if decide (x = y) then
            if decide (x = NUL) then Some true else strncmp_eq n a b
          else Some false
      | _, _ => None
      end
  end.

(** [p[i]] and [p[i] = c]. *)
Definition peek (blk : bytes) (i : Z) : option char := blk !! Z.to_nat i.

Definition poke (blk : bytes) (i : Z) (c : char) : option bytes :=
  if i <? len blk then Some (<[Z.to_nat i := c]> blk) else None.

(** The C string at offset [i]. *)
Definition cstr_at (blk : bytes) (i : Z) : bytes := cstr (drop (Z.to_nat i) blk).

(** ** The validators: 0 for a valid line, 1 for an invalid one *)

Definition valid_stat_types : list bytes :=
  [lit "c"; lit "ms"; lit "kv"; lit "g"; lit "h"; lit "s"].

(** The loop over [valid_stat_types]. *)
Fixpoint known_type (types : list bytes) (start : bytes) (plen : Z) : option bool :=
  match types with
  | [] => Some false
  | t :: types =>
      if negb (len t =? plen) then known_type types start plen else
      eq ← strncmp_eq (Z.to_nat plen) start (t ++ [NUL]);
      if eq : bool then Some true else known_type types start plen
  end.

Section validators.
  Context `{OS}.

(** The sample rate, once a second '|' was found at [end_]. *)
Definition validate_rate (blk : bytes) (end_ n : Z) : M Z :=
  at_sign ← (if 1 <? n - end_ then
               c ← defined (peek blk (end_ + 1)); mret (bool_decide (c = AT))
             else mret false);
  if negb at_sign then mret 1 else
  let start := end_ + 2 in
  let plen := n - start in
  if plen =? 0 then mret 1 else
  if negb (strtod_converts (cstr_at blk start)) then mret 1 else
  mret 0.

(** From the byte after the first '|' on: the type, and what follows it. *)
Definition validate_type (blk : bytes) (start n : Z) : M Z :=
  let plen := n - start in
  end_ ← defined (memchr blk start PIPE plen);
  '(c, blk, plen) ←
    match end_ with
    | None => mret (NUL, blk, plen)
    | Some e =>
        c ← defined (peek blk e);
        blk ← defined (poke blk e NUL);
        mret (c, blk, e - start)
    end;
  valid ← defined (known_type valid_stat_types (drop (Z.to_nat start) blk) plen);
  if negb valid then mret 1 else
  match end_ with
  | None => mret 0
  | Some e => blk ← defined (poke blk e c); validate_rate blk e n
  end.

Definition validate_statsd (line : bytes) (n : Z) : M Z :=
  line_copy ← strndup line n;
  blk ← defined line_copy;
  let start := 0 in
  end_ ← defined (memchr blk start COLON n);
  match end_ with
  | None => mret 1
  | Some end_ =>
      if end_ - start <? 1 then mret 1 else
      let start := end_ + 1 in
      let plen := n - start in
      c ← defined (peek blk end_);
      blk ← defined (poke blk end_ NUL);
      if negb (strtod_converts (cstr_at blk start)) then mret 1 else
      blk ← defined (poke blk end_ c);
      end_ ← defined (memchr blk start PIPE plen);
      match end_ with
      | None => mret 1
      | Some end_ =>
          validate_type blk (end_ + 1) n
      end
  end.
End validators.

(** The [while] loop of [validate_carbon]; it stops at the third space, so four
    rounds are enough. *)
Fixpoint carbon_spaces (fuel : nat) (line : bytes) (n0 p n spaces_found : Z) : option Z :=
  match fuel with
  | O => None
  | S fuel =>
      s ← memchr line p SPACE n;
      match s with
      | None => Some spaces_found
      | Some s =>
          let spaces_found := spaces_found + 1 in
          let n := n0 - s - 1 in
          let p := s + 1 in
          if 2 <? spaces_found then Some spaces_found
          else carbon_spaces fuel line n0 p n spaces_found
      end
  end.

Definition validate_carbon (line : bytes) (n : Z) : option Z :=
  spaces_found ← carbon_spaces 4 line n 0 n 0;
  if negb (spaces_found =? 2) then Some 1 else Some 0.

(** ** What a valid line is *)

(** key ":" value "|" type, or key ":" value "|" type "|@" rate, where a value
    and a rate start with a number. *)
Inductive statsd_line : bytes -> Prop :=
  | statsd_plain key v ty :
      key <> [] -> (COLON ∉ key) -> (PIPE ∉ v) -> strtod_converts v = true ->
      ty ∈ valid_stat_types ->
      statsd_line (key ++ COLON :: v ++ PIPE :: ty)
  | statsd_sampled key v ty rate :
      key <> [] -> (COLON ∉ key) -> (PIPE ∉ v) -> strtod_converts v = true ->
      ty ∈ valid_stat_types -> strtod_converts rate = true ->
      statsd_line (key ++ COLON :: v ++ PIPE :: ty ++ PIPE :: AT :: rate).

(** The same as a decision procedure on the bytes. *)
Definition known (ty : bytes) : bool := bool_decide (ty ∈ valid_stat_types).

Definition rate_ok (r : bytes) : bool :=
  match r with
  | c :: rate => bool_decide (c = AT) && strtod_converts rate
  | [] => false
  end.

Definition stat_ok (t : bytes) : bool :=
  match split_at PIPE t with
  | None => known t
  | Some (ty, r) => known ty && rate_ok r
  end.

Definition statsd_ok (l : bytes) : bool :=
  match split_at COLON l with
  | None => false
  | Some (key, rest) =>
      negb (bool_decide (key = [])) && strtod_converts rest &&
      match split_at PIPE rest with
      | None => false
      | Some (_, t) => stat_ok t
      end
  end.

Section grammar.
Implicit Types (l v t ty r : bytes).

(** A '|' is no part of a number. *)
Lemma strtod_unsigned_stop v t : strtod_unsigned (v ++ PIPE :: t) = strtod_unsigned v.
Proof.
  assert (Hd : isdigit PIPE = false) by done.
  assert (Hi : is_letter "i" PIPE = false) by done.
  assert (Hn : is_letter "n" PIPE = false) by done.
  assert (Hf : is_letter "f" PIPE = false) by done.
  assert (Ha : is_letter "a" PIPE = false) by done.
  unfold strtod_unsigned.
  destruct v as [|c [|d [|e v]]]; [destruct t as [|? []]|destruct t| |]; cbn [app];
    rewrite ?Hi, ?Hn, ?Hf, ?Ha, ?Hd, ?andb_false_r, ?andb_false_l, ?orb_false_r; done.
Qed.

Lemma strtod_stop v t : strtod_converts (v ++ PIPE :: t) = strtod_converts v.
Proof.
  induction v as [|c v IH]; [apply (strtod_unsigned_stop [])|]. cbn [app strtod_converts].
  rewrite IH. destruct (isspace c); [done|]. unfold strtod_signed. case_decide.
  - apply strtod_unsigned_stop.
  - apply (strtod_unsigned_stop (c :: v)).
Qed.

Lemma known_no_pipe ty : ty ∈ valid_stat_types -> PIPE ∉ ty.
Proof.
  intros Hty. assert (Hall : Forall (fun ty => PIPE ∉ ty) valid_stat_types)
    by (repeat constructor; vm_compute; set_solver).
  rewrite Forall_forall in Hall. by apply Hall.
Qed.

Lemma statsd_ok_iff l : statsd_ok l = true <-> statsd_line l.
Proof.
  split.
  - unfold statsd_ok. destruct (split_at COLON l) as [[key rest]|] eqn:Hl; [|done].
    apply split_at_Some in Hl as [-> Hkey].
    destruct (split_at PIPE rest) as [[v t]|] eqn:Hr; [|by rewrite andb_false_r].
    apply split_at_Some in Hr as [-> Hv]. rewrite strtod_stop.
    intros [[Hne Hnum]%andb_true_iff Ht]%andb_true_iff.
    apply negb_true_iff, bool_decide_eq_false in Hne. unfold stat_ok in Ht.
    destruct (split_at PIPE t) as [[ty r]|] eqn:Hs.
    + apply split_at_Some in Hs as [-> Hty]. apply andb_true_iff in Ht as [Hk Hrate].
      apply bool_decide_eq_true in Hk. destruct r as [|c rate]; [done|].
      apply andb_true_iff in Hrate as [->%bool_decide_eq_true ?]. by constructor.
    + apply bool_decide_eq_true in Ht. by constructor.
  - unfold statsd_ok, stat_ok. destruct 1 as [key v ty ???? Hty|key v ty rate ???? Hty ?].
    all: erewrite (proj2 (split_at_Some _ _ key _)) by done; rewrite strtod_stop.
    all: erewrite (proj2 (split_at_Some _ _ v _)) by done.
    all: rewrite (bool_decide_eq_false_2 (key = [])) by done.
    + rewrite (proj2 (split_at_None _ _)) by (by apply known_no_pipe).
      unfold known. rewrite bool_decide_eq_true_2 by done. by apply andb_true_iff.
    + erewrite (proj2 (split_at_Some _ _ ty _)) by (split; [done|by apply known_no_pipe]).
      unfold known, rate_ok. rewrite !bool_decide_eq_true_2 by done. simpl. by apply andb_true_iff.
Qed.
End grammar.

(** ** The scans of the code compute the decision procedures *)

Section blocks.
Implicit Types (pre mid post ty r l : bytes) (c : char).

Lemma peek_at pre c post i : i = len pre -> peek (pre ++ c :: post) i = Some c.
Proof. intros ->. unfold peek. rewrite len_to_nat. by apply list_lookup_middle. Qed.

Lemma poke_at pre c post i x :
  i = len pre -> poke (pre ++ c :: post) i x = Some (pre ++ x :: post).
Proof.
  intros ->. unfold poke. rewrite (proj2 (Z.ltb_lt _ _)) by lens.
  rewrite len_to_nat, insert_app_r_alt, Nat.sub_diag by lia. done.
Qed.

Lemma cstr_at_end pre mid i :
  i = len pre -> NUL ∉ mid -> cstr_at (pre ++ mid ++ [NUL]) i = mid.
Proof.
  intros -> Hn. unfold cstr_at. rewrite len_to_nat, drop_app_length. by apply cstr_app_nul.
Qed.

Lemma memchr_at pre mid post c i n :
  i = len pre -> n = len mid ->
  memchr (pre ++ mid ++ post) i c n = Some ((fun p => len pre + len p.1) <$> split_at c mid).
Proof.
  intros -> ->. rewrite memchr_in. f_equal.
  destruct (split_at c mid) as [[l1 l2]|] eqn:Hs.
  - by rewrite (split_at_index _ _ _ _ Hs).
  - apply split_at_None, index_of_None in Hs. by rewrite Hs.
Qed.

(** The comparison with one name of the table. *)
Lemma strncmp_spec ty (t post : bytes) :
  length t = length ty -> NUL ∉ ty ->
  strncmp_eq (length ty) (ty ++ post) (t ++ [NUL]) = Some (bool_decide (ty = t)).
Proof.
  revert t. induction ty as [|x ty IH]; intros [|y t] Hlen Hn; try done.
  apply not_elem_of_cons in Hn as [Hx Hn]. simpl. case_decide as Hxy.
  - subst. rewrite decide_False by done. rewrite IH by (done || simpl in Hlen; lia).
    f_equal. apply bool_decide_ext. naive_solver.
  - symmetry. f_equal. apply bool_decide_eq_false_2. naive_solver.
Qed.

Lemma known_type_spec types ty post :
  NUL ∉ ty -> known_type types (ty ++ post) (len ty) = Some (bool_decide (ty ∈ types)).
Proof.
  intros Hn. induction types as [|t types IH]; cbn [known_type].
  { done. }
  destruct (Z.eqb_spec (len t) (len ty)) as [Hlen|Hlen]; simpl negb; cbv iota.
  - rewrite len_to_nat, strncmp_spec by (done || lens). simpl.
    destruct (decide (ty = t)) as [->|Hne].
    + rewrite !bool_decide_eq_true_2 by (done || apply list_elem_of_here). done.
    + rewrite (bool_decide_eq_false_2 (ty = t)), IH by done.
      f_equal. apply bool_decide_ext. rewrite elem_of_cons. naive_solver.
  - rewrite IH. f_equal. apply bool_decide_ext. rewrite elem_of_cons. naive_solver.
Qed.

(** The part after a second '|'. *)
Lemma validate_rate_spec `{OS} pre r tr :
  NUL ∉ r ->
  validate_rate (pre ++ PIPE :: r ++ [NUL]) (len pre) (len pre + 1 + len r) tr =
    Some (if rate_ok r then 0 else 1, tr).
Proof.
  intros Hn. unfold validate_rate. pose proof (len_nonneg r).
  destruct r as [|c rate].
  { rewrite (proj2 (Z.ltb_ge _ _)) by (rewrite len_nil; lia). done. }
  rewrite (proj2 (Z.ltb_lt _ _)) by (rewrite len_cons; pose proof (len_nonneg rate); lia).
  change (pre ++ PIPE :: (c :: rate) ++ [NUL]) with (pre ++ ([PIPE] ++ (c :: (rate ++ [NUL])))).
  rewrite app_assoc, (peek_at _ c) by lens.
  unfold mbind, M_bind; cbn [defined mret M_ret rate_ok].
  case_bool_decide as Hc; simpl negb; cbv iota; [|done]. subst c.
  apply not_elem_of_cons in Hn as [_ Hn].
  replace (len pre + 1 + len (AT :: rate) - (len pre + 2)) with (len rate) by lens.
  destruct (Z.eqb_spec (len rate) 0) as [Hz|_]; [by rewrite (len_zero_nil rate)|].
  change (AT :: rate ++ [NUL]) with ([AT] ++ rate ++ [NUL]).
  rewrite app_assoc, cstr_at_end by (done || lens).
  simpl. by destruct (strtod_converts rate).
Qed.
End blocks.

Section statsd.
Context `{OS}.
Implicit Types (pre post key v t ty r l junk : bytes).

Lemma validate_type_spec pre t tr :
  NUL ∉ t ->
  validate_type (pre ++ t ++ [NUL]) (len pre) (len pre + len t) tr =
    Some (if stat_ok t then 0 else 1, tr).
Proof.
  intros Hn. unfold validate_type, stat_ok. rewrite memchr_at by (done || lia).
  destruct (split_at PIPE t) as [[ty r]|] eqn:Hs; cbn [fmap option_fmap option_map fst].
  - apply split_at_Some in Hs as [-> _].
    apply not_elem_of_app in Hn as [Hty [_ Hr]%not_elem_of_cons].
    rewrite <- app_assoc. simpl app. rewrite (app_assoc pre ty).
    unfold mbind, M_bind. cbn [defined mret M_ret].
    rewrite peek_at, poke_at by lens. cbn [defined mret M_ret].
    rewrite len_to_nat, <- app_assoc, drop_app_length.
    replace (len pre + len ty - len pre) with (len ty) by lia.
    rewrite known_type_spec by done. cbn [defined mret M_ret]. fold (known ty).
    destruct (known ty); simpl; [|done]. rewrite app_assoc, poke_at by lens.
    cbn [defined mret M_ret]. rewrite <- len_app.
    replace (len pre + len (ty ++ PIPE :: r)) with (len (pre ++ ty) + 1 + len r) by lens.
    by apply validate_rate_spec.
  - unfold mbind, M_bind. cbn [defined mret M_ret].
    replace (len pre + len t - len pre) with (len t) by lia.
    rewrite len_to_nat, drop_app_length, known_type_spec by done.
    cbn [defined mret M_ret]. fold (known t). by destruct (known t).
Qed.

Lemma strndup_spec l junk tr :
  NUL ∉ l -> is_Some (os tr (Malloc (len l + 1))) ->
  strndup (l ++ junk) (len l) tr = Some (Some (l ++ [NUL]), tr ++ [Malloc (len l + 1)]).
Proof.
  intros Hn [g Hg]. unfold strndup. rewrite len_to_nat, take_app_length.
  rewrite (proj2 (Z.leb_le _ _)), orb_true_r by lens.
  rewrite cstr_id by done. unfold malloc, sys, mbind, M_bind. cbn [defined mret M_ret].
  by rewrite Hg.
Qed.

Lemma validate_statsd_ok l junk tr :
  NUL ∉ l -> is_Some (os tr (Malloc (len l + 1))) ->
  validate_statsd (l ++ junk) (len l) tr =
    Some (if statsd_ok l then 0 else 1, tr ++ [Malloc (len l + 1)]).
Proof.
  intros Hn Hm. unfold validate_statsd, statsd_ok, mbind, M_bind at 1.
  rewrite strndup_spec by done. unfold M_bind at 1. cbn [defined mret M_ret].
  unfold M_bind at 1. change (l ++ [NUL]) with ([] ++ l ++ [NUL]) at 1.
  rewrite memchr_at by done. cbn [defined mret M_ret].
  destruct (split_at COLON l) as [[key rest]|] eqn:Hs; cbn [fmap option_fmap option_map fst]; [|done].
  apply split_at_Some in Hs as [-> _].
  rewrite len_nil, Z.add_0_l, Z.sub_0_r.
  destruct (decide (key = [])) as [->|Hne]; [done|].
  assert (0 < len key) by (destruct key; [done|lens]).
  rewrite (proj2 (Z.ltb_ge _ _)), (bool_decide_eq_false_2 (key = [])) by (done || lia).
  apply not_elem_of_app in Hn as [Hkey [_ Hrest]%not_elem_of_cons].
  rewrite <- app_assoc. cbn [app]. unfold M_bind at 1. rewrite peek_at by done.
  cbn [defined mret M_ret]. unfold M_bind at 1. rewrite poke_at by done.
  cbn [defined mret M_ret].
  change (NUL :: rest ++ [NUL]) with ([NUL] ++ rest ++ [NUL]).
  rewrite app_assoc, cstr_at_end by (done || lens). cbn [negb andb].
  destruct (strtod_converts rest); cbn [negb andb]; [|done].
  rewrite <- app_assoc. cbn [app]. unfold M_bind at 1. rewrite poke_at by done.
  cbn [defined mret M_ret]. unfold M_bind at 1.
  change (COLON :: rest ++ [NUL]) with ([COLON] ++ rest ++ [NUL]). rewrite app_assoc.
  rewrite memchr_at by lens. cbn [defined mret M_ret].
  destruct (split_at PIPE rest) as [[v t]|] eqn:Hs; cbn [fmap option_fmap option_map fst]; [|done].
  apply split_at_Some in Hs as [-> _]. apply not_elem_of_app in Hrest as [_ [_ Ht]%not_elem_of_cons].
  pose proof (validate_type_spec ((key ++ [COLON]) ++ v ++ [PIPE]) t
    (tr ++ [Malloc (len (key ++ COLON :: v ++ PIPE :: t) + 1)]) Ht) as Htype.
  replace (len ((key ++ [COLON]) ++ v ++ [PIPE])) with (len (key ++ [COLON]) + len v + 1)
    in Htype by lens.
  replace (len (key ++ [COLON]) + len v + 1 + len t)
    with (len (key ++ COLON :: v ++ PIPE :: t)) in Htype by lens.
  rewrite <- Htype.
  replace (((key ++ [COLON]) ++ v ++ [PIPE]) ++ t ++ [NUL])
    with ((key ++ [COLON]) ++ (v ++ PIPE :: t) ++ [NUL]) by (by simplify_list_eq). done.
Qed.

(** The validator allocates, and calls nothing else. *)
Lemma keeps_validate_statsd line n : keeps is_malloc (fun _ => True) (validate_statsd line n).
Proof.
  unfold validate_statsd, strndup, validate_type, validate_rate. keeps_auto.
Qed.
End statsd.

Section carbon.
Implicit Types (line : bytes).

Lemma carbon_spaces_spec fuel line n p k :
  0 <= p <= n -> n <= len line -> 0 <= k <= 2 -> (3 - Z.to_nat k < fuel)%nat ->
  carbon_spaces fuel line n p (n - p) k =
    Some (Z.min 3 (k + Z.of_nat (occurrences SPACE
      (drop (Z.to_nat p) (take (Z.to_nat n) line))))).
Proof.
  revert p k. induction fuel as [|fuel IH]; intros p k Hp Hn Hk Hf; [lia|].
  cbn [carbon_spaces]. unfold memchr.
  rewrite firstn_skipn_comm. replace (Z.to_nat p + Z.to_nat (n - p))%nat with (Z.to_nat n) by lia.
  set (rest := drop (Z.to_nat p) (take (Z.to_nat n) line)).
  destruct (index_of SPACE rest) as [i|] eqn:Hi; cbn [mbind option_bind].
  - destruct (index_of_split _ _ _ Hi) as (l1 & l2 & Hrest & Hl1 & Hno).
    assert (Hlen : (length rest = Z.to_nat n - Z.to_nat p)%nat).
    { unfold rest. rewrite length_drop, length_take. lens. }
    rewrite Hrest, length_app in Hlen. simpl in Hlen.
    rewrite Hrest, occurrences_app, occurrences_zero by done. simpl.
    destruct (Z.ltb_spec 2 (k + 1)); [f_equal; lia|].
    replace (n - (p + Z.of_nat i) - 1) with (n - (p + Z.of_nat i + 1)) by lia.
    rewrite IH by lia.
    replace (Z.to_nat (p + Z.of_nat i + 1)) with (Z.to_nat p + S i)%nat by lia.
    rewrite <- drop_drop. fold rest. rewrite Hrest, <- Hl1.
    rewrite drop_app_ge, Nat.sub_succ_l, Nat.sub_diag by lia. simpl. rewrite ?drop_0. f_equal. lia.
  - apply index_of_None in Hi. rewrite (proj2 (Z.leb_le _ _)) by lia. cbn [mbind option_bind].
    rewrite occurrences_zero by done. f_equal. lia.
Qed.

Lemma validate_carbon_spec (line junk : bytes) :
  validate_carbon (line ++ junk) (len line) =
    Some (if decide (occurrences SPACE line = 2%nat) then 0 else 1).
Proof.
  unfold validate_carbon. pose proof (len_nonneg line).
  pose proof (carbon_spaces_spec 4 (line ++ junk) (len line) 0 0) as Hspec.
  rewrite Z.sub_0_r in Hspec. rewrite Hspec; [|lia|lens|lia|simpl; lia].
  cbn [mbind option_bind]. rewrite drop_0, len_to_nat, take_app_length.
  case_decide; destruct (Z.eqb_spec (Z.min 3 (0 + Z.of_nat (occurrences SPACE line))) 2);
    simpl; done || lia.
Qed.
End carbon.

(** validate.c: a carbon line is accepted exactly when it holds two
    spaces, wherever they stand; the scan stays inside the line. *)
Theorem validate_carbon_two_spaces (line junk : bytes) :
  validate_carbon (line ++ junk) (len line) =
    Some (if decide (occurrences SPACE line = 2%nat) then 0 else 1).
Proof. apply validate_carbon_spec. Qed.

(** C37. validate.c decides the statsd grammar: for every line without a NUL
    byte, [validate_statsd] terminates without undefined behaviour, allocates
    one copy of the line, and returns 0 exactly on the lines
    [key:value|type] and [key:value|type|@rate], and 1 on all others. *)
Theorem validate_statsd_decides `{OS} (l junk : bytes) tr :
  NUL ∉ l -> is_Some (os tr (Malloc (len l + 1))) ->
  exists r, validate_statsd (l ++ junk) (len l) tr = Some (r, tr ++ [Malloc (len l + 1)]) /\
    (r = 0 \/ r = 1) /\ (r = 0 <-> statsd_line l).
Proof.
  intros Hn Hm. eexists. split; [by apply validate_statsd_ok|].
  rewrite <- statsd_ok_iff. destruct (statsd_ok l); naive_solver.
Qed.

Lemma validate_statsd_decides_witness :
  let l := lit "foo.bar:1.5|ms|@0.1" in
  (NUL ∉ l) /\ statsd_line l /\
  exists r, @validate_statsd quiet_os (l ++ lit "x") (len l) []
    = Some (r, [Malloc (len l + 1)]) /\ (r = 0 \/ r = 1) /\ (r = 0 <-> statsd_line l).
Proof.
  intros l. assert (Hn : NUL ∉ l) by (apply (bool_decide_unpack _); vm_compute; exact I).
  split; [exact Hn|split; [apply statsd_ok_iff; vm_compute; reflexivity|]].
  exact (@validate_statsd_decides quiet_os l (lit "x") [] Hn ltac:(by vm_compute; eauto)).
Defined.

(** Where validate.c is undefined: a NUL byte in a line makes [strndup]
    copy less than [len] bytes, and the scan for a second '|' then reads past
    the copy; and a failed [strndup] is scanned through a NULL pointer. *)
Theorem validate_statsd_overread :
  let line := lit "a:1|c" ++ [NUL] ++ lit "x" in
  @validate_statsd quiet_os line (len line) [] = None /\
  @validate_statsd oom_os (lit "a:1|c") 5 [] = None.
Proof. by vm_compute. Qed.
