(* ===== verification/YamlConfig.v ===== *)
(** * yaml_config.c: the configuration parser

    libyaml is a third-party library: what it delivers is the list of events
    given to [parse_loop], and the end of that list is the failure of
    [yaml_parser_parse].  The loop body is [parse_event], on the record
    [pstate] of the local variables of [parse_config]. *)
From S2P Require Import Prelude Libc Sys SList.

(** ** Data *)

Record proto_config := ProtoConfig {
  initialized : bool;
  bind : option bytes;            (* None: NULL *)
  enable_validation : bool;
  enable_tcp_cork : bool;
  cfg_always_resolve_dns : bool;
  max_send_queue : Z;
  ring : option (slist (option bytes));
}.

Record config := Config {
  statsd_config : proto_config;
  carbon_config : proto_config;
}.

(** [yaml_event_type_t], with the value of a scalar. *)
Inductive yaml_event :=
  | YAML_NO_EVENT
  | YAML_STREAM_START_EVENT
  | YAML_STREAM_END_EVENT
  | YAML_DOCUMENT_START_EVENT
  | YAML_DOCUMENT_END_EVENT
  | YAML_ALIAS_EVENT
  | YAML_SCALAR_EVENT (value : bytes)
  | YAML_SEQUENCE_START_EVENT
  | YAML_SEQUENCE_END_EVENT
  | YAML_MAPPING_START_EVENT
  | YAML_MAPPING_END_EVENT.

(** Which [proto_config] the pointer [protoc] designates. *)
Inductive section := Carbon | Statsd.

#[export] Instance section_eq_dec : EqDecision section.
Proof. solve_decision. Defined.

(** The locals of [parse_config].  [shard_count] and [map_nesting] are [int]s:
    changing them is [int_add], undefined when it overflows. *)
Record pstate := PState {
  cfg : config;
  protoc : option section;        (* None: NULL *)
  shard_count : Z;
  map_nesting : Z;
  in_document : bool;
  is_key : bool;
  update_bind : bool;
  update_send_queue : bool;
  update_validate : bool;
  update_tcp_cork : bool;
  always_resolve_dns : bool;
  expect_shard_map : bool;
}.

(** How an event ends: next round, leave the loop, [goto parse_err]. *)
Inductive outcome :=
  | Continue (s : pstate)
  | Done (s : pstate)
  | ParseErr (s : pstate).

(** ** Field updates *)

Definition set_cfg c s := PState c s.(protoc) s.(shard_count) s.(map_nesting) s.(in_document)
  s.(is_key) s.(update_bind) s.(update_send_queue) s.(update_validate) s.(update_tcp_cork)
  s.(always_resolve_dns) s.(expect_shard_map).
Definition set_protoc x s := PState s.(cfg) x s.(shard_count) s.(map_nesting) s.(in_document)
  s.(is_key) s.(update_bind) s.(update_send_queue) s.(update_validate) s.(update_tcp_cork)
  s.(always_resolve_dns) s.(expect_shard_map).
Definition set_shard_count x s := PState s.(cfg) s.(protoc) x s.(map_nesting) s.(in_document)
  s.(is_key) s.(update_bind) s.(update_send_queue) s.(update_validate) s.(update_tcp_cork)
  s.(always_resolve_dns) s.(expect_shard_map).
Definition set_nesting x s := PState s.(cfg) s.(protoc) s.(shard_count) x s.(in_document)
  s.(is_key) s.(update_bind) s.(update_send_queue) s.(update_validate) s.(update_tcp_cork)
  s.(always_resolve_dns) s.(expect_shard_map).
Definition set_in_document x s := PState s.(cfg) s.(protoc) s.(shard_count) s.(map_nesting) x
  s.(is_key) s.(update_bind) s.(update_send_queue) s.(update_validate) s.(update_tcp_cork)
  s.(always_resolve_dns) s.(expect_shard_map).
Definition set_is_key x s := PState s.(cfg) s.(protoc) s.(shard_count) s.(map_nesting)
  s.(in_document) x s.(update_bind) s.(update_send_queue) s.(update_validate) s.(update_tcp_cork)
  s.(always_resolve_dns) s.(expect_shard_map).
Definition set_update_bind x s := PState s.(cfg) s.(protoc) s.(shard_count) s.(map_nesting)
  s.(in_document) s.(is_key) x s.(update_send_queue) s.(update_validate) s.(update_tcp_cork)
  s.(always_resolve_dns) s.(expect_shard_map).
Definition set_update_send_queue x s := PState s.(cfg) s.(protoc) s.(shard_count) s.(map_nesting)
  s.(in_document) s.(is_key) s.(update_bind) x s.(update_validate) s.(update_tcp_cork)
  s.(always_resolve_dns) s.(expect_shard_map).
Definition set_update_validate x s := PState s.(cfg) s.(protoc) s.(shard_count) s.(map_nesting)
  s.(in_document) s.(is_key) s.(update_bind) s.(update_send_queue) x s.(update_tcp_cork)
  s.(always_resolve_dns) s.(expect_shard_map).
Definition set_update_tcp_cork x s := PState s.(cfg) s.(protoc) s.(shard_count) s.(map_nesting)
  s.(in_document) s.(is_key) s.(update_bind) s.(update_send_queue) s.(update_validate) x
  s.(always_resolve_dns) s.(expect_shard_map).
Definition set_always_resolve_dns x s := PState s.(cfg) s.(protoc) s.(shard_count) s.(map_nesting)
  s.(in_document) s.(is_key) s.(update_bind) s.(update_send_queue) s.(update_validate)
  s.(update_tcp_cork) x s.(expect_shard_map).
Definition set_expect_shard_map x s := PState s.(cfg) s.(protoc) s.(shard_count) s.(map_nesting)
  s.(in_document) s.(is_key) s.(update_bind) s.(update_send_queue) s.(update_validate)
  s.(update_tcp_cork) s.(always_resolve_dns) x.

Definition pc_initialized x p := ProtoConfig x p.(bind) p.(enable_validation) p.(enable_tcp_cork)
  p.(cfg_always_resolve_dns) p.(max_send_queue) p.(ring).
Definition pc_bind x p := ProtoConfig p.(initialized) x p.(enable_validation) p.(enable_tcp_cork)
  p.(cfg_always_resolve_dns) p.(max_send_queue) p.(ring).
Definition pc_validation x p := ProtoConfig p.(initialized) p.(bind) x p.(enable_tcp_cork)
  p.(cfg_always_resolve_dns) p.(max_send_queue) p.(ring).
Definition pc_tcp_cork x p := ProtoConfig p.(initialized) p.(bind) p.(enable_validation) x
  p.(cfg_always_resolve_dns) p.(max_send_queue) p.(ring).
Definition pc_resolve x p := ProtoConfig p.(initialized) p.(bind) p.(enable_validation)
  p.(enable_tcp_cork) x p.(max_send_queue) p.(ring).
Definition pc_send_queue x p := ProtoConfig p.(initialized) p.(bind) p.(enable_validation)
  p.(enable_tcp_cork) p.(cfg_always_resolve_dns) x p.(ring).
Definition pc_ring x p := ProtoConfig p.(initialized) p.(bind) p.(enable_validation)
  p.(enable_tcp_cork) p.(cfg_always_resolve_dns) p.(max_send_queue) x.

Definition get_section (sec : section) (c : config) : proto_config :=
  match sec with Carbon => c.(carbon_config) | Statsd => c.(statsd_config) end.

Definition set_section (sec : section) (p : proto_config) (c : config) : config :=
  match sec with
  | Carbon => Config c.(statsd_config) p
  | Statsd => Config p c.(carbon_config)
  end.

(** [protoc->field = ...]: undefined through a NULL [protoc]. *)
Definition update_protoc (f : proto_config -> proto_config) (s : pstate) : option pstate :=
  sec ← s.(protoc);
  Some (set_cfg (set_section sec (f (get_section sec s.(cfg))) s.(cfg)) s).

(** ** The code *)

(** The number, and whether [str] really was one. *)
Definition convert_number (str : bytes) : Z * bool := strtol str.

(** [None] when the value is neither "true" nor "false". *)
Definition set_boolean (strval : bytes) : option bool :=
  if decide (strval = lit "true") then Some true
  else if decide (strval = lit "false") then Some false
  else None.

Section code.
Context `{OS}.

(** [strdup]. *)
Definition strdup (s : bytes) : M (option bytes) :=
  p ← malloc (len s + 1);
  mret (match p with None => None | Some _ => Some s end).

Definition init_proto_config : M proto_config :=
  r ← statsrelay_list_new;
  mret (ProtoConfig false None true true false 134217728 r).

(** Scalar at nesting 1: the name of a section. *)
Definition scalar_section (strval : bytes) (s : pstate) : M outcome :=
  if decide (strval = lit "carbon") then
    mret (Continue (set_protoc (Some Carbon)
      (set_cfg (set_section Carbon (pc_initialized true (get_section Carbon s.(cfg))) s.(cfg)) s)))
  else if decide (strval = lit "statsd") then
    mret (Continue (set_protoc (Some Statsd)
      (set_cfg (set_section Statsd (pc_initialized true (get_section Statsd s.(cfg))) s.(cfg)) s)))
  else mret (ParseErr s).

(** Scalar at nesting 2, as a key. *)
Definition scalar_key (strval : bytes) (s : pstate) : pstate :=
  if decide (strval = lit "bind") then set_update_bind true s
  else if decide (strval = lit "max_send_queue") then set_update_send_queue true s
  else if decide (strval = lit "shard_map") then
    set_expect_shard_map true (set_shard_count (-1) s)
  else if decide (strval = lit "validate") then set_update_validate true s
  else if decide (strval = lit "tcp_cork") then set_update_tcp_cork true s
  else if decide (strval = lit "always_resolve_dns") then set_always_resolve_dns true s
  else s.

(** Scalar at nesting 2, as a value. *)
Definition scalar_value (strval : bytes) (s : pstate) : M outcome :=
  if s.(update_bind) then
    _ ← defined s.(protoc);
    d ← strdup strval;
    s ← defined (update_protoc (pc_bind d) s);
    mret (Continue (set_update_bind false s))
  else if s.(update_send_queue) then
    s ← defined (update_protoc (pc_send_queue (wrap64 (convert_number strval).1)) s);
    mret (Continue (set_update_send_queue false s))
  else if s.(update_validate) then
    match set_boolean strval with
    | None => mret (ParseErr s)
    | Some b =>
        s ← defined (update_protoc (pc_validation b) s);
        mret (Continue (set_update_validate false s))
    end
  else if s.(update_tcp_cork) then
    match set_boolean strval with
    | None => mret (ParseErr s)
    | Some b =>
        s ← defined (update_protoc (pc_tcp_cork b) s);
        mret (Continue (set_update_tcp_cork false s))
    end
  else if s.(always_resolve_dns) then
    match set_boolean strval with
    | None => mret (ParseErr s)
    | Some b =>
        s ← defined (update_protoc (pc_resolve b) s);
        mret (Continue s)
    end
  else mret (Continue s).

(** Scalar at nesting 3: the number of a shard, or its backend. *)
Definition scalar_shard (strval : bytes) (s : pstate) : M outcome :=
  if negb s.(expect_shard_map) then mret (ParseErr s)
  else if s.(is_key) then
    let '(numval, ok) := convert_number strval in
    if negb ok then mret (ParseErr s) else
    count ← defined (int_add s.(shard_count) 1);
    let s := set_shard_count count s in
    if negb (numval =? s.(shard_count)) then mret (ParseErr s) else mret (Continue s)
  else
    sec ← defined s.(protoc);
    l ← defined (get_section sec s.(cfg)).(ring);
    '(r, l) ← statsrelay_list_expand l;
    s ← defined (update_protoc (pc_ring (Some l)) s);
    match r with
    | None => mret (ParseErr s)
    | Some _ =>
        d ← strdup strval;
        l ← defined (list_set l (l.(lsize) - 1) d);
        s ← defined (update_protoc (pc_ring (Some l)) s);
        mret (match d with None => ParseErr s | Some _ => Continue s end)
    end.

Definition parse_scalar (strval : bytes) (s : pstate) : M outcome :=
  r ← (if s.(map_nesting) =? 0 then mret (ParseErr s)
       else if s.(map_nesting) =? 1 then scalar_section strval s
       else if s.(map_nesting) =? 2 then
         if s.(is_key) then mret (Continue (scalar_key strval s)) else scalar_value strval s
       else if s.(map_nesting) =? 3 then scalar_shard strval s
       else mret (Continue s));
  mret (match r with Continue s => Continue (set_is_key (negb s.(is_key)) s) | r => r end).

(** The [switch] on the type of the event. *)
Definition parse_event (event : yaml_event) (s : pstate) : M outcome :=
  match event with
  | YAML_NO_EVENT | YAML_STREAM_START_EVENT => mret (Continue s)
  | YAML_STREAM_END_EVENT => mret (Done s)
  | YAML_DOCUMENT_START_EVENT =>
      mret (if s.(in_document) then ParseErr s else Continue (set_in_document true s))
  | YAML_DOCUMENT_END_EVENT => mret (Continue (set_in_document false s))
  | YAML_SEQUENCE_START_EVENT | YAML_SEQUENCE_END_EVENT => mret (ParseErr s)
  | YAML_MAPPING_START_EVENT =>
      nesting ← defined (int_add s.(map_nesting) 1);
      mret (Continue (set_nesting nesting (set_is_key true s)))
  | YAML_MAPPING_END_EVENT =>
      nesting ← defined (int_add s.(map_nesting) (-1));
      mret (Continue (set_nesting nesting s))
  | YAML_ALIAS_EVENT => mret (ParseErr s)
  | YAML_SCALAR_EVENT value => parse_scalar (cstr value) s
  end.

Fixpoint parse_loop (events : list yaml_event) (s : pstate) : M outcome :=
  match events with
  | [] => mret (ParseErr s)
  | event :: events =>
      r ← parse_event event s;
      match r with
      | Continue s => parse_loop events s
      | r => mret r
      end
  end.

Definition destroy_config (c : config) : M unit :=
  l ← defined c.(carbon_config).(ring);
  _ ← statsrelay_list_destroy_full l;
  l ← defined c.(statsd_config).(ring);
  _ ← statsrelay_list_destroy_full l;
  mret ().

(** [sizeof(struct config)]. *)
Definition sizeof_config : Z := 80.

(** [init_ok] is the result of [yaml_parser_initialize]; when it fails, the
    event deleted at [parse_err] was never assigned. *)
Definition parse_config (init_ok : bool) (events : list yaml_event) : M (option config) :=
  p ← malloc sizeof_config;
  match p with
  | None => mret None
  | Some _ =>
      carbon ← init_proto_config;
      match carbon.(ring) with
      | None => mret None
      | Some _ =>
          b ← strdup (lit "127.0.0.1:2003");
          let carbon := pc_bind b carbon in
          statsd ← init_proto_config;
          b ← strdup (lit "127.0.0.1:8125");
          let statsd := pc_bind b statsd in
          let c := Config statsd carbon in
          if negb init_ok then _ ← destroy_config c; ub else
          r ← parse_loop events
                (PState c None (-1) 0 false false false false false false false false);
          match r with
          | Done s => mret (Some s.(cfg))
          | Continue s | ParseErr s => _ ← destroy_config s.(cfg); mret None
          end
      end
  end.
End code.

(** ** Running the loop *)

Section run.
Context `{OS}.
Implicit Types (s : pstate) (es : list yaml_event) (Q : outcome -> trace -> Prop).

Lemma loop_cons e es s Q tr :
  wp (parse_event e s) (fun r tr' =>
    match r with
    | Continue s' => wp (parse_loop es s') Q tr'
    | r => Q r tr'
    end) tr ->
  wp (parse_loop (e :: es) s) Q tr.
Proof.
  intros Hwp. cbn [parse_loop]. apply wp_bind. eapply wp_mono; [exact Hwp|].
  intros [s'|s'|s'] tr' HQ; [exact HQ|by apply wp_ret..].
Qed.

(** A scalar without NUL bytes that [parse_scalar] takes to a known state. *)
Lemma loop_scalar v es s s' Q tr :
  NUL ∉ v -> parse_scalar v s tr = Some (Continue s', tr) ->
  wp (parse_loop es s') Q tr -> wp (parse_loop (YAML_SCALAR_EVENT v :: es) s) Q tr.
Proof.
  intros Hn Hp Hwp. apply loop_cons. cbn [parse_event]. rewrite cstr_id by done.
  eapply wp_run; [exact Hp|exact Hwp].
Qed.
End run.

(** ** Printing a configuration *)

(** The settings of one section, as a user writes them. *)
Record settings := Settings {
  st_bind : bytes;
  st_validate : bool;
  st_tcp_cork : bool;
  st_resolve : bool;
  st_max_queue : Z;
  st_shards : list bytes;
}.

Definition bool_lit (b : bool) : bytes := if b then lit "true" else lit "false".

Definition section_name (sec : section) : bytes :=
  match sec with Carbon => lit "carbon" | Statsd => lit "statsd" end.

Abbreviation S_ v := (YAML_SCALAR_EVENT v).

Fixpoint shard_events (i : Z) (lines : list bytes) : list yaml_event :=
  match lines with
  | [] => []
  | line :: lines => S_ (print_dec i) :: S_ line :: shard_events (i + 1) lines
  end.

Definition section_events (sec : section) (x : settings) : list yaml_event :=
  [S_ (section_name sec); YAML_MAPPING_START_EVENT;
   S_ (lit "bind"); S_ x.(st_bind);
   S_ (lit "validate"); S_ (bool_lit x.(st_validate));
   S_ (lit "tcp_cork"); S_ (bool_lit x.(st_tcp_cork));
   S_ (lit "max_send_queue"); S_ (print_dec x.(st_max_queue));
   S_ (lit "always_resolve_dns"); S_ (bool_lit x.(st_resolve));
   S_ (lit "shard_map"); YAML_MAPPING_START_EVENT]
  ++ shard_events 0 x.(st_shards)
  ++ [YAML_MAPPING_END_EVENT; YAML_MAPPING_END_EVENT].

Definition config_events (carbon statsd : settings) : list yaml_event :=
  [YAML_STREAM_START_EVENT; YAML_DOCUMENT_START_EVENT; YAML_MAPPING_START_EVENT]
  ++ section_events Carbon carbon ++ section_events Statsd statsd
  ++ [YAML_MAPPING_END_EVENT; YAML_DOCUMENT_END_EVENT; YAML_STREAM_END_EVENT].

(** The strings are C strings and the numbers are in range. *)
Record settings_ok (x : settings) : Prop := {
  ok_bind : NUL ∉ x.(st_bind);
  ok_queue : 0 <= x.(st_max_queue) <= LONG_MAX;
  ok_shards : Forall (fun line => NUL ∉ line) x.(st_shards);
  ok_length : len x.(st_shards) <= 2 ^ 31;   (* [shard_count] is an [int] *)
  ok_sizes : Forall (fun line => len line < 2 ^ 62) (x.(st_bind) :: x.(st_shards));
}.

(** What the parser makes of them. *)
Definition configured (p : proto_config) (x : settings) : Prop :=
  exists l, rep l (Some <$> x.(st_shards)) /\
    p = ProtoConfig true (Some x.(st_bind)) x.(st_validate) x.(st_tcp_cork) x.(st_resolve)
          x.(st_max_queue) (Some l).

Lemma print_dec_no_nul z : 0 <= z -> NUL ∉ print_dec z.
Proof.
  intros Hz Hin. destruct (print_dec_spec z Hz) as (_ & Hds & _).
  rewrite Forall_forall in Hds. by specialize (Hds _ Hin).
Qed.

(** The state inside section [sec], before a key. *)
Definition in_section (c : config) (sec : section) (count : Z) (rd esm : bool) : pstate :=
  PState c (Some sec) count 2 true true false false false false rd esm.

(** The state inside its shard map, [count] shards in. *)
Definition in_shards (c : config) (sec : section) (count : Z) (rd : bool) : pstate :=
  PState c (Some sec) count 3 true true false false false false rd true.

Section roundtrip.
Context `{OSLaws, !Plenty}.
Implicit Types (c : config) (sec : section) (es : list yaml_event)
  (Q : outcome -> trace -> Prop).

Definition edit sec (f : proto_config -> proto_config) c : config :=
  set_section sec (f (get_section sec c)) c.

Lemma get_set_section sec p c : get_section sec (set_section sec p c) = p.
Proof. by destruct sec. Qed.

Lemma set_set_section sec p q c : set_section sec p (set_section sec q c) = set_section sec p c.
Proof. by destruct sec. Qed.

Lemma wp_strdup v (Q : option bytes -> trace -> Prop) tr :
  len v < 2 ^ 62 -> (forall tr', Q (Some v) tr') -> wp (strdup v) Q tr.
Proof.
  intros Hv HQ. unfold strdup. apply wp_bind, wp_malloc_plenty; [pose proof (len_nonneg v); lia|].
  intros ? _. apply wp_ret, HQ.
Qed.

Lemma option_bind b c sec count rd esm es Q tr :
  NUL ∉ b -> len b < 2 ^ 62 ->
  (forall tr', wp (parse_loop es (in_section (edit sec (pc_bind (Some b)) c) sec count rd esm)) Q tr') ->
  wp (parse_loop (S_ (lit "bind") :: S_ b :: es) (in_section c sec count rd esm)) Q tr.
Proof.
  intros Hn Hb Hwp. eapply loop_scalar; [by apply no_nul_lit|reflexivity|].
  apply loop_cons. cbn [parse_event]. rewrite cstr_id by done. unfold parse_scalar; simpl.
  apply wp_bind. unfold scalar_value; simpl. do 2 (apply wp_bind, wp_ret || apply wp_bind).
  apply wp_strdup; [done|]. intros tr'. exact (Hwp tr').
Qed.

Lemma option_validate b c sec count rd esm es Q tr :
  wp (parse_loop es (in_section (edit sec (pc_validation b) c) sec count rd esm)) Q tr ->
  wp (parse_loop (S_ (lit "validate") :: S_ (bool_lit b) :: es)
    (in_section c sec count rd esm)) Q tr.
Proof.
  intros Hwp. eapply loop_scalar; [by apply no_nul_lit|reflexivity|].
  by destruct b; (eapply loop_scalar; [by apply no_nul_lit|reflexivity|]).
Qed.

Lemma option_tcp_cork b c sec count rd esm es Q tr :
  wp (parse_loop es (in_section (edit sec (pc_tcp_cork b) c) sec count rd esm)) Q tr ->
  wp (parse_loop (S_ (lit "tcp_cork") :: S_ (bool_lit b) :: es)
    (in_section c sec count rd esm)) Q tr.
Proof.
  intros Hwp. eapply loop_scalar; [by apply no_nul_lit|reflexivity|].
  by destruct b; (eapply loop_scalar; [by apply no_nul_lit|reflexivity|]).
Qed.

Lemma option_resolve b c sec count rd esm es Q tr :
  wp (parse_loop es (in_section (edit sec (pc_resolve b) c) sec count true esm)) Q tr ->
  wp (parse_loop (S_ (lit "always_resolve_dns") :: S_ (bool_lit b) :: es)
    (in_section c sec count rd esm)) Q tr.
Proof.
  intros Hwp. eapply loop_scalar; [by apply no_nul_lit|reflexivity|].
  by destruct b; (eapply loop_scalar; [by apply no_nul_lit|reflexivity|]).
Qed.

Lemma option_queue q c sec count rd esm es Q tr :
  0 <= q <= LONG_MAX ->
  wp (parse_loop es (in_section (edit sec (pc_send_queue q) c) sec count rd esm)) Q tr ->
  wp (parse_loop (S_ (lit "max_send_queue") :: S_ (print_dec q) :: es)
    (in_section c sec count rd esm)) Q tr.
Proof.
  intros Hq Hwp. eapply loop_scalar; [by apply no_nul_lit|reflexivity|].
  eapply loop_scalar; [by apply print_dec_no_nul; lia| |exact Hwp].
  unfold parse_scalar; simpl. unfold scalar_value, convert_number; simpl.
  rewrite strtol_print_dec, wrap64_small by (unfold LONG_MAX in *; simpl; lia). done.
Qed.

Lemma edit_edit sec f g c : edit sec f (edit sec g c) = edit sec (fun p => f (g p)) c.
Proof. by destruct sec. Qed.

Lemma edit_id sec f c : f (get_section sec c) = get_section sec c -> edit sec f c = c.
Proof. unfold edit. intros ->. by destruct sec, c. Qed.

Lemma pc_ring_id p l : p.(ring) = Some l -> pc_ring (Some l) p = p.
Proof. destruct p; simpl. by intros ->. Qed.

(** One entry of a shard map appends its backend to the ring. *)
Lemma shard_entry i line l xs c sec rd es Q tr :
  0 <= i <= INT_MAX -> NUL ∉ line -> len line < 2 ^ 62 ->
  (get_section sec c).(ring) = Some l -> rep l xs -> len xs < 2 ^ 58 ->
  (forall l' tr', rep l' (xs ++ [Some line]) ->
     wp (parse_loop es (in_shards (edit sec (pc_ring (Some l')) c) sec i rd)) Q tr') ->
  wp (parse_loop (S_ (print_dec i) :: S_ line :: es) (in_shards c sec (i - 1) rd)) Q tr.
Proof.
  intros Hi Hn Hlen Hring Hrep Hxs Hwp.
  eapply loop_scalar; [by apply print_dec_no_nul; lia| |].
  { unfold parse_scalar; simpl. unfold scalar_shard, convert_number; simpl.
    rewrite strtol_print_dec by (unfold INT_MAX, LONG_MAX in *; lia).
    rewrite int_add_Some by (unfold INT_MIN; lia).
    rewrite Z.sub_add. simpl. unfold mbind, M_bind. simpl. rewrite Z.eqb_refl. reflexivity. }
  apply loop_cons. cbn [parse_event]. rewrite cstr_id by done.
  unfold parse_scalar; cbn -[scalar_shard set_is_key]. apply wp_bind.
  unfold scalar_shard; cbn -[statsrelay_list_expand strdup list_set].
  apply wp_bind, wp_ret. rewrite Hring. apply wp_bind, wp_ret, wp_bind.
  eapply wp_mono; [by apply expand_slot|].
  intros [r l1] tr1 (Hr & Hs & _ & Hset). cbn in Hr, Hs, Hset; subst r.
  apply wp_bind, wp_ret, wp_bind, wp_strdup; [done|]. intros tr2. rewrite Hs.
  destruct (Hset (Some line)) as (l2 & -> & Hrep2). apply wp_bind, wp_ret, wp_bind, wp_ret, wp_ret.
  apply wp_ret. specialize (Hwp l2 tr2 Hrep2). by destruct sec.
Qed.

Lemma shards_loop lines done l c sec rd es Q tr :
  Forall (fun line => NUL ∉ line) lines -> Forall (fun line => len line < 2 ^ 62) lines ->
  (get_section sec c).(ring) = Some l -> rep l (Some <$> done) -> len (done ++ lines) <= 2 ^ 31 ->
  (forall l' tr', rep l' (Some <$> (done ++ lines)) ->
     wp (parse_loop es (in_shards (edit sec (pc_ring (Some l')) c) sec
       (len (done ++ lines) - 1) rd)) Q tr') ->
  wp (parse_loop (shard_events (len done) lines ++ es) (in_shards c sec (len done - 1) rd)) Q tr.
Proof.
  intros Hn Hl. revert done l c tr Hl. induction Hn as [|line lines Hn Hns IH];
    intros done l c tr Hl Hring Hrep Hlen Hwp.
  - rewrite app_nil_r in Hwp. specialize (Hwp l tr Hrep).
    by rewrite edit_id in Hwp by (by apply pc_ring_id).
  - apply Forall_cons in Hl as [Hl Hls].
    cbn [shard_events app]. pose proof (len_nonneg done). pose proof (len_nonneg lines).
    rewrite len_app, len_cons in Hlen.
    assert (Hf : len (Some <$> done) = len done) by (unfold len; by rewrite length_fmap).
    apply (shard_entry (len done) line l (Some <$> done)); try done;
      [unfold INT_MAX; lia|rewrite Hf; lia|].
    intros l' tr' Hrep'.
    assert (Hd : len (done ++ [line]) = len done + 1) by lens.
    rewrite <- Hd. replace (len done) with (len (done ++ [line]) - 1) by lia.
    replace ((Some <$> done) ++ [Some line]) with (Some <$> (done ++ [line])) in Hrep'
      by (by rewrite fmap_app).
    eapply IH; [done|unfold edit; by rewrite get_set_section|done
               |rewrite !len_app, len_cons, len_nil; lia|].
    intros l'' tr''. rewrite <- app_assoc. intros Hrep''. rewrite edit_edit. by apply Hwp.
Qed.

(** The state between two sections. *)
Definition at_top (c : config) (p : option section) (count : Z) (rd esm : bool) : pstate :=
  PState c p count 1 true true false false false false rd esm.

Definition section_of (x : settings) (l : slist (option bytes)) : proto_config :=
  ProtoConfig true (Some x.(st_bind)) x.(st_validate) x.(st_tcp_cork) x.(st_resolve)
    x.(st_max_queue) (Some l).

Lemma section_loop sec x c l p count rd esm es Q tr :
  settings_ok x -> (get_section sec c).(ring) = Some l -> rep l [] ->
  (forall l' tr', rep l' (Some <$> x.(st_shards)) ->
     wp (parse_loop es (at_top (set_section sec (section_of x l') c) (Some sec)
       (len x.(st_shards) - 1) true true)) Q tr') ->
  wp (parse_loop (section_events sec x ++ es) (at_top c p count rd esm)) Q tr.
Proof.
  intros [Hb Hq Hs Hlen Hsz] Hring Hrep Hwp. apply Forall_cons in Hsz as [Hbl Hsl].
  cbn [section_events app]. rewrite <- !app_assoc. cbn [app].
  apply loop_scalar with (s' := set_is_key false
    (at_top (edit sec (pc_initialized true) c) (Some sec) count rd esm));
    [destruct sec; by apply no_nul_lit|by destruct sec|].
  apply loop_cons, wp_ret. apply option_bind; [done..|intros tr1].
  apply option_validate, option_tcp_cork, option_queue; [done|]. apply option_resolve.
  eapply loop_scalar; [by apply no_nul_lit|reflexivity|]. apply loop_cons, wp_ret.
  apply (shards_loop x.(st_shards) []) with (l := l); [done..| |done|done|].
  { destruct sec, c; exact Hring. }
  intros l' tr' Hrep'. cbn [app] in *. do 2 apply loop_cons, wp_ret.
  specialize (Hwp l' tr' Hrep'). by destruct sec, c.
Qed.

Lemma wp_list_new {A} (Q : option (slist A) -> trace -> Prop) tr :
  (forall l tr', rep l (@nil A) -> Q (Some l) tr') -> wp statsrelay_list_new Q tr.
Proof.
  intros HQ. apply wp_bind, wp_malloc_plenty; [done|]. intros ? _.
  apply wp_ret, HQ, rep_empty.
Qed.

Lemma wp_init_proto_config (Q : proto_config -> trace -> Prop) tr :
  (forall l tr', rep l [] -> Q (ProtoConfig false None true true false 134217728 (Some l)) tr') ->
  wp init_proto_config Q tr.
Proof. intros HQ. apply wp_bind, wp_list_new. intros l tr' Hl. by apply wp_ret, HQ. Qed.

Lemma parse_rendered carbon statsd tr :
  settings_ok carbon -> settings_ok statsd ->
  wp (parse_config true (config_events carbon statsd)) (fun r _ =>
    exists c, r = Some c /\ configured c.(carbon_config) carbon /\
      configured c.(statsd_config) statsd) tr.
Proof.
  intros Hc Hs. unfold parse_config.
  apply wp_bind, wp_malloc_plenty; [done|]. intros _ _.
  apply wp_bind, wp_init_proto_config. intros lc tr1 Hlc.
  apply wp_bind, wp_strdup; [done|]. intros tr2.
  apply wp_bind, wp_init_proto_config. intros ls tr3 Hls.
  apply wp_bind, wp_strdup; [done|]. intros tr4. cbn [negb].
  apply wp_bind. unfold config_events. cbn [app]. do 3 (apply loop_cons, wp_ret).
  apply (section_loop Carbon carbon) with (l := lc); [done..|]. intros lc' tr5 Hlc'.
  apply (section_loop Statsd statsd) with (l := ls); [done..|]. intros ls' tr6 Hls'.
  do 3 (apply loop_cons, wp_ret). apply wp_ret. eexists; split; [done|].
  split; eexists; (split; [eassumption|done]).
Qed.

(** C12. Configurations round-trip: for every pair of sections whose strings are
    C strings and whose queue limits are numbers, the parser, run on the events
    of the file that spells them out, is not undefined, accepts the file, and
    returns a configuration with exactly those settings, the shards of the ring
    in their order, when no allocation fails. *)
Theorem parse_config_roundtrip carbon statsd tr :
  settings_ok carbon -> settings_ok statsd ->
  wp (parse_config true (config_events carbon statsd)) (fun r _ =>
    exists c, r = Some c /\ configured c.(carbon_config) carbon /\
      configured c.(statsd_config) statsd) tr.
Proof. by apply parse_rendered. Qed.
End roundtrip.

Lemma parse_config_roundtrip_witness :
  let carbon := Settings (lit "127.0.0.1:2004") true false true 1024
                  [lit "127.0.0.1:2000"; lit "127.0.0.1:2001:tcp"] in
  let statsd := Settings (lit "127.0.0.1:8126") false true false 0 [lit "127.0.0.1:3000"] in
  settings_ok carbon /\ settings_ok statsd /\
  @wp _ (@parse_config quiet_os true (config_events carbon statsd)) (fun r _ =>
    exists c, r = Some c /\ configured c.(carbon_config) carbon /\
      configured c.(statsd_config) statsd) [].
Proof.
  intros carbon statsd.
  assert (Hc : settings_ok carbon).
  { split; simpl; [|done|repeat constructor|done|repeat constructor];
      by apply (bool_decide_unpack _); vm_compute. }
  assert (Hs : settings_ok statsd).
  { split; simpl; [|done|repeat constructor|done|repeat constructor];
      by apply (bool_decide_unpack _); vm_compute. }
  split; [exact Hc|split; [exact Hs|]].
  exact (@parse_config_roundtrip quiet_os quiet_laws quiet_plenty carbon statsd [] Hc Hs).
Defined.

(** ** Refusals and oddities *)

Section oddities.
Context `{OS}.

(** The keys that [scalar_key] knows. *)
Definition known_key (k : bytes) : bool :=
  bool_decide (k ∈ lit <$> ["bind"; "max_send_queue"; "shard_map"; "validate"; "tcp_cork";
                            "always_resolve_dns"]%string).

Lemma scalar_key_unknown k s : known_key k = false -> scalar_key k s = s.
Proof.
  unfold known_key. intros Hk%bool_decide_eq_false. unfold scalar_key.
  repeat (rewrite decide_False by (intros ->; apply Hk; set_solver)). done.
Qed.

Lemma loop_two k v es s s1 r tr :
  NUL ∉ k -> NUL ∉ v -> parse_scalar k s tr = Some (Continue s1, tr) ->
  parse_scalar v s1 tr = Some (r, tr) ->
  parse_loop (S_ k :: S_ v :: es) s tr =
    match r with Continue s2 => parse_loop es s2 tr | r => Some (r, tr) end.
Proof.
  intros Hk Hv H1 H2. cbn [parse_loop parse_event]. rewrite !cstr_id by done.
  unfold mbind, M_bind. rewrite H1, H2. by destruct r.
Qed.

(** The flag [always_resolve_dns] of the parser is never cleared.  Before that
    option has been seen, a key the parser does not know is skipped with its
    value; after it, the same unknown key is no longer skipped: a value that
    is not a boolean makes the whole file be refused, and a boolean value
    silently becomes the value of [always_resolve_dns]. *)
Theorem parse_resolve_flag_sticky k v c sec count rd esm es tr :
  NUL ∉ k -> NUL ∉ v -> known_key k = false ->
  parse_loop (S_ k :: S_ v :: es) (in_section c sec count rd esm) tr =
  if rd then
    match set_boolean v with
    | None => Some (ParseErr (set_is_key false (in_section c sec count rd esm)), tr)
    | Some b => parse_loop es (in_section (edit sec (pc_resolve b) c) sec count rd esm) tr
    end
  else parse_loop es (in_section c sec count rd esm) tr.
Proof.
  intros Hk Hv Hu.
  assert (Hkey : parse_scalar k (in_section c sec count rd esm) tr
    = Some (Continue (set_is_key false (in_section c sec count rd esm)), tr)).
  { unfold parse_scalar; cbn -[scalar_key]. by rewrite scalar_key_unknown. }
  destruct rd; [destruct (set_boolean v) as [b|] eqn:Hb|].
  1: rewrite (loop_two _ _ _ _ _ (Continue (in_section (edit sec (pc_resolve b) c) sec count true esm)) _
       Hk Hv Hkey); [done|].
  2: rewrite (loop_two _ _ _ _ _ (ParseErr (set_is_key false (in_section c sec count true esm))) _
       Hk Hv Hkey); [done|].
  3: rewrite (loop_two _ _ _ _ _ (Continue (in_section c sec count false esm)) _
       Hk Hv Hkey); [done|].
  all: unfold parse_scalar, scalar_value; cbn -[set_boolean]; rewrite ?Hb; reflexivity.
Qed.

(** The shards of a map must be numbered from 0 in order: a shard key that
    is not the number after the last one, or is not a number at all, makes the
    parser refuse the file. *)
Theorem parse_shard_order k es c sec count rd tr :
  NUL ∉ k -> INT_MIN <= count + 1 <= INT_MAX -> convert_number k <> (count + 1, true) ->
  exists s, parse_loop (S_ k :: es) (in_shards c sec count rd) tr = Some (ParseErr s, tr).
Proof.
  intros Hk Hc Hne. cbn [parse_loop parse_event]. rewrite cstr_id by done.
  unfold parse_scalar; cbn -[scalar_shard]. unfold scalar_shard; cbn -[convert_number].
  destruct (convert_number k) as [z [|]]; [|by eexists].
  rewrite int_add_Some by done. unfold mbind, M_bind. cbn. destruct (Z.eqb_spec z (count + 1)) as [->|]; [done|by eexists].
Qed.

(** A [max_send_queue] that is not a number is reported but still stored:
    the limit becomes 0, with which no line is ever queued. *)
Theorem parse_queue_not_a_number v c sec count rd esm es tr :
  NUL ∉ v -> (convert_number v).2 = false ->
  parse_loop (S_ (lit "max_send_queue") :: S_ v :: es) (in_section c sec count rd esm) tr =
  parse_loop es (in_section (edit sec (pc_send_queue 0) c) sec count rd esm) tr.
Proof.
  intros Hv Hn.
  pose proof (strtol_no_digits v Hn : (convert_number v).1 = 0) as Hz.
  erewrite (loop_two _ _ _ _ _
    (Continue (in_section (edit sec (pc_send_queue 0) c) sec count rd esm)));
    [done|by apply no_nul_lit|done|reflexivity|].
  unfold parse_scalar, scalar_value; cbn -[convert_number]. by rewrite Hz.
Qed.
End oddities.

(** A mapping used as a key puts the parser at the depth of the options
    before any section was named: the first option that is stored goes through
    the NULL [protoc] pointer. *)
Theorem parse_config_null_section :
  @parse_config quiet_os true
    [YAML_STREAM_START_EVENT; YAML_DOCUMENT_START_EVENT; YAML_MAPPING_START_EVENT;
     YAML_MAPPING_START_EVENT; S_ (lit "bind"); S_ (lit "127.0.0.1:2003")] [] = None.
Proof. by vm_compute. Qed.

(** A configuration for the examples. *)
Definition demo_parsed : config :=
  let p := ProtoConfig true None true false false 9 None in Config p p.

Lemma parse_resolve_flag_sticky_witness :
  known_key (lit "no_such_key") = false /\
  @parse_loop quiet_os [S_ (lit "no_such_key"); S_ (lit "true")]
    (in_section demo_parsed Carbon 0 true false) [] =
  @parse_loop quiet_os []
    (in_section (edit Carbon (pc_resolve true) demo_parsed) Carbon 0 true false) [].
Proof.
  split; [reflexivity|].
  exact (@parse_resolve_flag_sticky quiet_os (lit "no_such_key") (lit "true") demo_parsed Carbon 0
    true false [] [] ltac:(by apply no_nul_lit) ltac:(by apply no_nul_lit) eq_refl).
Defined.

Lemma parse_shard_order_witness : exists s,
  @parse_loop quiet_os [S_ (lit "2"); S_ (lit "127.0.0.1:2000")]
    (in_shards demo_parsed Carbon 0 false) [] = Some (ParseErr s, []).
Proof.
  exact (@parse_shard_order quiet_os (lit "2") [S_ (lit "127.0.0.1:2000")] demo_parsed Carbon 0
    false [] ltac:(by apply no_nul_lit) ltac:(by split) ltac:(vm_compute; discriminate)).
Defined.

Lemma parse_queue_not_a_number_witness :
  @parse_loop quiet_os [S_ (lit "max_send_queue"); S_ (lit "k")]
    (in_section demo_parsed Statsd 0 false false) [] =
  @parse_loop quiet_os []
    (in_section (edit Statsd (pc_send_queue 0) demo_parsed) Statsd 0 false false) [].
Proof.
  exact (@parse_queue_not_a_number quiet_os (lit "k") demo_parsed Statsd 0
    false false [] [] ltac:(by apply no_nul_lit) eq_refl).
Defined.
