(* ===== verification/ParserType.v ===== *)
(** * What the parser of yaml_config.c returns, whatever the file

    The roundtrip of YamlConfig speaks of files that spell out a configuration.  Here
    the file is arbitrary: if the parser returns a configuration at all, its two
    sections have what server.c and stats.c rely on. *)
From S2P Require Import Prelude Libc Sys SList Hashring YamlConfig.

(** A section has a ring with at most [n] lines, which are C strings, and an address
    to bind to; one with lines was named in the file. *)
Definition section_typed (n : Z) (p : proto_config) : Prop :=
  exists l ls b, p.(ring) = Some l /\ rep l (Some <$> ls) /\ Forall address_ok ls /\
    len ls <= n /\ p.(bind) = Some b /\ (NUL ∉ b) /\ (ls = [] \/ p.(initialized) = true).

Definition config_typed (n : Z) (c : config) : Prop :=
  forall sec, section_typed n (get_section sec c).

(** What libyaml delivers has a size. *)
Definition event_sized (e : yaml_event) : Prop :=
  match e with YAML_SCALAR_EVENT v => len v < 2 ^ 30 | _ => True end.

(** [protoc] is a section that was named. *)
Definition state_typed (n : Z) (s : pstate) : Prop :=
  config_typed n s.(cfg) /\
  forall sec, s.(protoc) = Some sec -> (get_section sec s.(cfg)).(initialized) = true.

(** The state that survives an event. *)
Definition outcome_typed (n : Z) (r : outcome) : Prop :=
  match r with Continue s | Done s => state_typed n s | ParseErr _ => True end.

Section types.
Context `{OSLaws, !Plenty}.
Implicit Types (s : pstate) (c : config) (sec : section) (n : Z).

Lemma section_typed_le n n' p : section_typed n p -> n <= n' -> section_typed n' p.
Proof. intros (l & ls & b & ? & ? & ? & ? & ? & ? & ?) Hn. exists l, ls, b. by split_and!; [..|lia| | |]. Qed.

Lemma config_typed_le n n' c : config_typed n c -> n <= n' -> config_typed n' c.
Proof. intros Hc Hn sec. by eapply section_typed_le. Qed.

Lemma state_typed_le n n' s : state_typed n s -> n <= n' -> state_typed n' s.
Proof. intros [Hc Hp] Hn. split; [by eapply config_typed_le|done]. Qed.

Lemma set_section_typed n sec p c :
  config_typed n c -> section_typed n p -> config_typed n (set_section sec p c).
Proof. intros Hc Hp sec'. pose proof (Hc sec'). by destruct sec, sec'. Qed.

(** Assignments of the other fields. *)
Lemma update_typed n f s s' :
  state_typed n s -> update_protoc f s = Some s' ->
  (forall p, section_typed n p -> section_typed n (f p)) ->
  (forall p, (f p).(initialized) = p.(initialized)) -> state_typed n s'.
Proof.
  intros [Hc Hp] Hu Hf Hi. unfold update_protoc in Hu. destruct s.(protoc) as [sec|] eqn:Hsec; [|done].
  injection Hu as <-. split; [by apply set_section_typed, Hf|]. cbn. rewrite Hsec. intros sec' [= <-].
  rewrite get_set_section, Hi. by apply Hp.
Qed.

Lemma keeps_strdup v : len v < 2 ^ 30 -> keeps is_malloc (fun r => r = Some v) (strdup v).
Proof.
  intros Hv tr. pose proof (len_nonneg v). apply wlp_wp, wp_bind, wp_malloc_plenty; [lia|].
  intros _ _. apply wp_ret. split; [by apply grows_one|done].
Qed.

Lemma keeps_list_new {A} :
  keeps is_malloc (fun r => exists l, r = Some l /\ rep l (@nil A)) statsrelay_list_new.
Proof.
  intros tr. apply wlp_wp, wp_bind, wp_malloc_plenty; [done|]. intros _ _. apply wp_ret.
  split; [by apply grows_one|]. eexists. split; [done|apply rep_empty].
Qed.

Lemma keeps_proto_init : keeps is_malloc (fun p => exists l, p.(ring) = Some l /\ rep l []) init_proto_config.
Proof.
  eapply keeps_bind; [apply keeps_list_new|]. intros r (l & -> & Hl). apply keeps_ret. by exists l.
Qed.

Lemma keeps_expand {A} (l : slist A) xs :
  rep l xs -> len xs < 2 ^ 58 ->
  keeps is_malloc (fun p => p.1 = Some (len xs) /\ p.2.(lsize) - 1 = len xs /\
    forall v, exists l', list_set p.2 (len xs) v = Some l' /\ rep l' (xs ++ [v])) (statsrelay_list_expand l).
Proof.
  intros Hrep Hn tr. eapply wlp_wp, wp_mono; [by apply (expand_slot l xs)|].
  by intros p tr' (? & ? & ? & ?).
Qed.

Lemma keeps_destroy_config c : keeps is_malloc (fun _ => True) (destroy_config c).
Proof.
  assert (Hfree : forall A (l : slist A), keeps is_malloc (fun _ => True) (statsrelay_list_destroy_full l)).
  { intros A l. eapply (keeps_bind _ (fun _ => True)); [|intros xs _; apply (keeps_bind _ (fun _ => True)); intros; by apply keeps_ret].
    generalize 0, (Z.to_nat l.(lsize)). intros i k. revert i. induction k as [|k IH]; intros i; cbn [free_elements]; [by apply keeps_ret|].
    apply keeps_defined. intros x _. eapply keeps_bind; [apply IH|]. intros; by apply keeps_ret. }
  unfold destroy_config. do 2 (apply keeps_defined; intros; eapply keeps_bind; [apply Hfree|intros _ _]).
  by apply keeps_ret.
Qed.

(** A typed configuration can be destroyed. *)
Lemma destroy_config_typed n c (Q : unit -> trace -> Prop) tr :
  config_typed n c -> Q () tr -> wp (destroy_config c) Q tr.
Proof.
  intros Hc HQ. unfold destroy_config.
  assert (Hfree : forall sec (k : M unit), wp k Q tr -> wp (l ← defined (get_section sec c).(ring);
    _ ← statsrelay_list_destroy_full l; k) Q tr).
  { intros sec k Hk. destruct (Hc sec) as (l & ls & _ & -> & Hrep & _). apply wp_bind, wp_ret, wp_bind.
    eapply wp_mono; [by apply (destroy_full_spec l (Some <$> ls))|by intros ? ? [-> _]]. }
  apply (Hfree Carbon), (Hfree Statsd). by apply wp_ret.
Qed.

(** A shard adds a line to the ring of its section. *)
Lemma scalar_shard_typed v s n :
  state_typed n s -> (NUL ∉ v) -> len v < 2 ^ 30 -> n < 2 ^ 58 ->
  keeps is_malloc (outcome_typed (n + 1)) (scalar_shard v s).
Proof.
  intros Hst Hnul Hv Hn. assert (Hst' : state_typed (n + 1) s) by (eapply state_typed_le; [done|lia]).
  pose proof Hst as [Hc Hp]. pose proof Hst' as [Hc' _].
  unfold scalar_shard.
  destruct (negb _); [by apply keeps_ret|]. destruct s.(is_key).
  { destruct (convert_number v) as [num ok]. destruct ok; [|by apply keeps_ret]. cbn [negb].
    apply keeps_defined. intros count _. by destruct (negb _); apply keeps_ret. }
  apply keeps_defined. intros sec Hsec. destruct (Hc sec) as (l & ls & b & Hl & Hrep & Hls & Hlen & Hb & Hbn & _).
  rewrite Hl. apply keeps_defined. intros l0 [= <-].
  assert (Hfl : len (Some <$> ls) = len ls) by (unfold len; by rewrite length_fmap).
  eapply keeps_bind; [apply (keeps_expand l (Some <$> ls)); [done|lia]|].
  intros [r l1] (Hr & Hs & Hset). cbn [fst snd] in *. subst r. apply keeps_defined. intros s1 Hs1.
  eapply keeps_bind; [by apply keeps_strdup|]. intros ? ->. rewrite Hs.
  destruct (Hset (Some v)) as (l2 & Hl2 & Hrep2). apply keeps_defined. intros l2' Hl2'.
  rewrite Hl2 in Hl2'. injection Hl2' as <-. apply keeps_defined. intros s2 Hs2. apply keeps_ret.
  unfold update_protoc in Hs1, Hs2. rewrite Hsec in Hs1. injection Hs1 as <-. cbn in Hs2. rewrite Hsec in Hs2.
  injection Hs2 as <-. cbn. split; cbn; [|intros ? [= <-]%(eq_trans (eq_sym Hsec)); by destruct sec; apply Hp].
  intros sec'. pose proof (Hc' sec') as Hsec'.
  assert (Hnew : section_typed (n + 1) (pc_ring (Some l2) (get_section sec s.(cfg)))).
  { exists l2, (ls ++ [v]), b. rewrite fmap_app, Forall_app, Forall_singleton, len_app, len_cons, len_nil.
    split_and!; try first [done|lia]. right. by apply Hp. }
  by destruct sec, sec'.
Qed.

(** A value assigns one other field. *)
Lemma scalar_value_typed v s n :
  state_typed n s -> (NUL ∉ v) -> len v < 2 ^ 30 -> keeps is_malloc (outcome_typed n) (scalar_value v s).
Proof.
  intros Hc Hnul Hv. unfold scalar_value.
  assert (Hset : forall f (k : pstate -> pstate), (forall p, section_typed n p -> section_typed n (f p)) ->
    (forall p, (f p).(initialized) = p.(initialized)) ->
    (forall s', (k s').(cfg) = s'.(cfg) /\ (k s').(protoc) = s'.(protoc)) -> keeps is_malloc (outcome_typed n)
      (s' ← defined (update_protoc f s); mret (Continue (k s')))).
  { intros f k Hf Hi Hk. apply keeps_defined. intros s' Hs'. apply keeps_ret. unfold outcome_typed, state_typed.
    destruct (Hk s') as [-> ->]. by eapply update_typed. }
  destruct s.(update_bind).
  { apply keeps_defined. intros _ _. eapply keeps_bind; [by apply keeps_strdup|]. intros ? ->.
    apply Hset; [|done|done]. intros p (l & ls & b & ? & ? & ? & ? & ? & ? & ?). by exists l, ls, v. }
  destruct s.(update_send_queue); [by apply Hset|].
  destruct s.(update_validate); [destruct (set_boolean v); [by apply Hset|by apply keeps_ret]|].
  destruct s.(update_tcp_cork); [destruct (set_boolean v); [by apply Hset|by apply keeps_ret]|].
  destruct s.(always_resolve_dns); [|by apply keeps_ret].
  destruct (set_boolean v); [by apply (Hset _ (fun s => s))|by apply keeps_ret].
Qed.

Lemma parse_scalar_typed v s n :
  state_typed n s -> (NUL ∉ v) -> len v < 2 ^ 30 -> n < 2 ^ 58 ->
  keeps is_malloc (outcome_typed (n + 1)) (parse_scalar v s).
Proof.
  intros Hst Hnul Hv Hn. assert (Hst' : state_typed (n + 1) s) by (eapply state_typed_le; [done|lia]).
  pose proof Hst' as [Hc' _].
  unfold parse_scalar. apply (keeps_bind _ (outcome_typed (n + 1))).
  - destruct (_ =? 0); [by apply keeps_ret|]. destruct (_ =? 1).
    { assert (Hnamed : forall sec, state_typed (n + 1) (set_protoc (Some sec)
        (set_cfg (set_section sec (pc_initialized true (get_section sec s.(cfg))) s.(cfg)) s))).
      { intros sec. split; cbn; [|intros ? [= <-]; by rewrite get_set_section].
        apply set_section_typed; [done|]. destruct (Hc' sec) as (l & ls & b & ? & ? & ? & ? & ? & ? & _).
        exists l, ls, b. split_and!; try done. by right. }
      unfold scalar_section. repeat case_decide; apply keeps_ret; [apply Hnamed..|done]. }
    destruct (_ =? 2); [destruct s.(is_key)|].
    + apply keeps_ret. unfold scalar_key. by repeat case_decide.
    + by apply scalar_value_typed.
    + destruct (_ =? 3); [by apply scalar_shard_typed|by apply keeps_ret].
  - intros [s'|s'|s'] Hs'; by apply keeps_ret.
Qed.

Lemma parse_event_typed e s n :
  state_typed n s -> event_sized e -> n < 2 ^ 58 ->
  keeps is_malloc (outcome_typed (n + 1)) (parse_event e s).
Proof.
  intros Hst He Hn. assert (Hst' : state_typed (n + 1) s) by (eapply state_typed_le; [done|lia]).
  destruct e; cbn [parse_event]; try (by apply keeps_ret);
    try (apply keeps_defined; intros nesting _; by apply keeps_ret).
  - apply keeps_ret. by destruct s.(in_document).
  - apply parse_scalar_typed; [done|apply cstr_no_nul| |done].
    eapply Z.le_lt_trans; [apply len_cstr|exact He].
Qed.

Lemma parse_loop_typed es s n :
  state_typed n s -> Forall event_sized es -> n + len es < 2 ^ 58 ->
  keeps is_malloc (outcome_typed (n + len es)) (parse_loop es s).
Proof.
  intros Hc Hes. revert s n Hc. induction Hes as [|e es He _ IH]; intros s n Hc Hn; cbn [parse_loop].
  { by apply keeps_ret. }
  rewrite len_cons in *. pose proof (len_nonneg es).
  eapply keeps_bind; [apply parse_event_typed; [done|done|lia]|].
  intros [s'|s'|s'] Hs'; [|apply keeps_ret; eapply state_typed_le; [exact Hs'|lia]|by apply keeps_ret].
  eapply keeps_mono; [apply (IH s' (n + 1)); [done|lia]|done|]. intros [s''|s''|s''] Hs''; [..|done];
    (eapply state_typed_le; [exact Hs''|lia]).
Qed.

Lemma parse_config_keeps es :
  Forall event_sized es -> len es < 2 ^ 58 ->
  keeps is_malloc (fun r => forall c, r = Some c -> config_typed (len es) c) (parse_config true es).
Proof.
  intros Hes Hn. unfold parse_config. apply keeps_malloc; [done|]. intros [p|]; [|by apply keeps_ret].
  eapply keeps_bind; [apply keeps_proto_init|]. intros carbon (lc & Hlc & Hrc). rewrite Hlc.
  eapply keeps_bind; [by apply keeps_strdup|]. intros ? ->.
  eapply keeps_bind; [apply keeps_proto_init|]. intros statsd (ls & Hls & Hrs).
  eapply keeps_bind; [by apply keeps_strdup|]. intros ? ->. cbn [negb].
  eapply keeps_bind; [apply (parse_loop_typed es _ 0); [|done|done]|].
  { split; [|done]. intros sec. destruct sec; [exists lc, [], (lit "127.0.0.1:2003")|exists ls, [], (lit "127.0.0.1:8125")];
      (split_and!; [done..|by apply no_nul_lit|by left]). }
  intros [s|s|s] Hs; cbn in Hs.
  - eapply keeps_bind; [apply keeps_destroy_config|by intros; apply keeps_ret].
  - apply keeps_ret. intros c [= <-]. apply Hs.
  - eapply keeps_bind; [apply keeps_destroy_config|by intros; apply keeps_ret].
Qed.

(** C18. yaml_config.c, every file: if the parser returns a configuration for a list of
    events, whatever they are, each of its two sections has an address to bind to
    and a ring that holds C strings only, at most one for an event, and none if the
    file does not name the section; nothing but allocations was asked of the system. *)
Theorem parse_config_type es tr :
  Forall event_sized es -> len es < 2 ^ 58 ->
  wlp (parse_config true es) (fun r tr' => grows is_malloc tr tr' /\
    forall c, r = Some c -> config_typed (len es) c) tr.
Proof. intros Hes Hn. by apply parse_config_keeps. Qed.
End types.

(** An odd file: an unknown key, no bind, the other section missing. *)
Definition odd_events : list yaml_event :=
  [YAML_MAPPING_START_EVENT; YAML_SCALAR_EVENT (lit "statsd"); YAML_MAPPING_START_EVENT;
   YAML_SCALAR_EVENT (lit "unknown"); YAML_SCALAR_EVENT (lit "value");
   YAML_SCALAR_EVENT (lit "shard_map"); YAML_MAPPING_START_EVENT;
   YAML_SCALAR_EVENT (lit "0"); YAML_SCALAR_EVENT (lit "h:1"); YAML_MAPPING_END_EVENT;
   YAML_MAPPING_END_EVENT; YAML_STREAM_END_EVENT].

Lemma odd_parsed : exists c tr, @parse_config quiet_os true odd_events [] = Some (Some c, tr).
Proof.
  assert (E : match @parse_config quiet_os true odd_events [] with
              | Some (Some _, _) => true | _ => false end = true) by (vm_compute; reflexivity).
  destruct (@parse_config quiet_os true odd_events []) as [[[c|] tr]|]; [by eexists _, _|discriminate..].
Qed.

Lemma odd_sized : Forall event_sized odd_events.
Proof. repeat constructor. Qed.

Lemma parse_config_type_witness : exists c tr,
  @parse_config quiet_os true odd_events [] = Some (Some c, tr) /\ config_typed 12 c.
Proof.
  destruct odd_parsed as (c & tr & E). exists c, tr. split; [exact E|].
  exact (proj2 (wlp_run _ _ _ _ _
    (@parse_config_type quiet_os quiet_laws quiet_plenty odd_events [] odd_sized eq_refl) E) c eq_refl).
Defined.
