(* ===== verification/Tcpclient.v ===== *)
(** * tcpclient.c: the outbound connections

    A client keeps a queue of bytes and drives one connection through the
    states of [tcpclient_state]; libev calls its handlers.  The calls to libev
    are calls of the environment ([IoStart], [TimerStart], ...), so which of a
    client's watchers are active is a function of the trace ([watchers]).  The object behind [callback_context] is a state of type
    [Ctx] that the handlers pass to the callbacks and return. *)
From S2P Require Import Prelude Sys Buffer SList YamlConfig.

(** ** Data *)

Inductive tcpclient_event := EVENT_CONNECTED | EVENT_SENT | EVENT_RECV | EVENT_ERROR.

Inductive tcpclient_state :=
  STATE_INIT | STATE_CONNECTING | STATE_BACKOFF | STATE_CONNECTED | STATE_TERMINATED.

#[export] Instance tcpclient_state_eq_dec : EqDecision tcpclient_state.
Proof. solve_decision. Defined.

Definition TCPCLIENT_RETRY_TIMEOUT : Z := 1.
Definition TCPCLIENT_RECV_BUFFER : Z := 65536.
Definition TCPCLIENT_NAME_LEN : Z := 256.
Definition DEFAULT_BUFFER_SIZE : Z := 65536.

Definition AF_INET : Z := 2.
Definition IPPROTO_TCP : Z := 6.
Definition EINPROGRESS : Z := 115.

(** The result of a callback is ignored by every caller, and no callback of the
    program uses the client it is passed. *)
Definition tcpclient_callback (Ctx : Type) : Type :=
  tcpclient_event -> Ctx -> bytes -> Z -> Ctx.

(** [self] is the address of the struct, the owner of its watchers. *)
Record tcpclient_t (Ctx : Type) := TcpClient {
  callback_connect : tcpclient_callback Ctx;
  callback_sent : tcpclient_callback Ctx;
  callback_recv : tcpclient_callback Ctx;
  callback_error : tcpclient_callback Ctx;
  self : nat;
  connect_started : bool;
  read_started : bool;
  write_started : bool;
  name : bytes;
  addr : option addrinfo;        (* None: NULL *)
  send_queue : buffer;
  state : tcpclient_state;
  last_error : Z;
  failing : Z;
  sd : Z;
  socktype : Sys.socktype;
  host : bytes;
  port : bytes;
  protocol : bytes;
  config : proto_config;
}.
Arguments callback_connect {Ctx} _.
Arguments callback_sent {Ctx} _.
Arguments callback_recv {Ctx} _.
Arguments callback_error {Ctx} _.
Arguments self {Ctx} _.
Arguments connect_started {Ctx} _.
Arguments read_started {Ctx} _.
Arguments write_started {Ctx} _.
Arguments name {Ctx} _.
Arguments addr {Ctx} _.
Arguments send_queue {Ctx} _.
Arguments state {Ctx} _.
Arguments last_error {Ctx} _.
Arguments failing {Ctx} _.
Arguments sd {Ctx} _.
Arguments socktype {Ctx} _.
Arguments host {Ctx} _.
Arguments port {Ctx} _.
Arguments protocol {Ctx} _.
Arguments config {Ctx} _.
Arguments TcpClient {Ctx} _ _ _ _ _ _ _ _ _ _ _ _ _ _ _ _ _ _ _ _.

Definition tcpclient_default_callback {Ctx} : tcpclient_callback Ctx :=
  fun event context data len => context.

Section ops.
Context `{OS} {Ctx : Type}.
Abbreviation tcpclient := (tcpclient_t Ctx).
Implicit Types (c client : tcpclient) (ctx : Ctx).

(** ** Field updates *)

Definition set_callback_sent x c : tcpclient :=
  TcpClient c.(callback_connect) x c.(callback_recv) c.(callback_error) c.(self)
    c.(connect_started) c.(read_started) c.(write_started) c.(name) c.(addr)
    c.(send_queue) c.(state) c.(last_error) c.(failing) c.(sd) c.(socktype) c.(host)
    c.(port) c.(protocol) c.(config).

Definition set_connect_started x c : tcpclient :=
  TcpClient c.(callback_connect) c.(callback_sent) c.(callback_recv) c.(callback_error) c.(self) x
    c.(read_started) c.(write_started) c.(name) c.(addr) c.(send_queue) c.(state)
    c.(last_error) c.(failing) c.(sd) c.(socktype) c.(host) c.(port) c.(protocol)
    c.(config).

Definition set_read_started x c : tcpclient :=
  TcpClient c.(callback_connect) c.(callback_sent) c.(callback_recv) c.(callback_error) c.(self)
    c.(connect_started) x c.(write_started) c.(name) c.(addr) c.(send_queue) c.(state)
    c.(last_error) c.(failing) c.(sd) c.(socktype) c.(host) c.(port) c.(protocol)
    c.(config).

Definition set_write_started x c : tcpclient :=
  TcpClient c.(callback_connect) c.(callback_sent) c.(callback_recv) c.(callback_error) c.(self)
    c.(connect_started) c.(read_started) x c.(name) c.(addr) c.(send_queue) c.(state)
    c.(last_error) c.(failing) c.(sd) c.(socktype) c.(host) c.(port) c.(protocol)
    c.(config).

Definition set_name x c : tcpclient :=
  TcpClient c.(callback_connect) c.(callback_sent) c.(callback_recv) c.(callback_error) c.(self)
    c.(connect_started) c.(read_started) c.(write_started) x c.(addr) c.(send_queue)
    c.(state) c.(last_error) c.(failing) c.(sd) c.(socktype) c.(host) c.(port)
    c.(protocol) c.(config).

Definition set_addr x c : tcpclient :=
  TcpClient c.(callback_connect) c.(callback_sent) c.(callback_recv) c.(callback_error) c.(self)
    c.(connect_started) c.(read_started) c.(write_started) c.(name) x c.(send_queue)
    c.(state) c.(last_error) c.(failing) c.(sd) c.(socktype) c.(host) c.(port)
    c.(protocol) c.(config).

Definition set_queue x c : tcpclient :=
  TcpClient c.(callback_connect) c.(callback_sent) c.(callback_recv) c.(callback_error) c.(self)
    c.(connect_started) c.(read_started) c.(write_started) c.(name) c.(addr) x c.(state)
    c.(last_error) c.(failing) c.(sd) c.(socktype) c.(host) c.(port) c.(protocol)
    c.(config).

Definition tcpclient_set_state x c : tcpclient :=
  TcpClient c.(callback_connect) c.(callback_sent) c.(callback_recv) c.(callback_error) c.(self)
    c.(connect_started) c.(read_started) c.(write_started) c.(name) c.(addr)
    c.(send_queue) x c.(last_error) c.(failing) c.(sd) c.(socktype) c.(host) c.(port)
    c.(protocol) c.(config).

Definition set_last_error x c : tcpclient :=
  TcpClient c.(callback_connect) c.(callback_sent) c.(callback_recv) c.(callback_error) c.(self)
    c.(connect_started) c.(read_started) c.(write_started) c.(name) c.(addr)
    c.(send_queue) c.(state) x c.(failing) c.(sd) c.(socktype) c.(host) c.(port)
    c.(protocol) c.(config).

Definition set_failing x c : tcpclient :=
  TcpClient c.(callback_connect) c.(callback_sent) c.(callback_recv) c.(callback_error) c.(self)
    c.(connect_started) c.(read_started) c.(write_started) c.(name) c.(addr)
    c.(send_queue) c.(state) c.(last_error) x c.(sd) c.(socktype) c.(host) c.(port)
    c.(protocol) c.(config).

Definition set_sd x c : tcpclient :=
  TcpClient c.(callback_connect) c.(callback_sent) c.(callback_recv) c.(callback_error) c.(self)
    c.(connect_started) c.(read_started) c.(write_started) c.(name) c.(addr)
    c.(send_queue) c.(state) c.(last_error) c.(failing) x c.(socktype) c.(host) c.(port)
    c.(protocol) c.(config).

Definition set_socktype x c : tcpclient :=
  TcpClient c.(callback_connect) c.(callback_sent) c.(callback_recv) c.(callback_error) c.(self)
    c.(connect_started) c.(read_started) c.(write_started) c.(name) c.(addr)
    c.(send_queue) c.(state) c.(last_error) c.(failing) c.(sd) x c.(host) c.(port)
    c.(protocol) c.(config).

(** ** The code *)

(** [calloc(1, strlen(s) + 1)] and [strncpy]. *)
Definition copy_string (s : bytes) : M (option bytes) :=
  p ← malloc (len (cstr s) + 1);
  mret (match p with None => None | Some _ => Some (cstr s) end).

(** The arguments [host], [port] and [protocol] may be NULL.  [client] is the
    memory that is initialised; [buffer_newsize] is undefined when the
    allocation of [buffer_init], whose result is ignored, has failed. *)
Definition tcpclient_init client (cfg : proto_config) (h p proto : option bytes)
    : M (Z * tcpclient) :=
  let c0 := TcpClient client.(callback_connect) client.(callback_sent) client.(callback_recv)
    client.(callback_error) client.(self) client.(connect_started) client.(read_started)
    client.(write_started) client.(name) None client.(send_queue) STATE_INIT 0 0 (-1)
    SOCK_DGRAM client.(host) client.(port) client.(protocol) cfg in
  match h with
  | None => mret (1, c0)
  | Some h =>
      h' ← copy_string h;
      match h', p with
      | None, _ | _, None => mret (1, c0)
      | Some h', Some p =>
          p' ← copy_string p;
          match p' with
          | None => mret (1, c0)
          | Some p' =>
              proto' ← (match proto with
                        | None => copy_string (lit "tcp")
                        | Some proto => copy_string proto
                        end);
              match proto' with
              | None => mret (1, c0)
              | Some proto' =>
                  '(_, q) ← buffer_init c0.(send_queue);
                  '(_, q) ← buffer_newsize q DEFAULT_BUFFER_SIZE;
                  mret (0, TcpClient tcpclient_default_callback tcpclient_default_callback
                    tcpclient_default_callback tcpclient_default_callback client.(self)
                    false false false (lit "UNRESOLVED") None q STATE_INIT 0 0 (-1)
                    SOCK_DGRAM h' p' proto' cfg)
              end
          end
      end
  end.

Definition tcpclient_set_sent_callback client (callback : tcpclient_callback Ctx) : tcpclient :=
  set_callback_sent callback client.

Definition tcpclient_connect_timeout client ctx : M (tcpclient * Ctx) :=
  client ← (if client.(connect_started) then
              _ ← sys (IoStop client.(self) ConnectW);
              mret (set_connect_started false client)
            else mret client);
  _ ← sys (Close client.(sd));
  t ← sys Time;
  let client := tcpclient_set_state STATE_BACKOFF (set_last_error t client) in
  mret (client, client.(callback_error) EVENT_ERROR ctx [] 0).

Definition tcpclient_read_event client ctx (events : Z) : M (tcpclient * Ctx) :=
  if Z.land events EV_READ =? 0 then mret (client, ctx) else
  buf ← malloc TCPCLIENT_RECV_BUFFER;
  match buf with
  | None => mret (client, ctx)
  | Some _ =>
      r ← sys (Recv client.(sd) TCPCLIENT_RECV_BUFFER);
      match r with
      | None =>
          client ← (if client.(read_started) then
                      _ ← sys (IoStop client.(self) ReadW);
                      mret (set_read_started false client)
                    else mret client);
          client ← (if client.(write_started) then
                      _ ← sys (IoStop client.(self) WriteW);
                      mret (set_write_started false client)
                    else mret client);
          _ ← sys (Close client.(sd));
          t ← sys Time;
          let client := set_last_error t (tcpclient_set_state STATE_BACKOFF client) in
          mret (client, client.(callback_error) EVENT_ERROR ctx [] 0)
      | Some [] =>
          _ ← sys (IoStop client.(self) ReadW);
          _ ← sys (IoStop client.(self) WriteW);
          _ ← sys (Close client.(sd));
          t ← sys Time;
          let client := set_last_error t (tcpclient_set_state STATE_INIT client) in
          mret (client, client.(callback_error) EVENT_ERROR ctx [] 0)
      | Some d => mret (client, client.(callback_recv) EVENT_RECV ctx d (len d))
      end
  end.

Definition tcpclient_write_event client ctx (events : Z) : M (tcpclient * Ctx) :=
  if Z.land events EV_WRITE =? 0 then mret (client, ctx) else
  let buf_len := buffer_datacount client.(send_queue) in
  if 0 <? buf_len then
    d ← buffer_read client.(send_queue) buf_len;
    send_len ← sys (Send client.(sd) d);
    if send_len <? 0 then
      _ ← sys (IoStop client.(self) WriteW);
      _ ← sys (IoStop client.(self) ReadW);
      t ← sys Time;
      let client := tcpclient_set_state STATE_BACKOFF (set_last_error t client) in
      _ ← sys (Close client.(sd));
      mret (client, client.(callback_error) EVENT_ERROR ctx [] 0)
    else
      let ctx := client.(callback_sent) EVENT_SENT ctx (take (Z.to_nat send_len) d) send_len in
      let '(r, q) := buffer_consume client.(send_queue) send_len in
      let client := set_queue q client in
      if negb (r =? 0) then mret (client, ctx) else
      let qsize := buffer_datacount client.(send_queue) in
      let client :=
        if negb (client.(failing) =? 0) && (qsize <? client.(config).(max_send_queue))
        then set_failing 0 client else client in
      if qsize =? 0 then
        _ ← sys (IoStop client.(self) WriteW);
        mret (set_write_started false client, ctx)
      else mret (client, ctx)
  else
    _ ← sys (IoStop client.(self) WriteW);
    mret (set_write_started false client, ctx).

Definition tcpclient_connected client ctx (events : Z) : M (tcpclient * Ctx) :=
  _ ← sys (TimerStop client.(self));
  _ ← sys (IoStop client.(self) ConnectW);
  r ← sys (GetSoError client.(sd));
  match r with
  | None => mret (client, ctx)
  | Some err =>
      if negb (Z.land events EV_ERROR =? 0) || negb (err =? 0) then
        _ ← sys (Close client.(sd));
        t ← sys Time;
        mret (tcpclient_set_state STATE_BACKOFF (set_last_error t client), ctx)
      else
        let client := set_read_started true (tcpclient_set_state STATE_CONNECTED client) in
        _ ← sys (IoStart client.(self) ReadW);
        let client := set_write_started true client in
        _ ← sys (IoStart client.(self) WriteW);
        mret (client, client.(callback_connect) EVENT_CONNECTED ctx [] 0)
  end.

(** [snprintf(name, TCPCLIENT_NAME_LEN, "%s/%s/%s", host, port, protocol)]. *)
Definition client_name client : bytes :=
  take (Z.to_nat (TCPCLIENT_NAME_LEN - 1))
    (client.(host) ++ lit "/" ++ client.(port) ++ lit "/" ++ client.(protocol)).

(** An error of [tcpclient_connect]: back off and tell the client. *)
Definition connect_error client ctx (code : Z) : M (Z * tcpclient * Ctx) :=
  mret (code, client, client.(callback_error) EVENT_ERROR ctx [] 0).

(** Forget the address if it is to be resolved for every connection. *)
Definition drop_address client : M tcpclient :=
  if client.(config).(cfg_always_resolve_dns) && bool_decide (is_Some client.(addr)) then
    _ ← sys Freeaddrinfo;
    mret (set_addr None client)
  else mret client.

(** The address, resolved if it is NULL; [None] when that fails. *)
Definition resolve client : M (option addrinfo * tcpclient) :=
  match client.(addr) with
  | Some a => mret (Some a, client)
  | None =>
      let client := set_socktype
        (if decide (take 3 client.(protocol) = lit "udp") then SOCK_DGRAM else SOCK_STREAM)
        client in
      r ← sys (Getaddrinfo client.(host) client.(port) client.(socktype));
      match r with
      | None =>
          t ← sys Time;
          mret (None, tcpclient_set_state STATE_BACKOFF (set_last_error t client))
      | Some a =>
          let client := set_addr (Some a) client in
          mret (Some a, set_name (client_name client) client)
      end
  end.

(** The test before [setsockopt(TCP_CORK)]. *)
Definition wants_cork client (a : addrinfo) : bool :=
  client.(config).(enable_tcp_cork) && (a.(ai_family) =? AF_INET) &&
  bool_decide (a.(ai_socktype) = SOCK_STREAM) && (a.(ai_protocol) =? IPPROTO_TCP).

(** The branch of [STATE_INIT]. *)
Definition connect_init client ctx : M (Z * tcpclient * Ctx) :=
  client ← drop_address client;
  '(a, client) ← resolve client;
  match a with
  | None => connect_error client ctx 3
  | Some a =>
      sd ← sys (Socket a.(ai_family) a.(ai_socktype) a.(ai_protocol));
      if sd <? 0 then
        t ← sys Time;
        connect_error (tcpclient_set_state STATE_BACKOFF (set_last_error t client)) ctx 4
      else
      _ ← (if wants_cork client a then _ ← sys (SetCork sd); mret () else mret ());
      let client := set_sd sd client in
      flags ← sys (FcntlGetfl sd);
      r ← sys (FcntlSetfl sd (Z.lor flags O_NONBLOCK));
      if negb (r =? 0) then
        t ← sys Time;
        let client := tcpclient_set_state STATE_BACKOFF (set_last_error t client) in
        _ ← sys (Close sd);
        connect_error client ctx 5
      else
      let client := set_connect_started true client in
      _ ← sys (IoStart client.(self) ConnectW);
      _ ← sys (TimerStart client.(self));
      errno ← sys (Connect sd);
      if negb (errno =? 0) && negb (errno =? EINPROGRESS) then
        t ← sys Time;
        let client := tcpclient_set_state STATE_BACKOFF (set_last_error t client) in
        _ ← sys (TimerStop client.(self));
        _ ← sys (IoStop client.(self) ConnectW);
        _ ← sys (Close sd);
        connect_error client ctx 6
      else mret (0, tcpclient_set_state STATE_CONNECTING client, ctx)
  end.

(** [depth] bounds the recursive calls: the one of the code is made in
    [STATE_INIT], where there is no other. *)
Fixpoint connect_rec (depth : nat) client ctx : M (Z * tcpclient * Ctx) :=
  match client.(state) with
  | STATE_CONNECTED | STATE_CONNECTING => mret (1, client, ctx)
  | STATE_BACKOFF =>
      t ← sys Time;
      if TCPCLIENT_RETRY_TIMEOUT <? t - client.(last_error) then
        match depth with
        | O => ub
        | S depth => connect_rec depth (tcpclient_set_state STATE_INIT client) ctx
        end
      else mret (2, client, ctx)
  | STATE_INIT => connect_init client ctx
  | STATE_TERMINATED => mret (7, client, ctx)
  end.

Definition tcpclient_connect client ctx : M (Z * tcpclient * Ctx) := connect_rec 1 client ctx.

(** [while (buffer_spacecount(sendq) < len) buffer_expand]; true when there is
    room.  Running out of [fuel] is the failure of the monad, so [wp] excludes it. *)
Fixpoint make_room (fuel : nat) (q : buffer) (n : Z) : M (bool * buffer) :=
  if buffer_spacecount q <? n then
    match fuel with
    | O => ub
    | S fuel =>
        '(r, q) ← buffer_expand q;
        if negb (r =? 0) then mret (false, q) else make_room fuel q n
    end
  else mret (true, q).

(** A block of 2^64 bytes is never allocated. *)
Definition room_fuel : nat := 64.

(** [buf] is the [len] bytes at the pointer. *)
Definition tcpclient_sendall client ctx (buf : bytes) : M (Z * tcpclient * Ctx) :=
  match client.(addr) with
  | None => mret (1, client, ctx)
  | Some _ =>
      '(_, client, ctx) ← tcpclient_connect client ctx;
      if client.(config).(max_send_queue) <=? buffer_datacount client.(send_queue) then
        mret (2, if client.(failing) =? 0 then set_failing 1 client else client, ctx)
      else
      '(r, q) ← (if buffer_spacecount client.(send_queue) <? len buf
                 then buffer_realign client.(send_queue) else mret (0, client.(send_queue)));
      if negb (r =? 0) then mret (3, set_queue q client, ctx) else
      '(ok, q) ← make_room room_fuel q (len buf);
      if negb ok then mret (4, set_queue q client, ctx) else
      q ← buffer_write q buf;
      let client := set_queue (buffer_produced q (len buf)).2 client in
      client ← (if decide (client.(state) = STATE_CONNECTED) then
                  let client := set_write_started true client in
                  _ ← sys (IoStart client.(self) WriteW);
                  mret client
                else mret client);
      mret (0, client, ctx)
  end.

(** [ev_io_stop] if the watcher is marked as started. *)
Definition stop_if (started : bool) (owner : nat) (k : io_kind) : M unit :=
  if started then _ ← sys (IoStop owner k); mret () else mret ().

Definition tcpclient_destroy client : M tcpclient :=
  _ ← sys (TimerStop client.(self));
  _ ← stop_if client.(connect_started) client.(self) ConnectW;
  _ ← stop_if client.(read_started) client.(self) ReadW;
  _ ← stop_if client.(write_started) client.(self) WriteW;
  let client := set_connect_started false (set_read_started false
    (set_write_started false client)) in
  _ ← sys (Close client.(sd));
  _ ← (match client.(addr) with
       | Some _ => _ ← sys Freeaddrinfo; mret ()
       | None => mret ()
       end);
  q ← buffer_destroy client.(send_queue);
  mret (set_queue q client).
End ops.

(** ** Which watchers are active *)

(** The three [ev_io] watchers of a client and its timer. *)
Record watch := Watch { w_connect : bool; w_read : bool; w_write : bool; w_timer : bool }.

Definition idle : watch := Watch false false false false.

Definition set_io (k : io_kind) (b : bool) (w : watch) : watch :=
  match k with
  | ConnectW => Watch b w.(w_read) w.(w_write) w.(w_timer)
  | ReadW => Watch w.(w_connect) b w.(w_write) w.(w_timer)
  | WriteW => Watch w.(w_connect) w.(w_read) b w.(w_timer)
  end.

Definition set_timer (b : bool) (w : watch) : watch :=
  Watch w.(w_connect) w.(w_read) w.(w_write) b.

(** Starting and stopping a watcher of the owner [o] is the last word on it. *)
Definition watch_update (o : nat) (w : watch) (c : call) : watch :=
  match c with
  | IoStart o' k => if Nat.eqb o' o then set_io k true w else w
  | IoStop o' k => if Nat.eqb o' o then set_io k false w else w
  | TimerStart o' => if Nat.eqb o' o then set_timer true w else w
  | TimerStop o' => if Nat.eqb o' o then set_timer false w else w
  | _ => w
  end.

Definition watchers (o : nat) (tr : trace) : watch := fold_left (watch_update o) tr idle.

(** The bytes that the [send] calls of [l], made after [pre], have taken. *)
Fixpoint taken_from `{OS} (pre l : trace) : bytes :=
  match l with
  | [] => []
  | c :: l =>
      (match c with Send s d => take (Z.to_nat (os pre (Send s d))) d | _ => [] end)
      ++ taken_from (pre ++ [c]) l
  end.

Definition taken `{OS} (tr : trace) : bytes := taken_from [] tr.

(** A call that is not about the watchers of [o] and sends nothing. *)
Definition not_about (o : nat) (c : call) : Prop :=
  match c with
  | IoStart o' _ | IoStop o' _ | TimerStart o' | TimerStop o' => o' <> o
  | _ => True
  end.

Lemma watchers_snoc o tr c : watchers o (tr ++ [c]) = watch_update o (watchers o tr) c.
Proof. unfold watchers. by rewrite fold_left_app. Qed.

Lemma watchers_grows o tr tr' : grows (not_about o) tr tr' -> watchers o tr' = watchers o tr.
Proof.
  intros (l & -> & Hl). revert tr. induction Hl as [|c l Hc _ IH]; intros tr.
  { by rewrite app_nil_r. }
  rewrite cons_middle, app_assoc, IH, watchers_snoc.
  destruct c; simpl in *; try done; by rewrite (proj2 (Nat.eqb_neq _ _)).
Qed.

Lemma taken_from_app `{OS} pre l k :
  taken_from pre (l ++ k) = taken_from pre l ++ taken_from (pre ++ l) k.
Proof.
  revert pre. induction l as [|c l IH]; intros pre; simpl; [by rewrite app_nil_r|].
  by rewrite IH, <- !app_assoc.
Qed.

Lemma taken_snoc `{OS} tr c :
  taken (tr ++ [c]) = taken tr ++
    match c with Send s d => take (Z.to_nat (os tr (Send s d))) d | _ => [] end.
Proof. unfold taken. rewrite taken_from_app; simpl. by rewrite app_nil_r. Qed.

Lemma malloc_grows `{OS} o tr tr' :
  grows is_malloc tr tr' -> watchers o tr' = watchers o tr /\ taken tr' = taken tr.
Proof.
  intros Hg. split.
  - apply watchers_grows. eapply grows_mono; [|exact Hg]. by intros [].
  - destruct Hg as (l & -> & Hl). revert tr. induction Hl as [|c l Hc _ IH]; intros tr.
    { by rewrite app_nil_r. }
    rewrite cons_middle, app_assoc, IH, taken_snoc. destruct c; simpl in *; try done.
    by rewrite app_nil_r.
Qed.

(** ** The invariant of a client *)

(** What each state says of the watchers.  A client in [STATE_CONNECTING] whose
    [getsockopt] has failed has none. *)
Definition state_ok {Ctx} (c : tcpclient_t Ctx) (w : watch) : Prop :=
  match c.(state) with
  | STATE_INIT | STATE_BACKOFF => w = idle
  | STATE_CONNECTING => is_Some c.(addr) /\ exists b, w = Watch b false false b
  | STATE_CONNECTED =>
      is_Some c.(addr) /\ exists b, w = Watch false true b false /\
        (buffer_data c.(send_queue) <> [] -> b = true)
  | STATE_TERMINATED => False
  end.

(** A watcher that is active is marked as started. *)
Definition marked {Ctx} (c : tcpclient_t Ctx) (w : watch) : Prop :=
  (w.(w_connect) = true -> c.(connect_started) = true) /\
  (w.(w_read) = true -> c.(read_started) = true) /\
  (w.(w_write) = true -> c.(write_started) = true).

Record client_inv {Ctx} (c : tcpclient_t Ctx) (tr : trace) : Prop := {
  ci_queue : buffer_wf c.(send_queue);
  ci_size : 0 < c.(send_queue).(size);
  ci_state : state_ok c (watchers c.(self) tr);
  ci_marked : marked c (watchers c.(self) tr);
}.

(** Between [tr] and [tr'], what was sent and is still queued is what was
    queued, followed by [line]. *)
Definition flow `{OS} {Ctx} (c c' : tcpclient_t Ctx) (tr tr' : trace) (line : bytes) : Prop :=
  exists t, taken tr' = taken tr ++ t /\
    t ++ buffer_data c'.(send_queue) = buffer_data c.(send_queue) ++ line.

(** The parameters of a client, which no operation changes. *)
Definition same_client {Ctx} (c c' : tcpclient_t Ctx) : Prop :=
  c'.(self) = c.(self) /\ c'.(config) = c.(config) /\ c'.(host) = c.(host) /\
  c'.(port) = c.(port) /\ c'.(protocol) = c.(protocol).

Definition post `{OS} {Ctx} (c c' : tcpclient_t Ctx) (tr tr' : trace) (line : bytes) : Prop :=
  client_inv c' tr' /\ flow c c' tr tr' line /\ same_client c c'.

(** Evaluate the invariant on an explicit trace. *)
Ltac trace_simp :=
  cbn [fst snd self sd set_callback_sent set_connect_started set_read_started set_write_started
       set_name set_addr set_queue tcpclient_set_state set_last_error set_failing set_sd
       set_socktype];
  rewrite ?watchers_snoc, ?taken_snoc, ?app_nil_r; cbn [watch_update];
  rewrite ?Nat.eqb_refl; cbn [set_io set_timer w_connect w_read w_write w_timer].


Section invariant.
Context `{OSLaws} {Ctx : Type}.
Implicit Types (c : tcpclient_t Ctx) (ctx : Ctx) (tr : trace).

Lemma flow_refl c c' tr tr' :
  taken tr' = taken tr -> c'.(send_queue) = c.(send_queue) -> flow c c' tr tr' [].
Proof. intros Ht Hq. exists []. by rewrite Ht, Hq, !app_nil_r. Qed.

Lemma same_client_refl c : same_client c c.
Proof. by repeat split. Qed.

(** An operation that leaves the queue alone and sends nothing. *)
Lemma post_intro c c' tr tr' w :
  client_inv c tr -> c'.(send_queue) = c.(send_queue) -> same_client c c' ->
  taken tr' = taken tr -> watchers c.(self) tr' = w -> state_ok c' w -> marked c' w ->
  post c c' tr tr' [].
Proof.
  intros [Hq Hs _ _] Hqu Hc Ht <- Hst Hm. pose proof Hc as (Hself & _).
  split_and!; [|by apply flow_refl|done].
  split; rewrite ?Hqu, ?Hself; done.
Qed.

Lemma post_refl c tr : client_inv c tr -> post c c tr tr [].
Proof. intros Hinv. by eapply post_intro; try apply Hinv. Qed.

(** What an active watcher tells about the state. *)
Lemma connecting_inv c tr :
  client_inv c tr -> (watchers c.(self) tr).(w_timer) = true \/
    (watchers c.(self) tr).(w_connect) = true ->
  c.(state) = STATE_CONNECTING /\ is_Some c.(addr) /\ c.(connect_started) = true /\
  watchers c.(self) tr = Watch true false false true.
Proof.
  intros [_ _ Hst (Hm & _)] Hw. unfold state_ok in Hst.
  destruct (state c) eqn:E; [rewrite Hst in Hw; naive_solver| |rewrite Hst in Hw; naive_solver| |done].
  - destruct Hst as (Ha & b & Hb). rewrite Hb in *. assert (b = true) as -> by naive_solver.
    auto.
  - destruct Hst as (_ & b & Hb & _). rewrite Hb in Hw. naive_solver.
Qed.

Lemma connected_inv c tr :
  client_inv c tr -> (watchers c.(self) tr).(w_read) = true \/
    (watchers c.(self) tr).(w_write) = true ->
  c.(state) = STATE_CONNECTED /\ is_Some c.(addr) /\ c.(read_started) = true /\
  exists b, watchers c.(self) tr = Watch false true b false /\
    (b = true -> c.(write_started) = true) /\
    (buffer_data c.(send_queue) <> [] -> b = true).
Proof.
  intros [_ _ Hst (_ & Hm1 & Hm2)] Hw. unfold state_ok in Hst.
  destruct (state c) eqn:E; [rewrite Hst in Hw; naive_solver| |rewrite Hst in Hw; naive_solver| |done].
  - destruct Hst as (Ha & b & Hb). rewrite Hb in *. naive_solver.
  - destruct Hst as (Ha & b & Hb & Hd). rewrite Hb in *. simpl in *. eauto 10.
Qed.

(** Close a [post] whose trace is explicit, from the watchers [Hw] before. *)
Ltac post_tac Hw :=
  eapply post_intro; [done|done|done|by trace_simp|trace_simp; rewrite ?Hw; reflexivity
    |unfold state_ok; cbn; try done|unfold marked; cbn; try naive_solver].

Lemma timeout_spec c ctx tr :
  client_inv c tr -> (watchers c.(self) tr).(w_timer) = true ->
  wp (tcpclient_connect_timeout c ctx) (fun p tr' =>
    post c p.1 tr tr' [] /\ p.1.(state) = STATE_BACKOFF) (tr ++ [TimerStop c.(self)]).
Proof.
  intros Hinv Hw. destruct (connecting_inv c tr) as (E & Ha & Hs & Hb); [auto..|].
  unfold tcpclient_connect_timeout. rewrite Hs. wp_steps. split; [|done]. post_tac Hb.
Qed.

Lemma connected_spec c ctx ev tr :
  client_inv c tr -> (watchers c.(self) tr).(w_connect) = true ->
  wp (tcpclient_connected c ctx ev) (fun p tr' => post c p.1 tr tr' []) tr.
Proof.
  intros Hinv Hw. destruct (connecting_inv c tr) as (E & Ha & Hs & Hb); [auto..|].
  unfold tcpclient_connected. wp_steps; post_tac Hb; rewrite ?E; eauto.
Qed.

Lemma read_event_spec c ctx ev tr :
  client_inv c tr -> (watchers c.(self) tr).(w_read) = true ->
  wp (tcpclient_read_event c ctx ev) (fun p tr' => post c p.1 tr tr' []) tr.
Proof.
  intros Hinv Hw. destruct (connected_inv c tr) as (E & Ha & Hs & b & Hb & Hbs & Hbd); [auto..|].
  assert (Hsame : forall tr', watchers c.(self) tr' = watchers c.(self) tr ->
    taken tr' = taken tr -> post c c tr tr' []).
  { intros tr' H1 H2. rewrite Hb in H1.
    eapply post_intro; [done..|exact H2|exact H1| |]; rewrite <- Hb; apply Hinv. }
  unfold tcpclient_read_event. wp_step; [by apply wp_ret, post_refl|].
  apply wp_bind, wp_malloc; [done| |intros buf _ _].
  { apply wp_ret, Hsame; by trace_simp. }
  apply wp_bind, (wp_sys (Recv _ _)).
  destruct (os _ (Recv _ _)) as [[|x d]|].
  - wp_steps. post_tac Hb.
  - apply wp_ret, Hsame; by trace_simp.
  - rewrite Hs. cbn [write_started set_read_started].
    destruct (write_started c) eqn:Hws; wp_steps; post_tac Hb.
    all: destruct b; cbn in *; first [done|congruence|by specialize (Hbs eq_refl)].
Qed.

(** The rest of the write handler, once [n] bytes of the queue are sent. *)
Lemma write_event_consumed c c1 ctx b n tr tr1 :
  client_inv c tr -> c.(state) = STATE_CONNECTED -> is_Some c.(addr) ->
  watchers c.(self) tr = Watch false true b false ->
  (b = true -> c.(write_started) = true) ->
  b = true -> 0 <= n <= len (buffer_data c.(send_queue)) ->
  buffer_consume c.(send_queue) n = (0, c1.(send_queue)) ->
  same_client c c1 -> c1.(state) = c.(state) -> c1.(addr) = c.(addr) ->
  c1.(read_started) = c.(read_started) -> c1.(write_started) = c.(write_started) ->
  watchers c.(self) tr1 = watchers c.(self) tr ->
  taken tr1 = taken tr ++ take (Z.to_nat n) (buffer_data c.(send_queue)) ->
  wp (if buffer_datacount c1.(send_queue) =? 0
      then _ ← sys (IoStop c1.(self) WriteW); mret (set_write_started false c1, ctx)
      else mret (c1, ctx)) (fun p tr' =>
    post c p.1 tr tr' [] /\ p.1.(state) = STATE_CONNECTED /\
    buffer_data p.1.(send_queue) = drop (Z.to_nat n) (buffer_data c.(send_queue))) tr1.
Proof.
  intros Hinv E Ha Hb Hbs Hbt Hn Hc Hsame Hst Had Hr Hw Hwt Ht.
  pose proof Hinv as [Hwf Hs _ (_ & Hmr & _)]. rewrite Hb in *.
  destruct (buffer_consume_spec c.(send_queue) n) as (q & Hc' & Hwf' & Hs' & Hd);
    [done|lia|by rewrite datacount_len by done; lia|].
  rewrite Hc in Hc'. injection Hc' as <-.
  pose proof Hsame as (Hself & _). rewrite datacount_len by done.
  assert (Hflow : forall c' tr', c'.(send_queue) = c1.(send_queue) -> taken tr' = taken tr1 ->
    flow c c' tr tr' []).
  { intros c' tr' Hq Ht'. exists (take (Z.to_nat n) (buffer_data c.(send_queue))).
    by rewrite Ht', Ht, Hq, Hd, take_drop, app_nil_r. }
  rewrite Hself. wp_steps; zbool; cbn [fst].
  - assert (Hnil : buffer_data c1.(send_queue) = []) by (by apply len_zero_nil).
    split_and!; [|by rewrite <- E|done]. split_and!; [|apply Hflow; [done|by trace_simp]|done].
    split; cbn; rewrite ?Hself; [done|by rewrite Hs'| |]; trace_simp; rewrite Hwt.
    + unfold state_ok; cbn. rewrite Hst, E, Had, Hnil. split; [done|]. exists false. naive_solver.
    + unfold marked; cbn. rewrite Hr. naive_solver.
  - split_and!; [|by rewrite <- E|done]. split_and!; [|by apply Hflow|done].
    split; rewrite ?Hself, ?Hwt; [done|by rewrite Hs'| |].
    + unfold state_ok; cbn. rewrite Hst, E, Had. split; [done|]. exists b. naive_solver.
    + unfold marked; cbn. rewrite Hr, Hw. naive_solver.
Qed.

Lemma write_event_spec c ctx ev tr :
  client_inv c tr -> (watchers c.(self) tr).(w_write) = true ->
  wp (tcpclient_write_event c ctx ev) (fun p tr' => post c p.1 tr tr' [] /\
    (buffer_data c.(send_queue) = [] -> p.1.(state) = STATE_CONNECTED /\
       buffer_data p.1.(send_queue) = []) /\
    (Z.land ev EV_WRITE <> 0 -> buffer_data c.(send_queue) <> [] ->
     let n := os tr (Send c.(sd) (buffer_data c.(send_queue))) in
     0 <= n -> p.1.(state) = STATE_CONNECTED /\
       buffer_data p.1.(send_queue) = drop (Z.to_nat n) (buffer_data c.(send_queue)))) tr.
Proof.
  intros Hinv Hw. destruct (connected_inv c tr) as (E & Ha & Hs & b & Hb & Hbs & Hbd); [auto..|].
  assert (b = true) as -> by (by rewrite Hb in Hw).
  pose proof (ci_queue _ _ Hinv) as Hwf. pose proof (buffer_load_data _ Hwf) as Hload.
  unfold tcpclient_write_event. wp_step; zbool.
  { apply wp_ret. split_and!; [by apply post_refl|done|done]. }
  destruct (Z.ltb_spec 0 (buffer_datacount c.(send_queue))) as [Hlt|Hge];
    rewrite datacount_len in * by done.
  2:{ assert (Hnil : buffer_data c.(send_queue) = []).
      { apply len_zero_nil. pose proof (len_nonneg (buffer_data c.(send_queue))). lia. }
      wp_steps. split_and!; [|done|done]. post_tac Hb. rewrite E, Hnil. split; [done|].
      exists false. naive_solver. }
  apply wp_bind. unfold buffer_read, buffer_head. rewrite len_buffer_data by done.
  eapply wp_defined; [exact Hload|]. apply wp_bind, (wp_sys (Send _ _)).
  set (n := os tr (Send _ _)). pose proof (send_at_most tr c.(sd) (buffer_data c.(send_queue))) as Hn.
  assert (Hne : buffer_data c.(send_queue) <> []) by (by intros E0; rewrite E0 in Hlt).
  fold n in Hn. destruct (Z.ltb_spec n 0) as [Hneg|Hpos].
  { wp_steps. split_and!; [|done|intros; lia].
    assert (Hz : Z.to_nat n = 0%nat) by lia.
    eapply post_intro; [done..|trace_simp; fold n; by rewrite Hz, app_nil_r
      |trace_simp; rewrite ?Hb; reflexivity|done|done]. }
  destruct (buffer_consume_spec c.(send_queue) n) as (q & Hc & _);
    [done|done|by rewrite datacount_len by done|].
  rewrite Hc. cbn beta iota zeta. rewrite Z.eqb_refl. cbn [negb].
  set (c1 := if _ && _ then _ else _).
  assert (Hc1 : c1 = set_queue q c \/ c1 = set_failing 0 (set_queue q c))
    by (unfold c1; case_tests; auto).
  clearbody c1. assert (Hq : c1.(send_queue) = q) by (by destruct Hc1 as [-> | ->]).
  change (send_queue (set_queue q c)) with q. rewrite <- Hq.
  eapply wp_mono.
  { eapply (write_event_consumed c c1 _ true n); try done.
    all: try by destruct Hc1 as [-> | ->].
    - by trace_simp.
    - by trace_simp. }
  intros p tr' (Hp & Hst & Hd). split_and!; [done|done|auto].
Qed.

(** A step of [tcpclient_connect] that touches neither the queue nor the watchers. *)
Definition frame c c' tr tr' : Prop :=
  c'.(send_queue) = c.(send_queue) /\ same_client c c' /\ taken tr' = taken tr /\
  watchers c.(self) tr' = watchers c.(self) tr.

Lemma frame_trans c1 c2 c3 tr1 tr2 tr3 :
  frame c1 c2 tr1 tr2 -> frame c2 c3 tr2 tr3 -> frame c1 c3 tr1 tr3.
Proof.
  intros (Hq & (Hs & ? & ? & ? & ?) & Ht & Hw) (Hq' & (? & ? & ? & ? & ?) & Ht' & Hw').
  rewrite Hs in Hw'. split_and!; [congruence|split_and!; congruence|congruence..].
Qed.

Lemma drop_address_spec c tr :
  wp (drop_address c) (fun c' tr' => frame c c' tr tr' /\ c'.(state) = c.(state)) tr.
Proof.
  unfold drop_address. wp_steps; (split; [split_and!; [done|done|by trace_simp|by trace_simp]|done]).
Qed.

Lemma resolve_spec c tr :
  wp (resolve c) (fun '(a, c') tr' => frame c c' tr tr' /\
    match a with
    | Some a => c'.(addr) = Some a /\ c'.(state) = c.(state)
    | None => c'.(addr) = None /\ c'.(state) = STATE_BACKOFF
    end) tr.
Proof.
  unfold resolve. wp_steps;
    (split; [split_and!; [done|done|by trace_simp|by trace_simp]|done]).
Qed.

Lemma post_trans c1 c2 c3 tr1 tr2 tr3 line :
  post c1 c2 tr1 tr2 [] -> post c2 c3 tr2 tr3 line -> post c1 c3 tr1 tr3 line.
Proof.
  intros (_ & (t & Ht & Hd) & (? & ? & ? & ? & ?)) (Hinv & (t' & Ht' & Hd') & (? & ? & ? & ? & ?)).
  split_and!; [done| |split_and!; congruence].
  exists (t ++ t'). rewrite Ht', Ht, <- !app_assoc, Hd'. split; [done|].
  by rewrite app_assoc, Hd, app_nil_r.
Qed.

(** What an attempt to connect leads to. *)
Definition attempt_post c ctx tr (p : Z * tcpclient_t Ctx * Ctx) tr' : Prop :=
  let '(r, c', ctx') := p in
  post c c' tr tr' [] /\ c'.(send_queue) = c.(send_queue) /\
  (r = 0 /\ c'.(state) = STATE_CONNECTING /\ ctx' = ctx /\
     watchers c.(self) tr' = Watch true false false true \/
   (r = 3 /\ c'.(addr) = None \/ (r = 4 \/ r = 5 \/ r = 6) /\ is_Some c'.(addr)) /\
     c'.(state) = STATE_BACKOFF /\ ctx' = c'.(callback_error) EVENT_ERROR ctx [] 0).

Lemma connect_init_spec c ctx tr :
  client_inv c tr -> c.(state) = STATE_INIT ->
  wp (connect_init c ctx) (attempt_post c ctx tr) tr.
Proof.
  intros Hinv E. assert (Hb : watchers c.(self) tr = idle).
  { destruct Hinv as [_ _ Hst _]. unfold state_ok in Hst. by rewrite E in Hst. }
  unfold connect_init. apply wp_bind. eapply wp_mono; [apply drop_address_spec|].
  intros c0 tr0 (Hf0 & Hst0). apply wp_bind. eapply wp_mono; [apply resolve_spec|].
  intros [a c1] tr1 (Hf1 & Hst). cbn beta iota.
  destruct (frame_trans _ _ _ _ _ _ Hf0 Hf1) as (Hq & Hc & Ht & Hw).
  clear Hf0 Hf1. rewrite Hst0, E in Hst. rewrite Hb in Hw. pose proof Hc as (Hself & _).
  destruct a as [a|]; destruct Hst as (Ha & Hst).
  2:{ apply wp_ret. split_and!; [|done|right; split_and!; [left; auto|done|done]].
      eapply post_intro; try done. unfold state_ok. by rewrite Hst. }
  assert (Haddr : is_Some c1.(addr)) by (by rewrite Ha).
  apply wp_bind, (wp_sys (Socket _ _ _)). cbn beta iota.
  destruct (Z.ltb_spec (os tr1 (Socket (ai_family a) (ai_socktype a) (ai_protocol a))) 0).
  { wp_steps. apply wp_ret. split_and!; [|done|right; split_and!; [right; auto|done|done]].
    eapply post_intro; [done..|by trace_simp|trace_simp; exact Hw|done|done]. }
  apply wp_bind.
  set (s := os tr1 _). set (tr2 := tr1 ++ [_]).
  assert (Hcork : wp (if wants_cork c1 a then _ ← sys (SetCork s); mret () else mret ())
    (fun _ tr3 => taken tr3 = taken tr /\ watchers c.(self) tr3 = idle) tr2).
  { wp_steps; subst tr2; trace_simp; done. }
  eapply wp_mono; [exact Hcork|]. intros _ tr3 (Ht3 & Hw3). clearbody tr2 s.
  (* setting non-blocking fails; connecting fails; connecting is under way *)
  wp_steps; apply wp_ret; (split_and!; [eapply post_intro; [done..|by trace_simp|trace_simp;
    rewrite ?Hself; trace_simp; rewrite ?Hw3; reflexivity| |]|done|]).
  1, 4: done.
  1, 3: done.
  1, 2: right; split_and!; [right; split; [by auto|done]|done|done].
  - unfold state_ok; cbn. eauto.
  - by unfold marked; cbn.
  - left. split_and!; [done..|]. trace_simp. rewrite Hself. trace_simp. by rewrite ?Hw3.
Qed.

(** The result of [tcpclient_connect] in each state. *)
Definition connect_post c ctx tr (p : Z * tcpclient_t Ctx * Ctx) tr' : Prop :=
  match c.(state) with
  | STATE_INIT => attempt_post c ctx tr p tr'
  | STATE_CONNECTING | STATE_CONNECTED => p = (1, c, ctx) /\ tr' = tr
  | STATE_BACKOFF =>
      if TCPCLIENT_RETRY_TIMEOUT <? os tr Time - c.(last_error) then attempt_post c ctx tr p tr'
      else p = (2, c, ctx) /\ tr' = tr ++ [Time]
  | STATE_TERMINATED => False
  end.

Lemma connect_eq c ctx tr :
  client_inv c tr -> wp (tcpclient_connect c ctx) (connect_post c ctx tr) tr.
Proof.
  intros Hinv. pose proof (ci_state _ _ Hinv) as Hst. unfold state_ok in Hst.
  unfold tcpclient_connect, connect_post. cbn [connect_rec].
  destruct (state c) eqn:E; [by apply connect_init_spec|by apply wp_ret| |by apply wp_ret|done].
  apply wp_bind, (wp_sys Time). destruct (_ <? _); [|by apply wp_ret].
  set (c0 := tcpclient_set_state _ _).
  assert (Hpost : post c c0 tr (tr ++ [Time]) []) by post_tac Hst.
  eapply wp_mono; [apply connect_init_spec; [apply Hpost|done]|].
  intros [[r c'] ctx'] tr' (Hp & Hq & Hr). split_and!; [by eapply post_trans|done|exact Hr].
Qed.

Lemma connect_spec c ctx tr :
  client_inv c tr ->
  wp (tcpclient_connect c ctx) (fun '(r, c', ctx') tr' => post c c' tr tr' [] /\
    c'.(send_queue) = c.(send_queue) /\
    (c.(state) = STATE_CONNECTING -> c' = c /\ tr' = tr)) tr.
Proof.
  intros Hinv. eapply wp_mono; [by apply connect_eq|].
  intros [[r c'] ctx'] tr'. unfold connect_post, attempt_post.
  assert (Hsame : forall tr1, tr1 = tr \/ tr1 = tr ++ [Time] -> post c c tr tr1 []).
  { intros tr1 [-> | ->]; [by apply post_refl|]. eapply post_intro; [done..|by trace_simp| | |].
    - by trace_simp.
    - apply Hinv.
    - apply Hinv. }
  case_tests; destruct (state c); naive_solver.
Qed.

(** The loop that makes room ends, before [fuel] runs out, because blocks double
    and none has 2^63 bytes. *)
Lemma make_room_spec fuel q n tr :
  buffer_wf q -> 2 ^ 63 <= q.(size) * 2 ^ Z.of_nat fuel ->
  wp (make_room fuel q n) (fun '(ok, q') tr' => grows is_malloc tr tr' /\ buffer_wf q' /\
    buffer_data q' = buffer_data q /\ q.(size) <= q'.(size) /\
    (ok = true -> n <= buffer_spacecount q')) tr.
Proof.
  revert q tr. induction fuel as [|fuel IH]; intros q tr Hwf Hfuel; cbn [make_room];
    destruct (Z.ltb_spec (buffer_spacecount q) n) as [Hlt|Hge];
    try (apply wp_ret; split_and!; done || lia).
  { pose proof (wf_size _ Hwf). lia. }
  apply wp_bind. eapply wp_mono; [by apply buffer_expand_spec|].
  intros [r q1] tr1 ((Hg & Hwf1 & Hd) & Hr). cbn [fst snd] in *.
  destruct Hr as [(-> & Hs & _)|[-> ->]]; cbn [negb Z.eqb]; cbn iota.
  - eapply wp_mono; [apply IH; [done|]|].
    { rewrite Hs. rewrite Nat2Z.inj_succ, Z.pow_succ_r in Hfuel by lia. lia. }
    intros [ok q2] tr2 (Hg2 & Hwf2 & Hd2 & Hs2 & Hok). pose proof (wf_head _ Hwf).
    pose proof (wf_order _ Hwf). pose proof (wf_tail _ Hwf).
    split_and!; [by etrans|done|congruence|lia|done].
  - apply wp_ret. split_and!; [done..|lia|done].
Qed.

(** What a call of [tcpclient_sendall] leads to. *)
Definition sendall_post c buf tr (p : Z * tcpclient_t Ctx * Ctx) tr' : Prop :=
  let '(r, c', _) := p in
  let queued := len (buffer_data c.(send_queue)) in
  post c c' tr tr' (if r =? 0 then buf else []) /\
  (c.(state) = STATE_CONNECTING ->
     c'.(state) = STATE_CONNECTING /\ grows is_malloc tr tr') /\
  (r = 0 /\ is_Some c.(addr) /\ queued < c.(config).(max_send_queue) /\
     buffer_data c'.(send_queue) = buffer_data c.(send_queue) ++ buf \/
   r <> 0 /\ buffer_data c'.(send_queue) = buffer_data c.(send_queue) /\
   (r = 1 /\ c.(addr) = None /\ c' = c \/
    r = 2 /\ c.(config).(max_send_queue) <= queued \/
    r = 4 /\ queued < c.(config).(max_send_queue))).

(** Replacing the queue by one with the same contents. *)
Lemma post_queue c c' q tr tr1 tr' :
  post c c' tr tr1 [] -> grows is_malloc tr1 tr' -> buffer_wf q -> 0 < q.(size) ->
  buffer_data q = buffer_data c'.(send_queue) -> post c (set_queue q c') tr tr' [].
Proof.
  intros (Hinv & (t & Ht & Hd) & Hsame) Hg Hwf Hs Hq.
  destruct (malloc_grows c'.(self) _ _ Hg) as [Hw Ht']. destruct Hinv as [_ _ Hst Hm].
  split_and!; [|exists t; cbn; by rewrite Ht', Ht, Hq|done].
  split; cbn; rewrite ?Hw; [done..| |done].
  unfold state_ok in *; cbn. by rewrite Hq.
Qed.

Lemma realign_if_spec q n tr :
  buffer_wf q ->
  wp (if buffer_spacecount q <? n then buffer_realign q else mret (0, q))
    (fun p tr' => p.1 = 0 /\ tr' = tr /\ buffer_wf p.2 /\ p.2.(size) = q.(size) /\
      buffer_data p.2 = buffer_data q) tr.
Proof.
  intros Hwf. destruct (_ <? n); [|by apply wp_ret].
  eapply wp_mono; [by apply buffer_realign_spec|].
  by intros [r q1] tr1 ((_ & ? & ?) & -> & ? & _ & ?).
Qed.

(** The end of [tcpclient_sendall]: the line is in the queue [q]. *)
Lemma sendall_queued c c1 q buf tr tr1 tr2 :
  post c c1 tr tr1 [] -> grows is_malloc tr1 tr2 -> buffer_wf q -> 0 < q.(size) ->
  buffer_data q = buffer_data c1.(send_queue) ++ buf ->
  wp (if decide (c1.(state) = STATE_CONNECTED) then
        let client := set_write_started true (set_queue q c1) in
        _ ← sys (IoStart client.(self) WriteW); mret client
      else mret (set_queue q c1)) (fun c' tr' => c'.(send_queue) = q /\ post c c' tr tr' buf /\
        (c1.(state) <> STATE_CONNECTED -> c'.(state) = c1.(state) /\ tr' = tr2)) tr2.
Proof.
  intros (Hinv & (t & Ht & Hd) & Hsame) Hg Hwf Hs Hq.
  destruct (malloc_grows c1.(self) _ _ Hg) as [Hw Ht'].
  assert (Hflow : forall c' tr', c'.(send_queue) = q -> taken tr' = taken tr2 -> flow c c' tr tr' buf).
  { intros c' tr' Hcq Htr. exists t. rewrite Htr, Ht', Ht, Hcq, Hq. split; [done|].
    by rewrite app_assoc, Hd, app_nil_r. }
  destruct Hinv as [_ _ Hst Hm]. unfold state_ok in Hst.
  case_decide as E; wp_steps;
    (split; [done|split; [split_and!; [|apply Hflow; [done|by trace_simp]|done]|done]]).
  - rewrite E in Hst. destruct Hst as (Ha & b & Hb & _). rewrite Hb in *.
    split; cbn; trace_simp; rewrite ?Hw; [done..| |]; unfold state_ok, marked in *; cbn.
    + rewrite E. eauto.
    + naive_solver.
  - split; cbn; rewrite ?Hw; [done..| |done]. unfold state_ok; cbn.
    by destruct (state c1).
Qed.

Lemma sendall_spec c ctx buf tr :
  client_inv c tr ->
  wp (tcpclient_sendall c ctx buf) (sendall_post c buf tr) tr.
Proof.
  intros Hinv. unfold tcpclient_sendall. destruct (addr c) as [a|] eqn:Ha.
  2:{ apply wp_ret. split_and!; [by apply post_refl|done|right].
      split_and!; [done..|by left]. }
  apply wp_bind. eapply wp_mono; [by apply connect_spec|].
  intros [[r1 c1] ctx1] tr1 (Hp & Hq & Hcing). cbn beta iota.
  pose proof Hp as (Hinv1 & _ & (_ & Hcfg & _)). pose proof (ci_queue _ _ Hinv1) as Hwf.
  pose proof (ci_size _ _ Hinv1) as Hsize. rewrite Hq in Hwf, Hsize.
  rewrite Hcfg, Hq, datacount_len by done.
  destruct (Z.leb_spec c.(config).(max_send_queue) (len (buffer_data c.(send_queue)))) as [Hfull|Hroom].
  { apply wp_ret. split_and!; [| |right; cbn; split; [done|split; [|by auto]]].
    3:{ by destruct (_ =? 0); cbn; rewrite ?Hq. }
    2:{ intros E. destruct (Hcing E) as [-> ->]. by destruct (_ =? 0). }
    eapply post_trans; [exact Hp|]. destruct (_ =? 0); [|by apply post_refl].
    eapply post_intro; [done..|exact (ci_state _ _ Hinv1)|exact (ci_marked _ _ Hinv1)]. }
  apply wp_bind. eapply wp_mono; [by apply realign_if_spec|].
  intros [r q1] ? (Hr & -> & Hwf1 & Hs1 & Hd1). cbn [fst snd] in *. subst r.
  cbn [negb Z.eqb]. cbn iota.
  apply wp_bind. eapply wp_mono; [apply make_room_spec; [done|unfold room_fuel; lia]|].
  intros [ok q2] tr2 (Hg & Hwf2 & Hd2 & Hs2 & Hok). rewrite Hd1 in Hd2.
  destruct ok; cbn [negb]; cbn iota.
  2:{ apply wp_ret. split_and!; [apply (post_queue _ _ _ _ tr1); try done; [lia|by rewrite Hq]
        | |right; split_and!; [done..|by auto]].
      intros E. by destruct (Hcing E) as [-> ->]. }
  apply wp_bind, buffer_append_spec; [done|by apply Hok|].
  intros q3 q4 Hprod Hwf4 Hs4 Hd4. rewrite Hprod. cbn [snd].
  apply wp_bind. eapply wp_mono; [apply (sendall_queued c c1 q4 buf tr tr1); try done; [lia|]|].
  { by rewrite Hd4, Hd2, Hq. }
  intros c' tr' (Hq' & Hpost & Hstay). apply wp_ret. split_and!; [done| |left].
  { intros E. destruct (Hcing E) as [-> ->]. rewrite E in Hstay. by destruct Hstay as [-> ->]. }
  split_and!; [done|by eexists|done|]. by rewrite Hq', Hd4, Hd2.
Qed.
End invariant.

(** ** What the operations of a client leave alone *)

(** The fields that no operation changes after the initialisation. *)
Definition static {Ctx} (c : tcpclient_t Ctx) :=
  (c.(self), c.(config), (c.(host), c.(port), c.(protocol)),
   (c.(callback_connect), c.(callback_sent), c.(callback_recv), c.(callback_error))).

(** The callbacks other than [callback_sent] do nothing. *)
Definition default_callbacks {Ctx} (c : tcpclient_t Ctx) : Prop :=
  c.(callback_connect) = tcpclient_default_callback /\
  c.(callback_recv) = tcpclient_default_callback /\
  c.(callback_error) = tcpclient_default_callback.

(** A call about the watchers of [o], or about none. *)
Definition only_about (o : nat) (c : call) : Prop :=
  match c with
  | IoStart o' _ | IoStop o' _ | TimerStart o' | TimerStop o' => o' = o
  | EvStart _ _ | EvStop _ _ => False
  | _ => True
  end.

(** A call of the owners of the addresses from [base] up to [n]. *)
Definition about_range (base n : nat) (c : call) : Prop :=
  match c with
  | IoStart o _ | IoStop o _ | TimerStart o | TimerStop o => (base <= o < n)%nat
  | EvStart _ _ | EvStop _ _ => False
  | _ => True
  end.

(** A call of the owners of the addresses from [base] on. *)
Definition about_from (base : nat) (c : call) : Prop :=
  match c with
  | IoStart o _ | IoStop o _ | TimerStart o | TimerStop o => (base <= o)%nat
  | EvStart _ _ | EvStop _ _ => False
  | _ => True
  end.

Lemma only_about_from base o c : (base <= o)%nat -> only_about o c -> about_from base c.
Proof. destruct c; simpl; intros ??; subst; done. Qed.

Lemma from_watchers base o tr tr' :
  grows (about_from base) tr tr' -> (o < base)%nat -> watchers o tr' = watchers o tr.
Proof.
  intros Hg Ho. apply watchers_grows. eapply grows_mono; [|exact Hg].
  intros c Hc. destruct c; simpl in *; try done; lia.
Qed.

Lemma only_about_range base n o c :
  (base <= o < n)%nat -> only_about o c -> about_range base n c.
Proof. destruct c; simpl; intros ??; subst; done. Qed.

Lemma range_not_about base n o c :
  ~ (base <= o < n)%nat -> about_range base n c -> not_about o c.
Proof. destruct c; simpl; try done; intros ?? ->; done. Qed.

Lemma range_watchers base n o tr tr' :
  grows (about_range base n) tr tr' -> ~ (base <= o < n)%nat -> watchers o tr' = watchers o tr.
Proof.
  intros Hg Ho. apply watchers_grows. eapply grows_mono; [|exact Hg].
  intros c. by apply range_not_about.
Qed.

(** Such a call that sends nothing. *)
Definition silent_about (o : nat) (c : call) : Prop :=
  only_about o c /\ match c with Send _ _ => False | _ => True end.

Lemma silent_taken `{OS} o tr tr' : grows (silent_about o) tr tr' -> taken tr' = taken tr.
Proof.
  intros (l & -> & Hl). induction l as [|c l IH] using rev_ind; [by rewrite app_nil_r|].
  apply Forall_app in Hl as [Hl [Hc _]%Forall_cons]. rewrite app_assoc, taken_snoc.
  destruct Hc as [_ Hc]. by destruct c; try done; rewrite app_nil_r; apply IH.
Qed.

Lemma only_not_about o o' c : o <> o' -> only_about o c -> not_about o' c.
Proof. destruct c; simpl; try done; congruence. Qed.

Lemma others_watchers o o' tr tr' :
  grows (only_about o) tr tr' -> o <> o' -> watchers o' tr' = watchers o' tr.
Proof.
  intros Hg Ho. apply watchers_grows. eapply grows_mono; [|exact Hg].
  intros c. by apply only_not_about.
Qed.

Section frame.
Context `{OS} {Ctx : Type}.
Implicit Types (c : tcpclient_t Ctx) (ctx : Ctx) (q : buffer) (o : nat).

(** The operations of a client [c] with default callbacks do not change the
    context, except for the sent callback. *)
Definition kept c ctx (p : tcpclient_t Ctx * Ctx) : Prop :=
  static p.1 = static c /\ (default_callbacks c -> p.2 = ctx).

(** The context after a callback that is the default one. *)
Ltac kept_tac := split; [done|]; intros (Hcc & Hcr & Hce); cbn; by rewrite ?Hcc, ?Hcr, ?Hce.

Lemma kept_error c c1 c2 ctx :
  static c1 = static c -> static c2 = static c1 ->
  kept c ctx (c2, c1.(callback_error) EVENT_ERROR ctx [] 0).
Proof.
  intros H1 H2. split; [cbn; congruence|]. intros (_ & _ & He). cbn.
  injection H1 as _ _ _ _ _ _ _ _ H1. by rewrite H1, He.
Qed.

Lemma keeps_make_room o fuel q n : keeps (only_about o) (fun _ => True) (make_room fuel q n).
Proof.
  revert q. induction fuel as [|fuel IH]; intros q; cbn [make_room];
    unfold buffer_expand, buffer_newsize, myrealloc; keeps_auto; auto.
Qed.

Lemma keeps_realign P q : keeps P (fun _ => True) (buffer_realign q).
Proof. unfold buffer_realign. keeps_auto. Qed.

Lemma keeps_timeout c ctx :
  keeps (silent_about c.(self)) (kept c ctx) (tcpclient_connect_timeout c ctx).
Proof.
  unfold tcpclient_connect_timeout.
  apply (keeps_bind _ (fun c1 => static c1 = static c)); [by keeps_tac|].
  intros c1 Hc1. keeps_tac; try done. by apply kept_error.
Qed.

Lemma keeps_connected c ctx ev :
  keeps (silent_about c.(self)) (kept c ctx) (tcpclient_connected c ctx ev).
Proof.
  unfold tcpclient_connected. keeps_tac; try done; kept_tac.
Qed.

Lemma keeps_read_event c ctx ev :
  keeps (silent_about c.(self)) (kept c ctx) (tcpclient_read_event c ctx ev).
Proof.
  unfold tcpclient_read_event. keeps_tac; try done; [kept_tac..|].
  - apply (keeps_bind _ (fun c1 => static c1 = static c)); [by keeps_tac|]. intros c1 Hc1.
    assert (Hs : c1.(self) = c.(self)) by (by injection Hc1).
    apply (keeps_bind _ (fun c2 => static c2 = static c)).
    { destruct (write_started c1); [apply keeps_sys; [done|]|]; by keeps_tac. }
    intros c2 Hc2. assert (Hs2 : c2.(self) = c.(self)) by (by injection Hc2).
    keeps_tac; try done. by apply kept_error.
Qed.

Lemma keeps_write_event c ctx ev :
  keeps (only_about c.(self)) (fun p => static p.1 = static c) (tcpclient_write_event c ctx ev).
Proof.
  unfold tcpclient_write_event, buffer_read. keeps_tac; try done; by case_match.
Qed.

Lemma keeps_resolve c :
  keeps (only_about c.(self)) (fun p => static p.2 = static c) (resolve c).
Proof. unfold resolve. keeps_tac; done. Qed.

Lemma keeps_drop_address c :
  keeps (only_about c.(self)) (fun c' => static c' = static c) (drop_address c).
Proof. unfold drop_address. keeps_tac; done. Qed.

(** [kept] for the operations that also return a code. *)
Definition kept3 c ctx (p : Z * tcpclient_t Ctx * Ctx) : Prop := kept c ctx (p.1.2, p.2).

Lemma keeps_connect_init c ctx :
  keeps (only_about c.(self)) (kept3 c ctx) (connect_init c ctx).
Proof.
  unfold connect_init, connect_error. eapply keeps_bind; [apply keeps_drop_address|]. intros c1 Hc1.
  assert (Hs1 : c1.(self) = c.(self)) by (by injection Hc1). rewrite <- Hs1.
  eapply keeps_bind; [apply keeps_resolve|]. intros [a c2] Hc2. cbn [snd] in Hc2.
  rewrite Hc1 in Hc2. assert (Hs2 : c2.(self) = c1.(self)) by (injection Hc2; congruence).
  destruct a as [a|]; cbn beta iota; [|apply keeps_ret; by apply kept_error].
  keeps_tac; try done; try by apply kept_error.
  apply (keeps_bind _ (fun _ => True)); [keeps_tac; done|]. intros _ _.
  keeps_tac; try done; by apply kept_error.
Qed.

Lemma keeps_connect c ctx :
  keeps (only_about c.(self)) (kept3 c ctx) (tcpclient_connect c ctx).
Proof.
  unfold tcpclient_connect. cbn [connect_rec].
  destruct (state c); keeps_tac; try done.
  - apply keeps_connect_init.
  - apply (keeps_connect_init (tcpclient_set_state STATE_INIT c)).
Qed.

Lemma keeps_sendall c ctx buf :
  keeps (only_about c.(self)) (kept3 c ctx) (tcpclient_sendall c ctx buf).
Proof.
  unfold tcpclient_sendall. destruct (addr c); [|by apply keeps_ret].
  eapply keeps_bind; [apply keeps_connect|]. intros [[r c1] ctx1] [Hc1 Hctx]. cbn [fst snd] in *.
  assert (Hs1 : c1.(self) = c.(self)) by (by injection Hc1).
  assert (Hkept : forall r c2, static c2 = static c1 -> kept3 c ctx (r, c2, ctx1)).
  { intros r2 c2 Hc2. split; [cbn; congruence|done]. }
  destruct (_ <=? _); [apply keeps_ret, Hkept; by destruct (_ =? _)|].
  apply (keeps_bind _ (fun _ => True)).
  { destruct (_ <? _); [apply keeps_realign|by apply keeps_ret]. }
  intros [r1 q1] _. destruct (negb _); [by apply keeps_ret, Hkept|].
  eapply keeps_bind; [apply keeps_make_room|]. intros [ok q2] _.
  destruct (negb ok); [by apply keeps_ret, Hkept|]. unfold buffer_write.
  apply (keeps_bind _ (fun _ => True)); [keeps_tac; done|]. intros q3 _.
  apply (keeps_bind _ (fun c3 => static c3 = static c1)); [case_decide; keeps_tac; done|].
  intros c3 Hc3. by apply keeps_ret, Hkept.
Qed.

Lemma keeps_stop_if o b k : keeps (only_about o) (fun _ => True) (stop_if b o k).
Proof. unfold stop_if. keeps_tac; done. Qed.

Lemma keeps_init c cfg h p proto :
  keeps is_malloc (fun r => r.2.(self) = c.(self)) (tcpclient_init c cfg h p proto).
Proof.
  unfold tcpclient_init, copy_string, buffer_init, buffer_allocate, buffer_newsize, myrealloc.
  keeps_tac; try done;
    repeat (apply (keeps_bind _ (fun _ => True)); [keeps_auto|intros ? _; keeps_tac; try done]).
Qed.

Lemma keeps_destroy c :
  keeps (only_about c.(self)) (fun _ => True) (tcpclient_destroy c).
Proof.
  unfold tcpclient_destroy. keeps_tac; [done|].
  do 3 (eapply keeps_bind; [apply keeps_stop_if|intros _ _]).
  keeps_tac; [done|]. apply (keeps_bind _ (fun _ => True)); [keeps_tac; done|]. intros _ _.
  apply (keeps_bind _ (fun _ => True)); [|intros; by keeps_tac].
  unfold buffer_destroy. keeps_tac; done.
Qed.
End frame.

(** ** The client as a state machine *)

(** What can happen to a client: libev calls a handler, or the program calls
    [tcpclient_connect] or [tcpclient_sendall]. *)
Inductive client_event :=
  | ETimeout
  | EConnected (events : Z)
  | ERead (events : Z)
  | EWrite (events : Z)
  | EConnect
  | ESendall (line : bytes).

(** libev delivers events of active watchers only. *)
Definition enabled {Ctx} (e : client_event) (c : tcpclient_t Ctx) (tr : trace) : bool :=
  let w := watchers c.(self) tr in
  match e with
  | ETimeout => w.(w_timer)
  | EConnected _ => w.(w_connect)
  | ERead _ => w.(w_read)
  | EWrite _ => w.(w_write)
  | EConnect | ESendall _ => true
  end.

(** The bytes returned are those of an accepted line.  libev stops a one-shot
    timer before it calls the handler. *)
Definition run_event `{OS} {Ctx} (c : tcpclient_t Ctx) (ctx : Ctx) (e : client_event)
    : M (tcpclient_t Ctx * Ctx * bytes) :=
  match e with
  | ETimeout =>
      _ ← sys (TimerStop c.(self));
      '(c, ctx) ← tcpclient_connect_timeout c ctx; mret (c, ctx, [])
  | EConnected ev => '(c, ctx) ← tcpclient_connected c ctx ev; mret (c, ctx, [])
  | ERead ev => '(c, ctx) ← tcpclient_read_event c ctx ev; mret (c, ctx, [])
  | EWrite ev => '(c, ctx) ← tcpclient_write_event c ctx ev; mret (c, ctx, [])
  | EConnect => '(_, c, ctx) ← tcpclient_connect c ctx; mret (c, ctx, [])
  | ESendall line =>
      '(r, c, ctx) ← tcpclient_sendall c ctx line;
      mret (c, ctx, if r =? 0 then line else [])
  end.

(** The events that libev delivers: all but the calls of the program. *)
Definition io_event (e : client_event) : bool :=
  match e with EConnect | ESendall _ => false | _ => true end.

(** A client that was just initialised. *)
Definition fresh {Ctx} (c : tcpclient_t Ctx) (tr : trace) : Prop :=
  client_inv c tr /\ c.(state) = STATE_INIT /\ buffer_data c.(send_queue) = [].

(** The states a client can reach, with the bytes that [tcpclient_sendall] has
    accepted and those that [send] has taken.  The rest of the program may run
    between two events, as long as it leaves the watchers of the client alone;
    it may change the callback context. *)
Inductive reach `{OS} {Ctx} : tcpclient_t Ctx -> Ctx -> trace -> bytes -> bytes -> Prop :=
  | reach_fresh c ctx tr :
      fresh c tr -> reach c ctx tr [] []
  | reach_event c ctx tr accepted sent e c' ctx' tr' line t :
      reach c ctx tr accepted sent ->
      enabled e c tr = true ->
      run_event c ctx e tr = Some ((c', ctx', line), tr') ->
      taken tr' = taken tr ++ t ->
      reach c' ctx' tr' (accepted ++ line) (sent ++ t)
  | reach_other c ctx ctx' tr tr' accepted sent :
      reach c ctx tr accepted sent ->
      grows (not_about c.(self)) tr tr' ->
      reach c ctx' tr' accepted sent.

Section machine.
Context `{OSLaws} {Ctx : Type}.
Implicit Types (c : tcpclient_t Ctx) (ctx : Ctx) (tr : trace) (e : client_event).

Lemma event_spec c ctx e tr :
  client_inv c tr -> enabled e c tr = true ->
  wp (run_event c ctx e) (fun '(c', ctx', line) tr' => post c c' tr tr' line) tr.
Proof.
  intros Hinv He. destruct e as [|ev|ev|ev| |buf]; cbn [run_event enabled] in *.
  - apply wp_bind, (wp_sys (TimerStop _)), wp_bind. eapply wp_mono; [by apply timeout_spec|].
    intros [c' ctx'] tr' [Hp _]. by apply wp_ret.
  - apply wp_bind. eapply wp_mono; [by apply connected_spec|]. intros [c' ctx'] tr' Hp.
    by apply wp_ret.
  - apply wp_bind. eapply wp_mono; [by apply read_event_spec|]. intros [c' ctx'] tr' Hp.
    by apply wp_ret.
  - apply wp_bind. eapply wp_mono; [by apply write_event_spec|]. intros [c' ctx'] tr' [Hp _].
    by apply wp_ret.
  - apply wp_bind. eapply wp_mono; [by apply connect_spec|]. intros [[r c'] ctx'] tr' [Hp _].
    by apply wp_ret.
  - apply wp_bind. eapply wp_mono; [by apply sendall_spec|]. intros [[r c'] ctx'] tr' [Hp _].
    by apply wp_ret.
Qed.

(** What a delivered event does to the context: the sent callback gets the bytes
    that leave the queue, and nothing else happens to either. *)
Definition reported c ctx (p : tcpclient_t Ctx * Ctx) : Prop :=
  (p.2 = ctx /\ buffer_data p.1.(send_queue) = buffer_data c.(send_queue)) \/
  exists n, 0 <= n <= len (buffer_data c.(send_queue)) /\
    p.2 = c.(callback_sent) EVENT_SENT ctx (take (Z.to_nat n) (buffer_data c.(send_queue))) n /\
    buffer_data p.1.(send_queue) = drop (Z.to_nat n) (buffer_data c.(send_queue)).

Lemma write_event_reported c ctx ev tr :
  buffer_wf c.(send_queue) -> default_callbacks c ->
  wp (tcpclient_write_event c ctx ev) (fun p _ => reported c ctx p) tr.
Proof.
  intros Hwf (_ & _ & He). unfold tcpclient_write_event. wp_step; [by apply wp_ret; left|].
  rewrite datacount_len by done. wp_step; [|by wp_steps; left].
  apply wp_bind. unfold buffer_read, buffer_head. rewrite len_buffer_data by done.
  eapply wp_defined; [by apply buffer_load_data|]. apply wp_bind, (wp_sys (Send _ _)).
  set (n := os tr (Send _ _)). pose proof (send_at_most tr c.(sd) (buffer_data c.(send_queue))) as Hn.
  fold n in Hn. wp_step; zbool; [wp_steps; left; split; [cbn; by rewrite He|done]|].
  destruct (buffer_consume_spec c.(send_queue) n) as (q & Hc & _ & _ & Hq);
    [done|done|by rewrite datacount_len by done|].
  rewrite Hc. cbn beta iota zeta. rewrite Z.eqb_refl. cbn [negb].
  set (c1 := if _ && _ then _ else _).
  assert (Hc1 : c1.(send_queue) = q) by (unfold c1; by case_tests).
  clearbody c1. wp_steps; right; exists n; cbn; by rewrite Hc1.
Qed.

Lemma event_reported c ctx e tr :
  client_inv c tr -> default_callbacks c -> enabled e c tr = true -> io_event e = true ->
  wp (run_event c ctx e) (fun '(c', ctx', _) tr' => post c c' tr tr' [] /\
    grows (only_about c.(self)) tr tr' /\ static c' = static c /\ reported c ctx (c', ctx')) tr.
Proof.
  intros Hinv Hcb He Hio.
  assert (Hsil : forall c' ctx' tr0 tr', post c c' tr tr' [] -> kept c ctx (c', ctx') ->
    grows (silent_about c.(self)) tr0 tr' -> grows (silent_about c.(self)) tr tr0 ->
    post c c' tr tr' [] /\ grows (only_about c.(self)) tr tr' /\ static c' = static c /\
      reported c ctx (c', ctx')).
  { intros c' ctx' tr0 tr' Hp [Hstat Hk] Hg Hg0.
    assert (Hg' : grows (silent_about c.(self)) tr tr') by (by etrans).
    split_and!; [done|eapply grows_mono; [|exact Hg']; by intros ? []|done|].
    left. split; [by apply Hk|]. destruct Hp as (_ & (t & Ht & Hd) & _).
    rewrite (silent_taken _ _ _ Hg') in Ht.
    destruct t as [|x t]; [|apply (f_equal length) in Ht; rewrite length_app in Ht; simpl in Ht; lia].
    by rewrite app_nil_r in Hd. }
  destruct e as [|ev|ev|ev| |buf]; cbn [run_event enabled] in *; try discriminate Hio.
  - apply wp_bind, (wp_sys (TimerStop _)), wp_bind.
    eapply wp_mono; [apply wp_keeps; [by apply timeout_spec|apply keeps_timeout]|].
    intros [c' ctx'] tr' ([Hp _] & Hg & Hk). apply wp_ret.
    eapply Hsil; [done|done|done|by apply grows_one].
  - apply wp_bind. eapply wp_mono; [apply wp_keeps; [by apply connected_spec|apply keeps_connected]|].
    intros [c' ctx'] tr' (Hp & Hg & Hk). by eapply wp_ret, Hsil.
  - apply wp_bind. eapply wp_mono; [apply wp_keeps; [by apply read_event_spec|apply keeps_read_event]|].
    intros [c' ctx'] tr' (Hp & Hg & Hk). by eapply wp_ret, Hsil.
  - apply wp_bind. pose proof (ci_queue _ _ Hinv) as Hwf.
    eapply wp_mono; [apply wp_keeps; [|apply keeps_write_event]|].
    { apply wp_conj; [by apply write_event_spec|by apply write_event_reported]. }
    intros [c' ctx'] tr' ([[Hp _] Hr] & Hg & Hs). by apply wp_ret.
Qed.

Lemma client_inv_grows c tr tr' :
  client_inv c tr -> grows (not_about c.(self)) tr tr' -> client_inv c tr'.
Proof.
  intros [Hq Hs Hst Hm] Hg. pose proof (watchers_grows _ _ _ Hg) as Hw. by split; rewrite ?Hw.
Qed.

Lemma reach_inv c ctx tr accepted sent :
  reach c ctx tr accepted sent ->
  client_inv c tr /\ sent ++ buffer_data c.(send_queue) = accepted.
Proof.
  induction 1 as [c ctx tr (Hinv & _ & Hd)
    |c ctx tr acc snt e c' ctx' tr' line t _ [Hinv Hflow] He Hrun Ht
    |c ctx ctx' tr tr' acc snt _ [Hinv Hflow] Hg].
  - by rewrite Hd.
  - destruct (wp_inv _ _ _ (event_spec c ctx e tr Hinv He)) as (p & tr1 & E & Hp).
    rewrite Hrun in E. injection E as <- <-. destruct Hp as (Hinv' & (t' & Ht' & Hd) & _).
    rewrite Ht in Ht'. apply app_inv_head in Ht' as ->. split; [done|].
    by rewrite <- app_assoc, Hd, app_assoc, Hflow.
  - split; [by eapply client_inv_grows|done].
Qed.

(** C8. tcpclient.c, safety of the state machine: however libev interleaves the
    events of a client with each other and with the rest of the program, and
    whatever the kernel and the allocator answer, the client keeps its
    invariant - its queue is a well-formed buffer, the watchers that are
    active are exactly those its state calls for and are marked as started -
    and no event has undefined behaviour or fails to terminate. *)
Theorem client_safe c ctx tr accepted sent e :
  reach c ctx tr accepted sent -> enabled e c tr = true ->
  client_inv c tr /\ is_Some (run_event c ctx e tr).
Proof.
  intros [Hinv _]%reach_inv He. split; [done|].
  destruct (wp_inv _ _ _ (event_spec c ctx e tr Hinv He)) as (p & tr1 & -> & _). by eexists.
Qed.

(** C4. tcpclient.c loses, duplicates and reorders nothing: at every reachable
    point, the bytes handed to [send] and taken by it, followed by the bytes
    still queued, are exactly the lines that [tcpclient_sendall] accepted, in
    the order in which it accepted them - across errors, timeouts, reconnects
    and failed allocations. *)
Theorem client_stream c ctx tr accepted sent :
  reach c ctx tr accepted sent -> accepted = sent ++ buffer_data c.(send_queue).
Proof. by intros [_ <-]%reach_inv. Qed.

(** C32. tcpclient.c never leaves a connected client deaf or its queue forgotten:
    in the state CONNECTED the read watcher is active, and the write watcher is
    active whenever there is something to send; while backing off, no watcher
    and no timer is. *)
Theorem client_watches c ctx tr accepted sent :
  reach c ctx tr accepted sent ->
  match c.(state) with
  | STATE_CONNECTED => enabled (ERead EV_READ) c tr = true /\
      (buffer_data c.(send_queue) <> [] -> enabled (EWrite EV_WRITE) c tr = true)
  | STATE_INIT | STATE_BACKOFF => watchers c.(self) tr = idle
  | _ => True
  end.
Proof.
  intros [[_ _ Hst _] _]%reach_inv. unfold state_ok in Hst. unfold enabled.
  destruct (state c); try done. destruct Hst as (_ & b & -> & ?). by split.
Qed.
End machine.

(** ** Initialisation *)

Section init.
Context `{OSLaws, !Plenty} {Ctx : Type}.

Lemma copy_string_plenty t (Q : option bytes -> trace -> Prop) tr :
  len t < 2 ^ 62 -> NUL ∉ t ->
  (forall tr', grows is_malloc tr tr' -> Q (Some t) tr') -> wp (copy_string t) Q tr.
Proof.
  intros Ht Hn HQ. unfold copy_string. rewrite cstr_id by done. pose proof (len_nonneg t).
  apply wp_bind, wp_malloc_plenty; [lia|]. intros ? _. apply wp_ret, HQ. auto with relay.
Qed.

Lemma init_queue_plenty {A} (k : buffer -> M A) q Q tr :
  (forall q' tr', grows is_malloc tr tr' -> buffer_wf q' -> q'.(size) = DEFAULT_BUFFER_SIZE ->
     buffer_data q' = [] -> wp (k q') Q tr') ->
  wp ('(_, q) ← buffer_init q; '(_, q) ← buffer_newsize q DEFAULT_BUFFER_SIZE; k q) Q tr.
Proof.
  intros HQ. apply wp_bind. unfold buffer_init, buffer_allocate.
  apply wp_bind, wp_malloc_plenty; [done|]. intros cells Hcells. apply wp_ret.
  assert (Hwf : buffer_wf (Buffer (Cells cells) 0 0 INITIAL_BUFFER_SIZE))
    by (by apply buffer_wf_intro).
  apply wp_bind. unfold buffer_newsize, myrealloc. cbn [ptr size head tail].
  apply wp_bind, wp_bind, wp_malloc_plenty; [done|]. intros cells' Hcells'.
  rewrite load_ok by (done || lia). apply wp_bind, wp_ret.
  assert (Hd : len (take (Z.to_nat INITIAL_BUFFER_SIZE) (drop (Z.to_nat 0) cells))
               = INITIAL_BUFFER_SIZE) by (unfold INITIAL_BUFFER_SIZE in *; lens).
  rewrite store_ok by (rewrite ?Hd, ?Hcells'; done). apply wp_bind, wp_ret, wp_ret, wp_ret.
  apply HQ; [|apply buffer_wf_intro; try done|done|].
  - etrans; by apply grows_one.
  - rewrite len_store; rewrite ?Hd, ?Hcells'; done.
  - by unfold buffer_data.
Qed.

(** For strings of any size: when it succeeds, the client is fresh. *)
Lemma tcpclient_init_spec (c0 : tcpclient_t Ctx) cfg h p proto tr :
  watchers c0.(self) tr = idle ->
  wp (tcpclient_init c0 cfg (Some h) (Some p) proto) (fun '(r, c) tr' =>
    grows is_malloc tr tr' /\
    (r = 0 -> fresh c tr' /\ c.(self) = c0.(self) /\ c.(config) = cfg /\ default_callbacks c /\
      (c.(host), c.(port), c.(protocol)) = (cstr h, cstr p, cstr (default (lit "tcp") proto)))) tr.
Proof.
  intros Hidle.
  assert (Hcopy : forall t (k : option bytes -> M (Z * tcpclient_t Ctx)) Q tr1,
    grows is_malloc tr tr1 ->
    (forall tr', grows is_malloc tr tr' -> wp (k None) Q tr') ->
    (forall tr', grows is_malloc tr tr' -> wp (k (Some (cstr t))) Q tr') ->
    wp (copy_string t ≫= k) Q tr1).
  { intros t k Q tr1 Hg Hnull Hk. apply wp_bind. pose proof (len_nonneg (cstr t)).
    unfold copy_string. apply wp_bind, wp_malloc; [lia| |].
    - apply wp_ret, Hnull. etrans; [exact Hg|by apply grows_one].
    - intros cells _ _. apply wp_ret, Hk. etrans; [exact Hg|by apply grows_one]. }
  unfold tcpclient_init. apply Hcopy; [done|by intros; apply wp_ret|]. intros tr1 Hg1.
  apply Hcopy; [done|by intros; apply wp_ret|]. intros tr2 Hg2.
  assert (Hk : forall r tr3, grows is_malloc tr tr3 ->
    (forall u, r = Some u -> u = cstr (default (lit "tcp") proto)) ->
    wp (match r with
        | None => mret (1, TcpClient c0.(callback_connect) c0.(callback_sent)
            c0.(callback_recv) c0.(callback_error) c0.(self) c0.(connect_started)
            c0.(read_started) c0.(write_started) c0.(name) None c0.(send_queue) STATE_INIT 0 0
            (-1) SOCK_DGRAM c0.(host) c0.(port) c0.(protocol) cfg)
        | Some proto' =>
            '(_, q) ← buffer_init c0.(send_queue);
            '(_, q) ← buffer_newsize q DEFAULT_BUFFER_SIZE;
            mret (0, TcpClient tcpclient_default_callback tcpclient_default_callback
              tcpclient_default_callback tcpclient_default_callback c0.(self)
              false false false (lit "UNRESOLVED") None q STATE_INIT 0 0 (-1)
              SOCK_DGRAM (cstr h) (cstr p) proto' cfg)
        end) (fun '(r, c) tr' => grows is_malloc tr tr' /\
    (r = 0 -> fresh c tr' /\ c.(self) = c0.(self) /\ c.(config) = cfg /\ default_callbacks c /\
      (c.(host), c.(port), c.(protocol)) = (cstr h, cstr p, cstr (default (lit "tcp") proto)))) tr3).
  { intros [proto'|] tr3 Hg3 Hu; [|by apply wp_ret]. rewrite (Hu _ eq_refl).
    apply init_queue_plenty. intros q tr4 Hg4 Hwf Hs Hd. apply wp_ret.
    assert (Hg : grows is_malloc tr tr4) by (by etrans).
    destruct (malloc_grows c0.(self) _ _ Hg) as [Hw _]. split; [done|]. intros _.
    split_and!; [split_and!|..]; try done. split; cbn; rewrite ?Hw, ?Hidle; [done|by rewrite Hs|done..]. }
  destruct proto as [proto|]; apply Hcopy; try done; intros tr3 Hg3.
  all: first [by apply (Hk None)|apply (Hk (Some _)); [done|by intros ? [= <-]]].
Qed.

(** tcpclient.c: when memory suffices, [tcpclient_init] succeeds and leaves a
    client that is idle in [STATE_INIT] with an empty queue of 64 KiB, holds
    copies of its host, port and protocol ("tcp" when none is given), and calls
    back to nothing. *)
Theorem tcpclient_init_fresh (c0 : tcpclient_t Ctx) cfg h p proto tr :
  watchers c0.(self) tr = idle ->
  Forall (fun t => len t < 2 ^ 62 /\ NUL ∉ t) [h; p; default (lit "tcp") proto] ->
  wp (tcpclient_init c0 cfg (Some h) (Some p) proto) (fun '(r, c) tr' =>
    r = 0 /\ fresh c tr' /\ c.(self) = c0.(self) /\ c.(config) = cfg /\
    c.(send_queue).(size) = DEFAULT_BUFFER_SIZE /\ c.(addr) = None /\
    (c.(host), c.(port), c.(protocol)) = (h, p, default (lit "tcp") proto) /\
    (forall ev ctx d n, c.(callback_sent) ev ctx d n = ctx)) tr.
Proof.
  intros Hidle Hok. rewrite !Forall_cons in Hok.
  destruct Hok as ((Hh & Hhn) & (Hp & Hpn) & (Ht & Htn) & _). unfold tcpclient_init.
  apply wp_bind, copy_string_plenty; [done..|]. intros tr1 Hg1.
  apply wp_bind, copy_string_plenty; [done..|]. intros tr2 Hg2.
  apply wp_bind. eapply (wp_mono _ (fun r tr' => r = Some (default (lit "tcp") proto) /\
    grows is_malloc tr2 tr')).
  { by destruct proto; apply copy_string_plenty. }
  intros r tr3 [-> Hg3].
  apply init_queue_plenty. intros q tr4 Hg4 Hwf Hs Hd. apply wp_ret.
  assert (Hg : grows is_malloc tr tr4) by (do 3 (etrans; [done|]); done).
  destruct (malloc_grows c0.(self) _ _ Hg) as [Hw _].
  split_and!; [done| |done..]. split_and!; [|done..].
  split; cbn; rewrite ?Hw, ?Hidle; [done|by rewrite Hs|done..].
Qed.
End init.

(** ** Progress *)

(** libev calls the write handler, at most [n] times, while its watcher is active. *)
Fixpoint deliver_writes `{OS} {Ctx} (n : nat) (c : tcpclient_t Ctx) (ctx : Ctx)
    : M (tcpclient_t Ctx * Ctx) :=
  match n with
  | O => mret (c, ctx)
  | S n => fun tr =>
      if enabled (EWrite EV_WRITE) c tr then
        ('(c, ctx) ← tcpclient_write_event c ctx EV_WRITE; deliver_writes n c ctx) tr
      else Some ((c, ctx), tr)
  end.

(** The socket takes something of whatever it is given. *)
Definition accepting `{OS} : Prop := forall tr s d, d <> [] -> 0 < os tr (Send s d).

Section progress.
Context `{OSLaws} {Ctx : Type}.
Implicit Types (c : tcpclient_t Ctx) (ctx : Ctx) (tr : trace).

Lemma deliver_writes_spec n c ctx tr :
  accepting -> client_inv c tr -> c.(state) = STATE_CONNECTED ->
  (length (buffer_data c.(send_queue)) <= n)%nat ->
  wp (deliver_writes n c ctx) (fun '(c', _) tr' => c'.(state) = STATE_CONNECTED /\
    buffer_data c'.(send_queue) = [] /\ taken tr' = taken tr ++ buffer_data c.(send_queue)) tr.
Proof.
  intros Hacc. revert c ctx tr. induction n as [|n IH]; intros c ctx tr Hinv Hst Hn.
  { apply wp_ret. assert (Hnil : buffer_data c.(send_queue) = []) by (apply length_zero_iff_nil; lia).
    by rewrite Hnil, app_nil_r. }
  cbn [deliver_writes]. unfold wp. destruct (enabled _ c tr) eqn:He.
  2:{ assert (Hnil : buffer_data c.(send_queue) = []).
      { destruct (buffer_data c.(send_queue)) as [|x d] eqn:Hd; [done|].
        pose proof (ci_state _ _ Hinv) as Hok. unfold state_ok in Hok. rewrite Hst, Hd in Hok.
        destruct Hok as (_ & b & Hb & Hbd). unfold enabled in He. rewrite Hb in He.
        cbn in He. by rewrite Hbd in He. }
      by rewrite Hnil, app_nil_r. }
  change (wp ('(c, ctx) ← tcpclient_write_event c ctx EV_WRITE; deliver_writes n c ctx)
    (fun '(c', _) tr' => c'.(state) = STATE_CONNECTED /\
      buffer_data c'.(send_queue) = [] /\ taken tr' = taken tr ++ buffer_data c.(send_queue)) tr).
  apply wp_bind. eapply wp_mono; [by apply write_event_spec|].
  intros [c1 ctx1] tr1 (Hp & Hempty & Hsent). cbn [fst] in *.
  pose proof Hp as (Hinv1 & (t & Ht & Hflow) & _). rewrite app_nil_r in Hflow.
  assert (H1 : c1.(state) = STATE_CONNECTED /\ (length (buffer_data c1.(send_queue)) <= n)%nat).
  { destruct (decide (buffer_data c.(send_queue) = [])) as [Hnil|Hne].
    - destruct (Hempty Hnil) as [-> ->]. simpl. split; [done|lia].
    - pose proof (Hacc tr c.(sd) _ Hne).
      destruct (Hsent ltac:(done) Hne ltac:(lia)) as [-> ->]. split; [done|].
      rewrite length_drop. assert (length (buffer_data c.(send_queue)) <> 0)%nat
        by (by rewrite length_zero_iff_nil). lia. }
  destruct H1 as [Hst1 Hn1]. eapply wp_mono; [by apply IH|].
  intros [c2 ctx2] tr2 (? & ? & Ht2). by rewrite Ht2, Ht, <- app_assoc, Hflow.
Qed.

(** C33. tcpclient.c, progress: when a client is connected and its socket takes at
    least one byte of whatever it is offered, as many write events as there
    are queued bytes are enough to send all of them, in order; libev does
    deliver these events, because the write watcher stays active until the
    queue is empty. *)
Theorem client_drains c ctx tr accepted sent n :
  accepting -> reach c ctx tr accepted sent -> c.(state) = STATE_CONNECTED ->
  (length (buffer_data c.(send_queue)) <= n)%nat ->
  wp (deliver_writes n c ctx) (fun '(c', _) tr' => c'.(state) = STATE_CONNECTED /\
    buffer_data c'.(send_queue) = [] /\
    exists t, taken tr' = taken tr ++ t /\ sent ++ t = accepted) tr.
Proof.
  intros Hacc [Hinv Hflow]%reach_inv Hst Hn.
  eapply wp_mono; [by apply deliver_writes_spec|].
  intros [c' ctx'] tr' (? & ? & Ht). eauto 10.
Qed.
End progress.

(** ** The operations, case by case *)

Section operations.
Context `{OSLaws} {Ctx : Type}.
Implicit Types (c : tcpclient_t Ctx) (ctx : Ctx) (tr : trace).

(** tcpclient.c, [tcpclient_connect]: 1 and no effect while connecting or
    connected; 2 and no effect but a look at the clock while at most one
    second has passed since the last error; otherwise one attempt, which ends
    either in CONNECTING, with the connect watcher and the timer active and the
    result 0, or in BACKOFF, with no watcher active, the error callback called
    once, and a result of 3 to 6 that tells what failed.  The queue is never
    touched. *)
Theorem tcpclient_connect_results c ctx tr accepted sent :
  reach c ctx tr accepted sent ->
  wp (tcpclient_connect c ctx) (fun p tr' => connect_post c ctx tr p tr' /\
    p.1.2.(send_queue) = c.(send_queue)) tr.
Proof.
  intros [Hinv _]%reach_inv. apply wp_conj; [by apply connect_eq|].
  eapply wp_mono; [by apply connect_spec|]. by intros [[r c'] ctx'] tr' (_ & Hq & _).
Qed.

(** tcpclient.c, [tcpclient_sendall] is all or nothing: it accepts a line
    (result 0) by appending the whole of it to the queue, and only if the
    client has an address and the queue is below [max_send_queue]; otherwise
    it leaves the queue as it is and says why: 1 without an address, 2 for a
    full queue, 4 without memory.  The result 3 does not happen.  Hence the
    queue never exceeds [max_send_queue] by a whole line or more. *)
Theorem tcpclient_sendall_results c ctx line tr accepted sent :
  reach c ctx tr accepted sent ->
  wp (tcpclient_sendall c ctx line) (fun '(r, c', _) _ =>
    let q := buffer_data c.(send_queue) in
    let q' := buffer_data c'.(send_queue) in
    let limit := c.(config).(max_send_queue) in
    match r with
    | 0 => is_Some c.(addr) /\ len q < limit /\ q' = q ++ line
    | 1 => c.(addr) = None /\ c' = c
    | 2 => limit <= len q /\ q' = q
    | 4 => len q < limit /\ q' = q
    | _ => False
    end /\ len q' <= Z.max (len q) (limit - 1 + len line)) tr.
Proof.
  intros [Hinv _]%reach_inv. eapply wp_mono; [by apply sendall_spec|].
  intros [[r c'] ctx'] tr' (_ & _ & [(-> & ? & ? & ->)|(_ & -> & Hr)]); cbn zeta.
  - rewrite len_app. split; [done|lia].
  - split; [|lia]. destruct Hr as [(-> & ? & ?)|[[-> ?]|[-> ?]]]; auto.
Qed.

(** [stop_if] on the mark of a watcher stops the watcher. *)
Lemma stop_if_spec b o k tr w :
  watchers o tr = w -> (b = false -> set_io k false w = w) ->
  wp (stop_if b o k) (fun _ tr' => watchers o tr' = set_io k false w) tr.
Proof.
  intros Hw Hb. unfold stop_if. destruct b; wp_steps; [|by rewrite Hb].
  trace_simp. by rewrite Hw.
Qed.

Lemma destroy_spec c tr :
  client_inv c tr ->
  wp (tcpclient_destroy c) (fun c' tr' =>
    watchers c.(self) tr' = idle /\ c'.(send_queue).(ptr) = Freed) tr.
Proof.
  intros [Hwf _ _ (Hm1 & Hm2 & Hm3)]. unfold tcpclient_destroy.
  destruct (watchers c.(self) tr) as [w1 w2 w3 w4] eqn:Hw. cbn in Hm1, Hm2, Hm3.
  apply wp_bind, (wp_sys (TimerStop _)), wp_bind.
  eapply wp_mono; [apply (stop_if_spec _ _ _ _ (Watch w1 w2 w3 false))|].
  { trace_simp. by rewrite Hw. }
  { intros Hb. destruct w1; [by rewrite Hm1 in Hb|done]. }
  intros ? tr1 Hw1. apply wp_bind. eapply wp_mono; [apply (stop_if_spec _ _ _ _ _ Hw1)|].
  { intros Hb. destruct w2; [by rewrite Hm2 in Hb|done]. }
  intros ? tr2 Hw2. apply wp_bind. eapply wp_mono; [apply (stop_if_spec _ _ _ _ _ Hw2)|].
  { intros Hb. destruct w3; [by rewrite Hm3 in Hb|done]. }
  intros ? tr3 Hw3. apply wp_bind, (wp_sys (Close _)), wp_bind.
  eapply (wp_mono _ (fun _ tr' => watchers c.(self) tr' = idle)).
  { assert (Hw4 : watchers c.(self) (tr3 ++ [Close c.(sd)]) = idle)
      by (trace_simp; by rewrite Hw3).
    cbn [sd set_connect_started set_read_started set_write_started] in *.
    destruct (addr _); [apply wp_bind, (wp_sys Freeaddrinfo)|]; apply wp_ret; by trace_simp. }
  intros _ tr4 Hw4. apply wp_bind. unfold buffer_destroy.
  cbn [send_queue set_connect_started set_read_started set_write_started].
  destruct (wf_cells _ Hwf) as (cl & -> & _). do 2 apply wp_ret. done.
Qed.

(** tcpclient.c, [tcpclient_destroy] is safe: on any reachable client it
    leaves no watcher and no timer of the client active, so that libev will
    not use the memory its caller frees, and frees the queue once. *)
Theorem tcpclient_destroy_quiet c ctx tr accepted sent :
  reach c ctx tr accepted sent ->
  wp (tcpclient_destroy c) (fun c' tr' =>
    watchers c.(self) tr' = idle /\ c'.(send_queue).(ptr) = Freed) tr.
Proof. intros [Hinv _]%reach_inv. by apply destroy_spec. Qed.

(** C40. A failed resolution is final when [always_resolve_dns] is set:
    the address was forgotten before it was resolved again, and a client in
    BACKOFF without an address stays so - libev has nothing to deliver to it
    and [tcpclient_sendall], which is what would connect again, refuses every
    line before it gets to that.  (Only a direct [tcpclient_connect] helps,
    which stats.c calls once, when the backend is created.) *)
Theorem tcpclient_resolve_failure_final c ctx tr accepted sent e :
  reach c ctx tr accepted sent -> c.(state) = STATE_BACKOFF -> c.(addr) = None ->
  enabled e c tr = true -> e <> EConnect ->
  run_event c ctx e tr = Some ((c, ctx, []), tr).
Proof.
  intros [Hinv _]%reach_inv Hst Ha He Hne. pose proof (ci_state _ _ Hinv) as Hok.
  unfold state_ok in Hok. rewrite Hst in Hok. unfold enabled in He. rewrite Hok in He.
  destruct e; try done. unfold run_event, tcpclient_sendall. by rewrite Ha.
Qed.

(** A client whose [getsockopt] fails when its connection is established is
    stuck: it stays in CONNECTING with no watcher and no timer, from which
    no event gets it out; lines are queued until the queue is full, and no byte
    is ever sent. *)
Theorem tcpclient_stuck_connecting c ctx tr accepted sent e :
  reach c ctx tr accepted sent -> c.(state) = STATE_CONNECTING ->
  watchers c.(self) tr = idle -> enabled e c tr = true ->
  wp (run_event c ctx e) (fun '(c', _, _) tr' =>
    c'.(state) = STATE_CONNECTING /\ watchers c.(self) tr' = idle /\ taken tr' = taken tr) tr.
Proof.
  intros [Hinv _]%reach_inv Hst Hw He. unfold enabled in He. rewrite Hw in He.
  destruct e as [| | | | |line]; try done; cbn [run_event].
  - apply wp_bind. unfold tcpclient_connect. cbn [connect_rec]. rewrite Hst. by do 2 apply wp_ret.
  - apply wp_bind. eapply wp_mono; [by apply sendall_spec|].
    intros [[r c'] ctx'] tr' (_ & Hstay & _). apply wp_ret.
    destruct (Hstay Hst) as [? Hg]. destruct (malloc_grows c.(self) _ _ Hg) as [-> ->]. done.
Qed.
End operations.

(** ** Executions *)

(** A run of events, each of which must be enabled when its turn comes. *)
Fixpoint run_events `{OS} {Ctx} (c : tcpclient_t Ctx) (ctx : Ctx) (es : list client_event)
    : M (tcpclient_t Ctx * Ctx * bytes) :=
  match es with
  | [] => mret (c, ctx, [])
  | e :: es => fun tr =>
      if enabled e c tr then
        ('(c, ctx, line) ← run_event c ctx e;
         '(c, ctx, lines) ← run_events c ctx es;
         mret (c, ctx, line ++ lines)) tr
      else None
  end.

Lemma reach_run `{OSLaws} {Ctx} (c : tcpclient_t Ctx) ctx tr acc snt es c' ctx' lines tr' :
  reach c ctx tr acc snt -> run_events c ctx es tr = Some ((c', ctx', lines), tr') ->
  exists t, reach c' ctx' tr' (acc ++ lines) (snt ++ t).
Proof.
  revert c ctx tr acc snt lines. induction es as [|e es IH]; intros c ctx tr acc snt lines Hr.
  { intros [= -> -> <- ->]. exists []. by rewrite !app_nil_r. }
  cbn [run_events]. destruct (enabled e c tr) eqn:He; [|done]. unfold mbind, M_bind.
  destruct (reach_inv _ _ _ _ _ Hr) as [Hinv _].
  destruct (wp_inv _ _ _ (event_spec c ctx e tr Hinv He)) as ([[c1 ctx1] line] & tr1 & E & Hp).
  rewrite E. destruct Hp as (_ & (t & Ht & _) & _).
  destruct (run_events c1 ctx1 es tr1) as [[[[c2 ctx2] lines2] tr2]|] eqn:E2; [|done].
  intros [= -> -> <- ->].
  destruct (IH _ _ _ (acc ++ line) (snt ++ t) _ (reach_event _ _ _ _ _ _ _ _ _ _ _ Hr He E Ht) E2)
    as [t2 Hr2].
  exists (t ++ t2). by rewrite !app_assoc in *.
Qed.

(** An environment for the examples: the clock counts calls, [send] takes three
    bytes at a time and fails when [ok] says so, the name resolves when
    [resolves] says so, and [so] is what getsockopt answers. *)
Definition demo_os (resolves ok : trace -> bool) (so : option Z) : OS := fun tr cl =>
  match cl return answer cl with
  | Send _ d => if ok tr then Z.min 3 (len d) else -1
  | Getaddrinfo _ _ t => if resolves tr then Some (AddrInfo 2 t 6) else None
  | GetSoError _ => so
  | Time => len tr
  | cl => quiet_os tr cl
  end.

Lemma demo_laws resolves ok so : @OSLaws (demo_os resolves ok so).
Proof.
  split; unfold os, demo_os, quiet_os; intros.
  - pose proof (len_nonneg d). destruct (ok tr); lia.
  - destruct (Z.ltb_spec n (2 ^ 63)) in *; [lia|discriminate].
  - discriminate.
  - split; [done|apply len_nonneg].
Qed.

Definition demo_config (resolve : bool) : proto_config :=
  ProtoConfig true None true true resolve 6 None.

(** A new client with a queue of eight bytes. *)
Definition demo_client (resolve : bool) : tcpclient_t unit :=
  TcpClient tcpclient_default_callback tcpclient_default_callback tcpclient_default_callback
    tcpclient_default_callback 1 false false false (lit "UNRESOLVED") None
    (Buffer (Cells (lit "........")) 0 0 8) STATE_INIT 0 0 (-1) SOCK_DGRAM
    (lit "h") (lit "1") (lit "tcp") (demo_config resolve).

Lemma demo_fresh resolve : fresh (demo_client resolve) [].
Proof.
  split_and!; [|done..]. split; cbn; [by apply buffer_wf_intro|done..].
Qed.

Lemma demo_reach resolves ok so resolve es c lines tr :
  @run_events (demo_os resolves ok so) unit (demo_client resolve) tt es [] =
    Some ((c, tt, lines), tr) ->
  exists t, @reach (demo_os resolves ok so) unit c tt tr lines t.
Proof.
  intros Hrun. pose proof (@reach_fresh (demo_os resolves ok so) _ _ tt _ (demo_fresh resolve)) as Hr.
  destruct (@reach_run _ (demo_laws resolves ok so) _ _ _ _ _ _ _ _ _ _ _ Hr Hrun) as [t Ht].
  by exists t.
Qed.

(** Connect, be connected, queue two lines; the second finds room for a byte. *)
Definition demo_events : list client_event :=
  [EConnect; EConnected EV_WRITE; ESendall (lit "ab|"); EWrite EV_WRITE;
   ESendall (lit "cdefg|"); ESendall (lit "!")].

Abbreviation always := (fun _ : trace => true).

Lemma client_stream_witness : exists c tr accepted sent,
  @reach (demo_os always always (Some 0)) unit c tt tr accepted sent /\
  accepted = lit "ab|cdefg|" /\ accepted = sent ++ buffer_data c.(send_queue).
Proof.
  edestruct (demo_reach always always (Some 0) false demo_events) as [t Hr];
    [vm_compute; reflexivity|].
  do 4 eexists. split; [exact Hr|split; [reflexivity|]].
  exact (@client_stream _ (demo_laws always always (Some 0)) _ _ _ _ _ _ Hr).
Defined.

Lemma client_safe_witness : exists c tr accepted sent,
  let o := demo_os always always (Some 0) in
  @reach o unit c tt tr accepted sent /\ enabled (EWrite EV_WRITE) c tr = true /\
  client_inv c tr /\ is_Some (@run_event o unit c tt (EWrite EV_WRITE) tr).
Proof.
  edestruct (demo_reach always always (Some 0) false demo_events) as [t Hr];
    [vm_compute; reflexivity|].
  do 4 eexists. split; [exact Hr|split; [vm_compute; reflexivity|]].
  exact (@client_safe _ (demo_laws always always (Some 0)) _ _ _ _ _ _ (EWrite EV_WRITE) Hr
    ltac:(vm_compute; reflexivity)).
Defined.

Lemma client_watches_witness : exists c tr accepted sent,
  @reach (demo_os always always (Some 0)) unit c tt tr accepted sent /\
  c.(state) = STATE_CONNECTED /\ buffer_data c.(send_queue) = lit "cdefg|" /\
  enabled (EWrite EV_WRITE) c tr = true.
Proof.
  edestruct (demo_reach always always (Some 0) false demo_events) as [t Hr];
    [vm_compute; reflexivity|].
  do 4 eexists. split; [exact Hr|split; [reflexivity|split; [reflexivity|]]].
  apply (@client_watches _ (demo_laws always always (Some 0)) _ _ _ _ _ _ Hr).
  vm_compute. discriminate.
Defined.

Lemma client_drains_witness : exists c tr accepted sent,
  let o := demo_os always always (Some 0) in
  @reach o unit c tt tr accepted sent /\
  wp (@deliver_writes o unit 6 c tt) (fun '(c', _) tr' => c'.(state) = STATE_CONNECTED /\
    buffer_data c'.(send_queue) = [] /\
    exists t, @taken o tr' = @taken o tr ++ t /\ sent ++ t = accepted) tr.
Proof.
  edestruct (demo_reach always always (Some 0) false demo_events) as [t Hr];
    [vm_compute; reflexivity|].
  assert (Hacc : @accepting (demo_os always always (Some 0))).
  { intros tr s [|x d] Hd; [done|]. unfold os, demo_os. rewrite len_cons.
    pose proof (len_nonneg d). lia. }
  do 4 eexists. split; [exact Hr|].
  apply (@client_drains _ (demo_laws always always (Some 0)) _ _ _ _ _ _ 6%nat Hacc Hr);
    [reflexivity|vm_compute; lia].
Defined.

Lemma tcpclient_connect_results_witness : exists c tr accepted sent,
  let o := demo_os always always (Some 0) in
  @reach o unit c tt tr accepted sent /\
  wp (@tcpclient_connect o unit c tt) (fun p tr' => @connect_post o unit c tt tr p tr' /\
    p.1.2.(send_queue) = c.(send_queue)) tr.
Proof.
  edestruct (demo_reach always always (Some 0) false [EConnect; EConnected EV_ERROR]) as [t Hr];
    [vm_compute; reflexivity|].
  do 4 eexists. split; [exact Hr|].
  exact (@tcpclient_connect_results _ (demo_laws always always (Some 0)) _ _ _ _ _ _ Hr).
Defined.

Lemma tcpclient_sendall_results_witness : exists c tr accepted sent,
  let o := demo_os always always (Some 0) in
  @reach o unit c tt tr accepted sent /\
  exists r c', r = 2 /\
  wp (@tcpclient_sendall o unit c tt (lit "x")) (fun p _ => p.1 = (r, c')) tr /\
  len (buffer_data c'.(send_queue)) <= Z.max (len (buffer_data c.(send_queue))) (6 - 1 + 1).
Proof.
  edestruct (demo_reach always always (Some 0) false demo_events) as [t Hr];
    [vm_compute; reflexivity|].
  do 4 eexists. split; [exact Hr|]. do 2 eexists. split; [reflexivity|].
  split; [vm_compute; reflexivity|].
  pose proof (@tcpclient_sendall_results _ (demo_laws always always (Some 0)) _ _ _ (lit "x") _ _ _ Hr)
    as Hs.
  vm_compute in Hs. vm_compute. apply Hs.
Defined.

Lemma tcpclient_destroy_quiet_witness : exists c tr accepted sent,
  let o := demo_os always always (Some 0) in
  @reach o unit c tt tr accepted sent /\
  wp (@tcpclient_destroy o unit c) (fun c' tr' =>
    watchers c.(self) tr' = idle /\ c'.(send_queue).(ptr) = Freed) tr.
Proof.
  edestruct (demo_reach always always (Some 0) false demo_events) as [t Hr];
    [vm_compute; reflexivity|].
  do 4 eexists. split; [exact Hr|].
  exact (@tcpclient_destroy_quiet _ (demo_laws always always (Some 0)) _ _ _ _ _ _ Hr).
Defined.

(** The name resolves once. *)
Definition resolves_once (tr : trace) : bool :=
  forallb (fun c => match c with Getaddrinfo _ _ _ => false | _ => true end) tr.

Lemma tcpclient_resolve_failure_final_witness : exists c tr accepted sent,
  let o := demo_os resolves_once always (Some 0) in
  @reach o unit c tt tr accepted sent /\ c.(state) = STATE_BACKOFF /\ c.(addr) = None /\
  @run_event o unit c tt (ESendall (lit "x")) tr = Some ((c, tt, []), tr).
Proof.
  edestruct (demo_reach resolves_once always (Some 0) true
    [EConnect; EConnected EV_WRITE; ESendall (lit "ab|"); EConnect; ERead EV_READ; EConnect;
     EConnect]) as [t Hr]; [vm_compute; reflexivity|].
  do 4 eexists. split; [exact Hr|split; [reflexivity|split; [reflexivity|]]].
  by apply (@tcpclient_resolve_failure_final _ (demo_laws resolves_once always (Some 0))
    _ _ _ _ _ _ (ESendall (lit "x")) Hr).
Defined.

Lemma tcpclient_stuck_connecting_witness : exists c tr accepted sent,
  let o := demo_os always always None in
  @reach o unit c tt tr accepted sent /\
  c.(state) = STATE_CONNECTING /\ watchers c.(self) tr = idle /\
  wp (@run_event o unit c tt (ESendall (lit "x"))) (fun '(c', _, _) tr' =>
    c'.(state) = STATE_CONNECTING /\ watchers c.(self) tr' = idle /\
    @taken o tr' = @taken o tr) tr.
Proof.
  edestruct (demo_reach always always None false [EConnect; EConnected EV_WRITE]) as [t Hr];
    [vm_compute; reflexivity|].
  do 4 eexists. split; [exact Hr|split; [reflexivity|split; [reflexivity|]]].
  by apply (@tcpclient_stuck_connecting _ (demo_laws always always None)
    _ _ _ _ _ _ (ESendall (lit "x")) Hr).
Defined.

Lemma tcpclient_init_fresh_witness :
  watchers 1 [] = idle /\
  Forall (fun t => len t < 2 ^ 62 /\ NUL ∉ t) [lit "h"; lit "1"; default (lit "tcp") None] /\
  wp (@tcpclient_init quiet_os unit (demo_client false) (demo_config false) (Some (lit "h"))
        (Some (lit "1")) None) (fun p _ => p.1 = 0) [].
Proof.
  assert (Hok : Forall (fun t => len t < 2 ^ 62 /\ NUL ∉ t) [lit "h"; lit "1"; lit "tcp"]).
  { repeat constructor; by apply (bool_decide_unpack _). }
  split; [done|split; [exact Hok|]].
  eapply wp_mono; [exact (@tcpclient_init_fresh quiet_os quiet_plenty unit
    (demo_client false) (demo_config false) (lit "h") (lit "1") None [] eq_refl Hok)|].
  by intros [r c] tr [? _].
Defined.

(** ** The loop of [tcpclient_sendall] *)

Section room.
Context `{OSLaws}.

(** More fuel does not change a run that ends. *)
Lemma make_room_fuel fuel more q n tr r :
  make_room fuel q n tr = Some r -> make_room (fuel + more) q n tr = Some r.
Proof.
  revert q tr. induction fuel as [|fuel IH]; intros q tr; cbn [Nat.add].
  - intros E. destruct more; [done|]. cbn [make_room] in *. by destruct (_ <? n).
  - cbn [make_room]. destruct (_ <? n); [|done]. unfold mbind, M_bind.
    destruct (buffer_expand q tr) as [[[r1 q1] tr1]|]; [|done]. destruct (negb _); [done|apply IH].
Qed.

(** C34. tcpclient.c, the loop that makes room in the send queue ends: from any queue in order
    with a block of at least a byte, for any length asked for and whatever malloc answers, at most 64 rounds are enough, and
    more fuel changes nothing.  The queue keeps its bytes, and has the room unless an
    allocation was refused. *)
Theorem make_room_terminates fuel q n tr :
  buffer_wf q -> 0 < q.(size) -> (room_fuel <= fuel)%nat ->
  wp (make_room fuel q n) (fun '(ok, q') tr' => grows is_malloc tr tr' /\ buffer_wf q' /\
    buffer_data q' = buffer_data q /\ (ok = true -> n <= buffer_spacecount q')) tr /\
  make_room fuel q n tr = make_room room_fuel q n tr.
Proof.
  intros Hwf Hsize Hfuel.
  assert (Hw := make_room_spec room_fuel q n tr Hwf ltac:(unfold room_fuel; lia)).
  destruct (wp_inv _ _ _ Hw) as ([ok q'] & tr' & E & Hg & Hwf' & Hd & _ & Hok).
  assert (E' : make_room fuel q n tr = Some ((ok, q'), tr')).
  { replace fuel with (room_fuel + (fuel - room_fuel))%nat by lia. by apply make_room_fuel. }
  rewrite E. split; [|done]. eapply wp_run; [exact E'|]. by split_and!.
Qed.
End room.

Lemma make_room_terminates_witness :
  let q := Buffer (Cells (lit "ab")) 0 1 2 in
  buffer_wf q /\ @make_room quiet_os 80 q 100 [] = @make_room quiet_os room_fuel q 100 [].
Proof.
  intros q. assert (Hwf : buffer_wf q) by (by apply buffer_wf_intro). split; [exact Hwf|].
  refine (proj2 (@make_room_terminates quiet_os quiet_laws 80 q 100 [] Hwf eq_refl _)). unfold room_fuel. lia.
Defined.

(** ** Oddities *)

(** The connections and the sends of a trace. *)
Definition wire (tr : trace) : trace :=
  List.filter (fun c => match c with Connect _ | Send _ _ => true | _ => false end) tr.

(** The second [send] fails. *)
Definition second_send_fails (tr : trace) : bool :=
  negb (Nat.eqb (length (List.filter (fun c => match c with Send _ _ => true | _ => false end) tr)) 1).

(** The queue survives a reconnection as it is: when a connection breaks in
    the middle of a line, the new connection starts with the rest of that line,
    and the backend receives the two halves as two bad lines. *)
Theorem tcpclient_resumes_mid_line : exists c tr,
  @run_events (demo_os always second_send_fails (Some 0)) unit (demo_client false) tt
    [EConnect; EConnected EV_WRITE; ESendall (lit "abcdef|"); EWrite EV_WRITE; EWrite EV_WRITE;
     EConnect; EConnected EV_WRITE; EWrite EV_WRITE] [] = Some ((c, tt, lit "abcdef|"), tr) /\
  wire tr = [Connect 0; Send 0 (lit "abcdef|"); Send 0 (lit "def|");
             Connect 0; Send 0 (lit "def|")].
Proof. do 2 eexists. split; [vm_compute; reflexivity|reflexivity]. Qed.

(** [tcpclient_destroy] closes the descriptor of the client whether it is
    open or not: after a connection that failed, the same descriptor is closed
    a second time, by then perhaps somebody else's. *)
Theorem tcpclient_destroy_closes_twice : exists c tr c' tr',
  @run_events (demo_os always always (Some 0)) unit (demo_client false) tt
    [EConnect; EConnected EV_ERROR] [] = Some ((c, tt, []), tr) /\
  @tcpclient_destroy (demo_os always always (Some 0)) unit c tr = Some (c', tr') /\
  List.filter (fun c => match c with Socket _ _ _ | Close _ => true | _ => false end) tr' =
    [Socket 2 SOCK_STREAM 6; Close 0; Close 0].
Proof. do 4 eexists. split; [|split]; [vm_compute; reflexivity..|reflexivity]. Qed.

(** An environment that has no large blocks. *)
Definition small_os : OS := fun tr cl =>
  match cl return answer cl with
  | Malloc n => if n <? 4096 then Some [] else None
  | cl => quiet_os tr cl
  end.

(** [tcpclient_init] ignores the results of [buffer_init] and
    [buffer_newsize]: without memory for the queue it still reports success,
    and the first line sent is copied to a NULL pointer. *)
Theorem tcpclient_init_ignores_oom : exists c tr,
  @tcpclient_init small_os unit (demo_client false) (demo_config false) (Some (lit "h"))
    (Some (lit "1")) None [] = Some ((0, c), tr) /\
  ('(_, c, ctx) ← @tcpclient_connect small_os unit c tt;
   @tcpclient_sendall small_os unit c ctx (lit "x")) tr = None.
Proof. do 2 eexists. split; [vm_compute; reflexivity..]. Qed.
