(* ===== verification/Backend.v ===== *)
(** * stats.c, first half: the backends of a server

    A [stats_backend_t] is a client and its counters; the callbacks of the
    client get the counters, the only part of the struct they use.  Backends
    live in a store [mem], from addresses to structs, because the ring, the
    backend list and libev all point to the same objects; an access through an
    address that was freed is undefined.  [make_backend] and [kill_backend] are
    the callbacks of the ring (instance of [RingAlloc]). *)
From S2P Require Import Prelude Sys Buffer SList Hashlib Hashring YamlConfig Validate Tcpclient.

(** ** Data *)

(** [stats_backend_t] without the client embedded in it. *)
Record counters := Counters {
  key : bytes;
  bytes_queued : Z;
  bytes_sent : Z;
  relayed_lines : Z;
  dropped_lines : Z;
  backend_failing : Z;
}.

Record stats_backend_t := Backend {
  client : tcpclient_t counters;
  stats : counters;
}.

(** The pointer to the ring; [hashring_dealloc] frees the ring behind it. *)
Inductive ring_ptr := RNull | RFreed | RLive (r : hashring nat).

Definition protocol_parser_t := option bytes -> Z -> option Z.

(** [None]: no validator. *)
Definition validator_t := option (bytes -> Z -> M Z).

(** The fields of [struct stats_server_t] that change, and the store of the
    backends.  [next] is the address the next backend gets. *)
Record stats_server_t := Server {
  bytes_recv_udp : Z;
  bytes_recv_tcp : Z;
  total_connections : Z;
  malformed_lines : Z;
  last_reload : Z;
  num_backends : Z;
  backend_list : option (list nat);     (* None: NULL *)
  server_ring : ring_ptr;
  mem : gmap nat stats_backend_t;
  next : nat;
}.

(** The fields of [struct stats_server_t] that are set once. *)
Record server_params := Params {
  sp_config : proto_config;
  sp_parser : protocol_parser_t;
  sp_validator : validator_t;
}.

(** [sizeof] on LP64; nothing depends on the exact values. *)
Definition sizeof_backend : Z := 784.
Definition sizeof_server : Z := 96.

(** ** Field updates *)

Section updates.
Implicit Types (s : stats_server_t).

Definition set_recv_udp x s := Server x s.(bytes_recv_tcp) s.(total_connections)
  s.(malformed_lines) s.(last_reload) s.(num_backends) s.(backend_list) s.(server_ring) s.(mem) s.(next).
Definition set_recv_tcp x s := Server s.(bytes_recv_udp) x s.(total_connections)
  s.(malformed_lines) s.(last_reload) s.(num_backends) s.(backend_list) s.(server_ring) s.(mem) s.(next).
Definition set_connections x s := Server s.(bytes_recv_udp) s.(bytes_recv_tcp) x
  s.(malformed_lines) s.(last_reload) s.(num_backends) s.(backend_list) s.(server_ring) s.(mem) s.(next).
Definition set_malformed x s := Server s.(bytes_recv_udp) s.(bytes_recv_tcp) s.(total_connections)
  x s.(last_reload) s.(num_backends) s.(backend_list) s.(server_ring) s.(mem) s.(next).
Definition set_last_reload x s := Server s.(bytes_recv_udp) s.(bytes_recv_tcp) s.(total_connections)
  s.(malformed_lines) x s.(num_backends) s.(backend_list) s.(server_ring) s.(mem) s.(next).
Definition set_list n l s := Server s.(bytes_recv_udp) s.(bytes_recv_tcp) s.(total_connections)
  s.(malformed_lines) s.(last_reload) n l s.(server_ring) s.(mem) s.(next).
Definition set_ring x s := Server s.(bytes_recv_udp) s.(bytes_recv_tcp) s.(total_connections)
  s.(malformed_lines) s.(last_reload) s.(num_backends) s.(backend_list) x s.(mem) s.(next).
Definition set_mem x s := Server s.(bytes_recv_udp) s.(bytes_recv_tcp) s.(total_connections)
  s.(malformed_lines) s.(last_reload) s.(num_backends) s.(backend_list) s.(server_ring) x s.(next).
Definition set_next x s := Server s.(bytes_recv_udp) s.(bytes_recv_tcp) s.(total_connections)
  s.(malformed_lines) s.(last_reload) s.(num_backends) s.(backend_list) s.(server_ring) s.(mem) x.
End updates.

Definition set_bytes_sent x k := Counters k.(key) k.(bytes_queued) x k.(relayed_lines)
  k.(dropped_lines) k.(backend_failing).

(** ** The code *)

Definition stats_sent : tcpclient_callback counters :=
  fun event context data len => set_bytes_sent (wrap64 (context.(bytes_sent) + len)) context.

(** The key [host:port:protocol] of a line of the configuration, with its three
    parts; [None] without a colon. *)
Definition parse_address (line : bytes) : option (bytes * bytes * option bytes) :=
  '(host, rest) ← split_at COLON line;
  match split_at COLON rest with
  | None => Some (host, rest, None)
  | Some (port, protocol) => Some (host, port, Some protocol)
  end.

Section code.
Context `{OS}.
Implicit Types (s : stats_server_t) (ps : server_params).

(** [backend]: the address of the new backend. *)
Definition add_backend s (backend : nat) : M (Z * stats_server_t) :=
  p ← malloc (wrap64 (8 * (s.(num_backends) + 1)));
  match p with
  | None => mret (1, s)
  | Some _ =>
      mret (0, set_list (wrap64 (s.(num_backends) + 1))
                 (Some (default [] s.(backend_list) ++ [backend])) s)
  end.

(** The loop over the list. *)
Fixpoint find_in (l : list nat) (m : gmap nat stats_backend_t) (k : bytes) : M (option nat) :=
  match l with
  | [] => mret None
  | a :: l =>
      backend ← defined (m !! a);
      if decide (backend.(stats).(key) = k) then mret (Some a) else find_in l m k
  end.

Definition find_backend s (k : bytes) : M (option nat) :=
  find_in (take (Z.to_nat s.(num_backends)) (default [] s.(backend_list))) s.(mem) k.

(** [strndup] and [strdup] of a part of the line. *)
Definition dup (t : bytes) : M (option bytes) :=
  p ← malloc (len t + 1);
  mret (match p with None => None | Some _ => Some t end).

(** The memory of a new backend. *)
Definition raw_client (a : nat) (cfg : proto_config) : tcpclient_t counters :=
  TcpClient tcpclient_default_callback tcpclient_default_callback tcpclient_default_callback
    tcpclient_default_callback a false false false [] None uninit_buffer STATE_INIT 0 0 0
    SOCK_STREAM [] [] [] cfg.

(** From [find_backend] on, when the strings are allocated. *)
Definition make_with_key (cfg : proto_config) (full_key host port protocol : bytes) s
    : M (option nat * stats_server_t) :=
  found ← find_backend s full_key;
  match found with
  | Some a => mret (Some a, s)
  | None =>
      p ← malloc sizeof_backend;
      match p with
      | None => mret (None, s)
      | Some _ =>
          let a := s.(next) in
          let s := set_next (S a) s in
          '(r, c) ← tcpclient_init (raw_client a cfg) cfg (Some host) (Some port) (Some protocol);
          if negb (r =? 0) then mret (None, s) else
          let k := Counters [] 0 0 0 0 0 in
          '(r, c, k) ← tcpclient_connect c k;
          if negb (r =? 0) then mret (None, s) else
          let k := Counters full_key 0 0 0 0 0 in
          let c := tcpclient_set_sent_callback c stats_sent in
          '(_, s) ← add_backend (set_mem (<[a := Backend c k]> s.(mem)) s) a;
          mret (Some a, s)
      end
  end.

Definition make_backend (cfg : proto_config) (host_and_port : bytes) s
    : M (option nat * stats_server_t) :=
  match parse_address host_and_port with
  | None => mret (None, s)
  | Some (host, port, protocol) =>
      h ← dup host;
      match h with
      | None => mret (None, s)
      | Some host =>
          port ← dup port;
          proto ← dup (default (lit "tcp") protocol);
          match port, proto with
          | Some port, Some proto =>
              full_key ← dup (match protocol with
                              | None => host_and_port ++ lit ":" ++ proto
                              | Some _ => host_and_port
                              end);
              match full_key with
              | None => mret (None, s)
              | Some full_key => make_with_key cfg full_key host port proto s
              end
          | _, _ => mret (None, s)
          end
      end
  end.

Definition kill_backend (a : nat) s : M stats_server_t :=
  backend ← defined (s.(mem) !! a);
  _ ← tcpclient_destroy backend.(client);
  mret (set_mem (delete a s.(mem)) s).

(** The ring of the server, with its callbacks. *)
Definition server_alloc (cfg : proto_config) : RingAlloc nat stats_server_t := {|
  ra_alloc := make_backend cfg;
  ra_dealloc := kill_backend;
|}.

(** [hashring_dealloc(server->ring)]. *)
Definition dealloc_ring (cfg : proto_config) s : M stats_server_t :=
  match s.(server_ring) with
  | RNull => mret s
  | RFreed => ub
  | RLive r =>
      s ← hashring_dealloc (RA := server_alloc cfg) (Some r) s;
      mret (set_ring RFreed s)
  end.

(** [base] is the first address the allocator hands out. *)
Definition stats_server_create (base : nat) ps : M (option stats_server_t) :=
  p ← malloc sizeof_server;
  match p with
  | None => mret None
  | Some _ =>
      let s := Server 0 0 0 0 0 0 None RNull ∅ base in
      cfg_ring ← defined ps.(sp_config).(ring);
      '(r, s) ← hashring_load_from_config (RA := server_alloc ps.(sp_config)) cfg_ring s;
      match r with
      | None => mret None
      | Some r => mret (Some (set_ring (RLive r) s))
      end
  end.

Definition stats_num_backends s : Z := s.(num_backends).

Definition stats_server_reload (cfg : proto_config) s : M stats_server_t :=
  s ← dealloc_ring cfg s;
  t ← sys Time;
  mret (set_last_reload t (set_list 0 None s)).

Definition stats_server_destroy (cfg : proto_config) s : M unit :=
  s ← dealloc_ring cfg s;
  mret ().
End code.

(** ** Keys *)

(** The normalised key [host:port:protocol] of a line, [None] without a colon. *)
Definition backend_key (line : bytes) : option bytes :=
  match parse_address line with
  | None => None
  | Some (_, _, None) => Some (line ++ lit ":" ++ lit "tcp")
  | Some (_, _, Some _) => Some line
  end.

Section keys.
Implicit Types (line host port : bytes).

Lemma parse_address_inv line host port proto :
  parse_address line = Some (host, port, proto) ->
  (COLON ∉ host) /\ (COLON ∉ port) /\
  line = host ++ COLON :: port ++ match proto with None => [] | Some p => COLON :: p end.
Proof.
  unfold parse_address. intros ([h rest] & Hsplit & Hrest)%bind_Some.
  apply split_at_Some in Hsplit as [-> Hh].
  destruct (split_at COLON rest) as [[po pr]|] eqn:E; injection Hrest as <- <- <-.
  - by apply split_at_Some in E as [-> ?].
  - apply split_at_None in E. by rewrite app_nil_r.
Qed.

Lemma parse_address_full host port p :
  COLON ∉ host -> COLON ∉ port ->
  parse_address (host ++ COLON :: port ++ COLON :: p) = Some (host, port, Some p).
Proof.
  intros Hh Hp. unfold parse_address.
  rewrite (proj2 (split_at_Some COLON _ host (port ++ COLON :: p))) by done.
  cbn. by rewrite (proj2 (split_at_Some COLON _ port p)).
Qed.

(** The key of a line names the same host and port, and the protocol, which is
    tcp by default. *)
Lemma backend_key_parse line host port proto :
  parse_address line = Some (host, port, proto) ->
  exists k, backend_key line = Some k /\
    parse_address k = Some (host, port, Some (default (lit "tcp") proto)) /\
    k = match proto with None => line ++ lit ":" ++ lit "tcp" | Some _ => line end.
Proof.
  intros E. unfold backend_key. rewrite E.
  destruct proto as [p|]; eexists; (split; [done|split; [|done]]); [done|].
  destruct (parse_address_inv _ _ _ _ E) as (Hh & Hp & ->).
  rewrite app_nil_r, <- app_assoc. by apply parse_address_full.
Qed.

Lemma backend_key_None line : parse_address line = None -> backend_key line = None.
Proof. unfold backend_key. by intros ->. Qed.
End keys.

(** ** Invariants of a server's store *)

(** The counters of a backend agree with its queue: what was queued and not
    sent is in the queue. *)
Definition counts_ok (b : stats_backend_t) : Prop :=
  wrap64 (b.(stats).(bytes_queued) - b.(stats).(bytes_sent))
    = len (buffer_data b.(client).(send_queue)).

(** The counters are 64-bit numbers, and the key fits in a line of the status. *)
Definition in64 (z : Z) : Prop := 0 <= z < 2 ^ 64.

Definition counters_ok (k : counters) : Prop :=
  len k.(key) < 2 ^ 30 + 4 /\ in64 k.(bytes_queued) /\ in64 k.(bytes_sent) /\
  in64 k.(relayed_lines) /\ in64 k.(dropped_lines) /\ in64 k.(backend_failing).

Record backend_ok (cfg : proto_config) (a : nat) (b : stats_backend_t) (tr : trace) : Prop := {
  bo_inv : client_inv b.(client) tr;
  bo_self : b.(client).(self) = a;
  bo_config : b.(client).(config) = cfg;
  bo_callbacks : default_callbacks b.(client) /\ b.(client).(callback_sent) = stats_sent;
  bo_address : parse_address b.(stats).(key) =
    Some (b.(client).(host), b.(client).(port), Some b.(client).(protocol));
  bo_counts : counts_ok b;
  bo_ranges : counters_ok b.(stats);
}.

(** Every backend of the store is in order, and of the addresses that the server
    has handed out from [base] on libev knows only those where a backend lives. *)
Record store_ok (cfg : proto_config) (base : nat) (s : stats_server_t) (tr : trace) : Prop := {
  so_mem : forall a b, s.(mem) !! a = Some b -> (base <= a < s.(next))%nat /\ backend_ok cfg a b tr;
  so_idle : forall a, (base <= a < s.(next))%nat -> s.(mem) !! a = None -> watchers a tr = idle;
}.

(** libev knows no address from [n] on. *)
Definition untouched (n : nat) (tr : trace) : Prop :=
  forall a, (n <= a)%nat -> watchers a tr = idle.

Definition listed (s : stats_server_t) : list nat := default [] s.(backend_list).

(** The counters of the server are 64-bit numbers. *)
Definition ranges_ok (s : stats_server_t) : Prop :=
  in64 s.(bytes_recv_udp) /\ in64 s.(bytes_recv_tcp) /\ in64 s.(total_connections) /\
  in64 s.(malformed_lines).

(** The backends of the store are those of the list, and no two have the same key. *)
Record server_inv (cfg : proto_config) (base : nat) (s : stats_server_t) (tr : trace) : Prop := {
  si_base : (base <= s.(next))%nat;
  si_store : store_ok cfg base s tr;
  si_count : s.(num_backends) = len (listed s);
  si_list : forall a, a ∈ listed s <-> is_Some (s.(mem) !! a);
  si_nodup : NoDup (listed s);
  si_keys : forall a a' b b', s.(mem) !! a = Some b -> s.(mem) !! a' = Some b' ->
    b.(stats).(key) = b'.(stats).(key) -> a = a';
  si_ranges : ranges_ok s;
}.

(** A server whose ring has the slots [xs]. *)
Record running (cfg : proto_config) (base : nat) (xs : list nat) (s : stats_server_t)
    (tr : trace) : Prop := {
  ru_inv : server_inv cfg base s tr;
  ru_ring : exists l, s.(server_ring) = RLive (Hashring (Some l)) /\ rep l xs;
  ru_slots : forall a, a ∈ xs <-> is_Some (s.(mem) !! a);
  ru_size : len xs < 2 ^ 32;
}.

Section invariant.
Context `{OSLaws}.
Variables (cfg : proto_config) (base : nat).
Implicit Types (s : stats_server_t) (a : nat) (b : stats_backend_t) (tr : trace).

Lemma backend_ok_grows a b tr tr' :
  backend_ok cfg a b tr -> watchers a tr' = watchers a tr -> backend_ok cfg a b tr'.
Proof.
  intros [Hinv Hs Hc Hcb Ha Hct Hr] Hw. split; try done. destruct Hinv as [Hq Hsz Hst Hm].
  rewrite <- Hs in Hw. by split; rewrite ?Hw.
Qed.

Lemma store_ok_grows s tr tr' :
  store_ok cfg base s tr -> (forall a, watchers a tr' = watchers a tr) -> store_ok cfg base s tr'.
Proof.
  intros [Hmem Hfresh] Hw. split.
  - intros a b Hb. destruct (Hmem a b Hb). eauto using backend_ok_grows.
  - intros a Ha. rewrite Hw. auto.
Qed.

Lemma malloc_watchers tr tr' a : grows is_malloc tr tr' -> watchers a tr' = watchers a tr.
Proof. intros Hg. by destruct (malloc_grows a _ _ Hg). Qed.

Lemma untouched_malloc n tr tr' : untouched n tr -> grows is_malloc tr tr' -> untouched n tr'.
Proof. intros Hn Hg a Ha. rewrite (malloc_watchers tr tr' a Hg). by apply Hn. Qed.

Lemma server_inv_malloc s tr tr' :
  server_inv cfg base s tr -> grows is_malloc tr tr' -> server_inv cfg base s tr'.
Proof.
  intros [Hbase Hs Hc Hl Hn Hk Hr] Hg. split; try done.
  eapply store_ok_grows; [done|]. intros a. by apply malloc_watchers.
Qed.

(** The backend at [a] changes, by calls about its own watchers only. *)
Lemma server_inv_update s a b b' tr tr' :
  server_inv cfg base s tr -> s.(mem) !! a = Some b -> grows (only_about a) tr tr' ->
  backend_ok cfg a b' tr' -> b'.(stats).(key) = b.(stats).(key) ->
  server_inv cfg base (set_mem (<[a := b']> s.(mem)) s) tr'.
Proof.
  intros [Hbase [Hmem Hfresh] Hc Hl Hn Hk Hr] Hb Hg Hb' Hkey.
  assert (Ha : (base <= a < s.(next))%nat) by (by apply (Hmem a b)).
  split; [done|split| | | | |]; cbn; try done.
  - intros a1 b1 [[<- <-]|[Hne H1]]%lookup_insert_Some; [done|].
    destruct (Hmem _ _ H1). split; [done|]. eapply backend_ok_grows; [done|].
    by eapply others_watchers.
  - intros a1 Hb1 [Ha1 Hne]%lookup_insert_None. rewrite (others_watchers a a1 tr tr') by done.
    by apply Hfresh.
  - intros a1. unfold listed; cbn. fold (listed s). rewrite Hl, lookup_insert_is_Some'.
    split; [auto|]. intros [<-|?]; [by eexists|done].
  - intros a1 a2 b1 b2 H1 H2 Heq.
    apply lookup_insert_Some in H1 as [[<- <-]|[? H1]];
      apply lookup_insert_Some in H2 as [[<- <-]|[? H2]]; [done| | |]; rewrite ?Hkey in Heq; eauto.
Qed.
End invariant.

(** ** Making and killing backends *)

Section making.
Context `{OSLaws, !Plenty}.
Variables (cfg : proto_config) (base : nat).
Implicit Types (s : stats_server_t) (a : nat) (b : stats_backend_t) (tr : trace) (k : bytes).

Lemma find_in_spec l m k tr :
  (forall a, a ∈ l -> is_Some (m !! a)) ->
  exists r, find_in l m k tr = Some (r, tr) /\
    match r with
    | Some a => a ∈ l /\ exists b, m !! a = Some b /\ b.(stats).(key) = k
    | None => forall a b, a ∈ l -> m !! a = Some b -> b.(stats).(key) <> k
    end.
Proof.
  induction l as [|a l IH]; intros Hl; cbn [find_in].
  { exists None. split; [done|]. by intros a b ?%elem_of_nil. }
  destruct (Hl a) as [b Hb]; [by left|]. rewrite Hb. unfold mbind, M_bind; cbn.
  case_decide as Hk.
  - exists (Some a). split; [done|]. split; [by left|eauto].
  - destruct IH as (r & Hr & Hspec); [intros; apply Hl; by right|]. exists r. split; [done|].
    destruct r as [a'|].
    + destruct Hspec as [? ?]. split; [by right|done].
    + intros a' b' [->|Hin]%elem_of_cons Hb'; [congruence|eauto].
Qed.

Lemma find_backend_spec s k tr :
  server_inv cfg base s tr ->
  exists r, find_backend s k tr = Some (r, tr) /\
    match r with
    | Some a => exists b, s.(mem) !! a = Some b /\ b.(stats).(key) = k
    | None => forall a b, s.(mem) !! a = Some b -> b.(stats).(key) <> k
    end.
Proof.
  intros [_ _ Hc Hl _ _ _]. unfold find_backend. fold (listed s).
  rewrite Hc, len_to_nat, take_ge by done.
  destruct (find_in_spec (listed s) s.(mem) k tr) as (r & Hr & Hspec); [intros a; apply Hl|].
  exists r. split; [done|]. destruct r as [a|]; [by destruct Hspec|].
  intros a b Hb. apply (Hspec a b); [|done]. apply Hl. by eexists.
Qed.

Lemma add_backend_spec s a tr :
  s.(num_backends) = len (listed s) -> len (listed s) < 2 ^ 58 ->
  wp (add_backend s a) (fun '(_, s') tr' => grows is_malloc tr tr' /\
    s' = set_list (len (listed s) + 1) (Some (listed s ++ [a])) s) tr.
Proof.
  intros Hc Hn. unfold add_backend. pose proof (len_nonneg (listed s)).
  rewrite Hc, !wrap64_small by lia. apply wp_bind, wp_malloc_plenty; [lia|].
  intros ? _. apply wp_ret. split; [by apply grows_one|done].
Qed.

(** The backend that is made or found for a key; nothing else changes. *)
Definition made k s (p : option nat * stats_server_t) (tr' : trace) : Prop :=
  let '(r, s') := p in
  server_inv cfg base s' tr' /\ untouched s'.(next) tr' /\
  match r with
  | Some a => (exists b, s'.(mem) !! a = Some b /\ b.(stats).(key) = k) /\
      (forall a' b', a' <> a -> s'.(mem) !! a' = Some b' <-> s.(mem) !! a' = Some b') /\
      (is_Some (s.(mem) !! a) -> s' = s) /\
      len (listed s') <= len (listed s) + 1
  | None => s'.(mem) = s.(mem) /\ listed s' = listed s
  end.

(** The address of a new backend is taken whatever becomes of it. *)
Lemma server_inv_next s tr :
  server_inv cfg base s tr -> watchers s.(next) tr = idle ->
  server_inv cfg base (set_next (S s.(next)) s) tr.
Proof.
  intros [Hbase [Hmem Hfresh] Hc Hl Hn Hk Hr] Hidle. split; try done; [cbn; lia|]. split; cbn.
  - intros a b Hb. destruct (Hmem a b Hb). split; [lia|done].
  - intros a Ha. destruct (decide (a = s.(next))) as [->|]; [done|]. apply Hfresh. lia.
Qed.

(** A new backend joins the store and the list. *)
Lemma server_inv_add s a b tr tr1 tr' :
  server_inv cfg base s tr -> a = s.(next) ->
  grows (only_about a) tr tr' -> backend_ok cfg a b tr' ->
  (forall a1 b1, s.(mem) !! a1 = Some b1 -> b1.(stats).(key) <> b.(stats).(key)) ->
  grows is_malloc tr' tr1 ->
  server_inv cfg base (set_list (len (listed s) + 1) (Some (listed s ++ [a]))
    (set_mem (<[a := b]> s.(mem)) (set_next (S a) s))) tr1.
Proof.
  intros Hinv Ha Hg Hb Hkey Hm.
  apply (server_inv_malloc cfg base _ tr'); [|done]. destruct Hinv as [Hbase [Hmem Hfresh] Hc Hl Hn Hk Hr].
  assert (Hnone : s.(mem) !! a = None).
  { destruct (s.(mem) !! a) as [b1|] eqn:E; [|done]. destruct (Hmem _ _ E). lia. }
  assert (Hna : a ∉ listed s) by (rewrite Hl, Hnone; by intros [? ?]).
  split; [cbn; lia|split| | | | |exact Hr]; cbn.
  - intros a1 b1 [[<- <-]|[Hne H1']]%lookup_insert_Some; [split; [lia|done]|].
    destruct (Hmem _ _ H1'). split; [lia|]. eapply backend_ok_grows; [done|].
    by eapply others_watchers.
  - intros a1 Hb1 [Ha1 Hne]%lookup_insert_None. rewrite (others_watchers a a1 tr tr') by done.
    apply Hfresh; [lia|done].
  - by rewrite len_app.
  - intros a1. unfold listed; cbn. rewrite elem_of_app, list_elem_of_singleton.
    fold (listed s). rewrite Hl, lookup_insert_is_Some. destruct (decide (a = a1)); naive_solver.
  - apply NoDup_app. split_and!; [done| |apply NoDup_singleton].
    intros a1 Ha1 ->%list_elem_of_singleton. done.
  - intros a1 a2 b1 b2 H1' H2' Heq.
    apply lookup_insert_Some in H1' as [[<- <-]|[? H1']];
      apply lookup_insert_Some in H2' as [[<- <-]|[? H2']]; [done| | |by eauto].
    + by destruct (Hkey _ _ H2').
    + by destruct (Hkey _ _ H1').
Qed.

(** What a successful first connection leaves. *)
Lemma first_connect_spec c tr (k : counters) :
  fresh c tr -> c.(config) = cfg -> default_callbacks c ->
  wp (tcpclient_connect c k) (fun '(r, c', k') tr' => grows (only_about c.(self)) tr tr' /\
    static c' = static c /\ client_inv c' tr' /\ buffer_data c'.(send_queue) = [] /\
    (r <> 0 -> watchers c.(self) tr' = idle)) tr.
Proof.
  intros (Hinv & Hst & Hq) Hcfg Hcb.
  eapply wp_mono; [apply wp_keeps; [by apply connect_eq|apply keeps_connect]|].
  intros [[r c'] k'] tr' [Hp (Hg & Hstat & _)]. unfold connect_post in Hp. rewrite Hst in Hp.
  destruct Hp as ((Hinv' & (t & _ & Hd) & (Hself & _)) & _ & Hr).
  rewrite Hq in Hd. apply app_eq_nil in Hd as [_ Hd].
  split_and!; [done..|]. intros Hne.
  destruct Hr as [[? _]|(_ & Hback & _)]; [done|].
  pose proof (ci_state _ _ Hinv') as Hok. unfold state_ok in Hok. by rewrite Hback, Hself in Hok.
Qed.

(** A backend could not be made. *)
Lemma made_none k s tr tr' :
  server_inv cfg base s tr -> untouched s.(next) tr -> grows (only_about s.(next)) tr tr' ->
  watchers s.(next) tr' = idle -> made k s (None, set_next (S s.(next)) s) tr'.
Proof.
  intros Hinv Hun Hg Hi. split; [|split; [|done]].
  - destruct (server_inv_next s tr Hinv (Hun _ (le_n _))) as [? [Hmem Hf] ?????]. split; try done. split.
    + intros a b Hb. destruct (Hmem _ _ Hb). split; [done|].
      eapply backend_ok_grows; [done|]. eapply others_watchers; [done|].
      destruct Hinv as [_ [Hm _] _ _ _ _ _]. destruct (Hm a b Hb). lia.
    + intros a Hb Ha. destruct (decide (s.(next) = a)) as [<-|Hne]; [done|].
      rewrite (others_watchers _ a tr tr' Hg Hne). by apply Hf.
  - intros a Ha. rewrite (others_watchers _ a tr tr' Hg) by (cbn in Ha; lia). apply Hun. cbn in Ha. lia.
Qed.

(** A client that was connected makes a backend. *)
Lemma new_backend_ok a k h po pr c c1 tr :
  static c1 = static c -> c.(self) = a -> c.(config) = cfg -> default_callbacks c ->
  (c.(host), c.(port), c.(protocol)) = (h, po, pr) -> parse_address k = Some (h, po, Some pr) ->
  len k < 2 ^ 30 + 4 -> client_inv c1 tr -> buffer_data c1.(send_queue) = [] ->
  backend_ok cfg a (Backend (tcpclient_set_sent_callback c1 stats_sent) (Counters k 0 0 0 0 0)) tr.
Proof.
  intros Hstat Hself Hcfg (Hcb1 & Hcb2 & Hcb3) Haddr Hk Hlk Hinv Hq.
  injection Hstat as Hs1 Hc1 Hh1 Hp1 Hpr1 Hcc _ Hcr Hce. injection Haddr as Ha1 Ha2 Ha3. split.
  - destruct Hinv as [Hwf Hs Hst Hm]. by split.
  - cbn. congruence.
  - cbn. congruence.
  - split; [split_and!; cbn; congruence|done].
  - change (parse_address k = Some (c1.(host), c1.(port), Some c1.(protocol))). congruence.
  - unfold counts_ok. cbn. by rewrite Hq.
  - by split_and!.
Qed.

(** It joins the store. *)
Lemma made_some k s b tr tr1 tr' :
  server_inv cfg base s tr -> untouched s.(next) tr -> grows (only_about s.(next)) tr tr1 ->
  backend_ok cfg s.(next) b tr1 -> b.(stats).(key) = k ->
  (forall a1 b1, s.(mem) !! a1 = Some b1 -> b1.(stats).(key) <> k) -> grows is_malloc tr1 tr' ->
  made k s (Some s.(next), set_list (len (listed s) + 1) (Some (listed s ++ [s.(next)]))
    (set_mem (<[s.(next) := b]> s.(mem)) (set_next (S s.(next)) s))) tr'.
Proof.
  intros Hinv Hun Hg Hb <- Hkey Hm. split; [by eapply server_inv_add|split; [|cbn; split_and!]].
  - intros a Ha. cbn in Ha. rewrite (malloc_watchers tr1 tr') by done.
    rewrite (others_watchers _ a tr tr1 Hg) by lia. apply Hun. lia.
  - exists b. split; [apply lookup_insert_eq|done].
  - intros a' b' Hne. by rewrite lookup_insert_ne.
  - intros [b1 Hb1]. destruct Hinv as [_ [Hm' _] _ _ _ _ _]. destruct (Hm' _ _ Hb1). lia.
  - unfold listed at 1; cbn. by rewrite len_app.
Qed.

Lemma make_with_key_spec k h po pr s tr :
  server_inv cfg base s tr -> untouched s.(next) tr -> len (listed s) < 2 ^ 58 ->
  NUL ∉ h -> NUL ∉ po -> NUL ∉ pr -> len k < 2 ^ 30 + 4 -> parse_address k = Some (h, po, Some pr) ->
  wp (make_with_key cfg k h po pr s) (made k s) tr.
Proof.
  intros Hinv Hun Hn Hh Hp Hpr Hlk Hk. unfold make_with_key. apply wp_bind.
  destruct (find_backend_spec s k tr Hinv) as (r & Hr & Hspec).
  eapply wp_run; [exact Hr|]. destruct r as [a|].
  { apply wp_ret. split; [done|]. split_and!; [done..|lia]. }
  apply wp_bind, wp_malloc_plenty; [done|]. intros _ _. set (a := s.(next)). set (tr0 := tr ++ _).
  assert (Hg0 : grows is_malloc tr tr0) by (by apply grows_one).
  assert (Hinv0 : server_inv cfg base s tr0) by (by eapply server_inv_malloc).
  assert (Hun0 : untouched a tr0) by (by eapply untouched_malloc).
  assert (Hidle : watchers a tr0 = idle) by (by apply Hun0).
  assert (Hmg : forall tr', grows is_malloc tr0 tr' -> grows (only_about a) tr0 tr').
  { intros tr'. apply grows_mono. by intros []. }
  apply wp_bind. eapply wp_mono; [by apply (tcpclient_init_spec (raw_client a cfg))|].
  intros [r c] tr1 [Hg1 Hc]. cbn beta iota. destruct (Z.eqb_spec r 0) as [->|Hne]; cbn [negb]; cbn iota.
  2:{ apply wp_ret, (made_none k s tr0); [done..|by apply Hmg|]. by rewrite (malloc_watchers tr0 tr1). }
  destruct (Hc eq_refl) as (Hfresh & Hself & Hcfg & Hcb & Haddr). cbn in Hself.
  rewrite !cstr_id in Haddr by done. apply wp_bind.
  eapply wp_mono; [by apply first_connect_spec|].
  intros [[r1 c1] k1] tr2 (Hg2 & Hstat & Hinv2 & Hq2 & Hfail). rewrite Hself in Hg2, Hfail.
  assert (Hg : grows (only_about a) tr0 tr2) by (etrans; [by apply Hmg|done]).
  cbn beta iota. destruct (Z.eqb_spec r1 0) as [->|Hne]; cbn [negb]; cbn iota.
  2:{ apply wp_ret, (made_none k s tr0); auto. }
  apply wp_bind. eapply wp_mono.
  { apply (add_backend_spec (set_mem (<[a:=_]> s.(mem)) (set_next (S a) s)) a); [|done]. apply Hinv. }
  intros [r2 s2] tr3 [Hg3 ->]. apply wp_ret. eapply (made_some k s _ tr0 tr2); try done.
  by eapply new_backend_ok.
Qed.

Lemma dup_spec t (Q : option bytes -> trace -> Prop) tr :
  (forall tr', grows is_malloc tr tr' -> Q None tr') ->
  (forall tr', grows is_malloc tr tr' -> Q (Some t) tr') -> wp (dup t) Q tr.
Proof.
  intros Hnull Hsome. unfold dup. pose proof (len_nonneg t).
  apply wp_bind, wp_malloc; [lia| |intros cells _ _]; apply wp_ret;
    [apply Hnull|apply Hsome]; by apply grows_one.
Qed.

Lemma make_backend_spec line s tr :
  server_inv cfg base s tr -> untouched s.(next) tr -> len (listed s) < 2 ^ 58 ->
  address_ok line ->
  wp (make_backend cfg line s) (fun p tr' =>
    match backend_key line with
    | Some k => made k s p tr'
    | None => p = (None, s) /\ tr' = tr
    end) tr.
Proof.
  intros Hinv Hun Hn [Hnul Hsmall]. unfold make_backend.
  destruct (parse_address line) as [[[h po] pr]|] eqn:E.
  2:{ rewrite backend_key_None by done. by apply wp_ret. }
  destruct (backend_key_parse _ _ _ _ E) as (k & -> & Hk & Hkeq).
  destruct (parse_address_inv _ _ _ _ E) as (_ & _ & Hline).
  assert (Hnone : forall tr', grows is_malloc tr tr' -> made k s (None, s) tr').
  { intros tr' Hg. split; [by eapply server_inv_malloc|]. split; [by eapply untouched_malloc|done]. }
  apply wp_bind, dup_spec; [intros; by apply wp_ret, Hnone|]. intros tr1 Hg1.
  assert (Hparts : (NUL ∉ h) /\ (NUL ∉ po) /\ (NUL ∉ default (lit "tcp") pr)).
  { subst line. destruct pr as [pr|]; cbn [default from_option id]; split_and!;
      first [by apply no_nul_lit|set_solver]. }
  destruct Hparts as (Hh & Hpo & Hpr).
  apply wp_bind, dup_spec; intros tr2 Hg2; (apply wp_bind, dup_spec; intros tr3 Hg3);
    assert (Hg13 : grows is_malloc tr tr3) by (etrans; [exact Hg1|by etrans]);
    [by apply wp_ret, Hnone..|].
  apply wp_bind.
  replace (match pr with Some _ => line | None => line ++ lit ":" ++ default (lit "tcp") pr end)
    with k by (by destruct pr).
  apply dup_spec; intros tr4 Hg4.
  { apply wp_ret, Hnone. by etrans. }
  eapply wp_mono; [apply make_with_key_spec; try done|].
  { eapply server_inv_malloc; [done|]. by etrans. }
  { eapply untouched_malloc; [done|]. by etrans. }
  { rewrite Hkeq. destruct pr; [lia|]. rewrite !len_app. change (len (lit ":")) with 1.
    change (len (lit "tcp")) with 3. lia. }
  done.
Qed.

Lemma kill_backend_spec a b s tr :
  store_ok cfg base s tr -> s.(mem) !! a = Some b ->
  wp (kill_backend a s) (fun s' tr' => store_ok cfg base s' tr' /\
    s' = set_mem (delete a s.(mem)) s /\ grows (only_about a) tr tr') tr.
Proof.
  intros [Hmem Hfresh] Hb. destruct (Hmem a b Hb) as [Ha Hok]. unfold kill_backend. rewrite Hb.
  apply wp_bind, wp_ret, wp_bind.
  eapply wp_mono; [apply wp_keeps; [apply destroy_spec, Hok|apply keeps_destroy]|].
  intros c' tr' ([Hidle _] & Hg & _). rewrite (bo_self _ _ _ _ Hok) in Hidle, Hg.
  apply wp_ret. split; [|done]. split; cbn.
  - intros a1 b1 [Hne H1']%lookup_delete_Some. destruct (Hmem _ _ H1'). split; [done|].
    eapply backend_ok_grows; [done|]. by eapply others_watchers.
  - intros a1 Hb1 [<-|Ha1]%lookup_delete_None; [done|].
    destruct (decide (a = a1)) as [<-|Hne]; [done|]. rewrite (others_watchers a a1 tr tr') by done. by apply Hfresh.
Qed.

(** [xs] are the backends of [lines], slot by slot, and there are no others. *)
Definition backends_built (lines : list bytes) (xs : list nat) s tr : Prop :=
  (server_inv cfg base s tr /\ untouched s.(next) tr) /\
  Forall2 (fun line a => exists b, s.(mem) !! a = Some b /\
    backend_key line = Some b.(stats).(key)) lines xs /\
  (forall a, is_Some (s.(mem) !! a) -> a ∈ xs) /\ len (listed s) <= len lines.

(** [xs] are the backends that are left. *)
Definition backends_left (xs : list nat) s tr : Prop :=
  store_ok cfg base s tr /\ NoDup xs /\ forall a, is_Some (s.(mem) !! a) <-> a ∈ xs.

(** While the server is made, the addresses after its own are unused. *)
Definition backends_owed (xs : list nat) s tr : Prop :=
  backends_left xs s tr /\ (base <= s.(next))%nat /\ untouched s.(next) tr.

Lemma built_alloc lines xs line s tr :
  backends_built lines xs s tr -> address_ok line -> len (lines ++ [line]) < 2 ^ 58 ->
  wp (make_backend cfg line s) (fun p tr' =>
    match p.1 with
    | Some x => backends_built (lines ++ [line]) (xs ++ [x]) p.2 tr'
    | None => backends_built lines xs p.2 tr'
    end) tr.
Proof.
  intros ([Hinv Hun] & Hall & Hdom & Hlen) Hnul Hn. rewrite len_app, len_cons, len_nil in Hn.
  eapply wp_mono; [apply make_backend_spec; [done|done|lia|done]|].
  intros [r s'] tr' Hmade. destruct (backend_key line) as [k|] eqn:Hk.
  2:{ destruct Hmade as [[= -> ->] ->]. by split_and!. }
  destruct Hmade as (Hinv' & Hun' & Hr). cbn [fst snd]. destruct r as [a|].
  - destruct Hr as (Hb & Hsame & Hold & Hlen'). split; [done|]. split_and!.
    + apply Forall2_app; [|apply Forall2_cons; split; [|by apply Forall2_nil]].
      * eapply Forall2_impl; [exact Hall|]. intros l1 a1 (b1 & Hb1 & Hk1). exists b1.
        split; [|done]. destruct (decide (a1 = a)) as [->|Hne]; [|by apply Hsame].
        rewrite Hold; [done|by eexists].
      * destruct Hb as (b & Hb & Hkb). exists b. split; [done|congruence].
    + intros a' Ha'. rewrite elem_of_app, list_elem_of_singleton.
      destruct (decide (a' = a)) as [|Hne]; [by right|left].
      destruct Ha' as [b' Hb']. apply Hdom. exists b'. by apply Hsame.
    + rewrite len_app, len_cons, len_nil. lia.
  - destruct Hr as [Hm Hl]. split; [done|]. rewrite Hm, Hl. done.
Qed.

Lemma built_is_owed lines xs s tr :
  backends_built lines xs s tr -> backends_owed (distinct xs) s tr.
Proof.
  intros ([[Hba Hs _ _ _ _ _] Hun] & Hall & Hdom & _). split; [|done].
  split; [done|]. split; [apply NoDup_distinct_from|].
  intros a. unfold distinct. rewrite elem_of_distinct_from. split.
  - intros Ha. split; [by apply Hdom|apply not_elem_of_nil].
  - intros [[i Hi]%list_elem_of_lookup _].
    destruct (Forall2_lookup_r _ _ _ _ _ Hall Hi) as (line & _ & b & -> & _). by eexists.
Qed.

Lemma left_dealloc a xs s tr :
  backends_left (a :: xs) s tr ->
  wp (kill_backend a s) (fun s' tr' => backends_left xs s' tr' /\
    s'.(next) = s.(next) /\ grows (only_about a) tr tr' /\ (a < s.(next))%nat) tr.
Proof.
  intros (Hs & Hnd & Hdom). apply NoDup_cons in Hnd as [Hna Hnd].
  destruct (proj2 (Hdom a)) as [b Hb]; [by left|].
  eapply wp_mono; [by apply (kill_backend_spec a b)|]. intros s' tr' (Hs' & -> & Hg).
  split; [|split_and!; [done|done|by apply (so_mem _ _ _ _ Hs a b)]].
  split_and!; [done|done|]. intros a'. cbn. rewrite lookup_delete_is_Some, Hdom, elem_of_cons.
  split; [naive_solver|]. intros Ha'. split; [by intros ->|by right].
Qed.

(** [xs] are left since [tr0], when [n] was the next address. *)
Definition left_since (tr0 : trace) (n : nat) (xs : list nat) s tr : Prop :=
  backends_left xs s tr /\ s.(next) = n /\ grows (about_range base n) tr0 tr.

#[export] Instance left_dealloc_laws tr0 n :
  RingDeallocLaws (RA := server_alloc cfg) (left_since tr0 n).
Proof.
  split. intros a xs s tr (Hl & <- & Hg). pose proof (so_mem _ _ _ _ (proj1 Hl)) as Hm.
  eapply wp_mono; [by apply left_dealloc|].
  intros s' tr' (Hl' & Hn & Hg' & Ha). split_and!; [done|done|]. etrans; [exact Hg|].
  eapply grows_mono; [|exact Hg']. intros c. apply only_about_range. split; [|done].
  destruct (proj2 (proj2 (proj2 Hl) a)) as [b Hb]; [by left|]. by apply (Hm a b).
Qed.

Lemma owed_dealloc a xs s tr :
  backends_owed (a :: xs) s tr ->
  wp (kill_backend a s) (fun s' tr' => backends_owed xs s' tr') tr.
Proof.
  intros (Hl & Hba & Hun). eapply wp_mono; [by apply left_dealloc|].
  intros s' tr' (Hl' & Hn & Hg & Ha). split; [done|]. rewrite Hn. split; [done|].
  intros a' Ha'. rewrite (others_watchers a a' tr tr') by (done || lia). by apply Hun.
Qed.

Lemma built_after_malloc lines xs s tr tr' :
  grows is_malloc tr tr' -> backends_built lines xs s tr -> backends_built lines xs s tr'.
Proof.
  intros Hg ([Hinv Hun] & ?). split; [|done]. split; [by eapply server_inv_malloc|].
  by eapply untouched_malloc.
Qed.

(** stats.c keeps the promises that hashring.c needs of its callbacks. *)
#[export] Instance server_alloc_laws :
  RingAllocLaws (RA := server_alloc cfg) backends_built backends_owed.
Proof.
  split.
  - exact built_alloc.
  - exact built_is_owed.
  - split. exact owed_dealloc.
  - exact built_after_malloc.
Qed.

(** An empty server. *)
Lemma backends_built_nil tr :
  untouched base tr ->
  backends_built [] [] (Server 0 0 0 0 0 0 None RNull ∅ base) tr.
Proof.
  intros Hidle. split; [split; [split; [|split| | | | |]|]; cbn|split_and!; cbn].
  - lia.
  - by intros a b ?%lookup_empty_Some.
  - intros a Ha _. apply Hidle. lia.
  - done.
  - intros a. unfold listed; cbn. rewrite lookup_empty. split; [by intros ?%elem_of_nil|by intros [? ?]].
  - apply NoDup_nil_2.
  - by intros a a' b b' ?%lookup_empty_Some.
  - by split_and!.
  - exact Hidle.
  - done.
  - intros a. rewrite lookup_empty. by intros [? ?].
  - done.
Qed.

(** What holds of a server that was created for [lines]. *)
Definition server_ready (lines : list bytes) s tr : Prop :=
  exists l xs, s.(server_ring) = RLive (Hashring (Some l)) /\ rep l xs /\
    length xs = length lines /\ backends_built lines xs s tr.

Lemma server_create_spec ps cfg_ring lines tr :
  ps.(sp_config) = cfg -> cfg.(ring) = Some cfg_ring -> rep cfg_ring (Some <$> lines) ->
  Forall address_ok lines -> len lines < 2 ^ 58 ->
  untouched base tr ->
  wp (stats_server_create base ps) (fun r tr' =>
    match r with Some s => server_ready lines s tr' | None => untouched base tr' end) tr.
Proof.
  intros Hcfg Hring Hrep Hnul Hn Hidle. unfold stats_server_create. rewrite Hcfg, Hring.
  apply wp_bind, wp_malloc_plenty; [done|]. intros _ _. apply wp_bind, wp_ret, wp_bind.
  eapply wp_mono.
  { apply (load_from_config_spec cfg_ring lines); [done..|].
    eapply built_after_malloc; [by apply grows_one|by apply backends_built_nil]. }
  intros [[r|] s] tr' Hpost; apply wp_ret.
  - destruct Hpost as (l & xs & -> & Hl & Hb & Hlen). cbn [snd] in Hb. exists l, xs. split; [done|].
    destruct Hb as ([[Hba [Hmem Hf] Hc Hls Hnd Hk Hr] Hun] & Hrest).
    split; [done|]. split; [done|]. split; [|exact Hrest]. split; [|exact Hun].
    split; try done.
  - destruct Hpost as (([_ Hf] & _ & Hdom) & Hba & Hun). cbn in *. intros a Ha.
    destruct (decide (a < s.(next))%nat); [|apply Hun; lia]. apply Hf; [lia|].
    destruct (s.(mem) !! a) eqn:E; [|done].
    assert (a ∈ @nil nat) as Hin by (apply Hdom; by eexists). by apply not_elem_of_nil in Hin.
Qed.

(** What dealing with the ring's backends leaves: an empty store. *)
Lemma dealloc_ring_spec xs s tr :
  running cfg base xs s tr ->
  wp (dealloc_ring cfg s) (fun s' tr' => s'.(mem) = ∅ /\ s'.(server_ring) = RFreed /\
    s'.(next) = s.(next) /\ store_ok cfg base s' tr' /\
    grows (about_range base s.(next)) tr tr') tr.
Proof.
  intros [[_ Hst _ _ _ _ _] (l & Hring & Hrep) Hslots _]. unfold dealloc_ring. rewrite Hring.
  apply wp_bind. eapply wp_mono.
  { apply (dealloc_ring_owed (RA := server_alloc cfg) (owed := left_since tr s.(next)) l xs); [done|].
    split_and!; [|done|done]. split_and!; [done|apply NoDup_distinct_from|].
    intros a. unfold distinct. rewrite elem_of_distinct_from, Hslots. set_solver. }
  intros s' tr' ((Hs & _ & Hdom) & Hn & Hg). apply wp_ret. split_and!; [|done|done| |done].
  - apply map_eq. intros a. rewrite lookup_empty. cbn.
    destruct (s'.(mem) !! a) eqn:E; [|done]. assert (a ∈ @nil nat) by (apply Hdom; by eexists).
    set_solver.
  - destruct Hs as [Hmem Hf]. split; [exact Hmem|exact Hf].
Qed.

(** The slots of the ring of a server that was created for [lines]: slot [i] holds
    the backend of line [i].  The keys of backends never change. *)
Definition slots_of (lines : list bytes) (xs : list nat) (s : stats_server_t) : Prop :=
  Forall2 (fun line a => exists b, s.(mem) !! a = Some b /\
    backend_key line = Some b.(stats).(key)) lines xs.

Lemma ready_running s tr lines :
  server_ready lines s tr -> len lines < 2 ^ 32 ->
  exists xs, running cfg base xs s tr /\ slots_of lines xs s.
Proof.
  intros (l & xs & Hring & Hrep & Hlen & [Hinv _] & Hall & Hdom & _) Hn. exists xs. split; [|done].
  split; [done|by exists l| |unfold len in *; lia].
  intros a. split; [|by apply Hdom]. intros [i Hi]%list_elem_of_lookup.
  destruct (Forall2_lookup_r _ _ _ _ _ Hall Hi) as (line & _ & b & -> & _). by eexists.
Qed.
End making.

Section theorems.
Context `{OSLaws, !Plenty}.
Implicit Types (s : stats_server_t) (tr : trace).

(** C11. stats.c, creating a server: when memory suffices, [stats_server_create]
    has no undefined behaviour, and the server it returns has one backend for
    each distinct normalised address (host:port:protocol, with tcp as the
    default protocol) among the lines of its configuration: slot [i] of the
    ring holds the backend of line [i], whose client has that host, port and
    protocol, two slots hold the same backend exactly when their lines have
    the same normalised address, and the backend list has every backend once. *)
Theorem stats_server_create_backends base ps cfg_ring lines tr :
  ps.(sp_config).(ring) = Some cfg_ring -> rep cfg_ring (Some <$> lines) ->
  Forall address_ok lines -> len lines < 2 ^ 58 ->
  untouched base tr ->
  wp (stats_server_create base ps) (fun r tr' => forall s, r = Some s ->
    server_inv ps.(sp_config) base s tr' /\
    exists l xs, s.(server_ring) = RLive (Hashring (Some l)) /\ rep l xs /\
      Forall2 (fun line a => exists b, s.(mem) !! a = Some b /\
        backend_key line = Some b.(stats).(key)) lines xs /\
      (forall i j, (i < length lines)%nat -> (j < length lines)%nat ->
        xs !! i = xs !! j <-> lines !! i ≫= backend_key = lines !! j ≫= backend_key) /\
      NoDup (listed s) /\ (forall a, a ∈ listed s <-> a ∈ xs)) tr.
Proof.
  intros Hring Hrep Hnul Hn Hidle. eapply wp_mono; [by eapply server_create_spec|].
  intros r tr' Hr s ->. destruct Hr as (l & xs & Hl & Hrepl & Hlen & [Hinv _] & Hall & Hdom & _).
  split; [done|]. exists l, xs. split_and!; [done..| |apply Hinv|].
  - intros i j Hi Hj.
    destruct (lookup_lt_is_Some_2 lines i Hi) as [li Hli].
    destruct (lookup_lt_is_Some_2 lines j Hj) as [lj Hlj].
    destruct (Forall2_lookup_l _ _ _ _ _ Hall Hli) as (x & Hx & b & Hb & Hk).
    destruct (Forall2_lookup_l _ _ _ _ _ Hall Hlj) as (x' & Hx' & b' & Hb' & Hk').
    rewrite Hli, Hlj, Hx, Hx'. cbn. rewrite Hk, Hk'. split.
    + intros [= ->]. rewrite Hb in Hb'. by injection Hb' as ->.
    + intros [= Heq]. f_equal. by eapply (si_keys _ _ _ _ Hinv).
  - intros a. rewrite (si_list _ _ _ _ Hinv). split; [apply Hdom|].
    intros [i Hi]%list_elem_of_lookup.
    destruct (Forall2_lookup_r _ _ _ _ _ Hall Hi) as (line & _ & b & -> & _). by eexists.
Qed.

(** C31. stats.c, reloading and destroying a running server: every backend is
    destroyed exactly once, with its watchers stopped, although several slots of the
    ring share it.  What [stats_server_reload] leaves is a server whose ring
    pointer is dangling: destroying it, or relaying a line, is undefined. *)
Theorem stats_server_reload_kills base xs s ps tr :
  running ps.(sp_config) base xs s tr ->
  is_Some (stats_server_destroy ps.(sp_config) s tr) /\
  wp (stats_server_reload ps.(sp_config) s) (fun s' tr' =>
    s'.(mem) = ∅ /\ s'.(num_backends) = 0 /\
    (forall a, is_Some (s.(mem) !! a) -> watchers a tr' = idle) /\
    s'.(server_ring) = RFreed /\ stats_server_destroy ps.(sp_config) s' tr' = None) tr.
Proof.
  intros Hrun. pose proof (dealloc_ring_spec _ _ _ _ _ Hrun) as Hd. split.
  - destruct (wp_inv _ _ _ Hd) as (s' & tr' & E & _).
    unfold stats_server_destroy, mbind, M_bind. rewrite E. by eexists.
  - unfold stats_server_reload. apply wp_bind. eapply wp_mono; [exact Hd|].
    intros s' tr' (Hm & Hring & Hn & [_ Hf] & _). apply wp_bind, (wp_sys Time), wp_ret. cbn.
    split_and!; [done|done| |done|].
    + intros a [b Hb]. rewrite watchers_snoc. apply Hf; [|by rewrite Hm]. rewrite Hn.
      by destruct (so_mem _ _ _ _ (si_store _ _ _ _ (ru_inv _ _ _ _ _ Hrun)) a b Hb).
    + unfold stats_server_destroy, dealloc_ring. cbn. by rewrite Hring.
Qed.
End theorems.
