(* ===== verification/Stats.v ===== *)
(** * stats.c, second half: lines, sessions and statistics

    A session is the receive buffer of one TCP connection; the static buffers
    of the code are modelled by the bytes that were just copied to them, the
    copies being undefined when they do not fit.  [lines_handled] and
    [lines_relayed] are the reference: what the server does with a list of
    lines, however they were received. *)
From S2P Require Import Prelude Libc Sys Buffer SList Hashring.
From S2P Require Import Protocol Validate YamlConfig Tcpclient Backend.

(** ** Data *)

Record stats_session_t := Session {
  session_buffer : buffer;
  session_sd : Z;
}.

Definition MAX_UDP_LENGTH : Z := 65536.

(** The sizes of the static [line_buffer] and [key_buffer]. *)
Definition LINE_BUFFER_SIZE : Z := MAX_UDP_LENGTH + 2.
Definition KEY_BUFFER_SIZE : Z := 8192.

Definition sizeof_session : Z := 48.

(** ** Counters *)

Definition count_relayed (n : Z) (k : counters) : counters :=
  Counters k.(key) (wrap64 (k.(bytes_queued) + n)) k.(bytes_sent)
    (wrap64 (k.(relayed_lines) + 1)) k.(dropped_lines) 0.

Definition count_dropped (k : counters) : counters :=
  Counters k.(key) k.(bytes_queued) k.(bytes_sent) k.(relayed_lines)
    (wrap64 (k.(dropped_lines) + 1)) (if k.(backend_failing) =? 0 then 1 else k.(backend_failing)).

(** [memcpy(line_buffer, head, len); memcpy(line_buffer + len, "\n\0", 2)]. *)
Definition line_buffer (d : bytes) : option bytes :=
  if len d + 2 <=? LINE_BUFFER_SIZE then Some (d ++ [LF; NUL]) else None.

(** [memcpy(key_buffer, line, key_len); key_buffer[key_len] = 0]. *)
Definition key_buffer (line : bytes) (key_len : Z) : option bytes :=
  if key_len <? KEY_BUFFER_SIZE then
    k ← load (Cells line) 0 key_len; Some (k ++ [NUL])
  else None.

Section code.
Context `{OS}.
Variable ps : server_params.
Implicit Types (s : stats_server_t) (session : stats_session_t).

(** ** Relaying a line *)

(** The validation at the start of [stats_relay_line]: 0 to go on. *)
Definition validate_line (line : bytes) (n : Z) : M Z :=
  if ps.(sp_config).(enable_validation) then
    match ps.(sp_validator) with
    | Some validator => validator line n
    | None => mret 0
    end
  else mret 0.

(** [hashring_choose(ss->ring, key, NULL)]. *)
Definition choose_backend s (k : bytes) : M (option (nat * Z)) :=
  match s.(server_ring) with
  | RNull => hashring_choose None k
  | RFreed => ub
  | RLive r => hashring_choose (Some r) k
  end.

Definition stats_relay_line (line : bytes) (n : Z) s : M (Z * stats_server_t) :=
  invalid ← validate_line line n;
  if negb (invalid =? 0) then mret (1, s) else
  key_len ← defined (ps.(sp_parser) (Some line) n);
  if key_len =? 0 then mret (1, set_malformed (wrap64 (s.(malformed_lines) + 1)) s) else
  k ← defined (key_buffer line key_len);
  choice ← choose_backend s k;
  match choice with
  | None => mret (1, s)
  | Some (a, _) =>
      backend ← defined (s.(mem) !! a);
      d ← defined (load (Cells line) 0 (n + 1));
      '(r, c, k) ← tcpclient_sendall backend.(client) backend.(stats) d;
      if negb (r =? 0) then
        mret (2, set_mem (<[a := Backend c (count_dropped k)]> s.(mem)) s)
      else
        mret (0, set_mem (<[a := Backend c (count_relayed (n + 1) k)]> s.(mem)) s)
  end.

(** ** The status response *)

(** [buffer_produced(response, snprintf(tail, spacecount, ...))], where [t] is
    what the format expands to; snprintf cannot return more than INT_MAX. *)
Definition print_line (response : buffer) (t : bytes) : M buffer :=
  _ ← defined (if len t <? 2 ^ 31 then Some () else None);
  let space := buffer_spacecount response in
  response ← (if 0 <? space then
                buffer_write response (take (Z.to_nat (space - 1)) t ++ [NUL])
              else mret response);
  mret (buffer_produced response (len t)).2.

Fixpoint print_lines (response : buffer) (ts : list bytes) : M buffer :=
  match ts with
  | [] => mret response
  | t :: ts => response ← print_line response t; print_lines response ts
  end.

Definition global_lines s : list bytes :=
  [lit "global bytes_recv_udp gauge " ++ print_dec s.(bytes_recv_udp) ++ [LF];
   lit "global bytes_recv_tcp gauge " ++ print_dec s.(bytes_recv_tcp) ++ [LF];
   lit "global total_connections gauge " ++ print_dec s.(total_connections) ++ [LF];
   lit "global last_reload timestamp " ++ print_dec (wrap64 s.(last_reload)) ++ [LF];
   lit "global malformed_lines gauge " ++ print_dec s.(malformed_lines) ++ [LF]].

Definition backend_lines (k : counters) : list bytes :=
  let name := lit "backend:" ++ k.(key) in
  [name ++ lit " bytes_queued gauge " ++ print_dec k.(bytes_queued) ++ [LF];
   name ++ lit " bytes_sent gauge " ++ print_dec k.(bytes_sent) ++ [LF];
   name ++ lit " relayed_lines gauge " ++ print_dec k.(relayed_lines) ++ [LF];
   name ++ lit " dropped_lines gauge " ++ print_dec k.(dropped_lines) ++ [LF];
   name ++ lit " failing boolean " ++ print_dec k.(backend_failing) ++ [LF]].

(** The loop over the backends. *)
Fixpoint print_backends (response : buffer) (l : list nat) s : M buffer :=
  match l with
  | [] => mret response
  | a :: l =>
      backend ← defined (s.(mem) !! a);
      response ← print_lines response (backend_lines backend.(stats));
      print_backends response l s
  end.

(** [while (buffer_datacount(response) > 0)]: every round sends a byte or stops. *)
Fixpoint send_response (fuel : nat) (response : buffer) (sd : Z) : M buffer :=
  if 0 <? buffer_datacount response then
    match fuel with
    | O => ub
    | S fuel =>
        d ← buffer_read response (buffer_datacount response);
        sent ← sys (Send sd d);
        if sent <? 0 then mret response
        else if sent =? 0 then mret response
        else send_response fuel (buffer_consume response sent).2 sd
    end
  else mret response.

Definition stats_send_statistics session s : M unit :=
  response ← create_buffer MAX_UDP_LENGTH;
  match response with
  | None => mret ()
  | Some response =>
      response ← print_lines response (global_lines s);
      response ← print_backends response
        (take (Z.to_nat s.(num_backends)) (default [] s.(backend_list))) s;
      response ← print_line response [LF];
      response ← send_response (Z.to_nat (buffer_datacount response)) response
        session.(session_sd);
      delete_buffer response
  end.

(** ** TCP sessions *)

Definition stats_connection (sd : Z) s : M (option stats_session_t * stats_server_t) :=
  p ← malloc sizeof_session;
  match p with
  | None => mret (None, s)
  | Some _ =>
      '(r, b) ← buffer_init uninit_buffer;
      if negb (r =? 0) then mret (None, s) else
      mret (Some (Session b sd), set_connections (wrap64 (s.(total_connections) + 1)) s)
  end.

(** What is done with one line, in the line buffer. *)
Definition handle_line session (line : bytes) (n : Z) s : M (Z * stats_server_t) :=
  if (n =? 6) && bool_decide (cstr line = lit "status" ++ [LF]) then
    _ ← stats_send_statistics session s;
    mret (0, s)
  else stats_relay_line line n s.

Definition block_cells (b : block) : option bytes :=
  match b with Cells c => Some c | _ => None end.

(** [while (1)]; every round consumes a byte or stops. *)
Fixpoint process_lines (fuel : nat) session s : M (Z * stats_session_t * stats_server_t) :=
  match fuel with
  | O => ub
  | S fuel =>
      let b := session.(session_buffer) in
      let datasize := buffer_datacount b in
      if datasize =? 0 then mret (0, session, s) else
      c ← defined (block_cells b.(ptr));
      tail ← defined (memchr c (buffer_head b) LF datasize);
      match tail with
      | None => mret (0, session, s)
      | Some tail =>
          let n := tail - buffer_head b in
          d ← buffer_read b n;
          line ← defined (line_buffer d);
          '(r, s) ← handle_line session line n s;
          if negb (r =? 0) then mret (1, session, s) else
          process_lines fuel
            (Session (buffer_consume b (n + 1)).2 session.(session_sd)) s
      end
  end.

Definition stats_process_lines session s : M (Z * stats_session_t * stats_server_t) :=
  process_lines (S (Z.to_nat (buffer_datacount session.(session_buffer)))) session s.

Definition stats_session_destroy session : M unit :=
  _ ← buffer_destroy session.(session_buffer);
  mret ().

(** The space for [recv], made if there is none; [None] when that fails. *)
Definition recv_space (b : buffer) : M (option buffer) :=
  if negb (buffer_spacecount b =? 0) then mret (Some b) else
  '(_, b) ← buffer_realign b;
  if negb (buffer_spacecount b =? 0) then mret (Some b) else
  '(r, b) ← buffer_expand b;
  mret (if negb (r =? 0) then None else Some b).

(** The end of a session: [goto stats_recv_err]. *)
Definition recv_error session s : M (Z * option stats_session_t * stats_server_t) :=
  _ ← stats_session_destroy session;
  mret (1, None, s).

Definition stats_recv (sd : Z) session s : M (Z * option stats_session_t * stats_server_t) :=
  b ← recv_space session.(session_buffer);
  match b with
  | None => recv_error session s
  | Some b =>
      let session := Session b session.(session_sd) in
      r ← sys (Recv sd (buffer_spacecount b));
      match r with
      | None | Some [] => recv_error session s
      | Some d =>
          b ← buffer_write b d;
          let s := set_recv_tcp (wrap64 (s.(bytes_recv_tcp) + len d)) s in
          let '(r, b) := buffer_produced b (len d) in
          let session := Session b session.(session_sd) in
          if negb (r =? 0) then recv_error session s else
          '(r, session, s) ← stats_process_lines session s;
          if negb (r =? 0) then recv_error session s else
          mret (0, Some session, s)
      end
  end.

(** ** UDP *)

(** The loop over the datagram [buffer]. *)
Fixpoint udp_loop (fuel : nat) (buffer : bytes) (offset : Z) s : M (Z * stats_server_t) :=
  if offset <? len buffer then
    match fuel with
    | O => ub
    | S fuel =>
        tail ← defined (memchr buffer offset LF (len buffer - offset));
        let tail := default (len buffer) tail in
        let line_len := tail - offset in
        d ← defined (load (Cells buffer) offset line_len);
        line ← defined (line_buffer d);
        '(r, s) ← stats_relay_line line line_len s;
        if negb (r =? 0) then mret (1, s) else
        udp_loop fuel buffer (offset + (line_len + 1)) s
    end
  else mret (0, s).

(** A zero-length datagram and every error are refused alike. *)
Definition stats_udp_recv (sd : Z) s : M (Z * stats_server_t) :=
  r ← sys (Recv sd MAX_UDP_LENGTH);
  match r with
  | None | Some [] => mret (1, s)
  | Some buffer =>
      let s := set_recv_udp (wrap64 (s.(bytes_recv_udp) + len buffer)) s in
      udp_loop (length buffer) buffer 0 s
  end.
End code.

(** ** The protocol of a server, as an interface *)

(** What stats.c needs of the parser and the validator it is created with:
    the key of a line is what stands before its first [sep], and the validator
    accepts the [valid] lines. *)
Class LineProtocol `{OS} (ps : server_params) (sep : char) (valid : bytes -> Prop) : Prop := {
  lp_parser : forall line junk,
    ps.(sp_parser) (Some (line ++ junk)) (len line) = Some (key_length sep line);
  lp_validator : forall v line junk tr, ps.(sp_validator) = Some v ->
    NUL ∉ line -> len line < 2 ^ 62 ->
    wp (v (line ++ junk) (len line))
      (fun r tr' => grows is_malloc tr tr' /\ (r = 0 <-> valid line)) tr;
  lp_quiet : forall v line n, ps.(sp_validator) = Some v ->
    keeps is_malloc (fun _ => True) (v line n);
}.

(** The two servers of server.c. *)
Definition statsd_params `{OS} (cfg : proto_config) : server_params :=
  Params cfg protocol_parser_statsd (Some validate_statsd).

Definition carbon_params (cfg : proto_config) : server_params :=
  Params cfg protocol_parser_carbon (Some (fun line n => defined (validate_carbon line n))).

#[export] Instance statsd_protocol `{OS, !Plenty} cfg :
  LineProtocol (statsd_params cfg) COLON statsd_line.
Proof.
  split; [intros; apply simple_parse_spec| |by intros v line n [= <-]; apply keeps_validate_statsd].
  cbn. intros v line junk tr [= <-] Hn Hl. unfold wp. rewrite validate_statsd_ok; [|done|].
  - split; [by apply grows_one|]. rewrite <- statsd_ok_iff. destruct (statsd_ok line); naive_solver.
  - apply plenty. lia.
Qed.

#[export] Instance carbon_protocol `{OS} cfg :
  LineProtocol (carbon_params cfg) SPACE (fun line => occurrences SPACE line = 2%nat).
Proof.
  split; [intros; apply simple_parse_spec| |].
  2:{ intros v line n Hv. cbn in Hv. injection Hv as <-. apply keeps_defined_only. }
  intros v line junk tr Hv Hn Hl.
  cbn [sp_validator carbon_params] in Hv. injection Hv as <-. rewrite validate_carbon_spec. apply wp_ret. split; [done|]. case_decide; naive_solver.
Qed.

(** ** Running servers *)

(** A line that the validation lets through. *)
Definition passes (ps : server_params) (valid : bytes -> Prop) (line : bytes) : Prop :=
  ps.(sp_config).(enable_validation) = true -> is_Some ps.(sp_validator) -> valid line.

Definition line_key (sep : char) (line : bytes) : bytes :=
  take (Z.to_nat (key_length sep line)) line.

(** What becomes of a line: refused by the validator; without a key; no backend;
    queued by the backend of its key; dropped by that backend. *)
Inductive relayed (ps : server_params) (sep : char) (valid : bytes -> Prop) (xs : list nat)
    (line : bytes) (s : stats_server_t) : Z -> stats_server_t -> Prop :=
  | relay_invalid :
      ~ passes ps valid line -> relayed ps sep valid xs line s 1 s
  | relay_no_key :
      passes ps valid line -> line_key sep line = [] ->
      relayed ps sep valid xs line s 1
        (set_malformed (wrap64 (s.(malformed_lines) + 1)) s)
  | relay_no_backend :
      passes ps valid line -> line_key sep line <> [] -> xs = [] ->
      relayed ps sep valid xs line s 1 s
  | relay_queued a b c :
      passes ps valid line -> line_key sep line <> [] ->
      xs !! Z.to_nat (shard_of (line_key sep line) (len xs)) = Some a ->
      s.(mem) !! a = Some b ->
      buffer_data c.(send_queue) = buffer_data b.(client).(send_queue) ++ line ++ [LF] ->
      relayed ps sep valid xs line s 0
        (set_mem (<[a := Backend c (count_relayed (len line + 1) b.(stats))]> s.(mem)) s)
  | relay_dropped a b c :
      passes ps valid line -> line_key sep line <> [] ->
      xs !! Z.to_nat (shard_of (line_key sep line) (len xs)) = Some a ->
      s.(mem) !! a = Some b ->
      buffer_data c.(send_queue) = buffer_data b.(client).(send_queue) ->
      relayed ps sep valid xs line s 2
        (set_mem (<[a := Backend c (count_dropped b.(stats))]> s.(mem)) s).

Section relay.
Context `{OSLaws, !Plenty}.
Context (ps : server_params) (sep : char) (valid : bytes -> Prop).
Context `{!LineProtocol ps sep valid}.
Variables (base : nat) (xs : list nat).
Abbreviation cfg := (ps.(sp_config)).
Implicit Types (s : stats_server_t) (line : bytes) (tr : trace).

Lemma running_malloc s tr tr' :
  running cfg base xs s tr -> grows is_malloc tr tr' -> running cfg base xs s tr'.
Proof. intros [Hinv ???] Hg. split; try done. by eapply server_inv_malloc. Qed.

(** One backend of a running server changes. *)
Lemma running_update s a b b' tr tr' :
  running cfg base xs s tr -> s.(mem) !! a = Some b -> grows (only_about a) tr tr' ->
  backend_ok cfg a b' tr' -> b'.(stats).(key) = b.(stats).(key) ->
  running cfg base xs (set_mem (<[a := b']> s.(mem)) s) tr'.
Proof.
  intros [Hinv Hring Hslots Hsize] Hb Hg Hb' Hkey. split; try done.
  - by eapply server_inv_update.
  - intros a1. cbn. rewrite lookup_insert_is_Some', Hslots. split; [by right|].
    intros [<-|?]; [by eexists|done].
Qed.

Lemma running_malformed s x tr :
  running cfg base xs s tr -> running cfg base xs (set_malformed (wrap64 x) s) tr.
Proof.
  intros [[Hba [Hmem Hf] ???? (? & ? & ? & ?)] ???]. split; try done.
  split; try done. split_and!; try done. apply wrap64_range.
Qed.

Lemma running_recv_tcp s x tr :
  running cfg base xs s tr -> running cfg base xs (set_recv_tcp (wrap64 x) s) tr.
Proof.
  intros [[Hba [Hmem Hf] ???? (? & ? & ? & ?)] ???]. split; try done.
  split; try done. split_and!; try done. apply wrap64_range.
Qed.

Lemma running_recv_udp s x tr :
  running cfg base xs s tr -> running cfg base xs (set_recv_udp (wrap64 x) s) tr.
Proof.
  intros [[Hba [Hmem Hf] ???? (? & ? & ? & ?)] ???]. split; try done.
  split; try done. split_and!; try done. apply wrap64_range.
Qed.

Lemma line_key_len line : len (line_key sep line) = key_length sep line.
Proof.
  unfold line_key, key_length. destruct (index_of sep line) as [i|] eqn:E; [|done].
  apply index_of_lt in E. lens.
Qed.

Lemma validate_line_spec line tr :
  NUL ∉ line -> len line < 2 ^ 62 ->
  wp (validate_line ps (line ++ [LF; NUL]) (len line)) (fun r tr' => grows is_malloc tr tr' /\
    (r = 0 <-> passes ps valid line)) tr.
Proof.
  intros Hn Hl. unfold validate_line, passes.
  destruct (enable_validation cfg); [|by apply wp_ret].
  destruct (sp_validator ps) as [v|] eqn:Hv.
  - eapply wp_mono; [by apply lp_validator|]. intros r tr' [Hg Hr]. split; [done|].
    rewrite Hr. naive_solver.
  - apply wp_ret. split; [done|]. split; [|done]. by intros _ _ [? ?].
Qed.

Lemma key_buffer_spec line :
  key_length sep line < KEY_BUFFER_SIZE ->
  key_buffer (line ++ [LF; NUL]) (key_length sep line) = Some (line_key sep line ++ [NUL]).
Proof.
  intros Hk. pose proof (line_key_len line) as Hlen. pose proof (len_nonneg (line_key sep line)).
  unfold key_buffer. rewrite (proj2 (Z.ltb_lt _ _)) by done.
  assert (Hle : key_length sep line <= len line).
  { unfold key_length. destruct (index_of sep line) as [i|] eqn:E; [|apply len_nonneg].
    apply index_of_lt in E. lens. }
  rewrite load_ok by (rewrite ?len_app; pose proof (len_nonneg [LF; NUL]); lia).
  cbn [mbind option_bind]. rewrite drop_0, take_app_le by lens. done.
Qed.

Lemma choose_backend_spec s k tr :
  running cfg base xs s tr -> key_ok k ->
  exists r, choose_backend s (k ++ [NUL]) tr = Some (r, tr) /\
    match r with
    | Some (a, _) => xs !! Z.to_nat (shard_of k (len xs)) = Some a /\ is_Some (s.(mem) !! a)
    | None => xs = []
    end.
Proof.
  intros [_ (l & Hring & Hrep) Hslots Hsize] Hk. unfold choose_backend. rewrite Hring.
  destruct (decide (xs = [])) as [Hnil|Hne].
  - exists None. split; [|done]. unfold hashring_choose; simpl.
    by rewrite (rep_size _ _ Hrep), Hnil.
  - assert (0 < len xs) by (destruct xs; [done|lens]).
    destruct (choose_spec l xs k [] tr) as (a & Ha & Hc); [done|done|done|].
    exists (Some (a, shard_of k (len xs))). split; [exact Hc|]. split; [done|].
    by apply Hslots; eapply list_elem_of_lookup_2.
Qed.

Lemma counts_relayed b c n :
  counts_ok b -> buffer_wf c.(send_queue) ->
  len (buffer_data c.(send_queue)) = len (buffer_data b.(client).(send_queue)) + n ->
  counts_ok (Backend c (count_relayed n b.(stats))).
Proof.
  unfold counts_ok; cbn. intros Hc Hwf Hn. pose proof (len_buffer_data _ Hwf) as Hl.
  pose proof (len_nonneg (buffer_data c.(send_queue))).
  destruct Hwf. rewrite Hn.
  rewrite <- (wrap64_small (len (buffer_data b.(client).(send_queue)) + n)) by lia. rewrite <- Hc.
  unfold wrap64. rewrite Zminus_mod_idemp_l, Zplus_mod_idemp_l. f_equal. lia.
Qed.

(** Handing a line to the backend of its key. *)
Lemma relay_to_backend s a b line tr :
  running cfg base xs s tr -> s.(mem) !! a = Some b ->
  wp (tcpclient_sendall b.(client) b.(stats) (line ++ [LF])) (fun '(r, c, k) tr' =>
    k = b.(stats) /\ tr `prefix_of` tr' /\
    let b' := Backend c (if negb (r =? 0) then count_dropped k else count_relayed (len line + 1) k) in
    running cfg base xs (set_mem (<[a := b']> s.(mem)) s) tr' /\
    buffer_data c.(send_queue) =
      buffer_data b.(client).(send_queue) ++ (if r =? 0 then line ++ [LF] else [])) tr.
Proof.
  intros Hrun Hb. pose proof Hrun as [Hinv _ _ _].
  destruct (so_mem _ _ _ _ (si_store _ _ _ _ Hinv) a b Hb)
    as [_ [Hc Hself Hcfg [Hcb Hsent] Haddr Hcounts (Hk1 & Hk2 & Hk3 & Hk4 & Hk5 & Hk6)]].
  eapply wp_mono; [apply wp_keeps; [by apply sendall_spec|apply keeps_sendall]|].
  intros [[r c] k] tr' [Hpost (Hg & Hstat & Hk)]. cbn [fst snd] in *. rewrite Hself in Hg.
  specialize (Hk Hcb). subst k. split; [done|]. split; [by eapply grows_prefix|]. cbn zeta.
  destruct Hpost as (Hp & _ & Hr). pose proof Hp as (Hinv' & _ & (Hs' & Hc' & _)).
  assert (Hok : forall k, k.(key) = b.(stats).(key) -> counts_ok (Backend c k) ->
    counters_ok k -> backend_ok cfg a (Backend c k) tr').
  { intros k Hk ??. injection Hstat as Hs1 Hc1 Hh1 Hp1 Hpr1 Hcc Hcs Hcr Hce.
    destruct Hcb as (Hcb1 & Hcb2 & Hcb3). split; cbn [client stats]; try congruence; try done.
    split; [split_and!|]; congruence. }
  destruct Hr as [(-> & _ & _ & Hd)|(Hne & Hd & _)].
  - cbn [negb Z.eqb]. split; [|done]. eapply running_update; try done. apply Hok; [done| |].
    + apply counts_relayed; [done|apply Hinv'|]. rewrite Hd, !len_app. done.
    + unfold counters_ok, count_relayed; cbn. by split_and!; try apply wrap64_range.
  - rewrite (proj2 (Z.eqb_neq r 0)) by done. cbn [negb]. split; [|by rewrite app_nil_r].
    eapply running_update; try done. apply Hok; [done| |].
    + unfold counts_ok; cbn. rewrite Hd. exact Hcounts.
    + unfold counters_ok, count_dropped; cbn.
      split_and!; try done; try apply wrap64_range.
      destruct (b.(stats).(backend_failing) =? 0); [by split|done].
Qed.

Lemma relay_spec line s tr :
  running cfg base xs s tr -> NUL ∉ line -> len line < 2 ^ 62 ->
  key_length sep line < KEY_BUFFER_SIZE ->
  wp (stats_relay_line ps (line ++ [LF; NUL]) (len line) s) (fun '(r, s') tr' =>
    tr `prefix_of` tr' /\ running cfg base xs s' tr' /\ relayed ps sep valid xs line s r s') tr.
Proof.
  intros Hrun Hn Hl Hk. unfold stats_relay_line. apply wp_bind.
  eapply wp_mono; [by apply validate_line_spec|]. intros inv tr1 [Hg Hinv].
  assert (Hrun1 : running cfg base xs s tr1) by (by eapply running_malloc).
  apply grows_prefix in Hg.
  destruct (Z.eqb_spec inv 0) as [->|Hne]; cbn [negb]; cbn iota.
  2:{ apply wp_ret. split; [done|]. split; [done|]. apply relay_invalid. by rewrite <- Hinv. }
  assert (Hpass : passes ps valid line) by (by apply Hinv).
  rewrite (lp_parser (ps := ps)). apply wp_bind, wp_ret.
  destruct (Z.eqb_spec (key_length sep line) 0) as [Hz|Hnz].
  { apply wp_ret. split; [done|]. split; [by apply running_malformed|]. apply relay_no_key; [done|].
    apply len_zero_nil. by rewrite line_key_len. }
  assert (Hkey : line_key sep line <> []).
  { intros E. rewrite <- line_key_len, E in Hnz. done. }
  rewrite key_buffer_spec by done. apply wp_bind, wp_ret.
  assert (Hkok : key_ok (line_key sep line)).
  { split.
    - intros Hin. apply Hn. unfold line_key in Hin. by apply elem_of_take in Hin as (? & ?%list_elem_of_lookup_2 & _).
    - rewrite line_key_len. unfold KEY_BUFFER_SIZE in Hk. lia. }
  destruct (choose_backend_spec s _ tr1 Hrun1 Hkok) as (choice & Hc & Hchoice).
  apply wp_bind. eapply wp_run; [exact Hc|]. destruct choice as [[a i]|].
  2:{ apply wp_ret. split; [done|]. split; [done|]. by apply relay_no_backend. }
  destruct Hchoice as [Ha [b Hb]]. rewrite Hb. apply wp_bind, wp_ret.
  pose proof (len_nonneg line).
  rewrite load_ok by (rewrite ?len_app; unfold len; simpl; lens).
  apply wp_bind, wp_ret. rewrite drop_0.
  assert (Htake : take (Z.to_nat (len line + 1)) (line ++ [LF; NUL]) = line ++ [LF]).
  { change (line ++ [LF; NUL]) with (line ++ [LF] ++ [NUL]). rewrite app_assoc.
    apply take_app_length'. lens. }
  rewrite Htake. apply wp_bind. eapply wp_mono; [by apply relay_to_backend|].
  intros [[r c] k] tr2 (-> & Hg2 & Hrun2 & Hd). cbn beta iota.
  assert (Hg12 : tr `prefix_of` tr2) by (by etrans).
  destruct (r =? 0) eqn:E; cbn [negb] in *; cbn iota; apply wp_ret;
    (split; [done|]); (split; [exact Hrun2|]).
  - by eapply relay_queued.
  - eapply relay_dropped; try done. by rewrite app_nil_r in Hd.
Qed.
End relay.

(** ** The status response *)

(** What a response of [cap] bytes holds after a line: the line if it fits with
    its terminator; all but its last byte and a NUL if only the terminator
    does not fit; nothing of it otherwise. *)
Definition render_line (cap : Z) (acc t : bytes) : bytes :=
  if len acc + len t <? cap then acc ++ t
  else if len acc + len t =? cap then acc ++ take (length t - 1) t ++ [NUL]
  else acc.

Definition render (cap : Z) (ts : list bytes) : bytes := fold_left (render_line cap) ts [].

(** The lines of the response, in the order of the backend list. *)
Definition status_lines (s : stats_server_t) : list bytes :=
  global_lines s ++
  (a ← listed s; match s.(mem) !! a with Some b => backend_lines b.(stats) | None => [] end) ++
  [[LF]].

Lemma render_fits cap ts acc :
  len acc + len (concat ts) < cap -> fold_left (render_line cap) ts acc = acc ++ concat ts.
Proof.
  revert acc. induction ts as [|t ts IH]; intros acc Hl; cbn [fold_left concat] in *.
  { by rewrite app_nil_r. }
  rewrite len_app in Hl. pose proof (len_nonneg (concat ts)).
  assert (Hline : render_line cap acc t = acc ++ t)
    by (unfold render_line; by rewrite (proj2 (Z.ltb_lt _ _)) by lia).
  rewrite Hline, IH by (rewrite len_app; lia). by rewrite app_assoc.
Qed.

Section statistics.
Context `{OSLaws, !Plenty}.
Implicit Types (b : buffer) (s : stats_server_t) (tr : trace) (t : bytes).

(** The response is built from offset 0 of a block of [cap] bytes. *)
Definition response_ok (cap : Z) b (acc : bytes) : Prop :=
  buffer_wf b /\ b.(head) = 0 /\ b.(size) = cap /\ buffer_data b = acc.

(** A write at the tail, after which the tail can be moved by up to as much. *)
Lemma write_produce b d tr (Q : buffer -> trace -> Prop) :
  buffer_wf b -> len d <= buffer_spacecount b ->
  (forall b', b' = Buffer b'.(ptr) b.(head) b.(tail) b.(size) ->
     (forall n, 0 <= n <= len d -> exists b2, buffer_produced b' n = (0, b2) /\ buffer_wf b2 /\
        b2 = Buffer b'.(ptr) b.(head) (b.(tail) + n) b.(size) /\
        buffer_data b2 = buffer_data b ++ take (Z.to_nat n) d) -> Q b' tr) ->
  wp (buffer_write b d) Q tr.
Proof.
  intros Hwf. rewrite spacecount_eq by done. intros Hd HQ.
  destruct (buffer_wf_inv _ Hwf) as (c & h & t & -> & ? & ? & ? & ?).
  cbn [size tail ptr head] in *. unfold buffer_write, buffer_tail. cbn [size tail ptr head].
  rewrite Buffer.store_ok by lia. cbn [defined]. apply wp_bind, wp_ret, wp_ret.
  apply HQ; [done..|]. intros n Hn. unfold buffer_produced; cbn [size tail ptr head].
  rewrite wrap64_small, (proj2 (Z.ltb_ge _ _)) by lia.
  eexists. split_and!; [done| |done|].
  - apply buffer_wf_intro; [by rewrite len_store by lia|lia..].
  - unfold buffer_data; cbn [size tail ptr head].
    pose proof (take_drop_store c h t d ltac:(lia) ltac:(lia) ltac:(lia)) as Hs.
    replace (Z.to_nat (t + n - h)) with (Z.to_nat (t + n - h) `min` Z.to_nat (t + len d - h))%nat
      by lia.
    rewrite <- take_take, Hs, take_app_ge by lens. do 2 f_equal. lens.
Qed.

Lemma print_line_spec cap b acc t tr :
  response_ok cap b acc -> 0 < len t < 2 ^ 31 ->
  wp (print_line b t) (fun b' tr' => tr' = tr /\ response_ok cap b' (render_line cap acc t)) tr.
Proof.
  intros (Hwf & Hh & Hs & Hd) Ht. pose proof (len_buffer_data _ Hwf) as Hlen.
  rewrite Hd, Hh in Hlen. pose proof (spacecount_eq _ Hwf) as Hsp. pose proof (len_nonneg acc).
  pose proof (wf_size _ Hwf). pose proof (wf_tail _ Hwf).
  assert (Hover : forall b', b'.(tail) = b.(tail) -> b'.(size) = b.(size) ->
    b.(size) - b.(tail) < len t -> (buffer_produced b' (len t)).2 = b').
  { intros b' Ht' Hs' Hlt. unfold buffer_produced. rewrite Ht', Hs', wrap64_small by lia.
    by rewrite (proj2 (Z.ltb_lt _ _)) by lia. }
  assert (Hskip : b.(size) - b.(tail) < len t -> render_line cap acc t = acc).
  { intros Hlt. unfold render_line.
    by rewrite (proj2 (Z.ltb_ge _ _)), (proj2 (Z.eqb_neq _ _)) by lia. }
  unfold print_line. rewrite (proj2 (Z.ltb_lt (len t) _)) by lia. apply wp_bind, wp_ret. rewrite Hsp. destruct (Z.ltb_spec 0 (b.(size) - b.(tail))) as [Hlt|Hge].
  2:{ apply wp_bind, wp_ret, wp_ret. rewrite Hover, Hskip by (done || lia). by split_and!. }
  set (d := take _ t ++ [NUL]). apply wp_bind.
  assert (Hdl : len d = Z.min (b.(size) - b.(tail) - 1) (len t) + 1) by (unfold d; lens).
  apply write_produce; [done|rewrite Hsp; lia|]. intros b' Heq Hb'. apply wp_ret.
  split; [done|]. destruct (Z.leb_spec (len t) (b.(size) - b.(tail))) as [Hfit|Hbig].
  - destruct (Hb' (len t)) as (b2 & -> & Hwf2 & -> & Hd2); [lia|]. cbn [snd].
    split_and!; [done|done|done|]. rewrite Hd2, Hd. unfold render_line.
    destruct (Z.ltb_spec (len acc + len t) cap) as [Hc|Hc]; [|rewrite (proj2 (Z.eqb_eq _ _)) by lia].
    + f_equal. unfold d. rewrite (take_ge t) by lens. apply take_app_length'. lens.
    + f_equal. unfold d. rewrite take_ge by lens. do 2 f_equal. lens.
  - pose proof (f_equal tail Heq : b'.(tail) = b.(tail)) as Ht'.
    pose proof (f_equal size Heq : b'.(size) = b.(size)) as Hs'.
    pose proof (f_equal head Heq : b'.(head) = b.(head)) as Hh'.
    rewrite Hover, Hskip by (done || lia). destruct (Hb' 0) as (b2 & _ & Hwf2 & Hb2 & Hd2); [lia|].
    rewrite Z.add_0_r, <- Heq in Hb2. subst b2.
    split_and!; [done|congruence|congruence|]. by rewrite Hd2, Hd, take_0, app_nil_r.
Qed.

Definition line_ok t : Prop := 0 < len t < 2 ^ 31.

Lemma print_lines_spec cap ts b acc tr :
  response_ok cap b acc -> Forall line_ok ts ->
  wp (print_lines b ts) (fun b' tr' => tr' = tr /\
    response_ok cap b' (fold_left (render_line cap) ts acc)) tr.
Proof.
  intros Hb Hts. revert b acc Hb. induction Hts as [|t ts Ht _ IH]; intros b acc Hb;
    cbn [print_lines fold_left].
  - by apply wp_ret.
  - apply wp_bind. eapply wp_mono; [by apply print_line_spec|]. intros b' tr' [-> Hb']. by apply IH.
Qed.

(** The lines of the backends in [l]. *)
Definition list_lines s (l : list nat) : list bytes :=
  a ← l; match s.(mem) !! a with Some b => backend_lines b.(stats) | None => [] end.

Lemma print_backends_spec cap l s b acc tr :
  response_ok cap b acc -> (forall a, a ∈ l -> is_Some (s.(mem) !! a)) ->
  Forall line_ok (list_lines s l) ->
  wp (print_backends b l s) (fun b' tr' => tr' = tr /\
    response_ok cap b' (fold_left (render_line cap) (list_lines s l) acc)) tr.
Proof.
  revert b acc. induction l as [|a l IH]; intros b acc Hb Hl Hok; cbn [print_backends].
  { by apply wp_ret. }
  destruct (Hl a) as [x Hx]; [by left|]. unfold list_lines in *. cbn [mbind list_bind] in *.
  rewrite Hx in *. apply Forall_app in Hok as [Hok1 Hok2]. apply wp_bind, wp_ret, wp_bind.
  eapply wp_mono; [by apply print_lines_spec|]. intros b' tr' [-> Hb'].
  rewrite fold_left_app. apply IH; [done|intros; apply Hl; by right|done].
Qed.

(** Sends that only concern the descriptor [sd]. *)
Definition sends_to (sd : Z) (c : call) : Prop :=
  match c with Send sd' _ => sd' = sd | _ => False end.

Lemma send_response_spec fuel b sd tr :
  buffer_wf b -> (length (buffer_data b) <= fuel)%nat ->
  wp (send_response fuel b sd) (fun b' tr' => buffer_wf b' /\ grows (sends_to sd) tr tr' /\
    (accepting -> buffer_data b' = []) /\
    exists t, taken tr' = taken tr ++ t /\ buffer_data b = t ++ buffer_data b') tr.
Proof.
  revert b tr. induction fuel as [|fuel IH]; intros b tr Hwf Hfuel; cbn [send_response];
    rewrite datacount_len by done;
    destruct (Z.ltb_spec 0 (len (buffer_data b))) as [Hlt|Hge];
    try (apply wp_ret; split_and!; [done|done|intros _; apply len_zero_nil; lens|];
         exists []; by rewrite app_nil_r).
  { exfalso. lens. }
  apply wp_bind. unfold buffer_read, buffer_head. rewrite len_buffer_data by done.
  eapply wp_defined; [by apply buffer_load_data|]. apply wp_bind, (wp_sys (Send _ _)).
  set (n := os tr _). pose proof (send_at_most tr sd (buffer_data b)) as Hn. fold n in Hn.
  assert (Hg : grows (sends_to sd) tr (tr ++ [Send sd (buffer_data b)])) by (by apply grows_one).
  assert (Ht : taken (tr ++ [Send sd (buffer_data b)]) = taken tr ++ take (Z.to_nat n) (buffer_data b))
    by (by rewrite taken_snoc).
  destruct (Z.ltb_spec n 0) as [Hneg|Hpos]; [|destruct (Z.eqb_spec n 0) as [Hz|Hnz]].
  1, 2: replace (Z.to_nat n) with 0%nat in Ht by lia; rewrite take_0 in Ht;
    apply wp_ret; split_and!; [done|done| |by exists []];
    intros Hacc; specialize (Hacc tr sd (buffer_data b)); fold n in Hacc;
    destruct (buffer_data b); [done|]; specialize (Hacc ltac:(done)); lia.
  destruct (buffer_consume_spec b n) as (b' & Hc & Hwf' & _ & Hd');
    [done|lia|by rewrite datacount_len by done; lia|].
  rewrite Hc. cbn [snd]. eapply wp_mono; [apply IH; [done|]|].
  { rewrite Hd', length_drop. lens. }
  intros b2 tr2 (Hwf2 & Hg2 & Hacc & t & Ht2 & Hd2). split_and!; [done|by etrans|done|].
  exists (take (Z.to_nat n) (buffer_data b) ++ t).
  rewrite Ht2, Ht, <- !app_assoc, <- Hd2, Hd', take_drop. done.
Qed.

(** A call that makes or answers the status response. *)
Definition response_call (sd : Z) (c : call) : Prop := is_malloc c \/ sends_to sd c.

Lemma send_statistics_spec cfg base session s tr :
  server_inv cfg base s tr -> Forall line_ok (status_lines s) ->
  wp (stats_send_statistics session s) (fun _ tr' =>
    grows (response_call session.(session_sd)) tr tr' /\
    exists t rest, taken tr' = taken tr ++ t /\
      render MAX_UDP_LENGTH (status_lines s) = t ++ rest /\ (accepting -> rest = [])) tr.
Proof.
  intros Hinv Hok. unfold stats_send_statistics, create_buffer. unfold status_lines in *.
  fold (list_lines s (listed s)) in *.
  apply Forall_app in Hok as [Hok1 [Hok2 Hok3]%Forall_app].
  apply wp_bind, wp_bind, wp_malloc_plenty; [done|]. intros _ _. apply wp_bind.
  unfold buffer_allocate. apply wp_bind, wp_malloc_plenty; [done|]. intros cells Hcells.
  apply wp_ret, wp_ret. cbn [Z.eqb]. cbn iota.
  set (b0 := Buffer _ _ _ _). set (tr1 := (tr ++ _) ++ _).
  assert (Hg1 : grows (response_call session.(session_sd)) tr tr1).
  { apply (grows_mono is_malloc); [intros c; by left|]. etrans; by apply grows_one. }
  assert (Ht1 : taken tr1 = taken tr).
  { apply (malloc_grows 0%nat). etrans; by apply grows_one. }
  assert (Hb0 : response_ok MAX_UDP_LENGTH b0 []).
  { split_and!; [by apply buffer_wf_intro|done..]. }
  clearbody b0 tr1.
  apply wp_bind. eapply wp_mono; [by apply print_lines_spec|]. intros b1 ? [-> Hb1].
  apply wp_bind. fold (listed s). rewrite (si_count _ _ _ _ Hinv), len_to_nat, take_ge by done.
  eapply wp_mono; [apply print_backends_spec; [done|intros a; apply (si_list _ _ _ _ Hinv)|done]|].
  intros b2 ? [-> Hb2]. apply wp_bind.
  eapply wp_mono; [apply print_line_spec; [done|by apply Forall_singleton in Hok3]|].
  intros b3 ? [-> (Hwf3 & _ & _ & Hd3)]. apply wp_bind.
  eapply wp_mono; [apply send_response_spec; [done|]|].
  { rewrite datacount_len by done. lens. }
  intros b4 tr4 (Hwf4 & Hg4 & Hacc & t & Ht4 & Hd4). unfold delete_buffer, buffer_destroy.
  destruct (wf_cells _ Hwf4) as (c & Hc & _). rewrite Hc. apply wp_bind, wp_ret, wp_ret. split.
  - etrans; [exact Hg1|]. eapply grows_mono; [|exact Hg4]. intros ?. by right.
  - exists t, (buffer_data b4). rewrite Ht4, Ht1, <- Hd4, Hd3. split_and!; [done| |done].
    unfold render. by rewrite !fold_left_app.
Qed.
End statistics.

(** ** Lines, whatever the way they are received *)

(** The lines of a stream that are complete, and what follows them. *)
Fixpoint split_lines (d : bytes) : list bytes * bytes :=
  match d with
  | [] => ([], [])
  | c :: d =>
      let '(lines, rest) := split_lines d in
      if decide (c = LF) then ([] :: lines, rest)
      else match lines with
           | [] => ([], c :: rest)
           | line :: lines => ((c :: line) :: lines, rest)
           end
  end.

(** The lines of a datagram: the last one need not end with a line feed. *)
Definition datagram_lines (d : bytes) : list bytes :=
  let '(lines, rest) := split_lines d in
  lines ++ (if decide (rest = []) then [] else [rest]).

Section reference.
Context `{OS}.
Variable ps : server_params.

Fixpoint lines_handled (session : stats_session_t) (lines : list bytes) (s : stats_server_t)
    : M (Z * stats_server_t) :=
  match lines with
  | [] => mret (0, s)
  | line :: lines =>
      '(r, s) ← handle_line ps session (line ++ [LF; NUL]) (len line) s;
      if negb (r =? 0) then mret (1, s) else lines_handled session lines s
  end.

Fixpoint lines_relayed (lines : list bytes) (s : stats_server_t) : M (Z * stats_server_t) :=
  match lines with
  | [] => mret (0, s)
  | line :: lines =>
      '(r, s) ← stats_relay_line ps (line ++ [LF; NUL]) (len line) s;
      if negb (r =? 0) then mret (1, s) else lines_relayed lines s
  end.
End reference.

Section splitting.
Implicit Types (d l : bytes).

Lemma split_lines_rest d : LF ∉ d -> split_lines d = ([], d).
Proof.
  induction d as [|c d IH]; intros Hn; cbn [split_lines]; [done|].
  apply not_elem_of_cons in Hn as [? ?]. rewrite IH by done. by rewrite decide_False.
Qed.

Lemma split_lines_line l d :
  LF ∉ l -> split_lines (l ++ LF :: d) = (l :: (split_lines d).1, (split_lines d).2).
Proof.
  induction l as [|c l IH]; intros Hn; cbn [app split_lines].
  - by destruct (split_lines d).
  - apply not_elem_of_cons in Hn as [? ?]. rewrite IH by done. by rewrite decide_False.
Qed.

(** A stream is its complete lines and the rest. *)
Lemma split_lines_inv d lines rest :
  split_lines d = (lines, rest) ->
  d = concat ((fun l => l ++ [LF]) <$> lines) ++ rest /\
  Forall (fun l => LF ∉ l) lines /\ (LF ∉ rest).
Proof.
  revert lines rest. induction d as [|c d IH]; intros lines rest; cbn [split_lines].
  { intros [= <- <-]. split_and!; [done|done|set_solver]. }
  destruct (split_lines d) as [ls r]. destruct (IH ls r eq_refl) as (Hd & Hls & Hr).
  case_decide as Hc; [|destruct ls as [|l ls]]; intros [= <- <-]; cbn in *; subst.
  - split_and!; [done|constructor; [set_solver|done]|done].
  - split_and!; [done|done|set_solver].
  - apply Forall_cons in Hls as [Hl Hls]. split_and!; [done|constructor; [set_solver|done]|done].
Qed.

(** Splitting commutes with receiving in pieces. *)
Lemma split_lines_app d1 d2 :
  split_lines (d1 ++ d2) =
    ((split_lines d1).1 ++ (split_lines ((split_lines d1).2 ++ d2)).1,
     (split_lines ((split_lines d1).2 ++ d2)).2).
Proof.
  destruct (split_lines d1) as [ls r] eqn:E. destruct (split_lines_inv _ _ _ E) as (-> & Hls & Hr).
  cbn [fst snd]. clear E. induction Hls as [|l ls Hl _ IH]; cbn.
  { by destruct (split_lines (r ++ d2)). }
  rewrite <- !app_assoc. cbn [app]. rewrite split_lines_line by done.
  rewrite <- app_assoc in IH. by rewrite IH.
Qed.
End splitting.

(** Searching the contents of a buffer. *)
Lemma buffer_memchr b ch :
  buffer_wf b -> exists c, b.(ptr) = Cells c /\
    memchr c b.(head) ch (b.(tail) - b.(head)) =
      Some ((fun i => b.(head) + Z.of_nat i) <$> index_of ch (buffer_data b)).
Proof.
  intros (c & h & t & -> & ? & ? & ? & ?)%buffer_wf_inv. exists c. split; [done|].
  cbn [head tail]. unfold memchr, buffer_data. cbn [ptr head tail].
  destruct (index_of _ _); [done|]. by rewrite (proj2 (Z.leb_le _ _)) by lia.
Qed.

Section lines.
Context `{OS}.
Variable ps : server_params.
Implicit Types (s : stats_server_t) (b : buffer) (sd : Z) (tr : trace) (lines : list bytes).

(** The line buffer takes every line a datagram can hold, and no longer one. *)
Definition line_fits (l : bytes) : Prop := len l <= MAX_UDP_LENGTH.

Lemma line_buffer_fits l : line_fits l -> line_buffer l = Some (l ++ [LF; NUL]).
Proof.
  unfold line_fits, line_buffer, LINE_BUFFER_SIZE. intros. by rewrite (proj2 (Z.leb_le _ _)) by lia.
Qed.

Lemma buffer_load_prefix b l k :
  buffer_wf b -> buffer_data b = l ++ k -> load b.(ptr) b.(head) (len l) = Some l.
Proof.
  intros Hwf Hd. pose proof (len_buffer_data _ Hwf) as Hlen. rewrite Hd, len_app in Hlen.
  destruct (buffer_wf_inv _ Hwf) as (c & h & t & -> & ? & ? & ? & ?).
  cbn [ptr head tail] in *. pose proof (len_nonneg l). pose proof (len_nonneg k).
  rewrite load_ok by lia. f_equal. unfold buffer_data in Hd. cbn [ptr head tail] in Hd.
  apply (f_equal (take (length l))) in Hd. rewrite take_take, take_app_length in Hd.
  rewrite <- Hd at 2. f_equal. lens.
Qed.

(** Handling lines depends on the session only through its descriptor. *)
Lemma lines_handled_session b b' sd lines s tr :
  lines_handled ps (Session b sd) lines s tr = lines_handled ps (Session b' sd) lines s tr.
Proof.
  revert s tr. induction lines as [|l lines IH]; intros s tr; [done|].
  cbn [lines_handled]. unfold mbind, M_bind.
  change (handle_line ps (Session b' sd)) with (handle_line ps (Session b sd)).
  destruct (handle_line _ _ _ _ _ _) as [[[r s1] tr1]|]; [|done]. by destruct (negb _).
Qed.

Lemma process_lines_eq fuel b sd lines rest s tr :
  buffer_wf b -> (length (buffer_data b) < fuel)%nat ->
  split_lines (buffer_data b) = (lines, rest) -> Forall line_fits lines ->
  match lines_handled ps (Session b sd) lines s tr with
  | None => process_lines ps fuel (Session b sd) s tr = None
  | Some ((r, s'), tr') => exists b',
      process_lines ps fuel (Session b sd) s tr = Some ((r, Session b' sd, s'), tr') /\
      buffer_wf b' /\ b'.(size) = b.(size) /\ (r = 0 -> buffer_data b' = rest)
  end.
Proof.
  revert b lines s tr. induction fuel as [|fuel IH]; intros b lines s tr Hwf Hfuel Hsplit Hfits; [lia|].
  destruct (split_lines_inv _ _ _ Hsplit) as (Hd & Hls & Hr).
  cbn [process_lines session_buffer session_sd]. rewrite datacount_len by done.
  destruct (Z.eqb_spec (len (buffer_data b)) 0) as [Hz|Hnz].
  { apply len_zero_nil in Hz. rewrite Hz in *. cbn in Hsplit. injection Hsplit as <- <-.
    cbn. exists b. by split_and!. }
  destruct (buffer_memchr b LF Hwf) as (c & Hc & Hm). rewrite Hc.
  unfold buffer_head. rewrite len_buffer_data by done. cbn [block_cells].
  unfold mbind, M_bind. cbn [defined mret M_ret]. rewrite Hm.
  destruct lines as [|l lines]; cbn [fmap list_fmap concat] in Hd.
  { cbn [app] in Hd. rewrite Hd, (proj2 (index_of_None LF rest) Hr). exists b. by split_and!. }
  apply Forall_cons in Hls as [Hl Hls]. apply Forall_cons in Hfits as [Hf Hfits].
  rewrite <- !app_assoc in Hd. cbn [app] in Hd.
  rewrite Hd, index_of_app by done. cbn [fmap option_fmap option_map defined mret M_ret].
  replace (b.(head) + Z.of_nat (length l) - b.(head)) with (len l) by lens.
  unfold buffer_read, buffer_head. rewrite (buffer_load_prefix _ _ _ Hwf Hd). cbn [defined mret M_ret].
  rewrite line_buffer_fits by done.
  cbn [defined mret M_ret lines_handled]. unfold mbind, M_bind.
  destruct (handle_line ps _ _ _ _ _) as [[[r s1] tr1]|]; [|done].
  destruct (negb (r =? 0)) eqn:E.
  { cbn. exists b. by split_and!. }
  destruct (buffer_consume_spec b (len l + 1)) as (b1 & Hcons & Hwf1 & Hs1 & Hd1);
    [done|pose proof (len_nonneg l); lia|rewrite datacount_len, Hd by done; lens|].
  assert (Hrest : buffer_data b1 = concat ((fun l => l ++ [LF]) <$> lines) ++ rest).
  { rewrite Hd1, Hd. rewrite cons_middle, app_assoc, drop_app_length'; [done|lens]. }
  assert (Hsplit1 : split_lines (buffer_data b1) = (lines, rest)).
  { rewrite Hd, <- Hrest, split_lines_line in Hsplit by done.
    destruct (split_lines (buffer_data b1)). by injection Hsplit as -> ->. }
  assert (Hfuel1 : (length (buffer_data b1) < fuel)%nat).
  { rewrite Hd1, length_drop. pose proof (len_nonneg l).
    assert (length (buffer_data b) <> 0)%nat by lens. lia. }
  specialize (IH b1 lines s1 tr1 Hwf1 Hfuel1 Hsplit1 Hfits). rewrite Hcons. cbn [snd].
  rewrite (lines_handled_session b b1). destruct (lines_handled _ _ _ _ _) as [[[r2 s2] tr2]|]; [|done].
  destruct IH as (b2 & ? & ? & ? & ?). exists b2. split_and!; [done|done|congruence|done].
Qed.
End lines.

Section udp.
Context `{OS}.
Variable ps : server_params.
Implicit Types (s : stats_server_t) (d l pre : bytes) (tr : trace).

Lemma datagram_lines_line l d : LF ∉ l -> datagram_lines (l ++ LF :: d) = l :: datagram_lines d.
Proof.
  intros Hl. unfold datagram_lines. rewrite split_lines_line by done.
  by destruct (split_lines d).
Qed.

Lemma datagram_lines_rest d : LF ∉ d -> d <> [] -> datagram_lines d = [d].
Proof.
  intros Hd Hne. unfold datagram_lines. rewrite split_lines_rest by done. by rewrite decide_False.
Qed.

Lemma datagram_lines_nil : datagram_lines [] = [].
Proof. unfold datagram_lines. cbn [split_lines]. by rewrite decide_True. Qed.

Lemma udp_loop_end fuel d offset s : len d <= offset -> udp_loop ps fuel d offset s = mret (0, s).
Proof. intros Hle. destruct fuel; cbn [udp_loop]; by rewrite (proj2 (Z.ltb_ge _ _)). Qed.

Lemma udp_loop_eq fuel pre d s tr :
  (length d <= fuel)%nat -> len (pre ++ d) <= MAX_UDP_LENGTH ->
  udp_loop ps fuel (pre ++ d) (len pre) s tr = lines_relayed ps (datagram_lines d) s tr.
Proof.
  revert pre d s tr. induction fuel as [|fuel IH]; intros pre d s tr Hfuel Hmax.
  { destruct d; [|simpl in Hfuel; lia]. by rewrite udp_loop_end, datagram_lines_nil by lens. }
  destruct (decide (d = [])) as [->|Hne].
  { by rewrite udp_loop_end, datagram_lines_nil by lens. }
  assert (Hd : 0 < len d) by (destruct d; [done|lens]).
  pose proof (len_nonneg pre). rewrite len_app in Hmax.
  cbn [udp_loop]. rewrite len_app, (proj2 (Z.ltb_lt _ _)) by lia.
  replace (len pre + len d - len pre) with (len d) by lia.
  pose proof (memchr_in pre d [] LF) as Hm. rewrite app_nil_r in Hm. rewrite Hm.
  unfold mbind, M_bind. cbn [defined mret M_ret].
  destruct (index_of LF d) as [i|] eqn:Hi; cbn [fmap option_fmap option_map default from_option id].
  - destruct (index_of_split _ _ _ Hi) as (l & d' & -> & <- & Hl).
    replace (len pre + Z.of_nat (length l) - len pre) with (len l) by lens.
    rewrite datagram_lines_line by done. cbn [lines_relayed].
    rewrite load_ok by (rewrite ?len_app; pose proof (len_nonneg l); lens).
    rewrite !len_to_nat, drop_app_length, take_app_length. cbn [defined mret M_ret].
    rewrite line_buffer_fits by (unfold line_fits; lens). cbn [defined mret M_ret].
    unfold mbind, M_bind. destruct (stats_relay_line _ _ _ _ _) as [[[r s1] tr1]|]; [|done].
    destruct (negb _); [done|].
    replace (pre ++ l ++ LF :: d') with ((pre ++ l ++ [LF]) ++ d') by (by simplify_list_eq).
    replace (len pre + (len l + 1)) with (len (pre ++ l ++ [LF])) by lens.
    apply IH; [simpl in Hfuel; lens|]. lens.
  - apply index_of_None in Hi. replace (len pre + len d - len pre) with (len d) by lia.
    rewrite datagram_lines_rest by done. cbn [lines_relayed].
    rewrite load_ok by (rewrite ?len_app; lia).
    rewrite !len_to_nat, drop_app_length, take_ge by done. cbn [defined mret M_ret].
    rewrite line_buffer_fits by (unfold line_fits; lia). cbn [defined mret M_ret].
    unfold mbind, M_bind. destruct (stats_relay_line _ _ _ _ _) as [[[r s1] tr1]|]; [|done].
    destruct (negb _); [done|]. by rewrite udp_loop_end by lens.
Qed.

Lemma udp_recv_eq `{!OSLaws} fd s tr :
  stats_udp_recv ps fd s tr =
    match os tr (Recv fd MAX_UDP_LENGTH) with
    | None | Some [] => Some ((1, s), tr ++ [Recv fd MAX_UDP_LENGTH])
    | Some d => lines_relayed ps (datagram_lines d)
        (set_recv_udp (wrap64 (s.(bytes_recv_udp) + len d)) s) (tr ++ [Recv fd MAX_UDP_LENGTH])
    end.
Proof.
  unfold stats_udp_recv, mbind, M_bind, sys.
  destruct (os tr (Recv fd MAX_UDP_LENGTH)) as [[|x d]|] eqn:E; [done| |done].
  apply (udp_loop_eq _ [] (x :: d)); [done|].
  apply recv_at_most in E. rewrite Z.max_r in E by done. exact E.
Qed.
End udp.

Section tcp.
Context `{OSLaws, !Plenty}.
Variable ps : server_params.
Implicit Types (s : stats_server_t) (b : buffer) (sd : Z) (tr : trace).

Lemma recv_space_spec b tr :
  buffer_wf b -> 0 < b.(size) ->
  wp (recv_space b) (fun r tr' => grows is_malloc tr tr' /\
    match r with
    | Some b' => buffer_wf b' /\ 0 < b'.(size) /\ buffer_data b' = buffer_data b /\
        0 < buffer_spacecount b'
    | None => 2 ^ 62 <= len (buffer_data b)
    end) tr.
Proof.
  intros Hwf Hs. unfold recv_space.
  assert (Hpos : forall b', buffer_wf b' -> buffer_spacecount b' <> 0 -> 0 < buffer_spacecount b').
  { intros b' Hwf' Hne. pose proof (wrap64_range (b'.(size) - b'.(tail))). unfold buffer_spacecount in *.
    lia. }
  destruct (Z.eqb_spec (buffer_spacecount b) 0) as [Hz|Hnz]; cbn [negb]; cbn iota.
  2:{ apply wp_ret. split_and!; try done; auto. }
  apply wp_bind. eapply wp_mono; [by apply buffer_realign_spec|].
  intros [r b1] tr1 ((_ & Hwf1 & Hd1) & -> & _ & Hh1 & Hs1). cbn [fst snd] in *.
  destruct (Z.eqb_spec (buffer_spacecount b1) 0) as [Hz1|Hnz1]; cbn [negb]; cbn iota.
  2:{ apply wp_ret. split_and!; try done; [lia|auto]. }
  apply wp_bind. eapply wp_mono; [apply wp_conj; [by apply buffer_expand_spec|by apply buffer_expand_plenty]|].
  intros [r2 b2] tr2 (((Hg2 & Hwf2 & Hd2) & Hr) & Hbig). cbn [fst snd] in *. apply wp_ret.
  destruct Hr as [(-> & Hs2 & _ & Ht2)|[-> _]]; cbn [negb Z.eqb].
  2:{ split; [done|]. rewrite <- Hd1, len_buffer_data, Hh1 by done. rewrite spacecount_eq in Hz1 by done.
      destruct Hbig; lia. }
  split_and!; [done|done|lia|congruence|]. rewrite spacecount_eq in * by done. lia.
Qed.

(** What [stats_recv] does, in terms of the reference. *)
Definition recv_result (fd : Z) b sd s tr tr1 (n : Z) : Prop :=
  let session := Session b sd in
  let tr2 := tr1 ++ [Recv fd n] in
  match os tr1 (Recv fd n) with
  | None | Some [] => stats_recv ps fd session s tr = Some ((1, None, s), tr2)
  | Some d => forall lines rest,
      split_lines (buffer_data b ++ d) = (lines, rest) -> Forall line_fits lines ->
      let s1 := set_recv_tcp (wrap64 (s.(bytes_recv_tcp) + len d)) s in
      match lines_handled ps session lines s1 tr2 with
      | None => stats_recv ps fd session s tr = None
      | Some ((r, s'), tr') =>
          if r =? 0 then
            exists b', stats_recv ps fd session s tr = Some ((0, Some (Session b' sd), s'), tr') /\
              buffer_wf b' /\ 0 < b'.(size) /\ buffer_data b' = rest
          else stats_recv ps fd session s tr = Some ((1, None, s'), tr')
      end
  end.

Lemma recv_error_eq b sd s tr :
  buffer_wf b -> recv_error (Session b sd) s tr = Some ((1, None, s), tr).
Proof.
  intros Hwf. destruct (wf_cells _ Hwf) as (c & Hc & _).
  unfold recv_error, stats_session_destroy, buffer_destroy, mbind, M_bind. cbn [session_buffer].
  by rewrite Hc.
Qed.

Lemma recv_eq fd b sd s tr :
  buffer_wf b -> 0 < b.(size) ->
  exists tr1, grows is_malloc tr tr1 /\
    (2 ^ 62 <= len (buffer_data b) /\
       stats_recv ps fd (Session b sd) s tr = Some ((1, None, s), tr1) \/
     exists n, 0 < n /\ recv_result fd b sd s tr tr1 n).
Proof.
  intros Hwf Hs. destruct (wp_inv _ _ _ (recv_space_spec b tr Hwf Hs)) as (r & tr1 & E & Hg & Hr).
  exists tr1. split; [done|]. unfold stats_recv, mbind, M_bind. cbn [session_buffer].
  rewrite E. destruct r as [b1|].
  2:{ left. split; [done|]. by apply recv_error_eq. }
  right. destruct Hr as (Hwf1 & Hs1 & Hd1 & Hn). exists (buffer_spacecount b1). split; [done|].
  unfold recv_result, stats_recv, mbind, M_bind. cbn [session_buffer session_sd]. rewrite E.
  assert (Hsys : sys (Recv fd (buffer_spacecount b1)) tr1 =
    Some (os tr1 (Recv fd (buffer_spacecount b1)), tr1 ++ [Recv fd (buffer_spacecount b1)])) by done.
  rewrite Hsys. pose proof (recv_at_most tr1 fd (buffer_spacecount b1)) as Hlen.
  destruct (os tr1 (Recv fd (buffer_spacecount b1))) as [[|x d0]|] eqn:Er.
  1, 3: by apply recv_error_eq.
  set (d := x :: d0) in *. specialize (Hlen d eq_refl). rewrite Z.max_r in Hlen by lia.
  intros lines rest Hsplit Hfits. cbn zeta.
  destruct (wp_inv _ _ _ (buffer_append_spec b1 d (tr1 ++ [Recv fd (buffer_spacecount b1)])
    (fun b2 tr2 => tr2 = tr1 ++ [Recv fd (buffer_spacecount b1)] /\
      exists b3, buffer_produced b2 (len d) = (0, b3) /\ buffer_wf b3 /\
        b3.(size) = b1.(size) /\ buffer_data b3 = buffer_data b1 ++ d) Hwf1 Hlen
    ltac:(intros; split; [done|eauto])))
    as (b2 & tr2 & Ew & -> & b3 & Hprod & Hwf3 & Hs3 & Hd3).
  rewrite Ew, Hprod. cbn [negb Z.eqb]. rewrite Hd1 in Hd3. rewrite <- Hd3 in Hsplit.
  unfold stats_process_lines. cbn [session_buffer session_sd].
  set (s1 := set_recv_tcp _ _). set (tr2 := tr1 ++ _).
  pose proof (process_lines_eq ps (S (Z.to_nat (buffer_datacount b3))) b3 sd lines rest s1 tr2
    Hwf3) as Hp. rewrite datacount_len in * by done. rewrite len_to_nat in *.
  specialize (Hp ltac:(lia) Hsplit Hfits). rewrite (lines_handled_session ps b b3).
  destruct (lines_handled ps _ _ _ _) as [[[r s'] tr']|]; [|by rewrite Hp].
  destruct Hp as (b4 & Hp & Hwf4 & Hs4 & Hd4). rewrite Hp.
  destruct (Z.eqb_spec r 0) as [->|Hne]; cbn [negb].
  - exists b4. split_and!; [done|done|lia|auto].
  - by apply recv_error_eq.
Qed.
End tcp.

(** ** What a list of lines does to a running server *)

(** The line that asks for the status. *)
Definition STATUS : bytes := lit "status".

(** The reference as a relation: every line is relayed, in order, until one is
    refused or dropped; a status request changes nothing. *)
Inductive lines_run (ps : server_params) (sep : char) (valid : bytes -> Prop)
    (xs : list nat) (status : bool) (s : stats_server_t)
    : list bytes -> Z -> stats_server_t -> Prop :=
  | run_nil : lines_run ps sep valid xs status s [] 0 s
  | run_status lines r s' :
      status = true -> lines_run ps sep valid xs status s lines r s' ->
      lines_run ps sep valid xs status s (STATUS :: lines) r s'
  | run_relay line lines s1 r s' :
      (status = true -> line <> STATUS) ->
      relayed ps sep valid xs line s 0 s1 ->
      lines_run ps sep valid xs status s1 lines r s' ->
      lines_run ps sep valid xs status s (line :: lines) r s'
  | run_stop line lines r s' :
      (status = true -> line <> STATUS) ->
      relayed ps sep valid xs line s r s' -> r <> 0 ->
      lines_run ps sep valid xs status s (line :: lines) 1 s'.

Lemma lines_run_result ps sep valid xs status s lines r s' :
  lines_run ps sep valid xs status s lines r s' -> r = 0 \/ r = 1.
Proof. induction 1; auto. Qed.

(** Input that the static buffers and the validators can take. *)
Definition benign (sep : char) (line : bytes) : Prop :=
  (NUL ∉ line) /\ line_fits line /\ key_length sep line < KEY_BUFFER_SIZE.

Section endtoend.
Context `{OSLaws, !Plenty}.
Context (ps : server_params) (sep : char) (valid : bytes -> Prop).
Context `{!LineProtocol ps sep valid}.
Variables (base : nat) (xs : list nat).
Abbreviation cfg := (ps.(sp_config)).
Abbreviation run := (lines_run ps sep valid xs).
Implicit Types (s : stats_server_t) (line : bytes) (tr : trace) (b : buffer).

(** A line of a counter is neither empty nor too long. *)
Lemma counter_line_ok (t : bytes) z :
  in64 z -> len t < 2 ^ 30 + 100 -> line_ok (t ++ print_dec z ++ [LF]).
Proof.
  intros Hz Ht. pose proof (print_dec_len z Hz). pose proof (len_nonneg t).
  unfold line_ok. rewrite !len_app. change (len [LF]) with 1. lia.
Qed.

Lemma backend_line_ok (name t : bytes) z :
  in64 z -> len name < 2 ^ 30 + 50 -> len t < 50 ->
  line_ok (name ++ t ++ print_dec z ++ [LF]).
Proof. intros. rewrite app_assoc. apply counter_line_ok; [done|rewrite len_app; lia]. Qed.

Lemma global_lines_ok s : ranges_ok s -> Forall line_ok (global_lines s).
Proof.
  intros (? & ? & ? & ?). pose proof (wrap64_range s.(last_reload)). unfold global_lines.
  repeat (apply Forall_cons; split; [apply counter_line_ok; [assumption|reflexivity]|]).
  apply Forall_nil_2.
Qed.

Lemma backend_lines_ok k : counters_ok k -> Forall line_ok (backend_lines k).
Proof.
  intros (Hk & ? & ? & ? & ? & ?). unfold backend_lines.
  set (name := lit "backend:" ++ k.(key)).
  assert (len name < 2 ^ 30 + 50)
    by (unfold name; rewrite len_app; change (len (lit "backend:")) with 8; lia).
  repeat (apply Forall_cons; split;
    [apply backend_line_ok; [assumption|assumption|reflexivity]|]).
  apply Forall_nil_2.
Qed.

Lemma status_lines_ok s tr :
  running cfg base xs s tr -> Forall line_ok (status_lines s).
Proof.
  intros [Hinv _ _ _]. unfold status_lines. apply Forall_app.
  split; [by apply global_lines_ok, Hinv|].
  apply Forall_app. split; [|by apply Forall_singleton].
  induction (listed s) as [|a l IH]; cbn; [done|].
  apply Forall_app. split; [|exact IH].
  destruct (s.(mem) !! a) as [b|] eqn:E; [|done]. apply backend_lines_ok.
  by destruct (so_mem _ _ _ _ (si_store _ _ _ _ Hinv) a b E) as [_ []].
Qed.

Lemma running_no_watch s tr tr' :
  running cfg base xs s tr -> (forall a, watchers a tr' = watchers a tr) ->
  running cfg base xs s tr'.
Proof.
  intros [[Hba Hst ?????] ???] Hw. split; try done. split; try done. by eapply store_ok_grows.
Qed.

Lemma handle_line_status session s :
  handle_line ps session (STATUS ++ [LF; NUL]) (len STATUS) s =
    (_ ← stats_send_statistics session s; mret (0, s)).
Proof. done. Qed.

Lemma handle_status session s tr :
  running cfg base xs s tr ->
  wp (handle_line ps session (STATUS ++ [LF; NUL]) (len STATUS) s)
    (fun '(r, s') tr' => tr `prefix_of` tr' /\ r = 0 /\ s' = s /\ running cfg base xs s tr') tr.
Proof.
  intros Hrun. rewrite handle_line_status. apply wp_bind.
  eapply wp_mono; [eapply send_statistics_spec; [apply Hrun|by eapply status_lines_ok]|].
  intros _ tr' [Hg _]. apply wp_ret.
  split_and!; [by eapply grows_prefix|done|done|]. eapply running_no_watch; [done|]. intros a. apply watchers_grows.
  eapply grows_mono; [|exact Hg]. by intros [] [Hc|Hc].
Qed.

(** Any other line is relayed. *)
Lemma handle_other session s line :
  NUL ∉ line -> line <> STATUS ->
  handle_line ps session (line ++ [LF; NUL]) (len line) s =
    stats_relay_line ps (line ++ [LF; NUL]) (len line) s.
Proof.
  intros Hn Hne. unfold handle_line. destruct (Z.eqb_spec (len line) 6); [|done]. cbn [andb].
  rewrite bool_decide_false; [done|].
  change [LF; NUL] with ([LF] ++ [NUL]). rewrite app_assoc, cstr_app_nul by set_solver.
  by intros [? _]%app_inj_tail.
Qed.

Lemma lines_relayed_spec lines s tr :
  running cfg base xs s tr -> Forall (benign sep) lines ->
  wp (lines_relayed ps lines s) (fun '(r, s') tr' =>
    tr `prefix_of` tr' /\ running cfg base xs s' tr' /\ run false s lines r s') tr.
Proof.
  intros Hrun Hok. revert s tr Hrun.
  induction Hok as [|line lines (Hn & Hf & Hk) _ IH]; intros s tr Hrun; cbn [lines_relayed].
  { apply wp_ret. split_and!; [done|done|apply run_nil]. }
  unfold line_fits, MAX_UDP_LENGTH in Hf. apply wp_bind.
  eapply wp_mono; [by apply relay_spec; try lia|].
  intros [r s1] tr1 (Hg1 & Hrun1 & Hrel). destruct (Z.eqb_spec r 0) as [->|Hne]; cbn [negb]; cbn iota.
  - eapply wp_mono; [by apply IH|]. intros [r2 s2] tr2 (Hg2 & Hrun2 & Hl).
    split_and!; [by etrans|done|].
    by eapply run_relay.
  - apply wp_ret. split_and!; [done|done|]. by eapply run_stop.
Qed.

Lemma lines_handled_spec session lines s tr :
  running cfg base xs s tr -> Forall (benign sep) lines ->
  wp (lines_handled ps session lines s) (fun '(r, s') tr' =>
    tr `prefix_of` tr' /\ running cfg base xs s' tr' /\ run true s lines r s') tr.
Proof.
  intros Hrun Hok. revert s tr Hrun.
  induction Hok as [|line lines (Hn & Hf & Hk) _ IH]; intros s tr Hrun; cbn [lines_handled].
  { apply wp_ret. split_and!; [done|done|apply run_nil]. }
  unfold line_fits, MAX_UDP_LENGTH in Hf. apply wp_bind.
  destruct (decide (line = STATUS)) as [->|Hne].
  - eapply wp_mono; [by apply handle_status|]. intros [r s1] tr1 (Hg1 & -> & -> & Hrun1).
    cbn [negb Z.eqb]. cbn iota. eapply wp_mono; [by apply IH|].
    intros [r2 s2] tr2 (Hg2 & Hrun2 & Hl).
    split_and!; [by etrans|done|]. by apply run_status.
  - rewrite handle_other by done. eapply wp_mono; [by apply relay_spec; try lia|].
    intros [r s1] tr1 (Hg1 & Hrun1 & Hrel). destruct (Z.eqb_spec r 0) as [->|Hnz]; cbn [negb]; cbn iota.
    + eapply wp_mono; [by apply IH|]. intros [r2 s2] tr2 (Hg2 & Hrun2 & Hl).
    split_and!; [by etrans|done|].
      by eapply run_relay.
    + apply wp_ret. split_and!; [done|done|]. by eapply run_stop.
Qed.

(** C9. stats.c, routing: on a running server, [stats_relay_line] has no
    undefined behaviour and leaves the server running, and a line goes to one
    place only.  A line that the validator refuses, or that has no key, is
    refused; otherwise the backend in slot [hash(key) mod size] of the ring gets
    the line with its line feed at the end of its queue and counts it as
    queued, or, when its client refuses it, keeps its queue and counts it as
    dropped; every other backend is untouched. *)
Theorem stats_relay_line_routes line s tr :
  running cfg base xs s tr -> NUL ∉ line -> len line < 2 ^ 62 ->
  key_length sep line < KEY_BUFFER_SIZE ->
  wp (stats_relay_line ps (line ++ [LF; NUL]) (len line) s) (fun '(r, s') tr' =>
    running cfg base xs s' tr' /\ relayed ps sep valid xs line s r s') tr.
Proof.
  intros. eapply wp_mono; [by apply relay_spec|]. by intros [r s'] tr' [_ Hr].
Qed.

(** What the server reads next on [fd] after the pending bytes [d0] is benign. *)
Definition benign_input (fd : Z) (d0 : bytes) tr : Prop :=
  forall tr1 n d, grows is_malloc tr tr1 -> 0 < n -> os tr1 (Recv fd n) = Some d ->
    Forall (benign sep) (split_lines (d0 ++ d)).1.

(** What a call that went from [tr] to [tr'] received on [fd]: allocations
    apart, it is the first thing the call asked for. *)
Definition received (fd : Z) tr tr' (d : bytes) : Prop :=
  exists tr1 n, grows is_malloc tr tr1 /\ 0 < n /\ (tr1 ++ [Recv fd n]) `prefix_of` tr' /\
    os tr1 (Recv fd n) = Some d.

(** A call that received nothing: it asked for bytes, and the peer has closed or
    there was an error. *)
Definition hung_up (fd : Z) tr tr' : Prop :=
  exists tr1 n, grows is_malloc tr tr1 /\ 0 < n /\ tr' = tr1 ++ [Recv fd n] /\
    (os tr1 (Recv fd n) = None \/ os tr1 (Recv fd n) = Some []).

(** Why a call that relayed nothing ended the session whose bytes [pending] had
    no end yet: the second reason is that there is no block of twice their size. *)
Definition recv_ended (fd : Z) (pending : bytes) tr tr' : Prop :=
  hung_up fd tr tr' \/ 2 ^ 62 <= len pending /\ grows is_malloc tr tr'.

(** [recv_eq] and [lines_handled_spec] together. *)
Lemma stats_recv_spec fd b sd s tr :
  running cfg base xs s tr -> buffer_wf b -> 0 < b.(size) ->
  benign_input fd (buffer_data b) tr ->
  wp (stats_recv ps fd (Session b sd) s) (fun '(r, session, s') tr' =>
    tr `prefix_of` tr' /\ running cfg base xs s' tr' /\
    match session with
    | Some (Session b' sd') => r = 0 /\ sd' = sd /\ buffer_wf b' /\ 0 < b'.(size) /\
        exists d, let '(lines, rest) := split_lines (buffer_data b ++ d) in
          received fd tr tr' d /\ d <> [] /\ buffer_data b' = rest /\
          run true (set_recv_tcp (wrap64 (s.(bytes_recv_tcp) + len d)) s) lines 0 s'
    | None => r = 1 /\ (recv_ended fd (buffer_data b) tr tr' /\ s' = s \/
        exists d, received fd tr tr' d /\ d <> [] /\ run true (set_recv_tcp (wrap64 (s.(bytes_recv_tcp) + len d)) s)
          (split_lines (buffer_data b ++ d)).1 1 s')
    end) tr.
Proof.
  intros Hrun Hwf Hs Hben. unfold wp.
  destruct (recv_eq ps fd b sd s tr Hwf Hs) as (tr1 & Hg & [[Hbig E]|(n & Hn & Hr)]).
  { rewrite E. split_and!; [by eapply grows_prefix|by eapply running_malloc|done|left].
    split; [by right|done]. }
  unfold recv_result in Hr. set (tr2 := tr1 ++ _) in *.
  assert (Hrun2 : running cfg base xs s tr2).
  { eapply (running_no_watch s tr1); [by eapply running_malloc|]. intros a. apply watchers_snoc. }
  assert (Hg2 : tr `prefix_of` tr2).
  { etrans; [by eapply grows_prefix|]. by eexists. }
  assert (Hend : os tr1 (Recv fd n) = None \/ os tr1 (Recv fd n) = Some [] ->
    recv_ended fd (buffer_data b) tr tr2) by (intros; left; by exists tr1, n).
  destruct (os tr1 (Recv fd n)) as [[|x d0]|] eqn:E; [rewrite Hr; auto 10| |rewrite Hr; auto 10].
  set (d := x :: d0) in *. specialize (Hben tr1 n d Hg Hn E).
  destruct (split_lines (buffer_data b ++ d)) as [lines rest] eqn:Hsplit. cbn [fst] in Hben.
  specialize (Hr lines rest eq_refl).
  assert (Hfits : Forall line_fits lines) by (eapply Forall_impl; [exact Hben|by intros l (_ & ? & _)]).
  specialize (Hr Hfits). cbn zeta in Hr.
  pose proof (lines_handled_spec (Session b sd) lines _ _
    (running_recv_tcp _ _ _ s (s.(bytes_recv_tcp) + len d) _ Hrun2) Hben) as Hl.
  apply wp_inv in Hl as ([r s'] & tr' & El & Hg' & Hrun' & Hl). rewrite El in Hr.
  pose proof (lines_run_result _ _ _ _ _ _ _ _ _ Hl) as Hr01.
  assert (Hpre : tr `prefix_of` tr') by (by etrans).
  assert (Hrec : received fd tr tr' d) by (by exists tr1, n).
  destruct (Z.eqb_spec r 0) as [->|Hne].
  - destruct Hr as (b' & -> & Hwf' & Hs' & Hd'). split; [done|]. split; [done|].
    split_and!; try done.
    exists d. by rewrite Hsplit.
  - rewrite Hr. do 3 (split; [done|]). right. exists d. rewrite Hsplit.
    destruct Hr01 as [->| ->]; done.
Qed.

(** C5. stats.c, a TCP session: on a running server and a session whose buffer
    holds what follows the last complete line, [stats_recv] terminates without
    undefined behaviour.  It appends the bytes received to the buffer - making
    room by realigning or doubling it - and relays exactly the lines that are
    then complete, in order, a line [status] being answered instead; the bytes
    after the last line feed stay in the buffer.  The session ends only when recv
    reports the end or an error, at the first line that is refused or dropped -
    later lines are then not relayed - and when 2^62 bytes or more are pending, for
    which the buffer cannot be doubled: a full buffer alone does not end it. *)
Theorem stats_recv_lines fd b sd s tr :
  running cfg base xs s tr -> buffer_wf b -> 0 < b.(size) ->
  benign_input fd (buffer_data b) tr ->
  wp (stats_recv ps fd (Session b sd) s) (fun '(r, session, s') tr' =>
    running cfg base xs s' tr' /\
    match session with
    | Some (Session b' sd') => r = 0 /\ sd' = sd /\ buffer_wf b' /\ 0 < b'.(size) /\
        exists d, let '(lines, rest) := split_lines (buffer_data b ++ d) in
          received fd tr tr' d /\ d <> [] /\ buffer_data b' = rest /\
          run true (set_recv_tcp (wrap64 (s.(bytes_recv_tcp) + len d)) s) lines 0 s'
    | None => r = 1 /\ (recv_ended fd (buffer_data b) tr tr' /\ s' = s \/
        exists d, received fd tr tr' d /\ d <> [] /\ run true (set_recv_tcp (wrap64 (s.(bytes_recv_tcp) + len d)) s)
          (split_lines (buffer_data b ++ d)).1 1 s')
    end) tr.
Proof.
  intros. eapply wp_mono; [by apply stats_recv_spec|]. by intros [[r session] s'] tr' [_ Hr].
Qed.

(** The next datagram is benign. *)
Definition benign_datagram (fd : Z) tr : Prop :=
  forall d, os tr (Recv fd MAX_UDP_LENGTH) = Some d -> Forall (benign sep) (datagram_lines d).

Lemma udp_recv_spec fd s tr :
  running cfg base xs s tr -> benign_datagram fd tr ->
  wp (stats_udp_recv ps fd s) (fun '(r, s') tr' =>
    running cfg base xs s' tr' /\
    match os tr (Recv fd MAX_UDP_LENGTH) with
    | None | Some [] => r = 1 /\ s' = s
    | Some d => run false (set_recv_udp (wrap64 (s.(bytes_recv_udp) + len d)) s)
        (datagram_lines d) r s'
    end) tr.
Proof.
  intros Hrun Hben. unfold wp at 1. rewrite (udp_recv_eq ps fd s tr).
  assert (Hrun2 : running cfg base xs s (tr ++ [Recv fd MAX_UDP_LENGTH])).
  { eapply (running_no_watch s tr); [done|]. intros a. apply watchers_snoc. }
  unfold benign_datagram in Hben.
  destruct (os tr (Recv fd MAX_UDP_LENGTH)) as [[|x d0]|] eqn:E; [done| |done].
  specialize (Hben _ eq_refl).
  eapply wp_mono; [exact (lines_relayed_spec _ _ _ (running_recv_udp _ _ _ s _ _ Hrun2) Hben)|].
  by intros [r s'] tr' [_ Hr].
Qed.

(** C7. stats.c, datagrams: [stats_udp_recv] relays the lines of a datagram, the
    last of which need not end with a line feed, in order, up to the first one
    that is refused or dropped, and its result says whether there was one;
    a line [status] is relayed like any other.  An empty datagram and an error
    change nothing.  The loop terminates, and the datagram and line buffers are
    never overrun, for every datagram of up to 65536 bytes. *)
Theorem stats_udp_recv_lines fd s tr :
  running cfg base xs s tr -> benign_datagram fd tr ->
  wp (stats_udp_recv ps fd s) (fun '(r, s') tr' =>
    running cfg base xs s' tr' /\
    match os tr (Recv fd MAX_UDP_LENGTH) with
    | None | Some [] => r = 1 /\ s' = s
    | Some d => run false (set_recv_udp (wrap64 (s.(bytes_recv_udp) + len d)) s)
        (datagram_lines d) r s'
    end) tr.
Proof. intros. by apply udp_recv_spec. Qed.

(** C30. stats.c, the status request: the line [status] of a session is answered
    on the session's descriptor and changes nothing in the server.  What is
    sent is a prefix of the response, and all of it when the kernel takes at
    least a byte each time; the response is the report of the server and of
    every backend in the order of the backend list, cut to 65536 bytes, and
    complete whenever the report is shorter than that. *)
Theorem stats_status_response session s tr :
  running cfg base xs s tr ->
  wp (handle_line ps session (STATUS ++ [LF; NUL]) (len STATUS) s) (fun '(r, s') tr' =>
    r = 0 /\ s' = s /\ grows (response_call session.(session_sd)) tr tr' /\
    exists t rest, taken tr' = taken tr ++ t /\
      render MAX_UDP_LENGTH (status_lines s) = t ++ rest /\ (accepting -> rest = []) /\
      (len (concat (status_lines s)) < MAX_UDP_LENGTH -> t ++ rest = concat (status_lines s))) tr.
Proof.
  intros Hrun. rewrite handle_line_status. apply wp_bind.
  eapply wp_mono; [eapply send_statistics_spec; [apply Hrun|by eapply status_lines_ok]|].
  intros _ tr' (Hg & t & rest & Ht & Hr & Hacc). apply wp_ret. split_and!; [done..|].
  exists t, rest. split_and!; [done..|]. intros Hl. rewrite <- Hr. unfold render.
  by rewrite render_fits.
Qed.
End endtoend.

(** ** Where the static buffers are overrun *)

Section overflows.
Context `{OSLaws, !Plenty}.
Context (ps : server_params) (sep : char) (valid : bytes -> Prop).
Context `{!LineProtocol ps sep valid}.
Implicit Types (s : stats_server_t) (line : bytes) (tr : trace) (b : buffer).

(** C38. stats.c, [key_buffer]: a line whose key has 8192 bytes or more and that
    the validator lets through makes [stats_relay_line] write past the end of
    the static [key_buffer]: the length of a key is never checked.  [validate]
    cannot help: it does not bound the key either. *)
Theorem stats_key_overflow line s tr :
  NUL ∉ line -> len line < 2 ^ 62 -> passes ps valid line ->
  KEY_BUFFER_SIZE <= key_length sep line ->
  stats_relay_line ps (line ++ [LF; NUL]) (len line) s tr = None.
Proof.
  intros Hn Hl Hp Hk. unfold stats_relay_line, mbind, M_bind.
  destruct (wp_inv _ _ _ (validate_line_spec ps sep valid line tr Hn Hl)) as (r & tr1 & -> & _ & Hr).
  rewrite (proj2 Hr Hp). cbn [negb Z.eqb]. rewrite (lp_parser (ps := ps)). cbn [defined mret M_ret].
  unfold KEY_BUFFER_SIZE in *. rewrite (proj2 (Z.eqb_neq _ 0)) by lia.
  unfold key_buffer, KEY_BUFFER_SIZE. by rewrite (proj2 (Z.ltb_ge _ _)).
Qed.

(** C39. stats.c, [line_buffer]: a TCP session whose next line has more than
    65536 bytes - the session buffer grows without bound - makes
    [stats_process_lines] write past the end of the static [line_buffer]. *)
Theorem stats_line_overflow l d b sd s tr :
  buffer_wf b -> buffer_data b = l ++ LF :: d -> LF ∉ l -> MAX_UDP_LENGTH < len l ->
  stats_process_lines ps (Session b sd) s tr = None.
Proof.
  intros Hwf Hd Hl Hlong. unfold stats_process_lines. cbn [process_lines session_buffer].
  rewrite datacount_len, Hd by done.
  rewrite (proj2 (Z.eqb_neq _ 0)) by (pose proof (len_nonneg l); lens).
  destruct (buffer_memchr b LF Hwf) as (c & Hc & Hm). rewrite Hc.
  unfold buffer_head, mbind, M_bind. cbn [block_cells defined mret M_ret].
  rewrite <- Hd, len_buffer_data, Hm, Hd, index_of_app by done.
  cbn [fmap option_fmap option_map defined mret M_ret].
  replace (b.(head) + Z.of_nat (length l) - b.(head)) with (len l) by lens.
  unfold buffer_read, buffer_head. rewrite (buffer_load_prefix _ _ _ Hwf Hd). cbn [defined mret M_ret].
  unfold line_buffer, LINE_BUFFER_SIZE. by rewrite (proj2 (Z.leb_gt _ _)) by lia.
Qed.
End overflows.
