(* ===== verification/StatsCalls.v ===== *)
(** * The calls that the handlers of stats.c make

    A server touches the watchers of its own backends only, and never those of the
    listeners: [about_range base n], for backends whose addresses are those from
    [base] up to [n].  So several servers can share a process. *)
From S2P Require Import Prelude Libc Sys Buffer SList Hashring.
From S2P Require Import Protocol Validate YamlConfig Tcpclient Backend Stats.

(** The server has handed out the addresses up to [n], and every backend of the store
    has the address of its place. *)
Definition own_ids (base n : nat) (s : stats_server_t) : Prop :=
  s.(next) = n /\
  forall a b, s.(mem) !! a = Some b -> (base <= a < n)%nat /\ b.(client).(self) = a.

Lemma server_inv_ids cfg base s tr : server_inv cfg base s tr -> own_ids base s.(next) s.
Proof.
  intros Hinv. split; [done|]. intros a b Hb.
  destruct (so_mem _ _ _ _ (si_store _ _ _ _ Hinv) a b Hb) as [Ha Hok]. split; [done|apply Hok].
Qed.

Lemma own_ids_update base n s a b c k :
  own_ids base n s -> s.(mem) !! a = Some b -> static c = static b.(client) ->
  own_ids base n (set_mem (<[a := Backend c k]> s.(mem)) s).
Proof.
  intros [Hn Hids] Hb Hstat. split; [done|]. intros a' b' Hin. cbn in Hin. apply lookup_insert_Some in Hin as [[<- <-]|[_ Hb']]; [|by apply Hids].
  destruct (Hids _ _ Hb) as [Ha Hself]. split; [done|]. cbn. injection Hstat. congruence.
Qed.

Section calls.
Context `{OS} (ps : server_params) (base n : nat).
Hypothesis quiet_validator : forall v line k, ps.(sp_validator) = Some v ->
  keeps is_malloc (fun _ => True) (v line k).
Abbreviation calls := (about_range base n).
Implicit Types (s : stats_server_t) (session : stats_session_t) (b : buffer).

(** The server among the results of a handler. *)
Abbreviation ids := (fun p => own_ids base n p.2).

Lemma malloc_calls {A} (R : A -> Prop) (m : M A) : keeps is_malloc R m -> keeps calls R m.
Proof. intros Hm. eapply keeps_mono; [exact Hm|by intros []|done]. Qed.

Lemma keeps_choose s k : keeps calls (fun _ => True) (choose_backend s k).
Proof.
  unfold choose_backend, hashring_choose. destruct (server_ring s); by keeps_tac.
Qed.

Lemma keeps_relay line k s : own_ids base n s -> keeps calls ids (stats_relay_line ps line k s).
Proof.
  intros Hids. unfold stats_relay_line, validate_line.
  apply (keeps_bind _ (fun _ => True)).
  { destruct (enable_validation _); [|by keeps_tac]. destruct (sp_validator ps) as [v|] eqn:Hv; [|by keeps_tac].
    by apply malloc_calls, (quiet_validator v). }
  intros r _. destruct (negb _); [by keeps_tac|]. apply keeps_defined. intros key_len _.
  destruct (_ =? _); [by keeps_tac|]. apply keeps_defined. intros key _.
  apply (keeps_bind _ (fun _ => True)); [apply keeps_choose|]. intros [[a i]|] _; [|by keeps_tac].
  apply keeps_defined. intros b Hb. apply keeps_defined. intros d _.
  destruct (proj2 Hids _ _ Hb) as [Ha Hself].
  eapply keeps_bind.
  { eapply keeps_mono; [apply keeps_sendall| |intros x Hx; exact Hx].
    intros c. rewrite Hself. by apply only_about_range. }
  intros [[r1 c] k1] [Hstat _]. cbn [fst snd] in Hstat.
  keeps_tac; cbn; by eapply own_ids_update.
Qed.

Lemma keeps_print_line b t : keeps calls (fun _ => True) (print_line b t).
Proof. unfold print_line, buffer_write. keeps_auto. Qed.

Lemma keeps_print_lines ts b : keeps calls (fun _ => True) (print_lines b ts).
Proof.
  revert b. induction ts as [|t ts IH]; intros b; cbn [print_lines]; [by keeps_tac|].
  apply (keeps_bind _ (fun _ => True)); [apply keeps_print_line|auto].
Qed.

Lemma keeps_print_backends l s b : keeps calls (fun _ => True) (print_backends b l s).
Proof.
  revert b. induction l as [|a l IH]; intros b; cbn [print_backends]; keeps_tac; [done|].
  apply (keeps_bind _ (fun _ => True)); [apply keeps_print_lines|auto].
Qed.

Lemma keeps_send_response fuel b sd : keeps calls (fun _ => True) (send_response fuel b sd).
Proof.
  revert b. induction fuel as [|fuel IH]; intros b; cbn [send_response]; unfold buffer_read;
    keeps_tac; try done; auto.
Qed.

Lemma keeps_statistics session s : keeps calls (fun _ => True) (stats_send_statistics session s).
Proof.
  unfold stats_send_statistics, create_buffer, buffer_allocate, delete_buffer, buffer_destroy.
  repeat first [apply keeps_print_lines | apply keeps_print_backends | apply keeps_print_line
    | apply keeps_send_response | progress keeps_step
    | apply (keeps_bind _ (fun _ => True)); [|intros ? _]]; done.
Qed.

Lemma keeps_handle session line k s :
  own_ids base n s -> keeps calls ids (handle_line ps session line k s).
Proof.
  intros Hids. unfold handle_line. destruct (_ && _); [|by apply keeps_relay].
  apply (keeps_bind _ (fun _ => True)); [apply keeps_statistics|]. intros; by keeps_tac.
Qed.

Lemma keeps_process fuel session s :
  own_ids base n s -> keeps calls ids (process_lines ps fuel session s).
Proof.
  revert session s. induction fuel as [|fuel IH]; intros session s Hids; cbn [process_lines];
    unfold buffer_read; keeps_tac; try done.
  eapply keeps_bind; [by apply keeps_handle|].
  intros [r s1] Hids1. cbn [snd] in Hids1. keeps_tac; [done|by apply IH].
Qed.

Lemma keeps_recv_error session s :
  own_ids base n s -> keeps calls ids (recv_error session s).
Proof. intros Hids. unfold recv_error, stats_session_destroy, buffer_destroy. keeps_auto. Qed.

Lemma keeps_recv_space b : keeps calls (fun _ => True) (recv_space b).
Proof.
  unfold recv_space, buffer_realign, buffer_expand, buffer_newsize, myrealloc. keeps_auto.
Qed.

Lemma keeps_recv sd session s : own_ids base n s -> keeps calls ids (stats_recv ps sd session s).
Proof.
  intros Hids. unfold stats_recv.
  apply (keeps_bind _ (fun _ => True)); [apply keeps_recv_space|]. intros [b|] _; [|by apply keeps_recv_error].
  keeps_step; [done|].
  match goal with x : answer _ |- _ => destruct x as [[|x d]|] end;
    [by apply keeps_recv_error| |by apply keeps_recv_error].
  apply (keeps_bind _ (fun _ => True)); [unfold buffer_write; keeps_auto|]. intros b1 _.
  destruct (buffer_produced _ _) as [r b2]. destruct (negb _); [by apply keeps_recv_error|].
  eapply keeps_bind; [by apply keeps_process|]. intros [[r2 session2] s2] Hids2. cbn [snd] in Hids2.
  destruct (negb _); [by apply keeps_recv_error|by keeps_tac].
Qed.

Lemma keeps_udp_recv sd s : own_ids base n s -> keeps calls ids (stats_udp_recv ps sd s).
Proof.
  intros Hids. unfold stats_udp_recv. keeps_step; [done|].
  match goal with x : answer _ |- _ => destruct x as [[|x d]|] end; [by keeps_tac| |by keeps_tac].
  set (buf := x :: d). generalize (length buf). intros fuel.
  assert (Hids' : own_ids base n (set_recv_udp (wrap64 (s.(bytes_recv_udp) + len buf)) s)) by done.
  revert Hids'. generalize (set_recv_udp (wrap64 (s.(bytes_recv_udp) + len buf)) s), 0. clear Hids s.
  induction fuel as [|fuel IH]; intros s offset Hids; cbn [udp_loop]; keeps_tac; try done.
  eapply keeps_bind; [by apply keeps_relay|]. intros [r s1] Hids1. cbn [snd] in Hids1.
  keeps_tac; [done|by apply IH].
Qed.

Lemma keeps_connection sd s : own_ids base n s -> keeps calls ids (stats_connection sd s).
Proof. intros Hids. unfold stats_connection, buffer_init, buffer_allocate. keeps_auto. Qed.
End calls.

(** ** Creating a server *)

Section creating.
Context `{OS} (cfg : proto_config) (base : nat).
Abbreviation calls := (about_from base).
Implicit Types (s : stats_server_t).

(** The backends of the store are at the server's addresses. *)
Definition from_ids s : Prop :=
  (base <= s.(next))%nat /\
  forall a b, s.(mem) !! a = Some b -> (base <= a)%nat /\ b.(client).(self) = a.

Lemma malloc_from {A} (R : A -> Prop) (m : M A) : keeps is_malloc R m -> keeps calls R m.
Proof. intros Hm. eapply keeps_mono; [exact Hm|by intros []|done]. Qed.

Lemma keeps_find l m k : keeps calls (fun _ => True) (find_in l m k).
Proof. induction l as [|a l IH]; cbn [find_in]; keeps_tac; done. Qed.

Lemma keeps_make_with_key k h po pr s :
  from_ids s -> keeps calls (fun p => from_ids p.2) (make_with_key cfg k h po pr s).
Proof.
  intros [Hn Hids]. unfold make_with_key, find_backend.
  apply (keeps_bind _ (fun _ => True)); [apply keeps_find|]. intros [a|] _; [by apply keeps_ret|].
  apply keeps_malloc; [done|]. intros [cells|]; [|by apply keeps_ret].
  assert (Hids1 : from_ids (set_next (S s.(next)) s)) by (split; [cbn; lia|done]).
  eapply keeps_bind; [apply malloc_from, keeps_init|]. intros [r c] Hc. cbn in Hc.
  destruct (negb _); [by apply keeps_ret|].
  eapply keeps_bind.
  { eapply keeps_mono; [apply keeps_connect| |intros x Hx; exact Hx].
    intros cl. rewrite Hc. by apply only_about_from. }
  intros [[r1 c1] k1] [Hstat _]. cbn [fst snd] in Hstat. destruct (negb _); [by apply keeps_ret|].
  unfold add_backend.
  assert (Hids2 : from_ids (set_mem (<[s.(next) := Backend (tcpclient_set_sent_callback c1 stats_sent)
    (Counters k 0 0 0 0 0)]> s.(mem)) (set_next (S s.(next)) s))).
  { split; [cbn; lia|]. intros a b Hb. cbn in Hb. apply lookup_insert_Some in Hb as [[<- <-]|[_ Hb]];
      [|by apply Hids]. split; [done|]. cbn. injection Hstat. congruence. }
  apply (keeps_bind _ (fun p => from_ids p.2)); [by keeps_tac|]. intros [r2 s2] Hs2. by apply keeps_ret.
Qed.

Lemma keeps_make_backend line s :
  from_ids s -> keeps calls (fun p => from_ids p.2) (make_backend cfg line s).
Proof.
  intros Hids. unfold make_backend, dup. destruct (parse_address line) as [[[h po] pr]|]; [|by apply keeps_ret].
  repeat first [by apply keeps_make_with_key | by apply keeps_ret
    | apply (keeps_bind _ (fun _ => True)); [by keeps_auto|intros [?|] _]].
Qed.

Lemma keeps_kill_backend a s : from_ids s -> keeps calls from_ids (kill_backend a s).
Proof.
  intros [Hn Hids]. unfold kill_backend. apply keeps_defined. intros b Hb. destruct (Hids a b Hb) as [Ha Hself].
  apply (keeps_bind _ (fun _ => True)).
  { eapply keeps_mono; [apply keeps_destroy| |done]. intros c. rewrite Hself. by apply only_about_from. }
  intros c _. apply keeps_ret. split; [done|]. intros a' b' Hb'. cbn in Hb'.
  apply lookup_delete_Some in Hb' as [_ Hb']. by apply Hids.
Qed.
End creating.

Lemma keeps_create `{OS} base ps :
  keeps (about_from base) (fun _ => True) (stats_server_create base ps).
Proof.
  unfold stats_server_create. apply keeps_malloc; [done|]. intros [cells|]; [|by apply keeps_ret].
  apply keeps_defined. intros cfg_ring _. eapply keeps_bind.
  { apply (keeps_load (RA := server_alloc ps.(sp_config)) (about_from base) (from_ids base)); [done| | |].
    - intros line st Hst. by apply keeps_make_backend.
    - intros x st Hst. by apply keeps_kill_backend.
    - split; [done|]. intros a b Hb. cbn in Hb. by apply lookup_empty_Some in Hb. }
  intros [[r|] s] _; by apply keeps_ret.
Qed.
