(* ===== verification/Session.v ===== *)
(** * A TCP session over several reads

    TCP delivers a stream in arbitrary pieces.  [recv_calls] makes several calls
    of [stats_recv] in a row; the theorem says that they do to the server what
    a single call would do that receives all the pieces at once. *)
From S2P Require Import Prelude Libc Sys Buffer SList Hashring.
From S2P Require Import Protocol Validate YamlConfig Tcpclient Backend Stats.

Section calls.
Context `{OS}.
Variable ps : server_params.

(** Up to [n] calls, as long as the session is open. *)
Fixpoint recv_calls (n : nat) (fd : Z) (session : stats_session_t) (s : stats_server_t)
    : M (option stats_session_t * stats_server_t) :=
  match n with
  | O => mret (Some session, s)
  | S n =>
      '(_, session, s) ← stats_recv ps fd session s;
      match session with
      | Some session => recv_calls n fd session s
      | None => mret (None, s)
      end
  end.

(** The pieces that a row of calls received. *)
Inductive received_all (fd : Z) : trace -> trace -> list bytes -> Prop :=
  | received_nil tr tr' : tr `prefix_of` tr' -> received_all fd tr tr' []
  | received_cons tr tr1 tr' d ds :
      received fd tr tr1 d -> received_all fd tr1 tr' ds -> received_all fd tr tr' (d :: ds).
End calls.

(** ** Runs of lines compose *)

Section runs.
Context (ps : server_params) (sep : char) (valid : bytes -> Prop) (xs : list nat) (status : bool).
Abbreviation run := (lines_run ps sep valid xs status).
Implicit Types (s : stats_server_t) (ls : list bytes) (d : bytes).

Lemma lines_run_app s ls1 s1 ls2 r s2 :
  run s ls1 0 s1 -> run s1 ls2 r s2 -> run s (ls1 ++ ls2) r s2.
Proof.
  intros H1 H2. remember 0 as z eqn:Hz. induction H1 as [s|s ls z s' Hs _ IH|s l ls s' z s'' Hl Hr _ IH|];
    cbn; subst; [done| | |discriminate].
  - apply run_status; auto.
  - eapply run_relay; eauto.
Qed.

(** Relaying neither reads nor changes the count of received bytes. *)
Lemma relayed_recv_tcp x line s r s' :
  relayed ps sep valid xs line s r s' ->
  s'.(bytes_recv_tcp) = s.(bytes_recv_tcp) /\
  relayed ps sep valid xs line (set_recv_tcp x s) r (set_recv_tcp x s').
Proof.
  destruct 1 as [Hp|Hp Hk|Hp Hk Hx|a b c Hp Hk Hx Hb Hd|a b c Hp Hk Hx Hb Hd]; (split; [done|]).
  - by apply relay_invalid.
  - exact (relay_no_key ps sep valid xs line (set_recv_tcp x s) Hp Hk).
  - by apply relay_no_backend.
  - exact (relay_queued ps sep valid xs line (set_recv_tcp x s) a b c Hp Hk Hx Hb Hd).
  - exact (relay_dropped ps sep valid xs line (set_recv_tcp x s) a b c Hp Hk Hx Hb Hd).
Qed.

Lemma lines_run_recv_tcp x s ls r s' :
  run s ls r s' ->
  s'.(bytes_recv_tcp) = s.(bytes_recv_tcp) /\ run (set_recv_tcp x s) ls r (set_recv_tcp x s').
Proof.
  induction 1 as [s|s ls z s' Hs _ [IH1 IH2]|s l ls s' z s'' Hl Hr _ [IH1 IH2]|s l ls z s' Hl Hr Hz].
  - split; [done|apply run_nil].
  - split; [done|by apply run_status].
  - destruct (relayed_recv_tcp x _ _ _ _ Hr) as [Hb Hr']. split; [congruence|by eapply run_relay].
  - destruct (relayed_recv_tcp x _ _ _ _ Hr) as [Hb Hr']. split; [congruence|by eapply run_stop].
Qed.

(** Two runs after two pieces are one run after both. *)
Lemma lines_run_pieces s d1 ls1 s1 d2 ls2 r s2 :
  run (set_recv_tcp (wrap64 (s.(bytes_recv_tcp) + len d1)) s) ls1 0 s1 ->
  run (set_recv_tcp (wrap64 (s1.(bytes_recv_tcp) + len d2)) s1) ls2 r s2 ->
  run (set_recv_tcp (wrap64 (s.(bytes_recv_tcp) + len (d1 ++ d2))) s) (ls1 ++ ls2) r s2.
Proof.
  intros H1 H2.
  destruct (lines_run_recv_tcp (wrap64 (s1.(bytes_recv_tcp) + len d2)) _ _ _ _ H1) as [Hb H1'].
  eapply lines_run_app; [|exact H2]. cbn [set_recv_tcp bytes_recv_tcp] in Hb.
  replace (wrap64 (s.(bytes_recv_tcp) + len (d1 ++ d2)))
    with (wrap64 (s1.(bytes_recv_tcp) + len d2)); [exact H1'|].
  rewrite Hb, len_app. unfold wrap64. rewrite Zplus_mod_idemp_l. f_equal. lia.
Qed.
End runs.

Section stream.
Context `{OSLaws, !Plenty}.
Context (ps : server_params) (sep : char) (valid : bytes -> Prop).
Context `{!LineProtocol ps sep valid}.
Variables (base : nat) (xs : list nat).
Abbreviation cfg := (ps.(sp_config)).
Abbreviation run := (lines_run ps sep valid xs true).
Implicit Types (s : stats_server_t) (tr : trace) (b : buffer) (d : bytes).

(** The lines that complete in the stream that follows [d0] are benign. *)
Definition benign_stream (fd : Z) (d0 : bytes) tr : Prop :=
  forall tr' ds, received_all fd tr tr' ds -> Forall (benign sep) (split_lines (d0 ++ concat ds)).1.

Lemma benign_stream_input fd d0 tr : benign_stream fd d0 tr -> benign_input sep fd d0 tr.
Proof.
  intros Hb tr1 n d Hg Hn E. rewrite <- (app_nil_r d).
  apply (Hb (tr1 ++ [Recv fd n]) [d]). eapply received_cons; [by exists tr1, n|by apply received_nil].
Qed.

Lemma benign_stream_rest fd d0 tr tr1 d :
  benign_stream fd d0 tr -> received fd tr tr1 d ->
  benign_stream fd (split_lines (d0 ++ d)).2 tr1.
Proof.
  intros Hb Hr tr' ds Hd'. specialize (Hb tr' (d :: ds) (received_cons _ _ _ _ _ _ Hr Hd')).
  cbn [concat] in Hb. rewrite app_assoc, split_lines_app in Hb. by apply Forall_app in Hb as [_ Hb].
Qed.

(** Receiving nothing changes nothing. *)
Lemma run_nothing s tr :
  running cfg base xs s tr ->
  run (set_recv_tcp (wrap64 (s.(bytes_recv_tcp) + len (@nil char))) s) [] 0 s.
Proof.
  intros Hrun. assert (H64 : in64 s.(bytes_recv_tcp)) by apply Hrun.
  rewrite len_nil, Z.add_0_r, wrap64_small by done. destruct s. apply run_nil.
Qed.

(** What [n] calls do to a server: [ds] are the pieces that were received.  An open
    session received one in every call; a closed one is closed by a line that
    was refused or dropped, or by a last call that received nothing. *)
Definition stream_result (n : nat) fd b s tr (session : option stats_session_t) s' tr' : Prop :=
  exists ds r, received_all fd tr tr' ds /\ Forall (fun d => d <> []) ds /\
    let '(lines, rest) := split_lines (buffer_data b ++ concat ds) in
    run (set_recv_tcp (wrap64 (s.(bytes_recv_tcp) + len (concat ds))) s) lines r s' /\
    match session with
    | Some session => r = 0 /\ length ds = n /\ buffer_data session.(session_buffer) = rest
    | None => (length ds <= n)%nat /\
        (r = 1 \/ r = 0 /\ (length ds < n)%nat /\
          exists tr1, received_all fd tr tr1 ds /\ recv_ended fd rest tr1 tr')
    end.

Lemma recv_calls_spec n fd b sd s tr :
  running cfg base xs s tr -> buffer_wf b -> 0 < b.(size) -> LF ∉ buffer_data b ->
  benign_stream fd (buffer_data b) tr ->
  wp (recv_calls ps n fd (Session b sd) s) (fun '(session, s') tr' =>
    running cfg base xs s' tr' /\ stream_result n fd b s tr session s' tr') tr.
Proof.
  revert b s tr. induction n as [|n IH]; intros b s tr Hrun Hwf Hs Hlf Hben; cbn [recv_calls].
  { apply wp_ret. split; [done|]. exists [], 0. cbn [concat]. rewrite app_nil_r.
    pose proof (split_lines_rest _ Hlf) as ->.
    split_and!; [by apply received_nil|done|by eapply run_nothing|done|done|done]. }
  apply wp_bind. eapply wp_mono; [apply stats_recv_spec; [done..|by apply benign_stream_input]|].
  intros [[r session] s1] tr1 (Hpre & Hrun1 & Hr). destruct session as [[b1 sd1]|].
  - destruct Hr as (_ & -> & Hwf1 & Hs1 & d & Hd).
    destruct (split_lines (buffer_data b ++ d)) as [ls rest] eqn:Hsplit.
    destruct Hd as (Hrec & Hne & Hb1 & Hl).
    destruct (split_lines_inv _ _ _ Hsplit) as (_ & _ & Hrest).
    eapply wp_mono; [apply IH; [done..|by rewrite Hb1|]|].
    { rewrite Hb1. pose proof (benign_stream_rest _ _ _ _ _ Hben Hrec) as Hb.
      by rewrite Hsplit in Hb. }
    intros [session s2] tr2 [Hrun2 (ds & r2 & Hrec2 & Hne2 & Hl2)]. split; [done|].
    exists (d :: ds), r2. cbn [concat length]. rewrite app_assoc, split_lines_app, Hsplit. cbn [fst snd].
    rewrite Hb1 in Hl2. destruct (split_lines (rest ++ concat ds)) as [ls2 rest2]. cbn [fst snd].
    destruct Hl2 as [Hl2 Hses].
    split_and!; [by eapply received_cons|by constructor|by eapply lines_run_pieces|].
    destruct session as [session|]; [naive_solver lia|].
    destruct Hses as [Hlen [->|(-> & Hlt & tr3 & Hrec3 & Hend)]]; (split; [lia|]); [by left|right].
    split_and!; [done|lia|]. exists tr3. split; [by eapply received_cons|done].
  - apply wp_ret. split; [done|]. destruct Hr as (_ & [[Hend ->]|(d & Hrec & Hne & Hl)]).
    + exists [], 0. cbn [concat]. rewrite app_nil_r. pose proof (split_lines_rest _ Hlf) as ->.
      split_and!; [by apply received_nil|done|by eapply run_nothing|cbn; lia|right].
      split_and!; [done|cbn; lia|]. exists tr. split; [by apply received_nil|done].
    + exists [d], 1. cbn [concat]. rewrite app_nil_r.
      destruct (split_lines (buffer_data b ++ d)) as [ls rest].
      split_and!; [|by apply Forall_singleton|done|cbn; lia|by left].
      eapply received_cons; [done|by apply received_nil].
Qed.

(** C6. stats.c, streams: it does not matter how TCP cuts the stream.  A row of
    [stats_recv] calls on one session does to the server what one call would
    do that receives all the pieces [ds] together: the lines that are complete in
    what was pending and [ds] are relayed, in order, each exactly once, and an
    open session has received something in every call and keeps the bytes after the
    last line feed.  A session that was closed met a line that was refused or
    dropped, or relayed all of the lines until a call that received nothing. *)
Theorem session_stream_pieces n fd b sd s tr :
  running cfg base xs s tr -> buffer_wf b -> 0 < b.(size) -> LF ∉ buffer_data b ->
  benign_stream fd (buffer_data b) tr ->
  wp (recv_calls ps n fd (Session b sd) s) (fun '(session, s') tr' =>
    running cfg base xs s' tr' /\ stream_result n fd b s tr session s' tr') tr.
Proof. apply recv_calls_spec. Qed.
End stream.
