(* ===== verification/Listener.v ===== *)
(** * What tcpserver.c and udpserver.c share

    Both keep a [struct ev_io] per socket, allocated by itself, whose [data] points to
    the owner, and both bind a configured address in the same steps.  A heap
    ([ev_heap]) maps the watchers that are allocated to what their owners hold;
    libev's side, which of them are active, is read off the trace ([active]).
    Looking up a watcher that is not in the heap is a use of freed memory. *)
From S2P Require Import Prelude Sys.

(** ** Watchers *)

Definition ev_update (k : ev_kind) (w : nat) (on : bool) (c : call) : bool :=
  match c with
  | EvStart k' w' => if decide (k' = k /\ w' = w) then true else on
  | EvStop k' w' => if decide (k' = k /\ w' = w) then false else on
  | _ => on
  end.

(** libev has the watcher [w] of the file [k] started. *)
Definition active (k : ev_kind) (w : nat) (tr : trace) : bool :=
  fold_left (ev_update k w) tr false.

(** A call that leaves the watchers of the file alone. *)
Definition no_ev (k : ev_kind) (c : call) : Prop :=
  match c with EvStart k' _ | EvStop k' _ => k' <> k | _ => True end.

Lemma active_snoc k w tr c : active k w (tr ++ [c]) = ev_update k w (active k w tr) c.
Proof. unfold active. by rewrite fold_left_app. Qed.

Lemma active_grows k w tr tr' : grows (no_ev k) tr tr' -> active k w tr' = active k w tr.
Proof.
  intros (l & -> & Hl). revert tr. induction Hl as [|c l Hc _ IH]; intros tr.
  { by rewrite app_nil_r. }
  rewrite cons_middle, app_assoc, IH, active_snoc.
  destruct c; simpl in *; try done; by rewrite decide_False by naive_solver.
Qed.

Lemma active_start k w w' tr :
  active k w (tr ++ [EvStart k w']) = bool_decide (w' = w) || active k w tr.
Proof.
  rewrite active_snoc; cbn. destruct (decide (w' = w)) as [->|Hne].
  - rewrite decide_True by done. by rewrite bool_decide_true.
  - rewrite decide_False by naive_solver. by rewrite bool_decide_false.
Qed.

Lemma active_stop k w w' tr :
  active k w (tr ++ [EvStop k w']) = negb (bool_decide (w' = w)) && active k w tr.
Proof.
  rewrite active_snoc; cbn. destruct (decide (w' = w)) as [->|Hne].
  - rewrite decide_True by done. by rewrite bool_decide_true.
  - rewrite decide_False by naive_solver. by rewrite bool_decide_false.
Qed.

(** A call of a file of listeners: about its own watchers only, and not about a
    backend's client. *)
Definition file_call (k : ev_kind) (c : call) : Prop :=
  match c with
  | IoStart _ _ | IoStop _ _ | TimerStart _ | TimerStop _ | Send _ _ => False
  | EvStart k' _ | EvStop k' _ => k' = k
  | _ => True
  end.

(** The same of any file. *)
Definition frontend_call (c : call) : Prop :=
  match c with
  | IoStart _ _ | IoStop _ _ | TimerStart _ | TimerStop _ | Send _ _ => False
  | _ => True
  end.

Lemma file_frontend k c : file_call k c -> frontend_call c.
Proof. by destruct c. Qed.

(** A call that leaves the watchers of every file alone. *)
Definition no_ev_call (c : call) : Prop := forall k, no_ev k c.

Lemma no_ev_active k w tr tr' : grows no_ev_call tr tr' -> active k w tr' = active k w tr.
Proof. intros Hg. apply active_grows. eapply grows_mono; [|exact Hg]. intros c Hc. apply Hc. Qed.

(** Such a call that starts and stops nothing. *)
Definition socket_call (c : call) : Prop := forall k, file_call k c /\ no_ev k c.

Lemma socket_file k c : socket_call c -> file_call k c.
Proof. intros Hc. apply Hc. Qed.

Lemma file_no_ev k k' c : k' <> k -> file_call k c -> no_ev k' c.
Proof. destruct c; cbn; congruence || done. Qed.

(** The watchers of the other file. *)
Lemma file_active k k' w tr tr' :
  k' <> k -> grows (file_call k) tr tr' -> active k' w tr' = active k' w tr.
Proof. intros Hne Hg. apply active_grows. eapply grows_mono; [|exact Hg]. intros c. by apply file_no_ev. Qed.

Lemma socket_frontend tr tr' :
  grows socket_call tr tr' -> grows frontend_call tr tr' /\ grows no_ev_call tr tr'.
Proof.
  intros Hg. split; (eapply grows_mono; [|exact Hg]); intros c Hc; [|intros k; apply Hc].
  by eapply file_frontend, (Hc TcpEv).
Qed.

Lemma malloc_socket tr tr' : grows is_malloc tr tr' -> grows socket_call tr tr'.
Proof. intros Hg. eapply grows_mono; [|exact Hg]. by intros []. Qed.

Lemma socket_active k w tr tr' : grows socket_call tr tr' -> active k w tr' = active k w tr.
Proof. intros Hg. apply active_grows. eapply grows_mono; [|exact Hg]. intros c Hc. apply Hc. Qed.

(** The watchers that are allocated. *)
Record ev_heap (X : Type) := EvHeap {
  objects : gmap nat X;
  next_object : nat;
}.
Arguments EvHeap {X}.
Arguments objects {X}.
Arguments next_object {X}.

Section heap.
Context {X : Type}.
Implicit Types (h : ev_heap X) (x : X) (w : nat).

Definition empty_heap : ev_heap X := EvHeap ∅ 0.

Definition heap_set w x h : ev_heap X := EvHeap (<[w := x]> h.(objects)) h.(next_object).
Definition heap_free w h : ev_heap X := EvHeap (delete w h.(objects)) h.(next_object).

(** A new object; addresses are not used again. *)
Definition heap_new x h : ev_heap X :=
  EvHeap (<[h.(next_object) := x]> h.(objects)) (S h.(next_object)).
End heap.

(** ** Binding an address *)

Definition sizeof_ev_io : Z := 48.

(** [strrchr]: what stands before and after the last [c]. *)
Fixpoint split_last (c : char) (l : bytes) : option (bytes * bytes) :=
  match l with
  | [] => None
  | x :: l =>
      match split_last c l with
      | Some (a, b) => Some (x :: a, b)
      | None => if decide (x = c) then Some ([], l) else None
      end
  end.

Section code.
Context `{OS}.

(** The address list of [host:port]: [None] when strdup fails, the port is missing
    or getaddrinfo fails. *)
Definition resolve_address (address_and_port : bytes) (t : socktype) : M (option (list addrinfo)) :=
  address ← malloc (len address_and_port + 1);
  match address with
  | None => mret None
  | Some _ =>
      match split_last COLON address_and_port with
      | None => mret None
      | Some (address, port) => sys (GetaddrinfoAll address port t)
      end
  end.

(** A socket bound to the address; on failure it stays open. *)
Definition bind_socket (addr : addrinfo) : M (option Z) :=
  sd ← sys (Socket addr.(ai_family) addr.(ai_socktype) addr.(ai_protocol));
  ok ← sys (InetNtop addr);
  if negb ok then mret None else
  if sd <? 0 then mret None else
  err ← sys (SetReuseaddr sd);
  if negb (err =? 0) then mret None else
  flags ← sys (FcntlGetfl sd);
  err ← sys (FcntlSetfl sd (Z.lor flags O_NONBLOCK));
  if negb (err =? 0) then mret None else
  err ← sys (Bind sd);
  if negb (err =? 0) then mret None else
  mret (Some sd).

(** The loop over the addresses: a listener for each that can be opened, until the
    array of [max] listeners is full. *)
Fixpoint bind_loop {X} (k : ev_kind) (max : Z) (create : addrinfo -> ev_heap X -> M (option nat * ev_heap X))
    (addrs : list addrinfo) (listeners : list nat) (h : ev_heap X) : M (Z * list nat * ev_heap X) :=
  match addrs with
  | [] => _ ← sys Freeaddrinfo; mret (0, listeners, h)
  | p :: addrs =>
      if max <=? len listeners then _ ← sys Freeaddrinfo; mret (1, listeners, h) else
      '(listener, h) ← create p h;
      match listener with
      | None => bind_loop k max create addrs listeners h
      | Some w =>
          _ ← sys (EvStart k w);
          bind_loop k max create addrs (listeners ++ [w]) h
      end
  end.

(** [tcpserver_bind] and [udpserver_bind]. *)
Definition bind_address {X} (k : ev_kind) (max : Z) (create : addrinfo -> ev_heap X -> M (option nat * ev_heap X))
    (t : socktype) (address_and_port : bytes) (listeners : list nat) (h : ev_heap X)
    : M (Z * list nat * ev_heap X) :=
  addrs ← resolve_address address_and_port t;
  match addrs with
  | None => mret (1, listeners, h)
  | Some addrs => bind_loop k max create addrs listeners h
  end.

(** [ev_io_stop] and [free] of the listeners. *)
Fixpoint destroy_loop {X} (k : ev_kind) (listeners : list nat) (h : ev_heap X) : M (ev_heap X) :=
  match listeners with
  | [] => mret h
  | w :: listeners =>
      _ ← defined (h.(objects) !! w);
      _ ← sys (EvStop k w);
      destroy_loop k listeners (heap_free w h)
  end.
End code.

(** ** Heaps *)

Definition heap_wf {X} (h : ev_heap X) : Prop :=
  forall w x, h.(objects) !! w = Some x -> (w < h.(next_object))%nat.

Lemma heap_wf_new {X} (x : X) h : heap_wf h -> heap_wf (heap_new x h).
Proof.
  intros Hh w y Hy. cbn in *. apply lookup_insert_Some in Hy as [[<- _]|[_ Hy]]; [lia|].
  specialize (Hh _ _ Hy). lia.
Qed.

Lemma heap_wf_free {X} w (h : ev_heap X) : heap_wf h -> heap_wf (heap_free w h).
Proof. intros Hh w' y Hy. cbn in Hy. apply lookup_delete_Some in Hy as [_ Hy]. by eapply Hh. Qed.

Lemma heap_wf_set {X} w (x : X) h : heap_wf h -> (w < h.(next_object))%nat -> heap_wf (heap_set w x h).
Proof. intros Hh Hw w' y Hy. cbn in *. apply lookup_insert_Some in Hy as [[<- _]|[_ Hy]]; [done|]. by eapply Hh. Qed.

Lemma heap_fresh {X} (h : ev_heap X) w : heap_wf h -> (h.(next_object) <= w)%nat -> h.(objects) !! w = None.
Proof. intros Hh Hw. destruct (_ !! w) eqn:E; [|done]. specialize (Hh _ _ E). lia. Qed.

(** [h'] is [h] with new objects that satisfy [ok], at the addresses [ws]. *)
Record heap_grown {X} (ok : X -> Prop) (ws : list nat) (h h' : ev_heap X) : Prop := {
  hg_wf : heap_wf h';
  hg_old : forall w, (w < h.(next_object))%nat -> h'.(objects) !! w = h.(objects) !! w;
  hg_new : Forall (fun w => (h.(next_object) <= w < h'.(next_object))%nat /\
    exists x, h'.(objects) !! w = Some x /\ ok x) ws;
  hg_only : forall w, (h.(next_object) <= w)%nat -> is_Some (h'.(objects) !! w) -> w ∈ ws;
  hg_nodup : NoDup ws;
  hg_next : (h.(next_object) <= h'.(next_object))%nat;
}.

Lemma heap_grown_refl {X} (ok : X -> Prop) h : heap_wf h -> heap_grown ok [] h h.
Proof.
  intros Hh. split; [done|done|by constructor| |by constructor|done].
  intros w Hw [x Hx]. specialize (Hh _ _ Hx). lia.
Qed.

Lemma heap_grown_new {X} (ok : X -> Prop) x h :
  heap_wf h -> ok x -> heap_grown ok [h.(next_object)] h (heap_new x h).
Proof.
  intros Hh Hx. split; cbn.
  - by apply heap_wf_new.
  - intros w Hw. rewrite lookup_insert_ne by lia. done.
  - apply Forall_singleton. split; [lia|]. exists x. by rewrite lookup_insert_eq.
  - intros w Hw [y Hy]. apply lookup_insert_Some in Hy as [[<- _]|[_ Hy]]; [by left|].
    specialize (Hh _ _ Hy). lia.
  - apply NoDup_singleton.
  - lia.
Qed.

Lemma heap_grown_trans {X} (ok : X -> Prop) ws1 ws2 h1 h2 h3 :
  heap_grown ok ws1 h1 h2 -> heap_grown ok ws2 h2 h3 -> heap_grown ok (ws1 ++ ws2) h1 h3.
Proof.
  intros [Hwf1 Hold1 Hnew1 Honly1 Hnd1 Hn1] [Hwf2 Hold2 Hnew2 Honly2 Hnd2 Hn2].
  rewrite Forall_forall in Hnew1, Hnew2. split; [done| | | | |lia].
  - intros w Hw. rewrite Hold2 by lia. by apply Hold1.
  - apply Forall_forall. intros w [Hw|Hw]%elem_of_app.
    + destruct (Hnew1 _ Hw) as (? & x & Hx & ?). split; [lia|]. exists x. by rewrite Hold2 by lia.
    + destruct (Hnew2 _ Hw) as (? & x & Hx & ?). split; [lia|]. by exists x.
  - intros w Hw Hs. apply elem_of_app. destruct (decide (w < h2.(next_object))%nat).
    + left. apply Honly1; [done|]. by rewrite <- Hold2.
    + right. apply Honly2; [lia|done].
  - apply NoDup_app. split_and!; [done| |done]. intros w Hw1 Hw2.
    destruct (Hnew1 _ Hw1) as [? _]. destruct (Hnew2 _ Hw2) as [? _]. lia.
Qed.

Lemma heap_new_lookup {X} (x : X) h w : heap_wf h -> (h.(objects) !! w <> None) ->
  (heap_new x h).(objects) !! w = h.(objects) !! w.
Proof.
  intros Hh Hw. cbn. rewrite lookup_insert_ne; [done|]. intros <-.
  by rewrite heap_fresh in Hw by (done || lia).
Qed.

(** ** The bind loop *)

Lemma split_last_Some c l l1 l2 :
  split_last c l = Some (l1, l2) <-> l = l1 ++ c :: l2 /\ (c ∉ l2).
Proof.
  assert (Hnone : forall l, split_last c l = None <-> c ∉ l).
  { clear. induction l as [|x l IH]; cbn; [set_solver|]. rewrite not_elem_of_cons.
    destruct (split_last c l) as [[a b]|]; [naive_solver|]. case_decide; naive_solver. }
  revert l1. induction l as [|x l IH]; intros l1; cbn; [by split; [|intros [E _]; destruct l1]|].
  destruct (split_last c l) as [[a b]|] eqn:E.
  - split.
    + intros [= <- <-]. destruct (proj1 (IH a) eq_refl) as [-> Hn]. by split.
    + intros [Heq Hn]. destruct l1 as [|y l1]; simplify_eq/=.
      * by rewrite (proj2 (Hnone l2) Hn) in E.
      * by injection (proj2 (IH l1) (conj eq_refl Hn)) as -> ->.
  - apply Hnone in E. case_decide as Hx.
    + subst. split; [by intros [= <- <-]|]. intros [Heq Hn].
      destruct l1 as [|y l1]; simplify_eq/=; [done|]. exfalso. apply E. set_solver.
    + split; [done|]. intros [Heq _]. destruct l1 as [|y l1]; simplify_eq/=.
      exfalso. apply E. set_solver.
Qed.

Lemma split_last_None c l : split_last c l = None -> c ∉ l.
Proof.
  intros E Hin. apply list_elem_of_split_r in Hin as (l1 & l2 & -> & Hn).
  by rewrite (proj2 (split_last_Some c _ l1 l2)) in E.
Qed.

(** Every socket can be opened, set up and bound. *)
Class SocketsOpen `{OS} : Prop := {
  open_socket : forall tr f t p, 0 <= os tr (Socket f t p);
  open_ntop : forall tr a, os tr (InetNtop a) = true;
  open_reuse : forall tr sd, os tr (SetReuseaddr sd) = 0;
  open_setfl : forall tr sd flags, os tr (FcntlSetfl sd flags) = 0;
  open_bind : forall tr sd, os tr (Bind sd) = 0;
  open_listen : forall tr sd, os tr (Listen sd) = 0;
}.

(** The answer of a call that sets up a socket lets the listener go on. *)
Definition accepts `{OS} (tr : trace) (c : call) : bool :=
  match c with
  | Socket f t p => 0 <=? os tr (Socket f t p)
  | InetNtop a => os tr (InetNtop a)
  | SetReuseaddr sd => os tr (SetReuseaddr sd) =? 0
  | FcntlSetfl sd flags => os tr (FcntlSetfl sd flags) =? 0
  | Bind sd => os tr (Bind sd) =? 0
  | Listen sd => os tr (Listen sd) =? 0
  | _ => true
  end.

(** Every one of [l], made in order after [tr], does. *)
Fixpoint all_accepted `{OS} (tr : trace) (l : list call) : bool :=
  match l with
  | [] => true
  | c :: l => accepts tr c && all_accepted (tr ++ [c]) l
  end.

Lemma sockets_accept `{OS} l tr : SocketsOpen -> all_accepted tr l = true.
Proof.
  intros [Hso Hip Hre Hfl Hb Hl]. revert tr. induction l as [|c l IH]; intros tr; cbn [all_accepted]; [done|].
  rewrite IH, andb_true_r. destruct c; cbn [accepts]; try done;
    [by apply Z.leb_le, Hso|by rewrite Hfl|by rewrite Hre|by rewrite Hb|by rewrite Hl|by rewrite Hip].
Qed.

Lemma all_accepted_app `{OS} tr l1 l2 :
  all_accepted tr (l1 ++ l2) = all_accepted tr l1 && all_accepted (tr ++ l1) l2.
Proof.
  revert tr. induction l1 as [|c l1 IH]; intros tr; cbn [app all_accepted]; [by rewrite app_nil_r|].
  rewrite IH, andb_assoc. by rewrite <- (app_assoc tr [c] l1).
Qed.

(** The calls of [bind_socket] after [tr], if none is refused. *)
Definition socket_calls `{OS} (p : addrinfo) (tr : trace) : list call :=
  let open := Socket p.(ai_family) p.(ai_socktype) p.(ai_protocol) in
  let sd := os tr open in
  let flags := os (((tr ++ [open]) ++ [InetNtop p]) ++ [SetReuseaddr sd]) (FcntlGetfl sd) in
  [open; InetNtop p; SetReuseaddr sd; FcntlGetfl sd; FcntlSetfl sd (Z.lor flags O_NONBLOCK); Bind sd].

Lemma socket_calls_quiet `{OS} p tr : Forall socket_call (socket_calls p tr).
Proof. by repeat constructor. Qed.

Lemma Forall_prefix {A} (P : A -> Prop) l1 l2 : l1 `prefix_of` l2 -> Forall P l2 -> Forall P l1.
Proof. intros [l ->]. by rewrite Forall_app; intros [? _]. Qed.

(** Its descriptor. *)
Definition socket_of `{OS} (p : addrinfo) (tr : trace) : Z :=
  os tr (Socket p.(ai_family) p.(ai_socktype) p.(ai_protocol)).

(** The listeners of the addresses, attempted in order: a listener is made and
    started when every call for it is accepted, and otherwise the next address is
    tried; [calls] are those calls and [made] is the listener. *)
Inductive attempts `{OS} {X} (k : ev_kind) (max : Z) (calls : addrinfo -> trace -> list call)
    (made : addrinfo -> trace -> X) :
    list addrinfo -> list nat -> ev_heap X -> trace -> Z * list nat * ev_heap X -> trace -> Prop :=
  | attempts_end ls h tr :
      attempts k max calls made [] ls h tr (0, ls, h) (tr ++ [Freeaddrinfo])
  | attempts_full p addrs ls h tr :
      max <= len ls ->
      attempts k max calls made (p :: addrs) ls h tr (1, ls, h) (tr ++ [Freeaddrinfo])
  | attempts_refused p addrs ls h tr l r tr' :
      len ls < max -> l `prefix_of` calls p tr -> all_accepted tr l = false ->
      attempts k max calls made addrs ls h (tr ++ l) r tr' ->
      attempts k max calls made (p :: addrs) ls h tr r tr'
  | attempts_made p addrs ls h tr r tr' :
      len ls < max -> all_accepted tr (calls p tr) = true ->
      attempts k max calls made addrs (ls ++ [h.(next_object)]) (heap_new (made p tr) h)
        ((tr ++ calls p tr) ++ [EvStart k h.(next_object)]) r tr' ->
      attempts k max calls made (p :: addrs) ls h tr r tr'.

(** The ends of binding an address: nothing can be looked up, and 1 is returned; or
    the addresses of the host are attempted. *)
Inductive bind_ends `{OS} {X} (k : ev_kind) (max : Z) (calls : addrinfo -> trace -> list call)
    (made : addrinfo -> trace -> X) (t : socktype) (address : bytes) (ls : list nat) (h : ev_heap X)
    (tr : trace) : Z * list nat * ev_heap X -> trace -> Prop :=
  | bind_no_memory (tr1 := tr ++ [Malloc (len address + 1)]) :
      os tr (Malloc (len address + 1)) = None ->
      bind_ends k max calls made t address ls h tr (1, ls, h) tr1
  | bind_no_port (tr1 := tr ++ [Malloc (len address + 1)]) :
      COLON ∉ address -> bind_ends k max calls made t address ls h tr (1, ls, h) tr1
  | bind_unknown host port (tr1 := tr ++ [Malloc (len address + 1)]) :
      address = host ++ COLON :: port -> COLON ∉ port ->
      os tr1 (GetaddrinfoAll host port t) = None ->
      bind_ends k max calls made t address ls h tr (1, ls, h) (tr1 ++ [GetaddrinfoAll host port t])
  | bind_found host port addrs r tr' (tr1 := tr ++ [Malloc (len address + 1)]) :
      address = host ++ COLON :: port -> COLON ∉ port ->
      os tr1 (GetaddrinfoAll host port t) = Some addrs ->
      attempts k max calls made addrs ls h (tr1 ++ [GetaddrinfoAll host port t]) r tr' ->
      bind_ends k max calls made t address ls h tr r tr'.

Section bind.
Context `{OSLaws} {X : Type} (k : ev_kind) (max : Z) (ok : X -> Prop).
Context (calls : addrinfo -> trace -> list call) (made : addrinfo -> trace -> X).
Variable create : addrinfo -> ev_heap X -> M (option nat * ev_heap X).
Hypothesis create_spec : forall p h tr,
  wp (create p h) (fun '(r, h') tr' => exists l, tr' = tr ++ l /\ l `prefix_of` calls p tr /\
    Forall socket_call l /\
    match r with
    | Some w => w = h.(next_object) /\ h' = heap_new (made p tr) h /\ ok (made p tr) /\
        l = calls p tr /\ all_accepted tr l = true
    | None => h' = h /\ all_accepted tr l = false
    end) tr.

(** What the loop leaves: [ws] are the new listeners, all of them started. *)
Definition bound (addrs : list addrinfo) (listeners : list nat) (h : ev_heap X) (tr : trace)
    (p : Z * list nat * ev_heap X) (tr' : trace) : Prop :=
  let '(r, listeners', h') := p in
  grows (file_call k) tr tr' /\
  exists ws, listeners' = listeners ++ ws /\ heap_grown ok ws h h' /\
    (length ws <= length addrs)%nat /\ (len listeners <= max -> len listeners' <= max) /\
    (forall w, active k w tr' = bool_decide (w ∈ ws) || active k w tr) /\
    (SocketsOpen -> len listeners <= max -> len listeners' = Z.min max (len listeners + len addrs)) /\
    (r = 0 \/ r = 1 /\ max <= len listeners' /\ (length ws < length addrs)%nat) /\
    attempts k max calls made addrs listeners h tr p tr'.

Lemma bind_loop_spec addrs listeners h tr :
  heap_wf h -> wp (bind_loop k max create addrs listeners h) (bound addrs listeners h tr) tr.
Proof.
  revert listeners h tr. induction addrs as [|p addrs IH]; intros ls h tr Hh; cbn [bind_loop].
  { apply wp_bind, (wp_sys Freeaddrinfo), wp_ret. split; [by apply grows_one|].
    exists []. rewrite app_nil_r. split_and!; [done|by apply heap_grown_refl|done|done| | |by left|apply attempts_end].
    - intros w. by rewrite active_snoc.
    - rewrite len_nil. lia. }
  destruct (Z.leb_spec max (len ls)) as [Hfull|Hroom].
  { apply wp_bind, (wp_sys Freeaddrinfo), wp_ret. split; [by apply grows_one|].
    exists []. rewrite app_nil_r. split_and!; [done|by apply heap_grown_refl|cbn; lia|done| | | |by apply attempts_full].
    - intros w. by rewrite active_snoc.
    - pose proof (len_nonneg addrs). rewrite len_cons. lia.
    - right. split_and!; [done|done|cbn; lia]. }
  apply wp_bind. eapply wp_mono; [apply create_spec|]. intros [[w0|] h1] tr1 (l & -> & Hl & Hs & Hr).
  all: assert (Hg : grows socket_call tr (tr ++ l)) by (by exists l).
  - destruct Hr as (-> & -> & Hok & -> & Hacc). set (w0 := h.(next_object)).
    pose proof (heap_grown_new ok (made p tr) h Hh Hok) as Hnew.
    apply wp_bind, (wp_sys (EvStart k w0)).
    eapply wp_mono; [apply IH; apply Hnew|]. intros [[r ls'] h'] tr' (Hg' & ws & -> & Hgrown & Hlen & Hmax & Hact & Hopen & Hres & Hatt).
    split.
    + etrans; [eapply grows_mono; [apply (socket_file k)|exact Hg]|]. etrans; [|exact Hg']. by apply grows_one.
    + exists (w0 :: ws). rewrite <- (app_assoc ls) in *. cbn in *. split_and!; [done| |lia| | | | |].
      * by apply (heap_grown_trans ok [w0] ws h (heap_new (made p tr) h)).
      * intros _. apply Hmax. lens.
      * intros w. rewrite Hact, active_start. rewrite (socket_active k w tr (tr ++ calls p tr)) by done.
        rewrite orb_assoc. f_equal. destruct (decide (w = w0)) as [->|Hne].
        -- rewrite !(bool_decide_true (w0 = w0)) by done. rewrite orb_true_r.
           symmetry. apply bool_decide_eq_true. by left.
        -- rewrite (bool_decide_false (w0 = w)), orb_false_r by done. apply bool_decide_ext.
           set_solver.
      * intros Hso Hle. rewrite Hopen by (done || lens). rewrite len_app, !len_cons, len_nil. lia.
      * destruct Hres as [?|(? & ? & ?)]; [by left|right; split_and!; lia].
      * by apply attempts_made.
  - destruct Hr as [-> Hno]. eapply wp_mono; [by apply IH|]. intros [[r ls'] h'] tr' (Hg' & ws & -> & Hgrown & Hlen & Hmax & Hact & Hopen & Hres & Hatt).
    split; [etrans; [eapply grows_mono; [apply (socket_file k)|exact Hg]|done]|].
    exists ws. split_and!; [done|done|cbn; lia|done| | |cbn; naive_solver lia|by eapply attempts_refused].
    + intros w. rewrite Hact. f_equal. by apply socket_active.
    + intros Hso. by rewrite sockets_accept in Hno.
Qed.

(** What binding an address leaves; 1 means that there was nothing to bind, or
    no room in the array of listeners. *)
Definition bound_address (t : socktype) (address : bytes) (listeners : list nat) (h : ev_heap X)
    (tr : trace) (p : Z * list nat * ev_heap X) (tr' : trace) : Prop :=
  let '(r, listeners', h') := p in
  grows (file_call k) tr tr' /\
  exists ws, listeners' = listeners ++ ws /\ heap_grown ok ws h h' /\
    (len listeners <= max -> len listeners' <= max) /\
    (forall w, active k w tr' = bool_decide (w ∈ ws) || active k w tr) /\
    (r = 0 \/ r = 1 /\ (ws = [] \/ max <= len listeners')) /\
    (r = 0 -> exists host port addrs tr0, address = host ++ COLON :: port /\ (COLON ∉ port) /\
      os tr0 (GetaddrinfoAll host port t) = Some addrs /\ (length ws <= length addrs)%nat /\
      (SocketsOpen -> len listeners <= max ->
        len listeners' = Z.min max (len listeners + len addrs))) /\
    bind_ends k max calls made t address listeners h tr p tr'.

Lemma bind_address_spec t address listeners h tr :
  heap_wf h ->
  wp (bind_address k max create t address listeners h) (bound_address t address listeners h tr) tr.
Proof.
  intros Hh. unfold bind_address, resolve_address. pose proof (len_nonneg address).
  assert (Hnone : forall tr', grows (file_call k) tr tr' ->
    (forall w, active k w tr' = active k w tr) ->
    bind_ends k max calls made t address listeners h tr (1, listeners, h) tr' ->
    bound_address t address listeners h tr (1, listeners, h) tr').
  { intros tr' Hg Hact Hend. split; [done|]. exists []. rewrite app_nil_r.
    split_and!; [done|by apply heap_grown_refl|done|done|right; split; [done|by left]|done|done]. }
  assert (Hone : forall c, grows (file_call k) tr (tr ++ [Malloc c])) by (intros; by apply grows_one).
  apply wp_bind, wp_bind, wp_malloc_why; [lia|intros Enull|intros c _ _].
  { do 2 apply wp_ret. apply Hnone; [done| |by apply bind_no_memory]. intros w. by rewrite active_snoc. }
  destruct (split_last COLON address) as [[host port]|] eqn:E.
  2:{ do 2 apply wp_ret. apply Hnone; [done| |by apply bind_no_port, split_last_None].
      intros w. by rewrite active_snoc. }
  apply split_last_Some in E as [Haddr Hport]. apply (wp_sys (GetaddrinfoAll host port t)).
  set (tr1 := tr ++ _). destruct (os tr1 (GetaddrinfoAll host port t)) as [addrs|] eqn:E.
  2:{ apply wp_ret. apply Hnone; [etrans; [apply Hone|by apply grows_one]| |by apply bind_unknown].
      intros w. unfold tr1. by rewrite !active_snoc. }
  eapply wp_mono; [by apply bind_loop_spec|].
  intros [[r ls'] h'] tr' (Hg & ws & -> & Hgrown & Hlen & Hmax & Hact & Hopen & Hres & Hatt).
  split; [etrans; [|exact Hg]; etrans; [apply Hone|by apply grows_one]|].
  exists ws. split_and!; [done..| | | |].
  - intros w. rewrite Hact. unfold tr1. by rewrite !active_snoc.
  - destruct Hres as [->|(-> & ? & _)]; [by left|right; split; [done|by right]].
  - intros _. exists host, port, addrs, tr1. by split_and!.
  - by eapply bind_found.
Qed.
End bind.

Ltac socket_grows := repeat (etrans; [|by apply grows_one]); reflexivity.

(** The socket of a listener, if there is one. *)
Lemma bind_socket_spec `{OS} p tr :
  wp (bind_socket p) (fun r tr' => exists l, tr' = tr ++ l /\ l `prefix_of` socket_calls p tr /\
    match r with
    | Some sd => sd = socket_of p tr /\ 0 <= sd /\ l = socket_calls p tr /\ all_accepted tr l = true
    | None => all_accepted tr l = false
    end) tr.
Proof.
  unfold bind_socket, socket_calls, socket_of. cbn zeta.
  apply wp_bind, (wp_sys (Socket _ _ _)), wp_bind, (wp_sys (InetNtop _)).
  set (open := Socket _ _ _). set (sd := os tr open).
  assert (Hstop : forall l tr', tr' = tr ++ l ->
    l `prefix_of` socket_calls p tr -> all_accepted tr l = false ->
    wp (mret None) (fun (r : option Z) tr' => exists l, tr' = tr ++ l /\ l `prefix_of` socket_calls p tr /\
      match r with
      | Some sd => sd = socket_of p tr /\ 0 <= sd /\ l = socket_calls p tr /\ all_accepted tr l = true
      | None => all_accepted tr l = false
      end) tr').
  { intros l tr' -> Hl Hno. apply wp_ret. by exists l. }
  destruct (os _ (InetNtop _)) eqn:Hip; cbn [negb]; [|apply (Hstop [open; InetNtop p]);
    [by rewrite <- ?app_assoc|by eexists|cbn [all_accepted accepts]; by rewrite Hip, andb_false_r]].
  assert (Hopen : accepts tr open = (0 <=? sd)) by done.
  destruct (Z.ltb_spec sd 0) as [Hneg|Hpos]; [apply (Hstop [open; InetNtop p]);
    [by rewrite <- ?app_assoc|by eexists|cbn [all_accepted]; by rewrite Hopen, (proj2 (Z.leb_gt _ _))]|].
  rewrite (proj2 (Z.leb_le _ _)) in Hopen by done.
  apply wp_bind, (wp_sys (SetReuseaddr sd)).
  destruct (os _ (SetReuseaddr sd) =? 0) eqn:Hre; cbn [negb];
    [|apply (Hstop [open; InetNtop p; SetReuseaddr sd]); [by rewrite <- ?app_assoc|by eexists|
      cbn [all_accepted accepts]; by rewrite Hre, !andb_false_r]].
  apply wp_bind, (wp_sys (FcntlGetfl sd)). set (flags := os _ (FcntlGetfl sd)).
  apply wp_bind, (wp_sys (FcntlSetfl sd _)).
  destruct (os _ (FcntlSetfl sd _) =? 0) eqn:Hfl; cbn [negb];
    [|apply (Hstop [open; InetNtop p; SetReuseaddr sd; FcntlGetfl sd; FcntlSetfl sd (Z.lor flags O_NONBLOCK)]);
      [by rewrite <- ?app_assoc|by eexists|cbn [all_accepted accepts]; by rewrite Hfl, !andb_false_r]].
  apply wp_bind, (wp_sys (Bind sd)). destruct (os _ (Bind sd) =? 0) eqn:Hb; cbn [negb];
    [|apply (Hstop (socket_calls p tr)); [by rewrite <- ?app_assoc|done|
      unfold socket_calls; fold open sd flags; cbn [all_accepted accepts]; by rewrite Hb, !andb_false_r]].
  apply wp_ret. exists (socket_calls p tr). split_and!; try done; [by rewrite <- ?app_assoc|].
  unfold socket_calls. fold open sd flags. cbn [all_accepted]. rewrite Hopen. cbn [accepts]. by rewrite Hip, Hre, Hfl, Hb.
Qed.

Lemma destroy_loop_spec `{OS} {X} k ls (h : ev_heap X) tr :
  heap_wf h -> NoDup ls -> Forall (fun w => is_Some (h.(objects) !! w)) ls ->
  wp (destroy_loop k ls h) (fun h' tr' => grows (file_call k) tr tr' /\ heap_wf h' /\
    h'.(next_object) = h.(next_object) /\
    (forall w, h'.(objects) !! w = if bool_decide (w ∈ ls) then None else h.(objects) !! w) /\
    (forall w, active k w tr' = negb (bool_decide (w ∈ ls)) && active k w tr)) tr.
Proof.
  revert h tr. induction ls as [|w0 ls IH]; intros h tr Hh Hnd Hall; cbn [destroy_loop].
  { apply wp_ret. by split_and!. }
  apply NoDup_cons in Hnd as [Hw0 Hnd]. apply Forall_cons in Hall as [[x Hx] Hall].
  rewrite Hx. apply wp_bind, wp_ret, wp_bind, (wp_sys (EvStop k w0)).
  eapply wp_mono; [apply IH; [by apply heap_wf_free|done|]|].
  { rewrite Forall_forall in *. intros w Hw. cbn. rewrite lookup_delete_ne by set_solver. by apply Hall. }
  intros h' tr' (Hg & Hwf & Hn & Hobj & Hact). split_and!; [|done|done| |].
  - etrans; [|exact Hg]. by apply grows_one.
  - intros w. rewrite Hobj. cbn. destruct (decide (w = w0)) as [->|Hne].
    + rewrite lookup_delete_eq, (bool_decide_true (w0 ∈ w0 :: ls)) by by left. by case_bool_decide.
    + rewrite lookup_delete_ne by done. by rewrite (bool_decide_ext (w ∈ w0 :: ls) (w ∈ ls)) by set_solver.
  - intros w. rewrite Hact, active_stop. destruct (decide (w = w0)) as [->|Hne].
    + rewrite (bool_decide_true (w0 = w0)), (bool_decide_true (w0 ∈ w0 :: ls)) by (done || by left).
      by rewrite andb_false_r.
    + rewrite (bool_decide_false (w0 = w)) by done.
      by rewrite (bool_decide_ext (w ∈ w0 :: ls) (w ∈ ls)) by set_solver.
Qed.
