(* ===== verification/Tcpserver.v ===== *)
(** * tcpserver.c: TCP listeners and sessions under libev

    A listener accepts connections and makes a session for each; a session passes
    what its socket receives to a callback, and is destroyed when that returns
    non-zero.  The owner of the callbacks is any module: [P] is its [data] pointer,
    [D] its state, which the callbacks change, and [C] the context of a session.
    What it must promise is the classes [ConnLaw] and [RecvLaw]. *)
From S2P Require Import Prelude Sys Listener.

(** ** Data *)

Definition MAX_TCP_HANDLERS : Z := 32.
Definition sizeof_tcpserver : Z := 288.
Definition sizeof_tcplistener : Z := 48.
Definition sizeof_tcpsession : Z := 184.

(** The context is [None] for NULL. *)
Definition conn_callback (P D C : Type) : Type := Z -> P -> D -> M (option C * D).
Definition recv_callback (P D C : Type) : Type := Z -> P -> D -> option C -> M (Z * option C * D).

Record tcplistener_t (P D C : Type) := TcpListener {
  listener_sd : Z;
  listener_data : P;
  listener_cb_conn : conn_callback P D C;
  listener_cb_recv : option (recv_callback P D C);
}.
Arguments TcpListener {P D C}.
Arguments listener_sd {P D C}.
Arguments listener_data {P D C}.
Arguments listener_cb_conn {P D C}.
Arguments listener_cb_recv {P D C}.

Record tcpsession_t (P D C : Type) := TcpSession {
  session_sd : Z;
  session_data : P;
  session_cb_recv : option (recv_callback P D C);
  session_ctx : option C;
}.
Arguments TcpSession {P D C}.
Arguments session_sd {P D C}.
Arguments session_data {P D C}.
Arguments session_cb_recv {P D C}.
Arguments session_ctx {P D C}.

(** A watcher by its callback, with what its [data] points to. *)
Inductive tcp_watcher (P D C : Type) :=
  | AcceptWatcher (l : tcplistener_t P D C)
  | RecvWatcher (s : option (tcpsession_t P D C)).
Arguments AcceptWatcher {P D C}.
Arguments RecvWatcher {P D C}.

(** [listeners_len] is the length of [listeners]. *)
Record tcpserver_t (P : Type) := TcpServer {
  listeners : list nat;
  server_data : P;
}.
Arguments TcpServer {P}.
Arguments listeners {P}.
Arguments server_data {P}.

Abbreviation tcp_heap P D C := (ev_heap (tcp_watcher P D C)).

(** ** The code *)

Section code.
Context `{OS} {P D C : Type}.
Implicit Types (h : tcp_heap P D C) (d : D) (w : nat) (s : tcpsession_t P D C).

Definition tcpsession_create (listener : tcplistener_t P D C) h
    : M (option (nat * tcpsession_t P D C) * tcp_heap P D C) :=
  p ← malloc sizeof_tcpsession;
  match p with
  | None => mret (None, h)
  | Some _ =>
      watcher ← malloc sizeof_ev_io;
      match watcher with
      | None => mret (None, h)
      | Some _ =>
          let session := TcpSession (-1) listener.(listener_data) listener.(listener_cb_recv) None in
          mret (Some (h.(next_object), session), heap_new (RecvWatcher (Some session)) h)
      end
  end.

Definition tcpsession_destroy w s h : M (tcp_heap P D C) :=
  _ ← (if 0 <? s.(session_sd) then sys (Close s.(session_sd)) else mret ());
  _ ← sys (EvStop TcpEv w);
  mret (heap_free w h).

(** The failed flag of [revents]. *)
Definition ev_error (revents : Z) : bool := negb (Z.land revents EV_ERROR =? 0).

Definition tcpsession_recv_callback w (data : option (tcpsession_t P D C)) (revents : Z) h d
    : M (tcp_heap P D C * D) :=
  if ev_error revents then mret (h, d) else
  match data with
  | None => mret (h, d)
  | Some session =>
      match session.(session_cb_recv) with
      | None => mret (h, d)
      | Some cb_recv =>
          '(r, ctx, d) ← cb_recv session.(session_sd) session.(session_data) d session.(session_ctx);
          let session := TcpSession session.(session_sd) session.(session_data)
            session.(session_cb_recv) ctx in
          if negb (r =? 0) then
            h ← tcpsession_destroy w session h;
            mret (h, d)
          else mret (heap_set w (RecvWatcher (Some session)) h, d)
      end
  end.

Definition tcplistener_accept_callback (listener : tcplistener_t P D C) (revents : Z) h d
    : M (tcp_heap P D C * D) :=
  if ev_error revents then mret (h, d) else
  '(session, h) ← tcpsession_create listener h;
  match session with
  | None => mret (h, d)
  | Some (w, session) =>
      sd ← sys (Accept listener.(listener_sd));
      let session := TcpSession sd session.(session_data) session.(session_cb_recv)
        session.(session_ctx) in
      let h := heap_set w (RecvWatcher (Some session)) h in
      if sd <? 0 then mret (h, d) else
      flags ← sys (FcntlGetfl sd);
      err ← sys (FcntlSetfl sd (Z.lor flags O_NONBLOCK));
      if negb (err =? 0) then mret (h, d) else
      '(ctx, d) ← listener.(listener_cb_conn) sd session.(session_data) d;
      let session := TcpSession sd session.(session_data) session.(session_cb_recv) ctx in
      let h := heap_set w (RecvWatcher (Some session)) h in
      _ ← sys (EvStart TcpEv w);
      mret (h, d)
  end.

(** libev calls the callback of a watcher. *)
Definition tcp_event w (revents : Z) h d : M (tcp_heap P D C * D) :=
  watcher ← defined (h.(objects) !! w);
  match watcher with
  | AcceptWatcher listener => tcplistener_accept_callback listener revents h d
  | RecvWatcher data => tcpsession_recv_callback w data revents h d
  end.

(** The blocks of a server and of a listener are used without a check for NULL. *)
Definition tcpserver_create (data : P) : M (tcpserver_t P) :=
  server ← malloc sizeof_tcpserver;
  _ ← defined server;
  mret (TcpServer [] data).

Definition tcplistener_create (server : tcpserver_t P) (cb_conn : conn_callback P D C)
    (cb_recv : recv_callback P D C) (addr : addrinfo) h : M (option nat * tcp_heap P D C) :=
  listener ← malloc sizeof_tcplistener;
  _ ← defined listener;
  sd ← bind_socket addr;
  match sd with
  | None => mret (None, h)
  | Some sd =>
      err ← sys (Listen sd);
      if negb (err =? 0) then mret (None, h) else
      watcher ← malloc sizeof_ev_io;
      _ ← defined watcher;
      mret (Some h.(next_object),
        heap_new (AcceptWatcher (TcpListener sd server.(server_data) cb_conn (Some cb_recv))) h)
  end.

Definition tcpserver_bind (server : tcpserver_t P) (address_and_port : bytes)
    (cb_conn : conn_callback P D C) (cb_recv : recv_callback P D C) h
    : M (Z * tcpserver_t P * tcp_heap P D C) :=
  '(r, ls, h) ← bind_address TcpEv MAX_TCP_HANDLERS (tcplistener_create server cb_conn cb_recv)
    SOCK_STREAM address_and_port server.(listeners) h;
  mret (r, TcpServer ls server.(server_data), h).

Definition tcpserver_destroy (server : tcpserver_t P) h : M (tcp_heap P D C) :=
  destroy_loop TcpEv server.(listeners) h.
End code.

(** ** What the callbacks promise *)

(** [inv d tr]: the state [d] of the owner is in order after [tr]; calls of the listeners
    do not disturb it. *)
Class FrontendInv {D} (inv : D -> trace -> Prop) : Prop :=
  inv_frame : forall d tr tr', inv d tr -> grows frontend_call tr tr' -> inv d tr'.

(** A new connection gets a context that is in order. *)
Class ConnLaw {P D C} (inv : D -> trace -> Prop) (ctx_ok : Z -> P -> C -> Prop) (p : P)
    (f : conn_callback P D C) : Prop :=
  conn_law : forall sd d tr, inv d tr ->
    wp (f sd p d) (fun '(ctx, d') tr' => inv d' tr' /\ grows no_ev_call tr tr' /\
      exists c, ctx = Some c /\ ctx_ok sd p c) tr.

(** Input that is [benign] is dealt with, and 0 is returned with the context in order. *)
Class RecvLaw {P D C} (inv : D -> trace -> Prop) (ctx_ok : Z -> P -> C -> Prop)
    (benign : Z -> P -> C -> D -> trace -> Prop) (p : P) (f : recv_callback P D C) : Prop :=
  recv_law : forall sd c d tr, inv d tr -> ctx_ok sd p c -> benign sd p c d tr ->
    wp (f sd p d (Some c)) (fun '(r, ctx, d') tr' => inv d' tr' /\ grows no_ev_call tr tr' /\
      (r = 0 -> exists c', ctx = Some c' /\ ctx_ok sd p c')) tr.

(** ** One event *)

Section events.
Context `{OSLaws} {P D C : Type}.
Implicit Types (h : tcp_heap P D C) (d : D) (w : nat) (s : tcpsession_t P D C)
  (l : tcplistener_t P D C) (tr : trace).

(** The session that a listener makes for a descriptor. *)
Definition session_of l (sd : Z) (ctx : option C) : tcpsession_t P D C :=
  TcpSession sd l.(listener_data) l.(listener_cb_recv) ctx.

(** The ends of accepting a connection: an allocation failed, and nothing is accepted;
    accept or fcntl fail, and the session, with the open descriptor, is left behind,
    unwatched; or the session gets the context of the callback and is watched.
    [tr2] is what precedes the call that makes the descriptor non-blocking. *)
Inductive accepted l h d tr : tcp_heap P D C * D -> trace -> Prop :=
  | accept_no_memory tr1 n :
      grows is_malloc tr tr1 -> os tr1 (Malloc n) = None -> accepted l h d tr (h, d) (tr1 ++ [Malloc n])
  | accept_refused tr1 sd :
      grows is_malloc tr tr1 -> os tr1 (Accept l.(listener_sd)) = sd -> sd < 0 ->
      accepted l h d tr (heap_new (RecvWatcher (Some (session_of l sd None))) h, d)
        (tr1 ++ [Accept l.(listener_sd)])
  | accept_blocking tr1 tr2 sd flags :
      grows is_malloc tr tr1 -> os tr1 (Accept l.(listener_sd)) = sd -> 0 <= sd ->
      tr2 = (tr1 ++ [Accept l.(listener_sd)]) ++ [FcntlGetfl sd] ->
      flags = Z.lor (os (tr1 ++ [Accept l.(listener_sd)]) (FcntlGetfl sd)) O_NONBLOCK ->
      os tr2 (FcntlSetfl sd flags) <> 0 ->
      accepted l h d tr (heap_new (RecvWatcher (Some (session_of l sd None))) h, d)
        (tr2 ++ [FcntlSetfl sd flags])
  | accept_session tr1 tr2 sd flags ctx d' tr3 :
      grows is_malloc tr tr1 -> os tr1 (Accept l.(listener_sd)) = sd -> 0 <= sd ->
      tr2 = (tr1 ++ [Accept l.(listener_sd)]) ++ [FcntlGetfl sd] ->
      flags = Z.lor (os (tr1 ++ [Accept l.(listener_sd)]) (FcntlGetfl sd)) O_NONBLOCK ->
      os tr2 (FcntlSetfl sd flags) = 0 ->
      l.(listener_cb_conn) sd l.(listener_data) d (tr2 ++ [FcntlSetfl sd flags]) = Some (ctx, d', tr3) ->
      accepted l h d tr (heap_new (RecvWatcher (Some (session_of l sd ctx))) h, d')
        (tr3 ++ [EvStart TcpEv h.(next_object)]).

Lemma heap_set_new {X} (x y : X) (h : ev_heap X) :
  heap_set h.(next_object) x (heap_new y h) = heap_new x h.
Proof. unfold heap_set, heap_new. cbn. by rewrite insert_insert_eq. Qed.

(** What the callback of a listener does: nothing when libev reports an error. *)
Definition accept_result l revents h d tr (p : tcp_heap P D C * D) tr' : Prop :=
  if ev_error revents then p = (h, d) /\ tr' = tr else accepted l h d tr p tr'.

Lemma accept_spec l revents h d tr :
  (forall sd tr', 0 <= sd -> grows socket_call tr tr' ->
    is_Some (l.(listener_cb_conn) sd l.(listener_data) d tr')) ->
  wp (tcplistener_accept_callback l revents h d) (accept_result l revents h d tr) tr.
Proof.
  intros Hconn. unfold tcplistener_accept_callback, accept_result. destruct (ev_error revents); [by apply wp_ret|].
  apply wp_bind. unfold tcpsession_create. apply wp_bind, wp_malloc_why; [done|intros E|intros c1 _ _].
  { do 2 apply wp_ret. by apply accept_no_memory. }
  apply wp_bind, wp_malloc_why; [done|intros E|intros c2 _ _].
  { do 2 apply wp_ret. apply accept_no_memory; [by apply grows_one|done]. }
  set (tr1 := (tr ++ _) ++ _). assert (Hg1 : grows is_malloc tr tr1) by (etrans; by apply grows_one).
  apply wp_ret, wp_bind, (wp_sys (Accept _)). set (sd := os tr1 _). cbn [session_data session_cb_recv session_ctx].
  rewrite heap_set_new. destruct (Z.ltb_spec sd 0) as [Hneg|Hpos].
  { apply wp_ret. by apply accept_refused. }
  apply wp_bind, (wp_sys (FcntlGetfl sd)). set (flags := Z.lor _ _).
  apply wp_bind, (wp_sys (FcntlSetfl sd flags)). set (tr2 := (tr1 ++ _) ++ _).
  destruct (Z.eqb_spec (os tr2 (FcntlSetfl sd flags)) 0) as [Hz|Hnz]; cbn [negb].
  - destruct (Hconn sd (tr2 ++ [FcntlSetfl sd flags]) Hpos) as [[[ctx d'] tr3] E].
    { unfold tr2, tr1. socket_grows. }
    apply wp_bind. eapply wp_run; [exact E|]. cbn beta iota. rewrite heap_set_new.
    apply wp_bind, (wp_sys (EvStart _ _)), wp_ret. by eapply accept_session.
  - apply wp_ret. by eapply accept_blocking.
Qed.

(** A readable session: the callback, and the end of the session if it says so. *)
Lemma recv_callback_eq w s cb_recv revents r ctx d' h d tr tr1 :
  ev_error revents = false -> s.(session_cb_recv) = Some cb_recv ->
  cb_recv s.(session_sd) s.(session_data) d s.(session_ctx) tr = Some (r, ctx, d', tr1) ->
  tcpsession_recv_callback w (Some s) revents h d tr =
    Some (if r =? 0 then
      (heap_set w (RecvWatcher (Some (TcpSession s.(session_sd) s.(session_data) (Some cb_recv) ctx))) h,
       d', tr1)
    else
      (heap_free w h, d',
       tr1 ++ (if 0 <? s.(session_sd) then [Close s.(session_sd)] else []) ++ [EvStop TcpEv w])).
Proof.
  intros Hev Hcb E. unfold tcpsession_recv_callback. rewrite Hev, Hcb. unfold mbind, M_bind.
  rewrite E. destruct (r =? 0); [done|]. cbn [negb]. unfold tcpsession_destroy, mbind, M_bind.
  cbn [Tcpserver.session_sd]. destruct (0 <? session_sd s); cbn; [by rewrite <- app_assoc|done].
Qed.
End events.

(** What holds of every object and survives the steps of a session holds after an event. *)
Lemma tcp_event_objects `{OS} {P D C} (Q : tcp_watcher P D C -> Prop) w revents (h : tcp_heap P D C) d tr :
  (forall l sd ctx, Q (AcceptWatcher l) -> Q (RecvWatcher (Some (session_of l sd ctx)))) ->
  (forall s ctx, Q (RecvWatcher (Some s)) -> Q (RecvWatcher (Some
    (TcpSession s.(session_sd) s.(session_data) s.(session_cb_recv) ctx)))) ->
  (forall k x, h.(objects) !! k = Some x -> Q x) ->
  wlp (tcp_event w revents h d) (fun p _ => forall k x, p.1.(objects) !! k = Some x -> Q x) tr.
Proof.
  intros Hl Hs Hall. unfold tcp_event. apply wlp_defined. intros x Hx. specialize (Hall w x Hx) as Hqx.
  assert (Hset : forall (m : gmap nat _) k0 y, Q y -> (forall k x, m !! k = Some x -> Q x) ->
    forall k x, <[k0 := y]> m !! k = Some x -> Q x).
  { intros m k0 y Hy Hm k x' [[_ <-]|[_ Hx']]%lookup_insert_Some; [done|by eapply Hm]. }
  destruct x as [l|[s|]].
  - unfold tcplistener_accept_callback, tcpsession_create. destruct (ev_error revents); [done|].
    apply wlp_bind. repeat wlp_step; try exact Hall; cbn;
      repeat apply Hset; try exact Hall; by apply (Hl l).
  - unfold tcpsession_recv_callback. wlp_step; [wlp_step; exact Hall|].
    wlp_step; [|wlp_step; exact Hall]. wlp_step. wlp_step. wlp_step. wlp_step.
    + unfold tcpsession_destroy. apply wlp_bind. repeat wlp_step; cbn;
        intros k x; rewrite lookup_delete_Some; intros [_ Hx']; by eapply Hall.
    + wlp_step. cbn. apply Hset; [|done]. rewrite <- Heqo. by apply Hs.
  - unfold tcpsession_recv_callback. by repeat wlp_step.
Qed.

(** ** The invariant *)

Section invariant.
Context `{OSLaws, !Plenty} {P D C : Type}.
Context (inv : D -> trace -> Prop) (ctx_ok : Z -> P -> C -> Prop)
  (benign : Z -> P -> C -> D -> trace -> Prop).
Context `{!FrontendInv inv}.
Implicit Types (h : tcp_heap P D C) (d : D) (w : nat) (s : tcpsession_t P D C)
  (l : tcplistener_t P D C) (tr : trace).

Definition recv_ok (p : P) (cb : option (recv_callback P D C)) : Prop :=
  exists f, cb = Some f /\ RecvLaw inv ctx_ok benign p f.

Definition listener_ok l : Prop :=
  ConnLaw inv ctx_ok l.(listener_data) l.(listener_cb_conn) /\
  recv_ok l.(listener_data) l.(listener_cb_recv).

Definition session_ok s : Prop :=
  recv_ok s.(session_data) s.(session_cb_recv) /\
  exists c, s.(session_ctx) = Some c /\ ctx_ok s.(session_sd) s.(session_data) c.

Definition watcher_ok (x : tcp_watcher P D C) : Prop :=
  match x with
  | AcceptWatcher l => listener_ok l
  | RecvWatcher (Some s) => session_ok s
  | RecvWatcher None => False
  end.

(** Every watcher that libev may report is allocated and in order.  Sessions that
    could not be set up are not watched. *)
Record tcp_ok h tr : Prop := {
  tk_wf : heap_wf h;
  tk_active : forall w, active TcpEv w tr = true ->
    exists x, h.(objects) !! w = Some x /\ watcher_ok x;
}.

(** Listeners stay as they are, and there are no new ones. *)
Definition listeners_kept h tr h' tr' : Prop :=
  forall w l,
    (h'.(objects) !! w = Some (AcceptWatcher l) <-> h.(objects) !! w = Some (AcceptWatcher l)) /\
    (h.(objects) !! w = Some (AcceptWatcher l) -> active TcpEv w tr' = active TcpEv w tr).

(** What an event receives is benign. *)
Definition benign_tcp w h d tr : Prop :=
  forall s c, h.(objects) !! w = Some (RecvWatcher (Some s)) -> s.(session_ctx) = Some c ->
    benign s.(session_sd) s.(session_data) c d tr.

Lemma tcp_ok_grows h tr tr' : tcp_ok h tr -> grows no_ev_call tr tr' -> tcp_ok h tr'.
Proof.
  intros [Hwf Hact] Hg. split; [done|]. intros w. rewrite (no_ev_active TcpEv w tr tr') by done. apply Hact.
Qed.

(** A new object, watched only when it is in order. *)
Lemma tcp_ok_new h tr s tr' (x := RecvWatcher (Some s)) :
  tcp_ok h tr ->
  (forall w, active TcpEv w tr' = active TcpEv w tr \/ w = h.(next_object) /\ watcher_ok x) ->
  tcp_ok (heap_new x h) tr' /\ listeners_kept h tr (heap_new x h) tr'.
Proof.
  intros [Hwf Hact] Hw. split.
  - split; [by apply heap_wf_new|]. intros w Ha. destruct (Hw w) as [E|[-> Hx]].
    + rewrite E in Ha. destruct (Hact w Ha) as (y & Hy & Hok). exists y.
      rewrite heap_new_lookup by (done || by rewrite Hy). done.
    + exists x. cbn. by rewrite lookup_insert_eq.
  - intros w l. split.
    + cbn. rewrite lookup_insert_Some. split; [by intros [[_ [=]]|[_ ?]]|]. intros Hl. right. split; [|done].
      intros <-. by rewrite heap_fresh in Hl.
    + intros Hl. destruct (Hw w) as [E|[-> _]]; [done|]. by rewrite heap_fresh in Hl.
Qed.

Lemma accept_event_spec l revents h d tr :
  inv d tr -> tcp_ok h tr -> listener_ok l ->
  wp (tcplistener_accept_callback l revents h d) (fun '(h', d') tr' =>
    inv d' tr' /\ tcp_ok h' tr' /\ listeners_kept h tr h' tr' /\ grows (no_ev UdpEv) tr tr') tr.
Proof.
  intros Hinv Hok [Hconn Hrecv]. destruct (ev_error revents) eqn:Hev.
  { unfold tcplistener_accept_callback. rewrite Hev. apply wp_ret. by split_and!. }
  assert (Hpre : forall sd tr', grows socket_call tr tr' ->
    wp (l.(listener_cb_conn) sd l.(listener_data) d) (fun '(ctx, d') tr'' => inv d' tr'' /\
      grows no_ev_call tr' tr'' /\ exists c, ctx = Some c /\ ctx_ok sd l.(listener_data) c) tr').
  { intros sd tr' Hg. apply Hconn. by eapply inv_frame, socket_frontend. }
  eapply wp_mono; [apply accept_spec|].
  { intros sd tr' _ Hg. destruct (wp_inv _ _ _ (Hpre sd tr' Hg)) as (p & tr2 & -> & _). by eexists. }
  intros p tr' Hacc. unfold accept_result in Hacc. rewrite Hev in Hacc.
  assert (Hquiet : forall s tr', grows socket_call tr tr' -> let x := RecvWatcher (Some s) in
    inv d tr' /\ tcp_ok (heap_new x h) tr' /\
    listeners_kept h tr (heap_new x h) tr' /\ grows (no_ev UdpEv) tr tr').
  { intros s tr1 Hg. destruct (tcp_ok_new h tr s tr1) as [? ?]; [done| |].
    { intros w. left. by apply socket_active. }
    split_and!; [by eapply inv_frame, socket_frontend|done|done|].
    eapply grows_mono; [|exact Hg]. intros c Hc. apply Hc. }
  destruct Hacc as [tr1 n Hg _|tr1 sd Hg _ _|tr1 tr2 sd flags Hg _ _ -> _ _|tr1 tr2 sd flags ctx d' tr3 Hg _ _ -> _ _ E];
    apply malloc_socket in Hg.
  - assert (Hg' : grows socket_call tr (tr1 ++ [Malloc n])) by (etrans; [exact Hg|by apply grows_one]).
    destruct (Hquiet (session_of l 0 None) _ Hg') as (? & _ & _ & ?). split_and!; [done| | |done].
    + eapply tcp_ok_grows; [done|]. by apply socket_frontend.
    + intros w l'. split; [done|]. intros _. by apply socket_active.
  - apply Hquiet. etrans; [exact Hg|by apply grows_one].
  - apply Hquiet. etrans; [exact Hg|]. socket_grows.
  - set (tr2 := (_ ++ _) ++ _) in E. assert (Hg2 : grows socket_call tr tr2).
    { etrans; [exact Hg|]. unfold tr2. socket_grows. }
    apply (wp_elim _ _ _ _ _ (Hpre sd tr2 Hg2)) in E as (Hinv' & Hg3 & c & -> & Hc).
    destruct (tcp_ok_new h tr (session_of l sd (Some c)) (tr3 ++ [EvStart TcpEv h.(next_object)])) as [? ?]; [done| |].
    { intros w. rewrite active_start.
      rewrite (no_ev_active TcpEv w tr2 tr3), (socket_active TcpEv w tr tr2) by done.
      case_bool_decide as Hw; [right|by left]. split; [done|]. split; [done|]. by exists c. }
    split_and!; [eapply inv_frame; [done|by apply grows_one]|done|done|].
    etrans; [eapply grows_mono; [|exact Hg2]; intros c' Hc'; apply Hc'|].
    etrans; [eapply grows_mono; [|exact Hg3]; intros c' Hc'; apply Hc'|by apply grows_one].
Qed.

Lemma recv_event_spec w s revents h d tr :
  inv d tr -> tcp_ok h tr -> session_ok s -> h.(objects) !! w = Some (RecvWatcher (Some s)) ->
  benign_tcp w h d tr ->
  wp (tcpsession_recv_callback w (Some s) revents h d) (fun '(h', d') tr' =>
    inv d' tr' /\ tcp_ok h' tr' /\ listeners_kept h tr h' tr' /\ grows (no_ev UdpEv) tr tr') tr.
Proof.
  intros Hinv Hok [(f & Hf & Hrecv) (c & Hctx & Hc)] Hw Hben. destruct (ev_error revents) eqn:Hev.
  { unfold tcpsession_recv_callback. rewrite Hev. by apply wp_ret. }
  pose proof (recv_law _ _ _ _ Hinv Hc (Hben _ _ Hw Hctx)) as Hlaw. rewrite <- Hctx in Hlaw.
  apply wp_inv in Hlaw as ([[r ctx] d'] & tr1 & E & Hinv' & Hg & Hr).
  unfold wp. rewrite (recv_callback_eq w s f revents r ctx d' h d tr tr1) by done.
  destruct Hok as [Hwf Hact].
  assert (Hg1 : grows (no_ev UdpEv) tr tr1).
  { eapply grows_mono; [|exact Hg]. intros c' Hc'. apply Hc'. }
  destruct (Z.eqb_spec r 0) as [Hz|Hnz].
  - destruct (Hr Hz) as (c' & -> & Hc'). split_and!; [done| | |done].
    + split; [apply heap_wf_set; [done|by eapply Hwf]|]. intros w' Ha.
      rewrite (no_ev_active TcpEv w' tr tr1) in Ha by done. cbn.
      destruct (decide (w = w')) as [<-|Hne]; [|rewrite lookup_insert_ne by done; auto].
      rewrite lookup_insert_eq. eexists. split; [done|]. split; [by exists f|by exists c'].
    + intros w' l. rewrite (no_ev_active TcpEv w' tr tr1) by done. split; [|done]. cbn.
      destruct (decide (w = w')) as [<-|Hne]; [|by rewrite lookup_insert_ne].
      rewrite lookup_insert_eq, Hw. by split; intros [=].
  - set (tr' := tr1 ++ _).
    assert (Hclose : exists tr2, tr' = tr2 ++ [EvStop TcpEv w] /\ grows socket_call tr1 tr2).
    { unfold tr'. destruct (0 <? session_sd s); cbn.
      - exists (tr1 ++ [Close (session_sd s)]). rewrite <- app_assoc. split; [done|by apply grows_one].
      - by exists tr1. }
    destruct Hclose as (tr2 & -> & Hg2).
    assert (Hact' : forall w', active TcpEv w' (tr2 ++ [EvStop TcpEv w]) =
      negb (bool_decide (w = w')) && active TcpEv w' tr).
    { intros w'. rewrite active_stop, (socket_active TcpEv w' tr1 tr2), (no_ev_active TcpEv w' tr tr1) by done.
      done. }
    split_and!.
    + eapply inv_frame; [exact Hinv'|]. etrans; [by apply socket_frontend|by apply grows_one].
    + split; [by apply heap_wf_free|]. intros w'. rewrite Hact'. cbn. case_bool_decide as Hne; [done|].
      intros Ha. rewrite lookup_delete_ne by done. auto.
    + intros w' l. rewrite Hact'. cbn. destruct (decide (w = w')) as [<-|Hne].
      * rewrite lookup_delete_eq, Hw. by split; [split; intros [=]|intros [=]].
      * by rewrite lookup_delete_ne, bool_decide_false by done.
    + etrans; [exact Hg1|]. etrans; [eapply grows_mono; [|exact Hg2]; intros c' Hc'; apply Hc'|].
      by apply grows_one.
Qed.

Lemma tcp_event_ok w revents h d tr :
  inv d tr -> tcp_ok h tr -> active TcpEv w tr = true -> benign_tcp w h d tr ->
  wp (tcp_event w revents h d) (fun '(h', d') tr' =>
    inv d' tr' /\ tcp_ok h' tr' /\ listeners_kept h tr h' tr' /\ grows (no_ev UdpEv) tr tr') tr.
Proof.
  intros Hinv Hok Ha Hben. destruct (tk_active _ _ Hok w Ha) as (x & Hx & Hxok). unfold tcp_event.
  rewrite Hx. apply wp_bind, wp_ret.
  destruct x as [l|[s|]]; [by apply accept_event_spec|by apply recv_event_spec|done].
Qed.
End invariant.

(** ** Binding and destroying *)

Section binding.
Context `{OSLaws, !Plenty} {P D C : Type}.
Implicit Types (h : tcp_heap P D C) (server : tcpserver_t P) (tr : trace).

(** A listener of [server] with the given callbacks. *)
Definition listener_of server (cb_conn : conn_callback P D C) (cb_recv : recv_callback P D C)
    (x : tcp_watcher P D C) : Prop :=
  exists sd, 0 <= sd /\ x = AcceptWatcher (TcpListener sd server.(server_data) cb_conn (Some cb_recv)).

(** The calls that make a listener, and what is made. *)
Definition listener_calls (p : addrinfo) tr : list call :=
  let tr1 := tr ++ [Malloc sizeof_tcplistener] in
  Malloc sizeof_tcplistener :: socket_calls p tr1 ++ [Listen (socket_of p tr1); Malloc sizeof_ev_io].

Definition made_listener server (cb_conn : conn_callback P D C) (cb_recv : recv_callback P D C)
    (p : addrinfo) tr : tcp_watcher P D C :=
  AcceptWatcher (TcpListener (socket_of p (tr ++ [Malloc sizeof_tcplistener])) server.(server_data)
    cb_conn (Some cb_recv)).

Lemma tcplistener_create_spec server cb_conn cb_recv p h tr :
  wp (tcplistener_create server cb_conn cb_recv p h) (fun '(r, h') tr' => exists l, tr' = tr ++ l /\
    l `prefix_of` listener_calls p tr /\ Forall socket_call l /\
    match r with
    | Some w => w = h.(next_object) /\ h' = heap_new (made_listener server cb_conn cb_recv p tr) h /\
        listener_of server cb_conn cb_recv (made_listener server cb_conn cb_recv p tr) /\
        l = listener_calls p tr /\ all_accepted tr l = true
    | None => h' = h /\ all_accepted tr l = false
    end) tr.
Proof.
  unfold tcplistener_create. apply wp_bind, wp_malloc_plenty; [done|]. intros c _.
  apply wp_bind, wp_ret, wp_bind. eapply wp_mono; [apply bind_socket_spec|].
  set (tr1 := tr ++ [Malloc sizeof_tcplistener]).
  intros [sd|] tr2 (l & -> & Hl & Hr).
  - destruct Hr as (-> & Hsd & -> & Hacc). apply wp_bind, (wp_sys (Listen (socket_of p tr1))).
    destruct (os _ (Listen (socket_of p tr1)) =? 0) eqn:Hlis; cbn [negb].
    + apply wp_bind, wp_malloc_plenty; [done|]. intros c1 _.
      apply wp_bind, wp_ret, wp_ret. exists (listener_calls p tr). split_and!; try done.
      * unfold listener_calls, tr1. cbn zeta. by rewrite <- !app_assoc.
      * by repeat constructor.
      * by eexists.
      * unfold listener_calls. fold tr1. cbn [all_accepted accepts andb]. fold tr1.
        rewrite all_accepted_app, Hacc. cbn [all_accepted accepts andb]. by rewrite Hlis.
    + apply wp_ret. exists (Malloc sizeof_tcplistener :: socket_calls p tr1 ++ [Listen (socket_of p tr1)]).
      split_and!; [unfold tr1; by rewrite <- !app_assoc| | |done|].
      * apply prefix_cons, prefix_app. by eexists.
      * by repeat constructor.
      * cbn [all_accepted accepts andb]. fold tr1. rewrite all_accepted_app, Hacc.
        cbn [all_accepted accepts andb]. by rewrite Hlis.
  - apply wp_ret. exists (Malloc sizeof_tcplistener :: l). split_and!; [unfold tr1; by rewrite <- app_assoc| | |done|done].
    + apply prefix_cons. etrans; [exact Hl|by eexists].
    + constructor; [done|]. by eapply Forall_prefix, socket_calls_quiet.
Qed.

Lemma tcpserver_bind_spec server address cb_conn cb_recv h tr :
  heap_wf h ->
  wp (tcpserver_bind server address cb_conn cb_recv h) (fun '(r, server', h') tr' =>
    server'.(server_data) = server.(server_data) /\
    bound_address TcpEv MAX_TCP_HANDLERS (listener_of server cb_conn cb_recv) listener_calls
      (made_listener server cb_conn cb_recv) SOCK_STREAM address
      server.(listeners) h tr (r, server'.(listeners), h') tr') tr.
Proof.
  intros Hh. unfold tcpserver_bind. apply wp_bind.
  eapply wp_mono; [apply bind_address_spec; [|done]|].
  { intros p h1 tr1. by apply tcplistener_create_spec. }
  intros [[r ls] h'] tr' Hb. apply wp_ret. by split.
Qed.
End binding.

(** A server whose listeners are allocated. *)
Definition server_ok {P D C} (server : tcpserver_t P) (h : tcp_heap P D C) : Prop :=
  NoDup server.(listeners) /\
  Forall (fun w => exists l, h.(objects) !! w = Some (AcceptWatcher l)) server.(listeners).

Lemma server_ok_kept {P D C} (server : tcpserver_t P) (h h' : tcp_heap P D C) tr tr' :
  server_ok server h -> listeners_kept h tr h' tr' -> server_ok server h'.
Proof.
  intros [Hnd Hall] Hk. split; [done|]. eapply Forall_impl; [exact Hall|]. intros w [l Hl]. exists l.
  by apply (Hk w l).
Qed.

Lemma tcpserver_destroy_spec `{OS} {P D C} (server : tcpserver_t P) (h : tcp_heap P D C) tr :
  heap_wf h -> server_ok server h ->
  wp (tcpserver_destroy server h) (fun h' tr' => grows (file_call TcpEv) tr tr' /\ heap_wf h' /\
    (forall w, h'.(objects) !! w =
      if bool_decide (w ∈ server.(listeners)) then None else h.(objects) !! w) /\
    (forall w, active TcpEv w tr' =
      negb (bool_decide (w ∈ server.(listeners))) && active TcpEv w tr)) tr.
Proof.
  intros Hwf [Hnd Hall]. unfold tcpserver_destroy. eapply wp_mono; [apply destroy_loop_spec; [done|done|]|].
  { eapply Forall_impl; [exact Hall|]. intros w [l Hl]. by exists (AcceptWatcher l). }
  intros h' tr' (? & ? & _ & ? & ?). by split_and!.
Qed.

Section theorems.
Context `{OSLaws} {P D C : Type}.
Implicit Types (h : tcp_heap P D C) (d : D) (w : nat) (s : tcpsession_t P D C)
  (l : tcplistener_t P D C) (server : tcpserver_t P) (tr : trace).

(** C21. tcpserver.c, safety: whatever watcher libev reports, its owner is still
    allocated, and the handler keeps it so: no event reaches a session or a listener
    that was freed, although sessions end inside their own callback.  Proved against
    the interface of the callbacks; listeners are left alone by every event. *)
Theorem tcp_event_safe (inv : D -> trace -> Prop) (ctx_ok : Z -> P -> C -> Prop) benign
    w revents h d tr :
  FrontendInv inv -> inv d tr -> tcp_ok inv ctx_ok benign h tr -> active TcpEv w tr = true ->
  benign_tcp benign w h d tr ->
  wp (tcp_event w revents h d) (fun '(h', d') tr' =>
    inv d' tr' /\ tcp_ok inv ctx_ok benign h' tr' /\ listeners_kept h tr h' tr') tr.
Proof.
  intros Hf Hinv Hok Ha Hben. eapply wp_mono; [by eapply tcp_event_ok|].
  intros [h' d'] tr' (? & ? & ? & _). by split_and!.
Qed.

(** C22. tcpserver.c, every end of accepting a connection: nothing is done when libev
    reports an error; an allocation fails, and accept is not called; accept or fcntl fail, and the new session stays allocated, with the
    descriptor open and nothing that would ever free them; or the session has the
    context that the callback returned, even NULL, and its watcher is started. *)
Theorem tcp_accept_ends l revents h d tr :
  (forall sd tr', 0 <= sd -> grows socket_call tr tr' ->
    is_Some (l.(listener_cb_conn) sd l.(listener_data) d tr')) ->
  wp (tcplistener_accept_callback l revents h d) (accept_result l revents h d tr) tr.
Proof. apply accept_spec. Qed.

(** tcpserver.c, a readable session: the callback gets the descriptor, the data and the
    context; when it returns 0 the session goes on with its new context, otherwise the
    descriptor is closed - unless it is 0 -, the watcher stopped and the session
    freed, in this order. *)
Theorem tcp_recv_ends w s cb_recv revents r ctx d' h d tr tr1 :
  ev_error revents = false -> s.(session_cb_recv) = Some cb_recv ->
  cb_recv s.(session_sd) s.(session_data) d s.(session_ctx) tr = Some (r, ctx, d', tr1) ->
  tcpsession_recv_callback w (Some s) revents h d tr =
    Some (if r =? 0 then
      (heap_set w (RecvWatcher (Some (TcpSession s.(session_sd) s.(session_data) (Some cb_recv) ctx))) h,
       d', tr1)
    else
      (heap_free w h, d',
       tr1 ++ (if 0 <? s.(session_sd) then [Close s.(session_sd)] else []) ++ [EvStop TcpEv w])).
Proof. apply recv_callback_eq. Qed.

(** C23. tcpserver.c, binding: the address is split at its last colon; each of its
    addresses is attempted, in order: when every call that sets up its socket is
    accepted it gets a listener with the descriptor, the server's data and the
    callbacks, started in libev, and when one is refused the next address is tried; the
    result is 1 exactly when the address could not be looked up or 32 listeners exist
    before the last address.  Nothing else in the heap changes. *)
Theorem tcpserver_bind_listens `{!Plenty} server address (cb_conn : conn_callback P D C) cb_recv h tr :
  heap_wf h ->
  wp (tcpserver_bind server address cb_conn cb_recv h) (fun '(r, server', h') tr' =>
    server'.(server_data) = server.(server_data) /\
    bound_address TcpEv MAX_TCP_HANDLERS (listener_of server cb_conn cb_recv) listener_calls
      (made_listener server cb_conn cb_recv) SOCK_STREAM address
      server.(listeners) h tr (r, server'.(listeners), h') tr') tr.
Proof. apply tcpserver_bind_spec. Qed.

(** tcpserver.c, destroying a server: each listener is stopped and freed exactly once,
    and that is all: the sessions stay, watched and with their data pointer. *)
Theorem tcpserver_destroy_stops server h tr :
  heap_wf h -> server_ok server h ->
  wp (tcpserver_destroy server h) (fun h' tr' => grows (file_call TcpEv) tr tr' /\ heap_wf h' /\
    (forall w, h'.(objects) !! w =
      if bool_decide (w ∈ server.(listeners)) then None else h.(objects) !! w) /\
    (forall w, active TcpEv w tr' =
      negb (bool_decide (w ∈ server.(listeners))) && active TcpEv w tr)) tr.
Proof. apply tcpserver_destroy_spec. Qed.
End theorems.

(** ** Examples: an owner that counts its connections *)

Definition count_conn : conn_callback unit nat unit := fun _ _ d => mret (Some tt, S d).

(** It ends a session when there are more than two. *)
Definition count_recv : recv_callback unit nat unit := fun _ _ d ctx =>
  mret (if (2 <? d)%nat then (1, ctx, pred d) else (0, ctx, d)).

Definition count_listener (sd : Z) : tcplistener_t unit nat unit :=
  TcpListener sd tt count_conn (Some count_recv).

Definition count_heap : tcp_heap unit nat unit :=
  EvHeap (<[1%nat := RecvWatcher (Some (TcpSession 7 tt (Some count_recv) (Some tt)))]>
    (<[0%nat := AcceptWatcher (count_listener 3)]> ∅)) 2.

Definition count_trace : trace := [EvStart TcpEv 0; EvStart TcpEv 1].

Lemma count_laws :
  FrontendInv (fun (_ : nat) (_ : trace) => True) /\
  ConnLaw (fun _ _ => True) (fun _ _ _ => True) tt count_conn /\
  RecvLaw (fun _ _ => True) (fun _ _ _ => True) (fun _ _ _ _ _ => True) tt count_recv.
Proof.
  split; [done|split].
  - intros sd d tr _. split; [done|]. split; [done|]. by exists tt.
  - intros sd c d tr _ _ _. unfold count_recv. destruct (2 <? d)%nat; apply wp_ret; (split; [done|split; [done|]]);
      [done|by exists c].
Qed.

Lemma count_ok : tcp_ok (fun (_ : nat) (_ : trace) => True) (fun _ _ _ => True)
  (fun _ _ _ _ _ => True) count_heap count_trace.
Proof.
  destruct count_laws as (_ & Hc & Hr). split.
  - intros w x. cbn. intros [[<- _]|[_ [[<- _]|[_ Hx]]%lookup_insert_Some]]%lookup_insert_Some; [lia..|done].
  - intros [|[|w]] Hw; [| |done]; (eexists; split; [reflexivity|]).
    + split; [done|by exists count_recv].
    + split; [by exists count_recv|by exists tt].
Qed.

Lemma tcp_event_safe_witness :
  @wp _ (@tcp_event quiet_os unit nat unit 1 EV_READ count_heap 5%nat)
    (fun '(h', _) tr' => tcp_ok (fun _ _ => True) (fun _ _ _ => True) (fun _ _ _ _ _ => True) h' tr')
    count_trace.
Proof.
  eapply wp_mono; [apply (@tcp_event_safe quiet_os quiet_laws unit nat unit (fun _ _ => True)
    (fun _ _ _ => True) (fun _ _ _ _ _ => True)); [apply count_laws|done|exact count_ok|reflexivity|done]|].
  by intros [h' d'] tr' (_ & ? & _).
Defined.

Lemma tcp_accept_ends_witness :
  @wp _ (@tcplistener_accept_callback quiet_os unit nat unit (count_listener 3) EV_READ count_heap 0%nat)
    (@accepted quiet_os unit nat unit (count_listener 3) count_heap 0%nat count_trace) count_trace.
Proof.
  apply (@tcp_accept_ends quiet_os quiet_laws unit nat unit (count_listener 3) EV_READ).
  intros sd tr' _ _. by eexists.
Defined.

Lemma tcp_recv_ends_witness :
  @tcpsession_recv_callback quiet_os unit nat unit 1 (Some (TcpSession 7 tt (Some count_recv) (Some tt)))
    EV_READ count_heap 5%nat count_trace =
  Some (heap_free 1%nat count_heap, 4%nat, count_trace ++ [Close 7; EvStop TcpEv 1]).
Proof.
  exact (@tcp_recv_ends quiet_os unit nat unit 1 (TcpSession 7 tt (Some count_recv) (Some tt)) count_recv
    EV_READ 1 (Some tt) 4%nat count_heap 5%nat count_trace count_trace eq_refl eq_refl eq_refl).
Defined.

Lemma tcpserver_bind_listens_witness :
  @wp _ (@tcpserver_bind quiet_os unit nat unit (TcpServer [] tt) (lit "[::1]:8125") count_conn count_recv
    empty_heap) (fun '(r, server', h') tr' => (length server'.(listeners) <= 32)%nat) [].
Proof.
  eapply wp_mono; [apply (@tcpserver_bind_listens quiet_os quiet_laws unit nat unit quiet_plenty); done|].
  intros [[r server'] h'] tr' (_ & _ & ws & _ & _ & Hmax & _). specialize (Hmax ltac:(done)).
  unfold len, MAX_TCP_HANDLERS in Hmax. lia.
Defined.

Lemma tcpserver_destroy_stops_witness :
  @wp _ (@tcpserver_destroy quiet_os unit nat unit (TcpServer [0%nat] tt) count_heap)
    (fun h' tr' => h'.(objects) !! 0%nat = None /\ active TcpEv 1 tr' = true) count_trace.
Proof.
  eapply wp_mono; [apply (@tcpserver_destroy_stops quiet_os)|].
  - apply (tk_wf _ _ _ _ _ count_ok).
  - split; [apply NoDup_singleton|]. apply Forall_singleton. by eexists.
  - intros h' tr' (_ & _ & Hobj & Hact). rewrite Hobj, Hact. by split.
Defined.
