(* ===== verification/Udpserver.v ===== *)
(** * udpserver.c: UDP listeners under libev

    A listener passes every readable event of its socket to a callback, whose
    result it ignores.  [P] is the [data] pointer of the owner of the callback and
    [D] its state; [DatagramLaw] is what the callback must promise. *)
From S2P Require Import Prelude Sys Listener.

(** ** Data *)

Definition MAX_UDP_HANDLERS : Z := 32.
Definition sizeof_udpserver : Z := 288.
Definition sizeof_udplistener : Z := 40.

Definition udp_callback (P D : Type) : Type := Z -> P -> D -> M (Z * D).

Record udplistener_t (P D : Type) := UdpListener {
  listener_sd : Z;
  listener_data : P;
  listener_cb_recv : udp_callback P D;
}.
Arguments UdpListener {P D}.
Arguments listener_sd {P D}.
Arguments listener_data {P D}.
Arguments listener_cb_recv {P D}.

(** [listeners_len] is the length of [listeners]. *)
Record udpserver_t (P : Type) := UdpServer {
  listeners : list nat;
  server_data : P;
}.
Arguments UdpServer {P}.
Arguments listeners {P}.
Arguments server_data {P}.

(** The watchers, with what their [data] points to. *)
Abbreviation udp_heap P D := (ev_heap (udplistener_t P D)).

(** ** The code *)

Section code.
Context `{OS} {P D : Type}.
Implicit Types (h : udp_heap P D) (d : D) (w : nat).

Definition udpserver_create (data : P) : M (udpserver_t P) :=
  server ← malloc sizeof_udpserver;
  _ ← defined server;
  mret (UdpServer [] data).

Definition udplistener_recv_callback (listener : udplistener_t P D) (revents : Z) d : M D :=
  if negb (Z.land revents EV_ERROR =? 0) then mret d else
  '(_, d) ← listener.(listener_cb_recv) listener.(listener_sd) listener.(listener_data) d;
  mret d.

(** libev calls the callback of a watcher. *)
Definition udp_event w (revents : Z) h d : M D :=
  listener ← defined (h.(objects) !! w);
  udplistener_recv_callback listener revents d.

Definition udplistener_create (server : udpserver_t P) (cb_recv : udp_callback P D)
    (addr : addrinfo) h : M (option nat * udp_heap P D) :=
  listener ← malloc sizeof_udplistener;
  _ ← defined listener;
  sd ← bind_socket addr;
  match sd with
  | None => mret (None, h)
  | Some sd =>
      watcher ← malloc sizeof_ev_io;
      _ ← defined watcher;
      mret (Some h.(next_object), heap_new (UdpListener sd server.(server_data) cb_recv) h)
  end.

Definition udpserver_bind (server : udpserver_t P) (address_and_port : bytes)
    (cb_recv : udp_callback P D) h : M (Z * udpserver_t P * udp_heap P D) :=
  '(r, ls, h) ← bind_address UdpEv MAX_UDP_HANDLERS (udplistener_create server cb_recv)
    SOCK_DGRAM address_and_port server.(listeners) h;
  mret (r, UdpServer ls server.(server_data), h).

Definition udpserver_destroy (server : udpserver_t P) h : M (udp_heap P D) :=
  destroy_loop UdpEv server.(listeners) h.
End code.

(** ** What the callback promises *)

Class DatagramLaw {P D} (inv : D -> trace -> Prop) (benign : Z -> P -> D -> trace -> Prop) (p : P)
    (f : udp_callback P D) : Prop :=
  datagram_law : forall sd d tr, inv d tr -> benign sd p d tr ->
    wp (f sd p d) (fun '(_, d') tr' => inv d' tr' /\ grows no_ev_call tr tr') tr.

(** ** The invariant *)

Section invariant.
Context `{OSLaws} {P D : Type}.
Context (inv : D -> trace -> Prop) (benign : Z -> P -> D -> trace -> Prop).
Implicit Types (h : udp_heap P D) (d : D) (w : nat) (l : udplistener_t P D) (tr : trace).

Definition listener_ok l : Prop :=
  DatagramLaw inv benign l.(listener_data) l.(listener_cb_recv).

(** Every watcher that libev may report is allocated and in order. *)
Record udp_ok h tr : Prop := {
  uk_wf : heap_wf h;
  uk_active : forall w, active UdpEv w tr = true ->
    exists l, h.(objects) !! w = Some l /\ listener_ok l;
}.

Definition benign_udp w h d tr : Prop :=
  forall l, h.(objects) !! w = Some l -> benign l.(listener_sd) l.(listener_data) d tr.

Lemma udp_ok_grows h tr tr' : udp_ok h tr -> grows (no_ev UdpEv) tr tr' -> udp_ok h tr'.
Proof.
  intros [Hwf Hact] Hg. split; [done|]. intros w. rewrite (active_grows UdpEv w tr tr') by done. apply Hact.
Qed.

Lemma udp_event_spec w revents h d tr :
  inv d tr -> udp_ok h tr -> active UdpEv w tr = true -> benign_udp w h d tr ->
  wp (udp_event w revents h d) (fun d' tr' => inv d' tr' /\ grows no_ev_call tr tr') tr.
Proof.
  intros Hinv Hok Ha Hben. destruct (uk_active _ _ Hok w Ha) as (l & Hl & Hlaw).
  unfold udp_event, udplistener_recv_callback. rewrite Hl. apply wp_bind, wp_ret.
  destruct (negb _); [by apply wp_ret|]. apply wp_bind. eapply wp_mono; [by apply Hlaw, Hben|].
  intros [r d'] tr' Hd. by apply wp_ret.
Qed.
End invariant.

Section binding.
Context `{OSLaws, !Plenty} {P D : Type}.
Implicit Types (h : udp_heap P D) (server : udpserver_t P) (tr : trace).

(** A listener of [server] with the given callback. *)
Definition listener_of server (cb_recv : udp_callback P D) (l : udplistener_t P D) : Prop :=
  exists sd, 0 <= sd /\ l = UdpListener sd server.(server_data) cb_recv.

(** The calls that make a listener, and what is made. *)
Definition listener_calls (p : addrinfo) tr : list call :=
  Malloc sizeof_udplistener :: socket_calls p (tr ++ [Malloc sizeof_udplistener]) ++ [Malloc sizeof_ev_io].

Definition made_listener server (cb_recv : udp_callback P D) (p : addrinfo) tr : udplistener_t P D :=
  UdpListener (socket_of p (tr ++ [Malloc sizeof_udplistener])) server.(server_data) cb_recv.

Lemma udplistener_create_spec server cb_recv p h tr :
  wp (udplistener_create server cb_recv p h) (fun '(r, h') tr' => exists l, tr' = tr ++ l /\
    l `prefix_of` listener_calls p tr /\ Forall socket_call l /\
    match r with
    | Some w => w = h.(next_object) /\ h' = heap_new (made_listener server cb_recv p tr) h /\
        listener_of server cb_recv (made_listener server cb_recv p tr) /\
        l = listener_calls p tr /\ all_accepted tr l = true
    | None => h' = h /\ all_accepted tr l = false
    end) tr.
Proof.
  unfold udplistener_create. apply wp_bind, wp_malloc_plenty; [done|]. intros c _.
  apply wp_bind, wp_ret, wp_bind. eapply wp_mono; [apply bind_socket_spec|].
  intros [sd|] tr2 (l & -> & Hl & Hr).
  - destruct Hr as (-> & Hsd & -> & Hacc). apply wp_bind, wp_malloc_plenty; [done|]. intros c1 _.
    apply wp_bind, wp_ret, wp_ret. exists (listener_calls p tr). split_and!; try done.
    + unfold listener_calls. by rewrite <- !app_assoc.
    + by repeat constructor.
    + by eexists.
  - apply wp_ret. exists (Malloc sizeof_udplistener :: l). split_and!; [by rewrite <- app_assoc| | |done|done].
    + apply prefix_cons. etrans; [exact Hl|by eexists].
    + constructor; [done|]. by eapply Forall_prefix, socket_calls_quiet.
Qed.

Lemma udpserver_bind_spec server address cb_recv h tr :
  heap_wf h ->
  wp (udpserver_bind server address cb_recv h) (fun '(r, server', h') tr' =>
    server'.(server_data) = server.(server_data) /\
    bound_address UdpEv MAX_UDP_HANDLERS (listener_of server cb_recv) listener_calls
      (made_listener server cb_recv) SOCK_DGRAM address
      server.(listeners) h tr (r, server'.(listeners), h') tr') tr.
Proof.
  intros Hh. unfold udpserver_bind. apply wp_bind.
  eapply wp_mono; [apply bind_address_spec; [|done]|].
  { intros p h1 tr1. by apply udplistener_create_spec. }
  intros [[r ls] h'] tr' Hb. apply wp_ret. by split.
Qed.
End binding.

(** A server whose listeners are allocated. *)
Definition server_ok {P D} (server : udpserver_t P) (h : udp_heap P D) : Prop :=
  NoDup server.(listeners) /\ Forall (fun w => is_Some (h.(objects) !! w)) server.(listeners).

Section theorems.
Context `{OSLaws} {P D : Type}.
Implicit Types (h : udp_heap P D) (d : D) (w : nat) (server : udpserver_t P) (tr : trace).

(** C24. udpserver.c: binding an address and destroying the server again.  Binding makes a
    started listener, with the callback and the data, for each address of the
    host whose socket can be set up, up to 32 (for each one, when every socket opens);
    destroying what binding has left stops and frees exactly those, so that no
    watcher of the server is left and every other one is as before. *)
Theorem udpserver_bind_destroy `{!Plenty} server address (cb_recv : udp_callback P D) h tr :
  heap_wf h -> server_ok server h ->
  wp ('(r, server', h1) ← udpserver_bind server address cb_recv h;
      h2 ← udpserver_destroy server' h1;
      mret (r, server', h1, h2)) (fun '(r, server', h1, h2) tr' => exists tr1,
    bound_address UdpEv MAX_UDP_HANDLERS (listener_of server cb_recv) listener_calls
      (made_listener server cb_recv) SOCK_DGRAM address
      server.(listeners) h tr (r, server'.(listeners), h1) tr1 /\
    grows (file_call UdpEv) tr1 tr' /\
    (forall w, h2.(objects) !! w =
      if bool_decide (w ∈ server.(listeners)) then None else h.(objects) !! w) /\
    (forall w, active UdpEv w tr' =
      negb (bool_decide (w ∈ server'.(listeners))) && active UdpEv w tr)) tr.
Proof.
  intros Hwf [Hnd Hall]. apply wp_bind. eapply wp_mono; [by apply udpserver_bind_spec|].
  intros [[r server'] h1] tr1 [_ Hb]. pose proof Hb as (_ & ws & Hls & Hgrown & _ & Hact1 & _).
  rewrite Forall_forall in Hall. destruct Hgrown as [Hwf1 Hold Hnew Honly Hndw _].
  pose proof Hnew as Hnew'. rewrite Forall_forall in Hnew'.
  apply wp_bind. eapply wp_mono; [apply destroy_loop_spec; [done| |]|].
  - rewrite Hls. apply NoDup_app. split_and!; [done| |done]. intros w Hw1 Hw2.
    destruct (Hall w Hw1) as [x Hx]. specialize (Hwf _ _ Hx). destruct (Hnew' w Hw2). lia.
  - rewrite Hls. apply Forall_forall. intros w [Hw|Hw]%elem_of_app.
    + destruct (Hall w Hw) as [x Hx]. rewrite Hold by (by eapply Hwf). by exists x.
    + destruct (Hnew' w Hw) as (_ & x & Hx & _). by exists x.
  - intros h2 tr' (Hg & Hwf2 & _ & Hobj & Hact). apply wp_ret. exists tr1. split_and!; [done|done| |].
    + intros w. rewrite Hobj, Hls. destruct (decide (w ∈ server.(listeners))) as [Hw|Hw].
      * rewrite (bool_decide_true (w ∈ server.(listeners))) by done.
        rewrite bool_decide_true; [done|]. apply elem_of_app. by left.
      * rewrite (bool_decide_false (w ∈ server.(listeners))) by done. case_bool_decide as Hw'.
        -- apply elem_of_app in Hw' as [?|Hw']; [done|]. destruct (Hnew' w Hw') as [? _].
           by rewrite heap_fresh by (done || lia).
        -- destruct (decide (w < h.(next_object))%nat); [by apply Hold|].
           rewrite (heap_fresh h) by (done || lia). destruct (h1.(objects) !! w) eqn:E; [|done].
           exfalso. apply Hw', elem_of_app. right. apply Honly; [lia|by eexists].
    + intros w. rewrite Hact, Hact1, Hls.
      destruct (decide (w ∈ ws)); [|by rewrite (bool_decide_false (w ∈ ws))].
      by rewrite (bool_decide_true (w ∈ server.(listeners) ++ ws)) by (apply elem_of_app; by right).
Qed.

(** udpserver.c, safety: a watcher that libev reports has its listener still
    allocated, whose callback is run, and the event changes no listener.  Proved against
    the interface of the callback. *)
Theorem udp_event_safe (inv : D -> trace -> Prop) benign w revents h d tr :
  inv d tr -> udp_ok inv benign h tr -> active UdpEv w tr = true -> benign_udp benign w h d tr ->
  wp (udp_event w revents h d) (fun d' tr' => inv d' tr' /\ udp_ok inv benign h tr') tr.
Proof.
  intros Hinv Hok Ha Hben. eapply wp_mono; [by apply (udp_event_spec inv benign)|]. intros d' tr' [Hd Hg].
  split; [done|]. eapply udp_ok_grows; [done|]. eapply grows_mono; [|exact Hg]. intros c Hc. apply Hc.
Qed.
End theorems.

(** ** Examples: an owner that counts its events *)

Definition count_recv : udp_callback unit nat := fun _ _ d => mret (0, S d).

Definition count_heap : udp_heap unit nat := heap_new (UdpListener 4 tt count_recv) empty_heap.

Lemma udpserver_bind_destroy_witness :
  @wp _ ('(r, server', h1) ← @udpserver_bind quiet_os unit nat (UdpServer [0%nat] tt) (lit ":8125")
           count_recv count_heap;
         h2 ← @udpserver_destroy quiet_os unit nat server' h1;
         mret (r, server', h1, h2)) (fun '(_, _, _, h2) tr' => h2.(objects) !! 0%nat = None) [].
Proof.
  eapply wp_mono; [apply (@udpserver_bind_destroy quiet_os quiet_laws unit nat quiet_plenty)|].
  - intros w x. cbn. intros [[<- _]|[_ Hx]]%lookup_insert_Some; [lia|done].
  - split; [apply NoDup_singleton|]. apply Forall_singleton. by eexists.
  - intros [[[r server'] h1] h2] tr' (tr1 & _ & _ & Hobj & _). by rewrite Hobj.
Defined.

Lemma udp_event_safe_witness :
  @wp _ (@udp_event unit nat 0 EV_READ count_heap 5%nat)
    (fun _ tr' => udp_ok (fun (_ : nat) _ => True) (fun _ (_ : unit) _ _ => True) count_heap tr')
    [EvStart UdpEv 0].
Proof.
  eapply wp_mono; [apply (@udp_event_safe unit nat (fun _ _ => True) (fun _ _ _ _ => True))|by intros d' tr' [_ ?]].
  - done.
  - split.
    + intros w x. cbn. intros [[<- _]|[_ Hx]]%lookup_insert_Some; [lia|done].
    + intros [|w] Hw; [|done]. eexists. split; [reflexivity|]. by intros sd d tr _ _.
  - reflexivity.
  - done.
Defined.
