(* ===== verification/Server.v ===== *)
(** * server.c: the carbon and the statsd server, and what libev calls

    A [struct server] has a stats server, TCP listeners and UDP listeners.  The memory
    they share is the record [world]: the live stats servers, by section of the
    configuration, and the watchers of the listeners and sessions.  [run_event] calls
    the handler of an event, for every watcher of the process. *)
From S2P Require Import Prelude Libc Sys Buffer SList Hashring Protocol Validate YamlConfig.
From S2P Require Import Tcpclient Backend Stats StatsCalls Listener.
From S2P Require Tcpserver Udpserver.
Import Tcpserver(tcp_heap, conn_callback, recv_callback, tcpserver_t).
Import Udpserver(udp_heap, udp_callback, udpserver_t).

#[export] Instance section_countable : Countable section.
Proof.
  refine (inj_countable' (fun sec => match sec with Carbon => true | Statsd => false end)
    (fun b : bool => if b then Carbon else Statsd) _). by intros [].
Defined.

(** ** Data *)

(** The stats servers that are allocated, with what they were created with.  A
    section has at most one, so that it stands for the pointer. *)
Abbreviation stats_heap := (gmap section (server_params * stats_server_t)).

(** [next_client]: the next address for a backend. *)
Record world := World {
  stats_of : stats_heap;
  next_client : nat;
  tcp : tcp_heap section stats_heap stats_session_t;
  udp : udp_heap section stats_heap;
}.

Definition set_stats x w := World x w.(next_client) w.(tcp) w.(udp).
Definition set_next_client x w := World w.(stats_of) x w.(tcp) w.(udp).
Definition set_tcp x w := World w.(stats_of) w.(next_client) x w.(udp).
Definition set_udp x w := World w.(stats_of) w.(next_client) w.(tcp) x.

(** [server] is the pointer to the stats server. *)
Record server_t := Server_t {
  enabled : bool;
  server : option section;
  ts : option (tcpserver_t section);
  us : option (udpserver_t section);
}.

Record server_collection := Collection {
  initialized : bool;
  config_file : option bytes;        (* None: NULL *)
  statsd_server : server_t;
  carbon_server : server_t;
}.

(** ** The callbacks of stats.c, with their pointers followed *)

Section code.
Context `{OS}.
Implicit Types (w : world) (d : stats_heap) (sec : section).

Definition stats_connection_cb : conn_callback section stats_heap stats_session_t := fun sd p d =>
  '(ps, s) ← defined (d !! p);
  '(session, s) ← stats_connection sd s;
  mret (session, <[p := (ps, s)]> d).

Definition stats_recv_cb : recv_callback section stats_heap stats_session_t := fun sd p d ctx =>
  session ← defined ctx;
  '(ps, s) ← defined (d !! p);
  '(r, session, s) ← stats_recv ps sd session s;
  mret (r, session, <[p := (ps, s)]> d).

Definition stats_udp_recv_cb : udp_callback section stats_heap := fun sd p d =>
  '(ps, s) ← defined (d !! p);
  '(r, s) ← stats_udp_recv ps sd s;
  mret (r, <[p := (ps, s)]> d).

(** ** The servers *)

Definition init_server : server_t := Server_t false None None None.

(** What the two servers are created with. *)
Definition params_of sec (config : proto_config) : server_params :=
  match sec with Carbon => carbon_params config | Statsd => statsd_params config end.

(** [sec] stands for the parser, the validator and the name. *)
Definition connect_server sec (config : proto_config) (srv : server_t) w : M (bool * server_t * world) :=
  ring ← defined config.(ring);
  if ring.(lsize) =? 0 then mret (false, srv, w) else
  let ps := params_of sec config in
  s ← stats_server_create w.(next_client) ps;
  let srv := Server_t true ((fun _ => sec) <$> s) srv.(ts) srv.(us) in
  match s with
  | None => mret (false, srv, w)
  | Some s =>
      let w := set_next_client s.(next) (set_stats (<[sec := (ps, s)]> w.(stats_of)) w) in
      ts ← Tcpserver.tcpserver_create sec;
      us ← Udpserver.udpserver_create sec;
      bind ← defined config.(bind);
      '(r, ts, h) ← Tcpserver.tcpserver_bind ts bind stats_connection_cb stats_recv_cb w.(tcp);
      let w := set_tcp h w in
      if negb (r =? 0) then mret (false, Server_t true srv.(server) (Some ts) (Some us), w) else
      '(r, us, h) ← Udpserver.udpserver_bind us bind stats_udp_recv_cb w.(udp);
      let w := set_udp h w in
      mret (r =? 0, Server_t true srv.(server) (Some ts) (Some us), w)
  end.

Definition destroy_server (srv : server_t) w : M world :=
  if negb srv.(enabled) then mret w else
  w ← (match srv.(ts) with
       | Some ts => h ← Tcpserver.tcpserver_destroy ts w.(tcp); mret (set_tcp h w)
       | None => mret w
       end);
  w ← (match srv.(us) with
       | Some us => h ← Udpserver.udpserver_destroy us w.(udp); mret (set_udp h w)
       | None => mret w
       end);
  match srv.(server) with
  | Some sec =>
      '(ps, s) ← defined (w.(stats_of) !! sec);
      _ ← stats_server_destroy ps.(sp_config) s;
      mret (set_stats (delete sec w.(stats_of)) w)
  | None => mret w
  end.

Definition init_server_collection (filename : bytes) : M server_collection :=
  config_file ← dup filename;
  mret (Collection true config_file init_server init_server).

Definition connect_server_collection (c : server_collection) (config : YamlConfig.config) w
    : M (bool * server_collection * world) :=
  '(r1, carbon, w) ← connect_server Carbon config.(carbon_config) c.(carbon_server) w;
  '(r2, statsd, w) ← connect_server Statsd config.(statsd_config) c.(statsd_server) w;
  mret (r1 || r2, Collection c.(initialized) c.(config_file) statsd carbon, w).

Definition destroy_server_collection (c : server_collection) w : M (server_collection * world) :=
  if c.(initialized) then
    w ← destroy_server c.(carbon_server) w;
    w ← destroy_server c.(statsd_server) w;
    mret (Collection false c.(config_file) c.(statsd_server) c.(carbon_server), w)
  else mret (c, w).

(** ** Events *)

Inductive event :=
  | BackendEvent (a : nat) (e : client_event)     (* a watcher of the client at [a] *)
  | TcpEvent (k : nat) (revents : Z)
  | UdpEvent (k : nat) (revents : Z).

(** The backend at [a], which belongs to one of the servers. *)
Definition find_client (a : nat) d : option (section * server_params * stats_server_t * stats_backend_t) :=
  let look sec :=
    '(ps, s) ← d !! sec; b ← s.(mem) !! a; Some (sec, ps, s, b) in
  match look Carbon with
  | Some x => Some x
  | None => look Statsd
  end.

Definition run_event (ev : event) w : M world :=
  match ev with
  | BackendEvent a e =>
      '(sec, ps, s, b) ← defined (find_client a w.(stats_of));
      '(c, k, _) ← Tcpclient.run_event b.(client) b.(stats) e;
      mret (set_stats (<[sec := (ps, set_mem (<[a := Backend c k]> s.(mem)) s)]> w.(stats_of)) w)
  | TcpEvent k revents =>
      '(h, d) ← Tcpserver.tcp_event k revents w.(tcp) w.(stats_of);
      mret (set_tcp h (set_stats d w))
  | UdpEvent k revents =>
      d ← Udpserver.udp_event k revents w.(udp) w.(stats_of);
      mret (set_stats d w)
  end.
End code.
