(* ===== verification/StatsLaws.v ===== *)
(** * stats.c behind the listeners

    The stats servers of the process, of which there may be two, as one state: every
    handler of stats.c and tcpclient.c keeps its own server in order and does not
    disturb the other one, whose backends live at other addresses.  This
    discharges what tcpserver.c and udpserver.c ask of their callbacks. *)
From S2P Require Import Prelude Libc Sys Buffer SList Hashring Protocol Validate YamlConfig.
From S2P Require Import Tcpclient Backend Stats StatsCalls Listener.
From S2P Require Tcpserver Udpserver.
From S2P Require Import Server.

(** The watcher of an event of the client at [a] is active. *)
Definition watched (a : nat) (e : client_event) (tr : trace) : bool :=
  let w := watchers a tr in
  match e with
  | ETimeout => w.(w_timer)
  | EConnected _ => w.(w_connect)
  | ERead _ => w.(w_read)
  | EWrite _ => w.(w_write)
  | EConnect | ESendall _ => false
  end.

(** ** One server *)

Record session_ok (sd : Z) (session : stats_session_t) : Prop := {
  sk_sd : session.(Stats.session_sd) = sd;
  sk_buffer : buffer_wf session.(session_buffer);
  sk_size : 0 < session.(session_buffer).(size);
}.

Section handlers.
Context `{OSLaws, !Plenty}.
Context (ps : server_params) (sep : char) (valid : bytes -> Prop).
Context `{!LineProtocol ps sep valid}.
Variables (base : nat) (xs : list nat).
Abbreviation cfg := (ps.(sp_config)).
Implicit Types (s : stats_server_t) (tr : trace) (b : stats_backend_t) (lines : list bytes).

(** The sent callback keeps the account. *)
Lemma counts_reported c k p :
  counts_ok (Backend c k) -> c.(callback_sent) = stats_sent -> reported c k p ->
  counts_ok (Backend p.1 p.2).
Proof.
  unfold counts_ok; cbn. intros Hc Hsent [[-> ->]|(n & Hn & -> & ->)]; [done|].
  rewrite Hsent. cbn.
  transitivity (wrap64 (wrap64 (k.(bytes_queued) - k.(bytes_sent)) - n)).
  - unfold wrap64. rewrite Zminus_mod_idemp_r, Zminus_mod_idemp_l. f_equal. lia.
  - rewrite Hc. pose proof (wrap64_range (k.(bytes_queued) - k.(bytes_sent))).
    rewrite wrap64_small by lia. lens.
Qed.

Lemma ranges_reported c k p :
  counters_ok k -> c.(callback_sent) = stats_sent -> reported c k p ->
  counters_ok p.2 /\ p.2.(key) = k.(key).
Proof.
  intros (? & ? & ? & ? & ? & ?) Hsent [[-> _]|(n & _ & -> & _)]; [by split_and!|].
  rewrite Hsent. split; [|done]. split_and!; try done. apply wrap64_range.
Qed.

Lemma backend_event_spec s a b e tr :
  running cfg base xs s tr -> s.(mem) !! a = Some b -> watched a e tr = true ->
  wp (Tcpclient.run_event b.(client) b.(stats) e) (fun '(c, k, _) tr' =>
    running cfg base xs (set_mem (<[a := Backend c k]> s.(mem)) s) tr' /\
    k.(key) = b.(stats).(key) /\ grows (only_about a) tr tr') tr.
Proof.
  intros Hrun Hb He. pose proof Hrun as [Hinv _ _ _].
  destruct (so_mem _ _ _ _ (si_store _ _ _ _ Hinv) a b Hb)
    as [_ [Hc Hself Hcfg [Hcb Hsent] Haddr Hcounts Hranges]].
  eapply wp_mono; [apply event_reported; [done..| |]|].
  { destruct e; cbn in *; by rewrite ?Hself. }
  { by destruct e. }
  intros [[c k] l] tr' (Hp & Hg & Hstat & Hr). rewrite Hself in Hg.
  destruct (ranges_reported _ _ _ Hranges Hsent Hr) as [Hk Hkey]. split; [|done].
  eapply running_update; try done. destruct b as [bc bk]. cbn in *.
  injection Hstat as Hs1 Hc1 Hh1 Hp1 Hpr1 Hcc Hcs Hcr Hce. destruct Hcb as (Hcb1 & Hcb2 & Hcb3).
  split; cbn in *; try congruence; try done.
  - apply Hp.
  - split; [split_and!|]; congruence.
  - exact (counts_reported _ _ _ Hcounts Hsent Hr).
Qed.

Lemma slots_update lines s a b b' :
  slots_of lines xs s -> s.(mem) !! a = Some b -> b'.(stats).(key) = b.(stats).(key) ->
  slots_of lines xs (set_mem (<[a := b']> s.(mem)) s).
Proof.
  intros Hs Hb Hk. eapply Forall2_impl; [exact Hs|]. intros line a1 (b1 & Hb1 & Hk1). cbn.
  destruct (decide (a = a1)) as [<-|Hne].
  - exists b'. rewrite lookup_insert_eq. split; [done|]. congruence.
  - exists b1. by rewrite lookup_insert_ne.
Qed.

Lemma slots_relayed lines line s r s' :
  relayed ps sep valid xs line s r s' -> slots_of lines xs s -> slots_of lines xs s'.
Proof. destruct 1; intros Hs; try done; by eapply slots_update. Qed.

Lemma slots_run lines status ls s r s' :
  lines_run ps sep valid xs status s ls r s' -> slots_of lines xs s -> slots_of lines xs s'.
Proof. induction 1; intros Hs; eauto using slots_relayed. Qed.
Lemma running_connections s x tr :
  running cfg base xs s tr -> running cfg base xs (set_connections (wrap64 x) s) tr.
Proof.
  intros [[Hba [Hmem Hf] ???? (? & ? & ? & ?)] ???]. split; try done.
  split; try done. split_and!; try done. apply wrap64_range.
Qed.

(** Memory suffices for a new connection. *)
Lemma connection_spec sd s tr :
  running cfg base xs s tr ->
  wp (stats_connection sd s) (fun '(session, s') tr' =>
    running cfg base xs s' tr' /\ s'.(mem) = s.(mem) /\
    exists c, session = Some c /\ session_ok sd c) tr.
Proof.
  intros Hrun. unfold stats_connection, buffer_init, buffer_allocate.
  apply wp_bind, wp_malloc_plenty; [done|]. intros ? _.
  apply wp_bind, wp_bind, wp_malloc_plenty; [done|]. intros c Hc. do 2 apply wp_ret.
  split; [|split; [done|]].
  - apply running_connections. eapply running_malloc; [done|]. etrans; by apply grows_one.
  - eexists. split; [done|]. split; cbn; [done|apply buffer_wf_intro; rewrite ?Hc; done|done].
Qed.

End handlers.

(** ** Frames *)

Lemma running_frame cfg base xs s tr tr' :
  running cfg base xs s tr ->
  (forall a, (base <= a < s.(next))%nat -> watchers a tr' = watchers a tr) ->
  running cfg base xs s tr'.
Proof.
  intros [[Hba [Hmem Hf] ?????] ???] Hw. split; try done. split; try done. split.
  - intros a b Hb. destruct (Hmem a b Hb) as [Ha Hok]. split; [done|].
    eapply backend_ok_grows; [done|auto].
  - intros a Ha Hn. rewrite Hw by done. by apply Hf.
Qed.

(** ** The two protocols *)

Definition sep_of (sec : section) : char := match sec with Carbon => SPACE | Statsd => COLON end.

Definition valid_of (sec : section) : bytes -> Prop :=
  match sec with
  | Carbon => fun line => occurrences SPACE line = 2%nat
  | Statsd => statsd_line
  end.

#[export] Instance protocol_of `{OS, !Plenty} sec cfg :
  LineProtocol (params_of sec cfg) (sep_of sec) (valid_of sec).
Proof. destruct sec; apply _. Qed.

(** ** The servers of the process *)

(** Which servers there are, the addresses of their backends, and the slots of
    their rings. *)
Record layout := Layout {
  up : section -> bool;
  first_client : section -> nat;
  last_client : section -> nat;
  slots : section -> list nat;
}.

(** The address belongs to the server of the section. *)
Definition owned (L : layout) (sec : section) (a : nat) : Prop :=
  L.(up) sec = true /\ (L.(first_client) sec <= a < L.(last_client) sec)%nat.

Section servers.
Context `{OSLaws, !Plenty}.
Variables (conf : section -> proto_config) (lines : section -> list bytes) (L : layout).
Implicit Types (d : stats_heap) (sec : section) (s : stats_server_t) (tr : trace) (ps : server_params).

Record server_state sec ps s tr : Prop := {
  ss_params : ps = params_of sec (conf sec);
  ss_running : running (conf sec) (L.(first_client) sec) (L.(slots) sec) s tr;
  ss_next : s.(next) = L.(last_client) sec;
  ss_slots : slots_of (lines sec) (L.(slots) sec) s;
}.

(** Every server is in order, and libev knows no client but theirs. *)
Record stats_inv d tr : Prop := {
  st_up : forall sec, is_Some (d !! sec) <-> L.(up) sec = true;
  st_server : forall sec ps s, d !! sec = Some (ps, s) -> server_state sec ps s tr;
  st_apart : forall sec sec' a, owned L sec a -> owned L sec' a -> sec = sec';
  st_idle : forall a, (forall sec, ~ owned L sec a) -> watchers a tr = idle;
}.

Lemma params_config sec cfg : (params_of sec cfg).(sp_config) = cfg.
Proof. by destruct sec. Qed.

Lemma stats_inv_frame d tr tr' :
  stats_inv d tr -> (forall a, watchers a tr' = watchers a tr) -> stats_inv d tr'.
Proof.
  intros [Hup Hs Hap Hid] Hw. split; [done| |done|].
  - intros sec ps s Hd. destruct (Hs sec ps s Hd) as [Hp Hr Hn Hsl]. split; [done| |done|done].
    eapply running_frame; [exact Hr|auto].
  - intros a Ha. rewrite Hw. by apply Hid.
Qed.

Lemma frontend_watchers a tr tr' : grows frontend_call tr tr' -> watchers a tr' = watchers a tr.
Proof. intros Hg. apply watchers_grows. eapply grows_mono; [|exact Hg]. by intros []. Qed.

#[export] Instance stats_frontend_inv : Tcpserver.FrontendInv stats_inv.
Proof. intros d tr tr' Hd Hg. eapply stats_inv_frame; [done|]. intros a. by apply frontend_watchers. Qed.

(** A server changes, by calls about its own backends. *)
Lemma stats_inv_update d tr sec ps s s' tr' :
  stats_inv d tr -> d !! sec = Some (ps, s) ->
  running (conf sec) (L.(first_client) sec) (L.(slots) sec) s' tr' -> s'.(next) = s.(next) ->
  slots_of (lines sec) (L.(slots) sec) s' ->
  grows (about_range (L.(first_client) sec) (L.(last_client) sec)) tr tr' ->
  stats_inv (<[sec := (ps, s')]> d) tr'.
Proof.
  intros [Hup Hs Hap Hid] Hd Hrun Hn Hsl Hg. pose proof (Hs _ _ _ Hd) as [Hps _ Hnext _].
  assert (Hsec : L.(up) sec = true) by (apply Hup; by eexists).
  assert (Hw : forall a, ~ owned L sec a -> watchers a tr' = watchers a tr).
  { intros a Ha. eapply range_watchers; [exact Hg|]. intros ?. by apply Ha. }
  split; [| |done|].
  - intros sec'. rewrite <- Hup, lookup_insert_is_Some'. split; [|by right].
    intros [<-|?]; [by eexists|done].
  - intros sec' ps' s1 Hd'. apply lookup_insert_Some in Hd' as [[<- [= <- <-]]|[Hne Hd']].
    + by split; [|..|congruence|].
    + destruct (Hs _ _ _ Hd') as [Hp1 Hr1 Hn1 Hsl1]. split; [done| |done|done].
      eapply running_frame; [exact Hr1|]. intros a Ha. apply Hw. intros Ho. apply Hne.
      apply (Hap sec sec' a Ho). split; [apply Hup; by eexists|]. by rewrite Hn1 in Ha.
  - intros a Ha. rewrite Hw by done. by apply Hid.
Qed.

(** *** The callbacks *)

Lemma range_no_ev n m c : about_range n m c -> no_ev_call c.
Proof. intros Hc k. by destruct c. Qed.

(** The calls of a handler are about its own server's backends. *)
Lemma own_calls d tr sec ps s {A} (m : M (A * stats_server_t)) Q :
  stats_inv d tr -> d !! sec = Some (ps, s) ->
  (own_ids (L.(first_client) sec) (L.(last_client) sec) s ->
    keeps (about_range (L.(first_client) sec) (L.(last_client) sec))
      (fun p => own_ids (L.(first_client) sec) (L.(last_client) sec) p.2) m) ->
  wp m Q tr ->
  wp m (fun p tr' => Q p tr' /\ p.2.(next) = s.(next) /\
    grows (about_range (L.(first_client) sec) (L.(last_client) sec)) tr tr') tr.
Proof.
  intros Hd Hs Hk Hm. destruct (st_server _ _ Hd _ _ _ Hs) as [_ Hrun Hn _].
  eapply wp_mono; [apply wp_keeps; [exact Hm|apply Hk]|].
  { rewrite <- Hn. eapply server_inv_ids, (ru_inv _ _ _ _ _ Hrun). }
  intros [x s'] tr' (HQ & Hg & [Hn' _]). split; [done|]. split; [cbn in *; congruence|done].
Qed.

Definition stats_ctx_ok (sd : Z) (sec : section) (c : stats_session_t) : Prop := session_ok sd c.

Definition stats_benign (sd : Z) (sec : section) (c : stats_session_t) d tr : Prop :=
  benign_input (sep_of sec) sd (buffer_data c.(session_buffer)) tr.

Definition stats_benign_udp (sd : Z) (sec : section) d tr : Prop :=
  benign_datagram (sep_of sec) sd tr.

Lemma up_server d tr sec : stats_inv d tr -> L.(up) sec = true ->
  exists s, d !! sec = Some (params_of sec (conf sec), s) /\
    server_state sec (params_of sec (conf sec)) s tr.
Proof.
  intros Hd [[ps s] Hs]%(st_up _ _ Hd). pose proof (st_server _ _ Hd _ _ _ Hs) as Hst.
  destruct (ss_params _ _ _ _ Hst). by exists s.
Qed.

#[export] Instance stats_conn_law sec :
  L.(up) sec = true -> Tcpserver.ConnLaw stats_inv stats_ctx_ok sec stats_connection_cb.
Proof.
  intros Hup sd d tr Hd. destruct (up_server d tr sec Hd Hup) as (s & Hs & [_ Hrun Hn Hsl]).
  unfold stats_connection_cb. rewrite Hs. apply wp_bind, wp_ret, wp_bind.
  eapply wp_mono; [eapply (own_calls d tr sec _ s); [done|done|intros; by apply keeps_connection|]|].
  { apply (connection_spec (params_of sec (conf sec))). rewrite params_config. exact Hrun. }
  intros [session s'] tr' ((Hrun' & Hm & c & -> & Hc) & Hn' & Hg). rewrite params_config in Hrun'.
  apply wp_ret. split_and!; [|eapply grows_mono; [|exact Hg]; apply range_no_ev|by exists c].
  eapply stats_inv_update; [done|done|done|done| |done]. unfold slots_of in *. by rewrite Hm.
Qed.

#[export] Instance stats_recv_law sec :
  L.(up) sec = true -> Tcpserver.RecvLaw stats_inv stats_ctx_ok stats_benign sec stats_recv_cb.
Proof.
  intros Hup sd [b sd'] d tr Hd [Heq Hwf Hsz] Hben. cbn in Heq, Hwf, Hsz. subst sd'.
  destruct (up_server d tr sec Hd Hup) as (s & Hs & [_ Hrun Hn Hsl]).
  unfold stats_recv_cb. rewrite Hs. do 2 apply wp_bind, wp_ret. apply wp_bind.
  eapply wp_mono; [eapply (own_calls d tr sec _ s); [done|done| |]|].
  { intros Hids. apply keeps_recv; [|done]. apply lp_quiet. }
  { apply (stats_recv_spec (params_of sec (conf sec)) (sep_of sec) (valid_of sec)); [|done..].
    rewrite params_config. exact Hrun. }
  intros [[r session] s'] tr' ((_ & Hrun' & Hr) & Hn' & Hg). rewrite params_config in Hrun'. cbn in Hn'.
  apply wp_ret. split_and!; [|eapply grows_mono; [|exact Hg]; apply range_no_ev|].
  - eapply stats_inv_update; [done|done|done|done| |done].
    assert (Hset : forall x, slots_of (lines sec) (L.(slots) sec) (set_recv_tcp x s)) by done.
    destruct session as [[b' sd']|].
    + destruct Hr as (_ & _ & _ & _ & x & Hx). destruct (split_lines _) as [ls rest].
      destruct Hx as (_ & _ & _ & Hl). by eapply slots_run.
    + destruct Hr as (_ & [[_ ->]|(x & _ & _ & Hl)]); [done|by eapply slots_run].
  - intros ->. destruct session as [[b' sd']|]; [|by destruct Hr].
    destruct Hr as (_ & -> & Hwf' & Hs' & _). eexists. split; [done|]. by split.
Qed.

#[export] Instance stats_datagram_law sec :
  L.(up) sec = true -> Udpserver.DatagramLaw stats_inv stats_benign_udp sec stats_udp_recv_cb.
Proof.
  intros Hup sd d tr Hd Hben. destruct (up_server d tr sec Hd Hup) as (s & Hs & [_ Hrun Hn Hsl]).
  unfold stats_udp_recv_cb. rewrite Hs. apply wp_bind, wp_ret, wp_bind.
  eapply wp_mono; [eapply (own_calls d tr sec _ s); [done|done| |]|].
  { intros Hids. apply keeps_udp_recv; [|done]. apply lp_quiet. }
  { apply (udp_recv_spec (params_of sec (conf sec)) (sep_of sec) (valid_of sec)); [|done].
    rewrite params_config. exact Hrun. }
  intros [r s'] tr' ((Hrun' & Hr) & Hn' & Hg). rewrite params_config in Hrun'. cbn in Hn'.
  apply wp_ret. split; [|eapply grows_mono; [|exact Hg]; apply range_no_ev].
  eapply stats_inv_update; [done|done|done|done| |done].
  assert (Hset : forall x, slots_of (lines sec) (L.(slots) sec) (set_recv_udp x s)) by done.
  destruct (os tr (Recv sd MAX_UDP_LENGTH)) as [[|x y]|];
    [by destruct Hr as [_ ->]|by eapply slots_run|by destruct Hr as [_ ->]].
Qed.

(** *** The events of the backends *)

Lemma find_client_spec d tr a e :
  stats_inv d tr -> watched a e tr = true ->
  exists sec s b, find_client a d = Some (sec, params_of sec (conf sec), s, b) /\
    d !! sec = Some (params_of sec (conf sec), s) /\ s.(mem) !! a = Some b.
Proof.
  intros Hd Hw.
  assert (Hin : forall sec s, d !! sec = Some (params_of sec (conf sec), s) -> is_Some (s.(mem) !! a) ->
    owned L sec a).
  { intros sec s Hs [b Hb]. destruct (st_server _ _ Hd _ _ _ Hs) as [_ Hrun Hn _].
    split; [apply (st_up _ _ Hd); by eexists|]. rewrite <- Hn.
    by apply (so_mem _ _ _ _ (si_store _ _ _ _ (ru_inv _ _ _ _ _ Hrun)) a b). }
  assert (Hone : exists sec s b, d !! sec = Some (params_of sec (conf sec), s) /\ s.(mem) !! a = Some b).
  { assert (Hown : forall sec, owned L sec a -> exists s b,
      d !! sec = Some (params_of sec (conf sec), s) /\ s.(mem) !! a = Some b).
    { intros sec [Hup Ha]. destruct (up_server d tr sec Hd Hup) as (s & Hs & [_ Hrun Hn _]).
      exists s. destruct (s.(mem) !! a) as [b|] eqn:E; [by exists b|]. exfalso.
      assert (watchers a tr = idle) as Hidle.
      { eapply (so_idle _ _ _ _ (si_store _ _ _ _ (ru_inv _ _ _ _ _ Hrun))); [by rewrite Hn|done]. }
      unfold watched in Hw. rewrite Hidle in Hw. by destruct e. }
    assert (Hdec : forall sec, owned L sec a \/ ~ owned L sec a).
    { intros sec. unfold owned. destruct (L.(up) sec); [|right; by intros [? _]].
      destruct (decide (L.(first_client) sec <= a < L.(last_client) sec)%nat); [by left|right; by intros [_ ?]]. }
    destruct (Hdec Carbon) as [Hc|Hc]; [exists Carbon; by apply Hown|].
    destruct (Hdec Statsd) as [Hs|Hs]; [exists Statsd; by apply Hown|].
    exfalso. unfold watched in Hw. rewrite (st_idle _ _ Hd a) in Hw by (by intros []). by destruct e. }
  destruct Hone as (sec & s & b & Hs & Hb). exists sec, s, b. split; [|done].
  assert (Hown : owned L sec a) by (apply (Hin sec s Hs); by eexists).
  unfold find_client. destruct sec.
  - rewrite Hs. cbn. by rewrite Hb.
  - destruct (d !! Carbon) as [[ps' s']|] eqn:E; cbn; [|by rewrite Hs; cbn; rewrite Hb].
    destruct (s'.(mem) !! a) as [b'|] eqn:Eb; cbn; [|by rewrite Hs; cbn; rewrite Hb].
    exfalso. pose proof (ss_params _ _ _ _ (st_server _ _ Hd _ _ _ E)) as ->.
    assert (owned L Carbon a) as Hc by (apply (Hin Carbon s' E); by eexists).
    by pose proof (st_apart _ _ Hd _ _ _ Hc Hown).
Qed.
End servers.
