(* ===== verification/Service.v ===== *)
(** * The whole relay under libev

    server.c connects the servers of a configuration; then libev calls the handlers
    of whatever watchers are active, in any order.  [served] are the states that
    this reaches.  The invariant [world_inv] says that every server is in order and
    that every active watcher - of a backend, a listener or a session - belongs
    to memory that is allocated. *)
From S2P Require Import Prelude Libc Sys Buffer SList Hashring Protocol Validate YamlConfig.
From S2P Require Import Tcpclient Backend Stats StatsCalls Listener.
From S2P Require Tcpserver Udpserver.
From S2P Require Import Server StatsLaws.

(** ** The invariant *)

(** What the text of a section must be for its server: C strings that the parser can
    have read, and a bind address. *)
Record config_ok (cfg : proto_config) (ls : list bytes) : Prop := {
  co_ring : exists l, cfg.(ring) = Some l /\ rep l (Some <$> ls);
  co_lines : Forall address_ok ls;
  co_length : len ls < 2 ^ 32;
  co_bind : is_Some cfg.(bind);
}.

(** The listeners and sessions have the callbacks of stats.c. *)
Definition wired_listener `{OS} (L : layout) (l : Tcpserver.tcplistener_t section stats_heap stats_session_t)
    : Prop :=
  L.(up) l.(Tcpserver.listener_data) = true /\
  l.(Tcpserver.listener_cb_conn) = stats_connection_cb /\
  l.(Tcpserver.listener_cb_recv) = Some stats_recv_cb.

Definition wired_tcp `{OS} (L : layout) (x : Tcpserver.tcp_watcher section stats_heap stats_session_t)
    : Prop :=
  match x with
  | Tcpserver.AcceptWatcher l => wired_listener L l
  | Tcpserver.RecvWatcher (Some s) => s.(Tcpserver.session_cb_recv) = Some stats_recv_cb
  | Tcpserver.RecvWatcher None => False
  end.

Definition wired_udp `{OS} (L : layout) (l : Udpserver.udplistener_t section stats_heap) : Prop :=
  L.(up) l.(Udpserver.listener_data) = true /\
  l.(Udpserver.listener_cb_recv) = stats_udp_recv_cb.

(** Before the first event there are only listeners. *)
Definition only_listener `{OS} (L : layout) (x : Tcpserver.tcp_watcher section stats_heap stats_session_t)
    : Prop :=
  exists l, x = Tcpserver.AcceptWatcher l /\ wired_listener L l.

(** Every object of the heap is wired, and every active watcher is in it. *)
Record all_wired {X} (k : ev_kind) (P : X -> Prop) (h : ev_heap X) (tr : trace) : Prop := {
  aw_wf : heap_wf h;
  aw_objects : forall w x, h.(objects) !! w = Some x -> P x;
  aw_active : forall w, active k w tr = true -> is_Some (h.(objects) !! w);
}.

Lemma all_wired_mono {X} k (P P' : X -> Prop) h tr tr' :
  all_wired k P h tr -> (forall x, P x -> P' x) -> (forall w, active k w tr' = active k w tr) ->
  all_wired k P' h tr'.
Proof.
  intros [Hwf Hobj Hact] HP Ha. split; [done|eauto|]. intros w. rewrite Ha. apply Hact.
Qed.

Lemma all_wired_grown {X} k (P : X -> Prop) ws h tr h' tr' :
  all_wired k P h tr -> heap_grown P ws h h' ->
  (forall w, active k w tr' = bool_decide (w ∈ ws) || active k w tr) -> all_wired k P h' tr'.
Proof.
  intros [Hwf Hobj Hact] [Hwf' Hold Hnew Honly _ _] Ha. rewrite Forall_forall in Hnew. split; [done| |].
  - intros w x Hx. destruct (decide (w < h.(next_object))%nat) as [Hlt|Hge].
    + rewrite Hold in Hx by done. by eapply Hobj.
    + destruct (Hnew w) as (_ & y & Hy & Hp); [apply Honly; [lia|by eexists]|]. congruence.
  - intros w. rewrite Ha. case_bool_decide as Hw; cbn [orb].
    + intros _. destruct (Hnew w Hw) as (_ & x & Hx & _). by exists x.
    + intros [x Hx]%Hact. exists x. rewrite Hold; [done|]. by eapply Hwf.
Qed.

Lemma all_wired_empty {X} k (P : X -> Prop) tr :
  (forall w, active k w tr = false) -> all_wired k P empty_heap tr.
Proof.
  intros Ha. assert (Hno : forall w (x : X), (@empty_heap X).(objects) !! w <> Some x).
  { intros w x Hx. cbn in Hx. by apply lookup_empty_Some in Hx. }
  split; [by intros w x ?%Hno|by intros w x ?%Hno|]. intros w Hw. by rewrite Ha in Hw.
Qed.

Section service.
Context `{OSLaws, !Plenty}.
Variables (conf : section -> proto_config) (lines : section -> list bytes).
Implicit Types (L : layout) (w : world) (tr : trace) (sec : section) (srv : server_t).

Abbreviation servers_inv := (stats_inv conf lines).

Record world_inv L w tr : Prop := {
  wi_stats : servers_inv L w.(stats_of) tr;
  wi_tcp : Tcpserver.tcp_ok (servers_inv L) stats_ctx_ok stats_benign w.(tcp) tr;
  wi_udp : Udpserver.udp_ok (servers_inv L) stats_benign_udp w.(udp) tr;
  wi_wired : forall k x, w.(tcp).(objects) !! k = Some x -> wired_tcp L x;
}.

(** The same while the servers are connected: no session yet, and the addresses
    from [next_client] on are unused. *)
Record connecting L w tr : Prop := {
  cn_stats : servers_inv L w.(stats_of) tr;
  cn_tcp : all_wired TcpEv (only_listener L) w.(tcp) tr;
  cn_udp : all_wired UdpEv (wired_udp L) w.(udp) tr;
  cn_next : forall sec a, owned L sec a -> (a < w.(next_client))%nat;
  cn_fresh : untouched w.(next_client) tr;
}.

Lemma connecting_world L w tr : connecting L w tr -> world_inv L w tr.
Proof.
  intros [Hs [Hwt Hot Ht] [Hwu Hou Hu] _ _]. split; [done|split; [done|]|split; [done|]|].
  - intros k [x Hx]%Ht. exists x. split; [done|]. destruct (Hot _ _ Hx) as ([sd p cc cr] & -> & Hup & ? & ?).
    cbn in *. subst. split; cbn.
    + by apply stats_conn_law.
    + exists stats_recv_cb. split; [done|]. by apply stats_recv_law.
  - intros k [[sd p cr] Hx]%Hu. exists (Udpserver.UdpListener sd p cr). split; [done|].
    destruct (Hou _ _ Hx) as [Hup Hcb]. cbn in *. subst. by apply stats_datagram_law.
  - intros k x Hx. by destruct (Hot _ _ Hx) as (l & -> & ?).
Qed.

(** Calls that no watcher is about. *)
Lemma connecting_quiet L w tr tr' :
  connecting L w tr -> grows socket_call tr tr' -> connecting L w tr'.
Proof.
  intros [Hs Ht Hu Hn Hf] Hg. pose proof (socket_frontend _ _ Hg) as [Hfr _]. split.
  - by eapply (Tcpserver.inv_frame _ tr).
  - eapply all_wired_mono; [done|done|]. intros k. by apply socket_active.
  - eapply all_wired_mono; [done|done|]. intros k. by apply socket_active.
  - done.
  - intros a Ha. rewrite (frontend_watchers a tr tr') by done. by apply Hf.
Qed.

(** ** One event *)

(** libev can report it. *)
Definition possible w tr (ev : event) : bool :=
  match ev with
  | BackendEvent a e => watched a e tr
  | TcpEvent k _ => active TcpEv k tr
  | UdpEvent k _ => active UdpEv k tr
  end.

(** What it receives fits in the static buffers of stats.c. *)
Definition benign_event w tr (ev : event) : Prop :=
  match ev with
  | BackendEvent _ _ => True
  | TcpEvent k _ => Tcpserver.benign_tcp stats_benign k w.(tcp) w.(stats_of) tr
  | UdpEvent k _ => Udpserver.benign_udp stats_benign_udp k w.(udp) w.(stats_of) tr
  end.

Lemma world_inv_quiet L w d tr tr' :
  world_inv L w tr -> servers_inv L d tr' -> grows no_ev_call tr tr' -> world_inv L (set_stats d w) tr'.
Proof.
  intros [_ Ht Hu Hw] Hd Hg. split; [done|by eapply Tcpserver.tcp_ok_grows| |done].
  eapply Udpserver.udp_ok_grows; [done|]. eapply grows_mono; [|exact Hg]. intros c Hc. apply Hc.
Qed.

Lemma listeners_kept_quiet h tr tr' :
  grows no_ev_call tr tr' -> Tcpserver.listeners_kept (P := section) (D := stats_heap) (C := stats_session_t) h tr h tr'.
Proof. intros Hg k l. split; [done|]. intros _. by apply no_ev_active. Qed.

Lemma world_event_spec L w tr ev :
  world_inv L w tr -> possible w tr ev = true -> benign_event w tr ev ->
  wp (run_event ev w) (fun w' tr' => world_inv L w' tr' /\
    Tcpserver.listeners_kept w.(tcp) tr w'.(tcp) tr' /\ w'.(udp) = w.(udp) /\
    grows (no_ev UdpEv) tr tr') tr.
Proof.
  intros Hw Hpos Hben. pose proof Hw as [Hs Ht Hu Hwi]. destruct ev as [a e|k rev|k rev]; cbn in *.
  - destruct (find_client_spec conf lines L _ _ _ _ Hs Hpos) as (sec & s & b & -> & Hd & Hb).
    apply wp_bind, wp_ret, wp_bind.
    destruct (st_server _ _ _ _ _ Hs _ _ _ Hd) as [_ Hrun Hn Hsl].
    eapply wp_mono; [apply (backend_event_spec (params_of sec (conf sec))); [|done..]|].
    { rewrite params_config. exact Hrun. }
    intros [[c k] l] tr' (Hrun' & Hk & Hg). rewrite params_config in Hrun'. apply wp_ret.
    assert (Ha : (L.(first_client) sec <= a < L.(last_client) sec)%nat).
    { rewrite <- Hn. by apply (so_mem _ _ _ _ (si_store _ _ _ _ (ru_inv _ _ _ _ _ Hrun)) a b). }
    assert (Hg' : grows no_ev_call tr tr').
    { eapply grows_mono; [|exact Hg]. intros cl Hcl kk. by destruct cl. }
    split_and!; [|by apply listeners_kept_quiet|done|eapply grows_mono; [|exact Hg']; intros cl Hcl; apply Hcl].
    apply (world_inv_quiet L w _ tr); [done| |done].
    eapply stats_inv_update; [done|done|done|done| |].
    + by eapply slots_update.
    + eapply grows_mono; [|exact Hg]. intros cl. by apply only_about_range.
  - apply wp_bind.
    assert (Hobj : wlp (Tcpserver.tcp_event k rev w.(tcp) w.(stats_of)) (fun p _ =>
      forall k x, p.1.(objects) !! k = Some x -> wired_tcp L x) tr).
    { apply Tcpserver.tcp_event_objects; [by intros l sd ctx (_ & _ & ?)|done|exact Hwi]. }
    eapply wp_mono; [apply wp_wlp; [|exact Hobj];
      by apply (Tcpserver.tcp_event_ok (servers_inv L) stats_ctx_ok stats_benign)|].
    intros [h' d'] tr' [(Hd & Ht' & Hk & Hg) Hwi']. apply wp_ret. split_and!; [|done..].
    split; [done|done| |done]. by eapply Udpserver.udp_ok_grows.
  - apply wp_bind. eapply wp_mono; [by apply (Udpserver.udp_event_spec (servers_inv L) stats_benign_udp)|].
    intros d' tr' [Hd Hg]. apply wp_ret.
    split_and!; [by eapply world_inv_quiet|by apply listeners_kept_quiet|done|].
    eapply grows_mono; [|exact Hg]. intros cl Hcl. apply Hcl.
Qed.

(** ** Connecting a server *)

Definition add_server L sec (base n : nat) (xs : list nat) : layout :=
  Layout (fun sec' => if decide (sec' = sec) then true else L.(up) sec')
    (fun sec' => if decide (sec' = sec) then base else L.(first_client) sec')
    (fun sec' => if decide (sec' = sec) then n else L.(last_client) sec')
    (fun sec' => if decide (sec' = sec) then xs else L.(slots) sec').

Lemma owned_add L sec base n xs sec' a :
  owned (add_server L sec base n xs) sec' a <->
  sec' = sec /\ (base <= a < n)%nat \/ sec' <> sec /\ owned L sec' a.
Proof. unfold owned, add_server; cbn. case_decide; naive_solver. Qed.

(** Calls of a server that is being made and leaves nothing behind. *)
Lemma connecting_from L w tr tr' :
  connecting L w tr -> grows (about_from w.(next_client)) tr tr' ->
  untouched w.(next_client) tr' -> connecting L w tr'.
Proof.
  intros [Hs Ht Hu Hn Hf] Hg Hun.
  assert (Ha : forall k x, active k x tr' = active k x tr).
  { intros k x. apply no_ev_active. eapply grows_mono; [|exact Hg]. intros c Hc k'. by destruct c. }
  split; [|by eapply all_wired_mono..|done|done]. eapply stats_inv_frame; [done|]. intros a.
  destruct (decide (a < w.(next_client))%nat); [by eapply from_watchers|].
  rewrite Hun, Hf by lia. done.
Qed.

(** The new server joins the others. *)
Lemma connecting_add L w tr sec s tr' :
  connecting L w tr -> L.(up) sec = false -> grows (about_from w.(next_client)) tr tr' ->
  server_ready (conf sec) w.(next_client) (lines sec) s tr' -> len (lines sec) < 2 ^ 32 ->
  exists xs, connecting (add_server L sec w.(next_client) s.(next) xs)
    (set_next_client s.(next)
      (set_stats (<[sec := (params_of sec (conf sec), s)]> w.(stats_of)) w)) tr'.
Proof.
  intros [[Hup Hs Hap Hid] Ht Hu Hn Hf] Hdown Hg Hready Hlen.
  assert (Hun : untouched s.(next) tr') by (by destruct Hready as (? & ? & _ & _ & _ & [_ ?] & _)).
  destruct (ready_running _ _ _ _ _ Hready Hlen) as (xs & Hrun & Hsl). exists xs.
  assert (Hba : (w.(next_client) <= s.(next))%nat) by apply Hrun.
  assert (Ha : forall k x, active k x tr' = active k x tr).
  { intros k x. apply no_ev_active. eapply grows_mono; [|exact Hg]. intros c Hc k'. by destruct c. }
  assert (Hw : forall a, (a < w.(next_client))%nat -> watchers a tr' = watchers a tr).
  { intros a. by apply from_watchers. }
  split; cbn.
  - split.
    + intros sec'. cbn. case_decide as He; [subst; by rewrite lookup_insert_is_Some'; split; [|left]|].
      by rewrite lookup_insert_ne.
    + intros sec' ps s' Hd. destruct (decide (sec' = sec)) as [->|Hne].
      * rewrite lookup_insert_eq in Hd. injection Hd as <- <-.
        split; unfold add_server; cbn; by rewrite ?decide_True by done.
      * rewrite lookup_insert_ne in Hd by done. destruct (Hs _ _ _ Hd) as [Hps Hr Hnx Hss].
        split; unfold add_server; cbn; rewrite ?decide_False by done; try done.
        eapply running_frame; [exact Hr|]. intros a Hr'. apply Hw. apply (Hn sec').
        split; [apply Hup; by eexists|]. by rewrite <- Hnx.
    + intros sec1 sec2 a [[-> Ho1]|[Hne1 Ho1]]%owned_add [[-> Ho2]|[Hne2 Ho2]]%owned_add; [done| | |by eapply Hap].
      * pose proof (Hn _ _ Ho2). lia.
      * pose proof (Hn _ _ Ho1). lia.
    + intros a Hno. destruct (decide (a < w.(next_client))%nat).
      * rewrite Hw by done. apply Hid. intros sec' Ho. destruct (decide (sec' = sec)) as [->|Hne].
        -- destruct Ho as [Hu' _]. congruence.
        -- apply (Hno sec'), owned_add. by right.
      * destruct (decide (a < s.(next))%nat) as [Hlt|Hge]; [|apply Hun; lia].
        destruct (Hno sec). apply owned_add. left. split; [done|lia].
  - eapply all_wired_mono; [done| |done]. intros x (l & -> & Hu' & ? & ?).
    exists l. split; [done|]. split_and!; [|done..]. cbn. by case_decide.
  - eapply all_wired_mono; [done| |done]. intros l (Hu' & ?). split_and!; [|done..]. cbn. by case_decide.
  - intros sec' a [[-> Ho1]|[Hne1 Ho1]]%owned_add; [lia|]. pose proof (Hn _ _ Ho1). lia.
  - done.
Qed.

(** The memory that was there before stays. *)
Definition heap_extends {X} (h h' : ev_heap X) : Prop :=
  (forall k, (k < h.(next_object))%nat -> h'.(objects) !! k = h.(objects) !! k) /\
  (h.(next_object) <= h'.(next_object))%nat.

Lemma heap_extends_grown {X} (ok : X -> Prop) ws h h' : heap_grown ok ws h h' -> heap_extends h h'.
Proof. intros [_ Hold _ _ _ Hn]. by split. Qed.

(** The watchers of the listeners of a [struct server]. *)
Definition tcp_of srv : list nat := from_option Tcpserver.listeners [] srv.(ts).
Definition udp_of srv : list nat := from_option Udpserver.listeners [] srv.(us).

(** What a [struct server] points to is allocated. *)
Record struct_ok L sec srv w : Prop := {
  sv_up : L.(up) sec = true -> srv.(enabled) = true /\ srv.(server) = Some sec;
  sv_down : L.(up) sec = false -> srv.(server) = None /\ srv.(ts) = None /\ srv.(us) = None;
  sv_tcp : NoDup (tcp_of srv) /\
    Forall (fun k => exists l, w.(tcp).(objects) !! k = Some (Tcpserver.AcceptWatcher l)) (tcp_of srv);
  sv_udp : NoDup (udp_of srv) /\
    Forall (fun k => is_Some (w.(udp).(objects) !! k)) (udp_of srv);
}.

(** The listeners of [srv] were made and started since [w0] and [tr0]. *)
Record connected srv w0 tr0 tr : Prop := {
  ct_tcp : Forall (fun k => (w0.(tcp).(next_object) <= k)%nat) (tcp_of srv);
  ct_udp : Forall (fun k => (w0.(udp).(next_object) <= k)%nat) (udp_of srv);
  ct_active_tcp : forall k, active TcpEv k tr = bool_decide (k ∈ tcp_of srv) || active TcpEv k tr0;
  ct_active_udp : forall k, active UdpEv k tr = bool_decide (k ∈ udp_of srv) || active UdpEv k tr0;
}.

Definition connect_post L sec w tr (p : bool * server_t * world) tr' : Prop :=
  let '(r, srv, w') := p in
  exists L', connecting L' w' tr' /\ (forall sec', sec' <> sec -> L'.(up) sec' = L.(up) sec') /\
    struct_ok L' sec srv w' /\ connected srv w tr tr' /\ (r = true -> L'.(up) sec = true) /\
    heap_extends w.(tcp) w'.(tcp) /\ heap_extends w.(udp) w'.(udp).

Lemma connecting_tcp L w tr ws h tr' :
  connecting L w tr -> grows (file_call TcpEv) tr tr' -> heap_grown (only_listener L) ws w.(tcp) h ->
  (forall k, active TcpEv k tr' = bool_decide (k ∈ ws) || active TcpEv k tr) ->
  connecting L (set_tcp h w) tr'.
Proof.
  intros [Hs Ht Hu Hn Hf] Hg Hgrown Hact.
  assert (Hfr : grows frontend_call tr tr') by (eapply grows_mono; [apply (file_frontend TcpEv)|done]).
  split; cbn; [by eapply (Tcpserver.inv_frame _ tr)|by eapply all_wired_grown| |done|].
  - eapply all_wired_mono; [done|done|]. intros k. by apply (file_active TcpEv).
  - intros a Ha. rewrite (frontend_watchers a tr tr') by done. by apply Hf.
Qed.

Lemma connecting_udp L w tr ws h tr' :
  connecting L w tr -> grows (file_call UdpEv) tr tr' -> heap_grown (wired_udp L) ws w.(udp) h ->
  (forall k, active UdpEv k tr' = bool_decide (k ∈ ws) || active UdpEv k tr) ->
  connecting L (set_udp h w) tr'.
Proof.
  intros [Hs Ht Hu Hn Hf] Hg Hgrown Hact.
  assert (Hfr : grows frontend_call tr tr') by (eapply grows_mono; [apply (file_frontend UdpEv)|done]).
  split; cbn; [by eapply (Tcpserver.inv_frame _ tr)| |by eapply all_wired_grown|done|].
  - eapply all_wired_mono; [done|done|]. intros k. by apply (file_active UdpEv).
  - intros a Ha. rewrite (frontend_watchers a tr tr') by done. by apply Hf.
Qed.

Lemma heap_grown_mono {X} (P P' : X -> Prop) ws h h' :
  heap_grown P ws h h' -> (forall x, P x -> P' x) -> heap_grown P' ws h h'.
Proof.
  intros [? ? Hnew ? ? ?] HP. split; try done. eapply Forall_impl; [exact Hnew|].
  intros k (? & x & ? & ?). split; [done|]. exists x. auto.
Qed.

(** The listeners of a server, when its stats server is there. *)
Lemma bind_servers_spec L sec w tr address :
  connecting L w tr -> L.(up) sec = true ->
  wp (ts ← Tcpserver.tcpserver_create sec;
      us ← Udpserver.udpserver_create sec;
      '(r, ts, h) ← Tcpserver.tcpserver_bind ts address stats_connection_cb stats_recv_cb w.(tcp);
      let w := set_tcp h w in
      if negb (r =? 0) then mret (false, Server_t true (Some sec) (Some ts) (Some us), w) else
      '(r, us, h) ← Udpserver.udpserver_bind us address stats_udp_recv_cb w.(udp);
      let w := set_udp h w in
      mret (r =? 0, Server_t true (Some sec) (Some ts) (Some us), w))
    (fun '(r, srv, w') tr' => connecting L w' tr' /\ struct_ok L sec srv w' /\
      connected srv w tr tr' /\ heap_extends w.(tcp) w'.(tcp) /\ heap_extends w.(udp) w'.(udp)) tr.
Proof.
  intros Hc Hup. apply wp_bind. unfold Tcpserver.tcpserver_create, Udpserver.udpserver_create.
  apply wp_bind, wp_malloc_plenty; [done|]. intros c1 _. apply wp_bind, wp_ret, wp_ret, wp_bind.
  apply wp_bind, wp_malloc_plenty; [done|]. intros c2 _. apply wp_bind, wp_ret, wp_ret, wp_bind.
  set (tr1 := (tr ++ _) ++ _). assert (Hc1 : connecting L w tr1).
  { eapply connecting_quiet; [done|]. unfold tr1. socket_grows. }
  eapply wp_mono; [apply Tcpserver.tcpserver_bind_spec, (cn_tcp _ _ _ Hc1)|].
  intros [[r ts] h] tr2 (_ & Hg & ws & Hls & Hgrown & _ & Hact & _). cbn in Hls.
  apply (heap_grown_mono _ (only_listener L)) in Hgrown as Hgrown'.
  2:{ intros x (sd & _ & ->). eexists. split; [done|by split_and!]. }
  assert (Hc2 : connecting L (set_tcp h w) tr2) by (by eapply connecting_tcp).
  pose proof (heap_extends_grown _ _ _ _ Hgrown) as Hext.
  assert (Hact1 : forall k x, active k x tr1 = active k x tr).
  { intros k x. apply socket_active. unfold tr1. socket_grows. }
  assert (Hts : NoDup ts.(Tcpserver.listeners) /\
    Forall (fun k => exists l, h.(objects) !! k = Some (Tcpserver.AcceptWatcher l)) ts.(Tcpserver.listeners) /\
    Forall (fun k => (w.(tcp).(next_object) <= k)%nat) ts.(Tcpserver.listeners)).
  { rewrite Hls. destruct Hgrown as [_ _ Hnew _ Hnd _]. split_and!; [done|..];
      (eapply Forall_impl; [exact Hnew|]); intros k (Hk & x & Hx & sd & _ & ->); first [lia|by eexists]. }
  destruct Hts as (Hnd & Hobj & Hge). rewrite <- Hls in Hact.
  destruct (negb (r =? 0)).
  { apply wp_ret. split_and!; [done| | |done|by split].
    - split; cbn; [done|congruence|done|split; [apply NoDup_nil_2|by constructor]].
    - split; cbn; [done|by constructor| |].
      + intros k. by rewrite Hact, Hact1.
      + intros k. rewrite <- (Hact1 UdpEv k). by apply (file_active TcpEv). }
  apply wp_bind. eapply wp_mono; [apply Udpserver.udpserver_bind_spec, (cn_udp _ _ _ Hc2)|].
  intros [[r2 us] h2] tr3 (_ & Hg2 & ws2 & Hls2 & Hgrown2 & _ & Hact2 & _). cbn in Hls2.
  apply (heap_grown_mono _ (wired_udp L)) in Hgrown2 as Hgrown2'.
  2:{ intros x (sd & _ & ->). by split_and!. }
  assert (Hc3 : connecting L (set_udp h2 (set_tcp h w)) tr3) by (by eapply connecting_udp).
  pose proof (heap_extends_grown _ _ _ _ Hgrown2) as Hext2. rewrite <- Hls2 in Hact2.
  destruct Hgrown2 as [_ _ Hnew _ Hnd2 _].
  apply wp_ret. split_and!; [done| | |done|done].
  - split; cbn; [done|congruence|done|]. rewrite Hls2. split; [done|].
    eapply Forall_impl; [exact Hnew|]. intros k (_ & x & Hx & _). by eexists.
  - split; cbn; [done| | |].
    + rewrite Hls2. eapply Forall_impl; [exact Hnew|]. intros k [? _]. cbn in *. lia.
    + intros k. rewrite <- Hact1, <- Hact. by apply (file_active UdpEv).
    + intros k. rewrite Hact2, <- (Hact1 UdpEv). f_equal. by apply (file_active TcpEv).
Qed.

Lemma connect_server_spec L sec w tr :
  connecting L w tr -> L.(up) sec = false -> config_ok (conf sec) (lines sec) ->
  wp (connect_server sec (conf sec) init_server w) (connect_post L sec w tr) tr.
Proof.
  intros Hc Hdown [(l & Hring & Hrep) Haddr Hlen [bd Hbd]]. unfold connect_server. rewrite Hring, Hbd.
  apply wp_bind, wp_ret.
  assert (Hsame : forall en tr', connecting L w tr' -> (forall k x, active k x tr' = active k x tr) ->
    connect_post L sec w tr (false, Server_t en None None None, w) tr').
  { intros en tr' Hc' Ha. exists L. split_and!; [done|done| | |done|by split|by split].
    - split; cbn; [congruence|done|split; [apply NoDup_nil_2|by constructor]..].
    - split; cbn; [by constructor..|done|done]. }
  destruct (lsize l =? 0); [by apply wp_ret, Hsame|]. apply wp_bind.
  eapply wp_mono.
  { apply wp_keeps; [|apply keeps_create].
    eapply (server_create_spec (conf sec) w.(next_client) (params_of sec (conf sec)) l (lines sec));
      [apply params_config|done..| |apply Hc]. lia. }
  intros [s|] tr1 (Hs & Hg & _); cbn beta iota;
    (assert (Ha : forall k x, active k x tr1 = active k x tr) by
      (intros k x; apply no_ev_active; eapply grows_mono; [|exact Hg]; intros c Hc' k'; by destruct c)).
  2:{ apply wp_ret, Hsame; [by eapply connecting_from|done]. }
  destruct (connecting_add _ _ _ _ _ _ Hc Hdown Hg Hs Hlen) as (xs & Hc1).
  set (L' := add_server _ _ _ _ _) in Hc1. set (w1 := set_next_client _ _) in *.
  assert (Hup : L'.(up) sec = true) by (cbn; by rewrite decide_True).
  eapply wp_mono; [exact (bind_servers_spec L' sec w1 tr1 bd Hc1 Hup)|].
  intros [[r srv] w'] tr' (Hc' & Hok & [Ht Hu Hat Hau] & ? & ?). exists L'. split_and!; try done.
  - intros sec' Hne. cbn. by rewrite decide_False.
  - split; try done; intros k; rewrite <- Ha; auto.
Qed.

(** ** The relay *)

(** Both servers are in order, their listeners are theirs alone, and every active
    watcher of a listener is one of them. *)
Record relay_ok L (c : server_collection) w tr : Prop := {
  ro_world : world_inv L w tr;
  ro_init : c.(initialized) = true;
  ro_carbon : struct_ok L Carbon c.(carbon_server) w;
  ro_statsd : struct_ok L Statsd c.(statsd_server) w;
  ro_apart_tcp : forall k, k ∈ tcp_of c.(carbon_server) -> k ∈ tcp_of c.(statsd_server) -> False;
  ro_apart_udp : forall k, k ∈ udp_of c.(carbon_server) -> k ∈ udp_of c.(statsd_server) -> False;
  ro_tcp : forall k l, w.(tcp).(objects) !! k = Some (Tcpserver.AcceptWatcher l) ->
    active TcpEv k tr = true -> k ∈ tcp_of c.(carbon_server) ++ tcp_of c.(statsd_server);
  ro_udp : forall k, active UdpEv k tr = true ->
    k ∈ udp_of c.(carbon_server) ++ udp_of c.(statsd_server);
}.

Lemma struct_ok_extends L L' sec srv w w' :
  struct_ok L sec srv w -> heap_wf w.(tcp) -> heap_wf w.(udp) -> L'.(up) sec = L.(up) sec ->
  heap_extends w.(tcp) w'.(tcp) -> heap_extends w.(udp) w'.(udp) -> struct_ok L' sec srv w'.
Proof.
  intros [Hup Hdown [Hn Ht] [Hn' Hu]] Hwt Hwu HL [Et _] [Eu _]. split; rewrite ?HL; try done.
  - split; [done|]. eapply Forall_impl; [exact Ht|]. intros k [l Hl]. exists l.
    rewrite Et; [done|]. by eapply Hwt.
  - split; [done|]. eapply Forall_impl; [exact Hu|]. intros k [l Hl]. exists l.
    rewrite Eu; [done|]. by eapply Hwu.
Qed.

Lemma struct_ok_bounds L sec srv w :
  struct_ok L sec srv w -> heap_wf w.(tcp) -> heap_wf w.(udp) ->
  (forall k, k ∈ tcp_of srv -> (k < w.(tcp).(next_object))%nat) /\
  (forall k, k ∈ udp_of srv -> (k < w.(udp).(next_object))%nat).
Proof.
  intros [_ _ [_ Ht] [_ Hu]] Hwt Hwu. rewrite Forall_forall in Ht, Hu. split.
  - intros k [l Hl]%Ht. by eapply Hwt.
  - intros k [l Hl]%Hu. by eapply Hwu.
Qed.

(** A process before it connects its servers. *)
Definition world_start (base : nat) : world := World ∅ base empty_heap empty_heap.

Definition quiet_trace tr : Prop :=
  (forall a, watchers a tr = idle) /\ (forall k x, active k x tr = false).

Definition no_server : layout := Layout (fun _ => false) (fun _ => 0%nat) (fun _ => 0%nat) (fun _ => []).

Lemma connecting_start base tr : quiet_trace tr -> connecting no_server (world_start base) tr.
Proof.
  intros [Hw Ha]. split; cbn.
  - split.
    + intros sec. rewrite lookup_empty. split; [by intros [? ?]|done].
    + intros sec ps s Hd. by rewrite lookup_empty in Hd.
    + by intros sec sec' a [? _].
    + auto.
  - by apply all_wired_empty.
  - by apply all_wired_empty.
  - by intros sec a [? _].
  - intros a _. apply Hw.
Qed.

Definition the_config : YamlConfig.config := Config (conf Statsd) (conf Carbon).

Lemma connect_collection_spec c base tr :
  quiet_trace tr -> (forall sec, config_ok (conf sec) (lines sec)) ->
  c.(initialized) = true -> c.(carbon_server) = init_server -> c.(statsd_server) = init_server ->
  wp (connect_server_collection c the_config (world_start base)) (fun '(r, c', w') tr' =>
    exists L, relay_ok L c' w' tr' /\ (r = true -> exists sec, L.(up) sec = true)) tr.
Proof.
  intros Htr Hcfg Hini Hc Hs. unfold connect_server_collection. rewrite Hc, Hs. cbn [carbon_config statsd_config the_config].
  apply wp_bind. eapply wp_mono; [by apply (connect_server_spec no_server); [apply connecting_start|..]|].
  intros [[r1 carbon] w1] tr1 (L1 & Hc1 & Hup1 & Hok1 & Hcon1 & Hr1 & He1 & He1').
  apply wp_bind. eapply wp_mono; [by apply (connect_server_spec L1); [|rewrite Hup1|..]|].
  intros [[r2 statsd] w2] tr2 (L2 & Hc2 & Hup2 & Hok2 & Hcon2 & Hr2 & He2 & He2'). apply wp_ret.
  exists L2. pose proof (aw_wf _ _ _ _ (cn_tcp _ _ _ Hc1)) as Hwt. pose proof (aw_wf _ _ _ _ (cn_udp _ _ _ Hc1)) as Hwu.
  destruct (struct_ok_bounds _ _ _ _ Hok1 Hwt Hwu) as [Hbt Hbu].
  destruct Hcon1 as [_ _ Hat1 Hau1], Hcon2 as [Ht2 Hu2 Hat2 Hau2]. rewrite Forall_forall in Ht2, Hu2.
  destruct Htr as [_ Htr]. split.
  - split; cbn; try done.
    + by apply connecting_world.
    + eapply struct_ok_extends; [exact Hok1|done|done|by apply Hup2|done|done].
    + intros k Hk Hk'. pose proof (Hbt k Hk). pose proof (Ht2 k Hk'). lia.
    + intros k Hk Hk'. pose proof (Hbu k Hk). pose proof (Hu2 k Hk'). lia.
    + intros k l _. rewrite Hat2, Hat1, Htr, orb_false_r, orb_true_iff, !bool_decide_eq_true, elem_of_app. tauto.
    + intros k. rewrite Hau2, Hau1, Htr, orb_false_r, orb_true_iff, !bool_decide_eq_true, elem_of_app. tauto.
  - intros [E|E]%orb_true_iff; [exists Carbon; rewrite Hup2 by done|exists Statsd]; auto.
Qed.

Lemma relay_event_spec L c w tr ev :
  relay_ok L c w tr -> possible w tr ev = true -> benign_event w tr ev ->
  wp (run_event ev w) (fun w' tr' => relay_ok L c w' tr') tr.
Proof.
  intros [Hw Hi Hc Hs Hat Hau Ht Hu] Hpos Hben.
  eapply wp_mono; [by apply (world_event_spec L)|]. intros w' tr' (Hw' & Hk & Hudp & Hg).
  assert (Hok : forall sec srv, struct_ok L sec srv w -> struct_ok L sec srv w').
  { intros sec srv [Hup Hdown [Hn Hl] Hlu]. split; [done|done| |by rewrite Hudp]. split; [done|].
    eapply Forall_impl; [exact Hl|]. intros k [l Hkl]. exists l. by apply (Hk k l). }
  split; auto.
  - intros k l Hl Ha. destruct (Hk k l) as [[Hback _] Hsame]. apply Hback in Hl.
    rewrite Hsame in Ha by done. by eapply Ht.
  - intros k. rewrite (active_grows UdpEv k tr tr') by done. apply Hu.
Qed.

(** ** Destroying the servers *)

Definition drop_server L sec : layout :=
  Layout (fun sec' => if decide (sec' = sec) then false else L.(up) sec')
    L.(first_client) L.(last_client) L.(slots).

Lemma owned_drop L sec sec' a : owned (drop_server L sec) sec' a <-> sec' <> sec /\ owned L sec' a.
Proof. unfold owned, drop_server; cbn. case_decide; naive_solver. Qed.

(** The server of the section is gone, and its backends with it. *)
Lemma stats_inv_drop L d tr sec d' tr' :
  servers_inv L d tr -> d' !! sec = None -> (forall sec', sec' <> sec -> d' !! sec' = d !! sec') ->
  (forall a, owned L sec a -> watchers a tr' = idle) ->
  (forall a, ~ owned L sec a -> watchers a tr' = watchers a tr) ->
  servers_inv (drop_server L sec) d' tr'.
Proof.
  intros [Hup Hs Hap Hid] Hnone Hother Hgone Hw. split.
  - intros sec'. cbn. case_decide as He; [subst; rewrite Hnone; by split; [intros [? ?]|]|].
    by rewrite Hother.
  - intros sec' ps s Hd. destruct (decide (sec' = sec)) as [->|Hne]; [congruence|].
    rewrite Hother in Hd by done. destruct (Hs _ _ _ Hd) as [Hps Hr Hn Hsl]. split; [done| |done|done].
    eapply running_frame; [exact Hr|]. intros a Ha. apply Hw. intros Ho. apply Hne.
    apply (Hap sec' sec a); [|done]. split; [apply Hup; by eexists|]. by rewrite <- Hn.
  - intros sec1 sec2 a [_ Ho1]%owned_drop [_ Ho2]%owned_drop. by eapply Hap.
  - intros a Hno. assert (Hcases : owned L sec a \/ ~ owned L sec a).
    { unfold owned. destruct (L.(up) sec); [|right; by intros [? _]].
      destruct (decide (L.(first_client) sec <= a < L.(last_client) sec)%nat);
        [by left|right; by intros [_ ?]]. }
    destruct Hcases as [Ho|Ho]; [by apply Hgone|]. rewrite Hw by done. apply Hid.
    intros sec' Ho'. apply (Hno sec'), owned_drop. split; [by intros ->|done].
Qed.

Lemma server_destroy_spec cfg base xs st tr :
  running cfg base xs st tr ->
  wp (stats_server_destroy cfg st) (fun _ tr' =>
    (forall a, (base <= a < st.(next))%nat -> watchers a tr' = idle) /\
    grows (about_range base st.(next)) tr tr') tr.
Proof.
  intros Hrun. unfold stats_server_destroy. apply wp_bind.
  eapply wp_mono; [by eapply dealloc_ring_spec|]. intros s' tr' (Hm & _ & Hn & [_ Hf] & Hg).
  apply wp_ret. split; [|done]. intros a Ha. apply Hf; [by rewrite Hn|by rewrite Hm].
Qed.

(** What is left of the watchers of the file [k] when the [gone] are destroyed. *)
Definition stopped {X} (k : ev_kind) (gone : list nat) (h : ev_heap X) tr (h' : ev_heap X) tr' : Prop :=
  heap_wf h' /\
  (forall j, h'.(objects) !! j = if bool_decide (j ∈ gone) then None else h.(objects) !! j) /\
  (forall j, active k j tr' = negb (bool_decide (j ∈ gone)) && active k j tr).

Lemma stopped_none {X} k (h : ev_heap X) tr tr' :
  heap_wf h -> (forall j, active k j tr' = active k j tr) -> stopped k [] h tr h tr'.
Proof. intros Hh Ha. split_and!; [done|done|]. intros j. by rewrite Ha. Qed.

Lemma stats_inv_down L sec d tr :
  servers_inv L d tr -> L.(up) sec = false -> servers_inv (drop_server L sec) d tr.
Proof.
  intros Hs Hdown. eapply stats_inv_drop; [done| |done| |done].
  - destruct (d !! sec) eqn:E; [|done].
    assert (L.(up) sec = true) by (apply (st_up _ _ _ _ _ Hs); by eexists). congruence.
  - intros a [Hu' _]. congruence.
Qed.

Lemma destroy_server_spec L sec srv w tr :
  servers_inv L w.(stats_of) tr -> struct_ok L sec srv w -> heap_wf w.(tcp) -> heap_wf w.(udp) ->
  wp (destroy_server srv w) (fun w' tr' => servers_inv (drop_server L sec) w'.(stats_of) tr' /\
    stopped TcpEv (tcp_of srv) w.(tcp) tr w'.(tcp) tr' /\
    stopped UdpEv (udp_of srv) w.(udp) tr w'.(udp) tr') tr.
Proof.
  intros Hs [Hup Hdown [Hnt Ht] [Hnu Hu]] Hwt Hwu. unfold destroy_server, tcp_of, udp_of in *.
  destruct (L.(up) sec) eqn:Hsec.
  2:{ destruct (Hdown eq_refl) as (Hsv & Hts & Hus). rewrite Hsv, Hts, Hus in *. cbn [from_option] in *.
    assert (Hd : servers_inv (drop_server L sec) w.(stats_of) tr) by (by apply stats_inv_down).
    destruct (negb _); [|apply wp_bind, wp_ret, wp_bind, wp_ret]; apply wp_ret;
      split_and!; (done || by apply stopped_none). }
  destruct (Hup eq_refl) as [-> ->]. cbn [negb]. apply wp_bind.
  apply (wp_mono _ (fun w1 tr1 => grows (file_call TcpEv) tr tr1 /\ w1.(stats_of) = w.(stats_of) /\
    w1.(udp) = w.(udp) /\ stopped TcpEv (from_option Tcpserver.listeners [] srv.(ts)) w.(tcp) tr w1.(tcp) tr1)).
  { destruct srv.(ts) as [t|]; cbn [from_option] in *; [|apply wp_ret; split_and!; (done || by apply stopped_none)].
    apply wp_bind. eapply wp_mono; [by apply Tcpserver.tcpserver_destroy_spec|].
    intros h' tr1 (Hg & Hwf & Hobj & Ha). apply wp_ret. by split_and!. }
  intros w1 tr1 (Hg1 & Hst1 & Hudp1 & Hstop1). apply wp_bind.
  apply (wp_mono _ (fun w2 tr2 => grows (file_call UdpEv) tr1 tr2 /\ w2.(stats_of) = w1.(stats_of) /\
    w2.(tcp) = w1.(tcp) /\ stopped UdpEv (from_option Udpserver.listeners [] srv.(us)) w1.(udp) tr1 w2.(udp) tr2)).
  { destruct srv.(us) as [u|]; cbn [from_option] in *.
    - apply wp_bind. eapply wp_mono; [apply destroy_loop_spec; by rewrite ?Hudp1|].
      intros h' tr2 (Hg & Hwf & _ & Hobj & Ha). apply wp_ret. by split_and!.
    - apply wp_ret. split_and!; try done. apply stopped_none; [by rewrite Hudp1|done]. }
  intros w2 tr2 (Hg2 & Hst2 & Htcp2 & Hstop2).
  assert (Hfr : forall a, watchers a tr2 = watchers a tr).
  { intros a. rewrite (frontend_watchers a tr1 tr2), (frontend_watchers a tr tr1); [done|..];
      (eapply grows_mono; [apply file_frontend|done]). }
  assert (Hs2 : servers_inv L w.(stats_of) tr2) by (by eapply stats_inv_frame).
  destruct (up_server _ _ _ _ _ _ Hs2 Hsec) as (s & Hd & [_ Hrun Hn _]).
  rewrite Hst2, Hst1, Hd. apply wp_bind, wp_ret, wp_bind. rewrite params_config.
  eapply wp_mono; [by eapply server_destroy_spec|]. intros _ tr3 [Hidle Hg3]. apply wp_ret. cbn.
  rewrite Hn in Hidle, Hg3.
  assert (Hno3 : grows no_ev_call tr2 tr3) by (eapply grows_mono; [apply range_no_ev|done]).
  split_and!.
  - eapply stats_inv_drop; [exact Hs2|by rewrite lookup_delete_eq|by intros; rewrite lookup_delete_ne| |].
    + intros a [_ Ha]. by apply Hidle.
    + intros a Ha. eapply range_watchers; [exact Hg3|]. intros ?. by apply Ha.
  - destruct Hstop1 as (Hwf & Hobj & Ha). rewrite Htcp2. split_and!; [done|done|]. intros k.
    rewrite (no_ev_active TcpEv k tr2 tr3) by done. rewrite <- Ha. by apply (file_active UdpEv).
  - destruct Hstop2 as (Hwf & Hobj & Ha). rewrite Hudp1 in Hobj. split_and!; [done|done|]. intros k.
    rewrite (no_ev_active UdpEv k tr2 tr3), Ha by done. f_equal. by apply (file_active TcpEv).
Qed.

Lemma struct_ok_stopped L sec sec' gone gone' srv w tr w' tr' :
  struct_ok L sec srv w -> sec <> sec' ->
  stopped TcpEv gone w.(tcp) tr w'.(tcp) tr' -> stopped UdpEv gone' w.(udp) tr w'.(udp) tr' ->
  (forall k, k ∈ gone -> k ∈ tcp_of srv -> False) -> (forall k, k ∈ gone' -> k ∈ udp_of srv -> False) ->
  struct_ok (drop_server L sec') sec srv w'.
Proof.
  intros [Hup Hdown [Hn Ht] [Hn' Hu]] Hne (_ & Ot & _) (_ & Ou & _) Hat Hau.
  assert (HL : (drop_server L sec').(up) sec = L.(up) sec) by (cbn; by rewrite decide_False).
  rewrite Forall_forall in Ht, Hu. split; rewrite ?HL; [done|done| |]; (split; [done|]); apply Forall_forall.
  - intros k Hk. destruct (Ht k Hk) as [l Hl]. exists l. rewrite Ot, bool_decide_false; [done|].
    intros Hg. by eapply Hat.
  - intros k Hk. rewrite Ou, bool_decide_false; [by apply Hu|]. intros Hg. by eapply Hau.
Qed.

Lemma destroy_collection_spec L c w tr :
  relay_ok L c w tr ->
  wp (destroy_server_collection c w) (fun '(c', w') tr' =>
    c'.(initialized) = false /\ w'.(stats_of) = ∅ /\ (forall a, watchers a tr' = idle) /\
    stopped TcpEv (tcp_of c.(carbon_server) ++ tcp_of c.(statsd_server)) w.(tcp) tr w'.(tcp) tr' /\
    stopped UdpEv (udp_of c.(carbon_server) ++ udp_of c.(statsd_server)) w.(udp) tr w'.(udp) tr') tr.
Proof.
  intros [[Hs [Hwt _] [Hwu _] _] Hi Hc Hst Hat Hau _ _]. unfold destroy_server_collection. rewrite Hi.
  apply wp_bind. eapply wp_mono; [by apply (destroy_server_spec L Carbon)|].
  intros w1 tr1 (Hs1 & Ht1 & Hu1). apply wp_bind.
  eapply wp_mono.
  { apply (destroy_server_spec (drop_server L Carbon) Statsd); [done| |apply Ht1|apply Hu1].
    eapply struct_ok_stopped; [exact Hst|done|done|done| |]; intros k; [apply Hat|apply Hau]. }
  intros w2 tr2 (Hs2 & Ht2 & Hu2). apply wp_ret. cbn.
  assert (Hboth : forall {X} k g1 g2 (h h1 h2 : ev_heap X), stopped k g1 h tr h1 tr1 ->
    stopped k g2 h1 tr1 h2 tr2 -> stopped k (g1 ++ g2) h tr h2 tr2).
  { intros X k g1 g2 h h1 h2 (_ & O1 & A1) (Hwf & O2 & A2). split_and!; [done|..]; intros j.
    - rewrite O2, O1. repeat case_bool_decide; set_solver.
    - rewrite A2, A1, andb_assoc. f_equal. rewrite <- negb_orb. f_equal.
      apply eq_true_iff_eq. rewrite orb_true_iff, !bool_decide_eq_true, elem_of_app. tauto. }
  split; [done|]. split; [|split; [|split; by eapply Hboth]].
  - apply map_eq. intros sec. rewrite lookup_empty. destruct (w2.(stats_of) !! sec) eqn:E; [|done].
    assert (Hup : (drop_server (drop_server L Carbon) Statsd).(up) sec = true)
      by (apply (st_up _ _ _ _ _ Hs2); by eexists). cbn in Hup. by destruct sec; cbn in Hup.
  - intros a. apply (st_idle _ _ _ _ _ Hs2). intros sec [Hup _]. cbn in Hup. by destruct sec.
Qed.

Lemma stopped_udp_off L c w tr w' tr' :
  relay_ok L c w tr ->
  stopped UdpEv (udp_of c.(carbon_server) ++ udp_of c.(statsd_server)) w.(udp) tr w'.(udp) tr' ->
  forall k, active UdpEv k tr' = false.
Proof.
  intros Hrel (_ & _ & Au) k. rewrite Au. case_bool_decide as Hk; [done|]. cbn.
  destruct (active UdpEv k tr) eqn:E; [|done]. destruct Hk. by eapply ro_udp.
Qed.

(** ** What the events reach *)

(** The states of a relay that was started with [the_config], by events of watchers
    that are active, with any other calls of the process in between. *)
Inductive served : server_collection -> world -> trace -> Prop :=
  | served_start c0 base tr0 r c w tr :
      quiet_trace tr0 -> (forall sec, config_ok (conf sec) (lines sec)) ->
      c0.(initialized) = true -> c0.(carbon_server) = init_server ->
      c0.(statsd_server) = init_server ->
      connect_server_collection c0 the_config (world_start base) tr0 = Some (r, c, w, tr) ->
      served c w tr
  | served_event c w tr ev w' tr' :
      served c w tr -> possible w tr ev = true -> benign_event w tr ev ->
      run_event ev w tr = Some (w', tr') -> served c w' tr'
  | served_other c w tr tr' :
      served c w tr -> grows socket_call tr tr' -> served c w tr'.

Lemma served_config c w tr : served c w tr -> forall sec, config_ok (conf sec) (lines sec).
Proof. by induction 1. Qed.

Lemma relay_ok_quiet L c w tr tr' :
  relay_ok L c w tr -> grows socket_call tr tr' -> relay_ok L c w tr'.
Proof.
  intros [[Hs Ht Hu Hw] Hi Hc Hst Hat Hau Hta Hua] Hg. pose proof (socket_frontend _ _ Hg) as [Hf Hn].
  split; try done.
  - split; [by eapply (Tcpserver.inv_frame _ tr)|by eapply Tcpserver.tcp_ok_grows| |done].
    eapply Udpserver.udp_ok_grows; [done|]. eapply grows_mono; [|exact Hn]. intros c' Hc'. apply Hc'.
  - intros k l Hl. rewrite (socket_active TcpEv k tr tr') by done. by apply (Hta k l).
  - intros k. rewrite (socket_active UdpEv k tr tr') by done. apply Hua.
Qed.

Lemma served_inv c w tr : served c w tr -> exists L, relay_ok L c w tr.
Proof.
  induction 1 as [c0 base tr0 r c w tr Htr Hcfg Hi Hc Hs E|c w tr ev w' tr' _ [L IH] Hpos Hben E|c w tr tr' _ [L IH] Hg].
  - pose proof (connect_collection_spec c0 base tr0 Htr Hcfg Hi Hc Hs) as Hw.
    destruct (wp_elim _ _ _ _ _ Hw E) as (L & Hok & _). by exists L.
  - exists L. exact (wp_elim _ _ _ _ _ (relay_event_spec L c w tr ev IH Hpos Hben) E).
  - exists L. by eapply relay_ok_quiet.
Qed.

(** C1. The whole relay, safety: whatever the configured backends of the two servers, and
    however libev interleaves connections, data, datagrams and the events of the
    backends' clients, for whatever watchers are active, no handler has undefined
    behaviour: no event reaches freed memory, no buffer is overrun, no loop runs
    for ever.  It is assumed that memory suffices and that what is received fits
    in the static buffers of stats.c, which the code does not check.  This speaks of
    everything the handlers do but their log messages: the calls of stats_log and
    stats_error_log are not in them.  What such a call does is in Log, and it is
    undefined for a message of 256 bytes or more or with a string conversion
    ([log_at_undefined]), which a received line can bring about when it is refused
    (stats.c:307, validate.c:32 to 100); such lines count as benign here. *)
Theorem service_safe c w tr ev :
  served c w tr -> possible w tr ev = true -> benign_event w tr ev ->
  is_Some (run_event ev w tr).
Proof.
  intros [L Hok]%served_inv Hpos Hben.
  destruct (wp_inv _ _ _ (relay_event_spec L c w tr ev Hok Hpos Hben)) as (w' & tr' & -> & _). by eexists.
Qed.

(** C14. server.c, connecting: it has no undefined behaviour, and when it reports success
    there is a server whose ring has the backends of the configuration's lines; a
    stats server exists only for a section that names backends. *)
Theorem service_connects c base tr :
  quiet_trace tr -> (forall sec, config_ok (conf sec) (lines sec)) ->
  c.(initialized) = true -> c.(carbon_server) = init_server -> c.(statsd_server) = init_server ->
  wp (connect_server_collection c the_config (world_start base)) (fun '(r, c', w') tr' =>
    (r = true -> exists sec s, w'.(stats_of) !! sec = Some (params_of sec (conf sec), s)) /\
    (forall sec ps s, w'.(stats_of) !! sec = Some (ps, s) -> ps = params_of sec (conf sec) /\
      exists base' xs, running (conf sec) base' xs s tr' /\ slots_of (lines sec) xs s)) tr.
Proof.
  intros Htr Hcfg Hi Hc Hs. eapply wp_mono; [by apply connect_collection_spec|].
  intros [[r c'] w'] tr' (L & [[Hst _ _ _] _ _ _ _ _ _ _] & Hr). split.
  - intros [sec Hup]%Hr. destruct (up_server _ _ _ _ _ _ Hst Hup) as (s & Hd & _). by exists sec, s.
  - intros sec ps s Hd. destruct (st_server _ _ _ _ _ Hst _ _ _ Hd) as [Hp Hrun _ Hsl].
    split; [done|]. by eexists _, _.
Qed.

(** C10. The account of a backend: at every reachable point of the relay, the bytes
    counted as queued are those counted as sent and those still in the queue of the
    backend's client, modulo the 64 bits of the counters. *)
Theorem service_accounts c w tr sec ps s a b :
  served c w tr -> w.(stats_of) !! sec = Some (ps, s) -> s.(mem) !! a = Some b ->
  wrap64 (b.(stats).(bytes_queued) - b.(stats).(bytes_sent))
    = len (buffer_data b.(client).(send_queue)) /\
  0 <= b.(stats).(bytes_queued) < 2 ^ 64 /\ 0 <= b.(stats).(bytes_sent) < 2 ^ 64.
Proof.
  intros [L [[Hst _ _ _] _ _ _ _ _ _ _]]%served_inv Hd Hb.
  destruct (st_server _ _ _ _ _ Hst _ _ _ Hd) as [_ [Hinv _ _ _] _ _].
  destruct (so_mem _ _ _ _ (si_store _ _ _ _ Hinv) a b Hb) as [_ [_ _ _ _ _ Hc (_ & ? & ? & _)]].
  done.
Qed.

Lemma routes_spec line c w tr sec ps s :
  served c w tr -> w.(stats_of) !! sec = Some (ps, s) -> NUL ∉ line -> len line < 2 ^ 62 ->
  key_length (sep_of sec) line < KEY_BUFFER_SIZE ->
  wp (stats_relay_line ps (line ++ [LF; NUL]) (len line) s) (fun '(r, s') tr' =>
    r = 0 -> exists address a b b',
      lines sec !! Z.to_nat (shard_of (line_key (sep_of sec) line) (len (lines sec))) = Some address /\
      s.(mem) !! a = Some b /\ backend_key address = Some b.(stats).(key) /\
      s'.(mem) = <[a := b']> s.(mem) /\
      buffer_data b'.(client).(send_queue) =
        buffer_data b.(client).(send_queue) ++ line ++ [LF] /\
      b'.(stats) = count_relayed (len line + 1) b.(stats)) tr.
Proof.
  intros [L [[Hst _ _ _] _ _ _ _ _ _ _]]%served_inv Hd Hn Hl Hk.
  destruct (st_server _ _ _ _ _ Hst _ _ _ Hd) as [-> Hrun _ Hslots].
  eapply wp_mono.
  { apply (relay_spec (params_of sec (conf sec)) (sep_of sec) (valid_of sec)); [|done..].
    rewrite params_config. exact Hrun. }
  intros [r s'] tr' (_ & _ & Hr) ->.
  inversion Hr as [| | |a b cl Hp Hne Hx Hb Hq|]; subst.
  assert (Hlen : len (L.(slots) sec) = len (lines sec)).
  { unfold len. by rewrite (Forall2_length _ _ _ Hslots). }
  destruct (Forall2_lookup_r _ _ _ _ _ Hslots Hx) as (address & Ha & b1 & Hb1 & Hkey).
  rewrite Hlen in Ha. exists address, a, b, (Backend cl (count_relayed (len line + 1) b.(stats))).
  split_and!; try done. congruence.
Qed.

(** C3. The whole relay, routing: at every reachable point, a line that a server accepts
    goes to the backend that line [hash(key) mod n] of the [n] lines of its section
    names - its normalised address - where it is put at the end of the queue,
    with a line feed, and counted; no other backend changes. *)
Theorem service_routes line c w tr sec ps s :
  served c w tr -> w.(stats_of) !! sec = Some (ps, s) -> NUL ∉ line -> len line < 2 ^ 62 ->
  key_length (sep_of sec) line < KEY_BUFFER_SIZE ->
  wp (stats_relay_line ps (line ++ [LF; NUL]) (len line) s) (fun '(r, s') tr' =>
    r = 0 -> exists address a b b',
      lines sec !! Z.to_nat (shard_of (line_key (sep_of sec) line) (len (lines sec))) = Some address /\
      s.(mem) !! a = Some b /\ backend_key address = Some b.(stats).(key) /\
      s'.(mem) = <[a := b']> s.(mem) /\
      buffer_data b'.(client).(send_queue) =
        buffer_data b.(client).(send_queue) ++ line ++ [LF] /\
      b'.(stats) = count_relayed (len line + 1) b.(stats)) tr.
Proof. by apply routes_spec. Qed.

(** What destroying the servers leaves of the watchers of TCP and UDP. *)
Record shut_down w tr w' tr' : Prop := {
  sd_clients : forall a, watchers a tr' = idle;
  sd_listeners : forall k l, w.(tcp).(objects) !! k = Some (Tcpserver.AcceptWatcher l) ->
    active TcpEv k tr = true -> w'.(tcp).(objects) !! k = None /\ active TcpEv k tr' = false;
  sd_udp : forall k, active UdpEv k tr' = false;
  sd_udp_freed : forall k, active UdpEv k tr = true -> w'.(udp).(objects) !! k = None;
  sd_sessions : forall k sess, w.(tcp).(objects) !! k = Some (Tcpserver.RecvWatcher sess) ->
    w'.(tcp).(objects) !! k = Some (Tcpserver.RecvWatcher sess) /\ active TcpEv k tr' = active TcpEv k tr;
  sd_active : forall k, active TcpEv k tr' = true -> active TcpEv k tr = true;
  sd_dangling : forall k revents tr1, active TcpEv k tr' = true -> Tcpserver.ev_error revents = false ->
    run_event (TcpEvent k revents) w' tr1 = None;
}.

Lemma shut_down_spec L c w tr w' tr' :
  relay_ok L c w tr -> w'.(stats_of) = ∅ -> (forall a, watchers a tr' = idle) ->
  stopped TcpEv (tcp_of c.(carbon_server) ++ tcp_of c.(statsd_server)) w.(tcp) tr w'.(tcp) tr' ->
  stopped UdpEv (udp_of c.(carbon_server) ++ udp_of c.(statsd_server)) w.(udp) tr w'.(udp) tr' ->
  shut_down w tr w' tr'.
Proof.
  intros Hok Hd Hw (_ & Ot & At) Hu. pose proof (stopped_udp_off L c w tr w' tr' Hok Hu) as Hoff.
  destruct Hu as (_ & Ou & _). destruct Hok as [[_ [_ Hact] _ Hwi] _ Hc Hs _ _ Htcp Hudp].
  set (gone := tcp_of _ ++ tcp_of _) in *.
  assert (Hgone : forall k, k ∈ gone -> exists l, w.(tcp).(objects) !! k = Some (Tcpserver.AcceptWatcher l)).
  { destruct Hc as [_ _ [_ Hlc] _], Hs as [_ _ [_ Hls] _]. rewrite Forall_forall in Hlc, Hls.
    intros k [Hk|Hk]%elem_of_app; eauto. }
  split; [done| |done| | | |].
  - intros k l Hl Ha. rewrite Ot, At, !bool_decide_true by (by eapply Htcp). done.
  - intros k Ha. by rewrite Ou, bool_decide_true by (by apply Hudp).
  - intros k sess Hk. rewrite Ot, At.
    rewrite bool_decide_false; [done|]. intros [l Hl]%Hgone. congruence.
  - intros k. rewrite At, andb_true_iff. by intros [_ ?].
  - intros k revents tr1. rewrite At, andb_true_iff, negb_true_iff, bool_decide_eq_false. intros [Hk Ha] Hev.
    destruct (Hact k Ha) as (x & Hx & _). pose proof (Hwi k x Hx) as Hwired.
    destruct x as [l|[sess|]]; [by destruct Hk; eapply Htcp| |done].
    unfold run_event, Tcpserver.tcp_event. rewrite Ot, bool_decide_false, Hx, Hd by done.
    unfold mbind, M_bind, defined, mret, M_ret, Tcpserver.tcpsession_recv_callback.
    cbn [wired_tcp] in Hwired. rewrite Hev. cbn beta iota. rewrite Hwired.
    unfold stats_recv_cb, mbind, M_bind. by destruct (Tcpserver.session_ctx sess).
Qed.

End service.
