(* ===== verification/Log.v ===== *)
(** * log.c: messages to stderr and to syslog

    The state of the file is the record [log_state].  A [va_list] is modelled by
    the text its format expands to, or by [Spent] once a call has read it: the C
    standard leaves a list indeterminate then, and reading it again is
    undefined.  The message that reaches [syslog] is used as a format there,
    with one [int] argument ([syslog_format]). *)
From S2P Require Import Prelude Libc Sys.

Definition PERCENT : ascii := "%"%char.

(** ** Data *)

Definition STATSRELAY_LOG_DEBUG : Z := 10.
Definition STATSRELAY_LOG_INFO : Z := 20.
Definition STATSRELAY_LOG_WARN : Z := 30.
Definition STATSRELAY_LOG_ERROR : Z := 40.

Definition STATSRELAY_LOG_BUF_SIZE : Z := 256.

Record log_state := LogState {
  g_verbose : bool;
  g_level : Z;
  fmt_buf_size : Z;
  fmt_buf : option bytes;   (* None: NULL *)
}.

(** The statics before any call. *)
Definition log_start : log_state := LogState false 0 0 None.

Inductive va_list := Args (text : bytes) | Spent.

(** How the formatting loop ends. *)
Inductive formatted :=
  | Formatted (fmt_len : Z) (st : log_state)
  | OutputError (st : log_state)
  | AllocFailure (st : log_state).

(** ** The C library *)

(** [vsnprintf(buf, n, format, ap)]: the new contents of [buf] and the result. *)
Definition vsnprintf (buf : bytes) (n : Z) (ap : va_list) : option (bytes * Z) :=
  match ap with
  | Spent => None
  | Args text =>
      let w := if 0 <? n then take (Z.to_nat (n - 1)) text ++ [NUL] else [] in
      if len buf <? len w then None
      else Some (w ++ drop (length w) buf, if len text <? 2 ^ 31 then len text else -1)
  end.

(** [realloc] of a block that holds [c]. *)
Definition realloc `{OS} (c : bytes) (n : Z) : M (option bytes) :=
  p ← malloc n;
  mret (match p with
        | Some fresh => Some (take (Z.to_nat n) c ++ drop (length c) fresh)
        | None => None
        end).

(** [syslog(priority, fmt, arg)] for an [int] argument: percent signs, and the
    argument for the first conversion.  [None] is undefined behaviour - a conversion
    without an argument or of another type - or a conversion with flags, [%m] and
    the like, which are left out. *)
Fixpoint syslog_format (args : list Z) (fmt : bytes) : option bytes :=
  match fmt with
  | [] => Some []
  | c :: rest =>
      if decide (c = PERCENT) then
        match rest with
        | [] => None
        | d :: rest =>
            if decide (d = PERCENT) then cons PERCENT <$> syslog_format args rest
            else if decide (d = "d"%char \/ d = "i"%char) then
              match args with
              | [] => None
              | a :: args => app (print_dec a) <$> syslog_format args rest
              end
            else None
        end
      else cons c <$> syslog_format args rest
  end.

(** ** The code *)

Definition stats_log_verbose (verbose : bool) (st : log_state) : log_state :=
  LogState verbose st.(g_level) st.(fmt_buf_size) st.(fmt_buf).

Definition stats_set_log_level (level : Z) (st : log_state) : log_state :=
  LogState st.(g_verbose) level st.(fmt_buf_size) st.(fmt_buf).

Definition set_fmt_buf (n : Z) (buf : option bytes) (st : log_state) : log_state :=
  LogState st.(g_verbose) st.(g_level) n buf.

Definition stats_log_end (st : log_state) : log_state := set_fmt_buf 0 None st.

Section code.
Context `{OS}.
Implicit Types (st : log_state).

(** [while (1)]: the size doubles at every round. *)
Fixpoint format_loop (fuel : nat) (ap : va_list) st : M formatted :=
  match fuel with
  | O => ub
  | S fuel =>
      buf ← defined st.(fmt_buf);
      '(buf, fmt_len) ← defined (vsnprintf buf st.(fmt_buf_size) ap);
      let st := set_fmt_buf st.(fmt_buf_size) (Some buf) st in
      if fmt_len <? 0 then mret (OutputError st)
      else if fmt_len <? st.(fmt_buf_size) then mret (Formatted fmt_len st)
      else
        let n := 2 * st.(fmt_buf_size) in
        if 2 ^ 31 <=? n then ub else                    (* signed overflow *)
        np ← realloc buf n;
        match np with
        | None => mret (AllocFailure (set_fmt_buf n (Some buf) st))
        | Some np => format_loop fuel Spent (set_fmt_buf n (Some np) st)
        end
  end.

(** The loop over [fwrite]; every round writes a byte or stops. *)
Fixpoint write_loop (fuel : nat) (buf : bytes) (total_written fmt_len : Z) : M Z :=
  if total_written <? fmt_len then
    match fuel with
    | O => ub
    | S fuel =>
        bw ← sys (Fwrite (take (Z.to_nat (fmt_len - total_written))
                               (drop (Z.to_nat total_written) buf)));
        if bw =? 0 then mret total_written
        else write_loop fuel buf (total_written + bw) fmt_len
    end
  else mret total_written.

(** The part for [g_verbose == 1]. *)
Definition write_stderr (prefix : option bytes) (buf : bytes) (fmt_len : Z) : M unit :=
  _ ← (match prefix with
       | Some prefix => _ ← sys (Fwrite prefix); mret ()
       | None => mret ()
       end);
  total_written ← write_loop (Z.to_nat fmt_len) buf 0 fmt_len;
  if fmt_len <=? total_written then _ ← sys (Fwrite [LF]); mret () else mret ().

(** After the message is formatted. *)
Definition emit (prefix : option bytes) (fmt_len : Z) st : M log_state :=
  buf ← defined st.(fmt_buf);
  _ ← (if st.(g_verbose) then write_stderr prefix buf fmt_len else mret ());
  message ← defined (syslog_format [fmt_len] (cstr buf));
  _ ← sys (Syslog message);
  if STATSRELAY_LOG_BUF_SIZE <? st.(fmt_buf_size) then
    np ← realloc buf STATSRELAY_LOG_BUF_SIZE;
    match np with
    | None => mret (stats_log_end st)
    | Some np => mret (set_fmt_buf STATSRELAY_LOG_BUF_SIZE (Some np) st)
    end
  else mret st.

(** The format buffer is allocated on the first call. *)
Definition first_buffer st : M (option log_state) :=
  match st.(fmt_buf) with
  | None =>
      p ← malloc STATSRELAY_LOG_BUF_SIZE;
      mret (match p with
            | None => None
            | Some c => Some (set_fmt_buf STATSRELAY_LOG_BUF_SIZE (Some c) st)
            end)
  | Some _ => mret (Some st)
  end.

Definition stats_vlog (prefix : option bytes) (ap : va_list) st : M log_state :=
  r ← first_buffer st;
  match r with
  | None => mret (stats_log_end st)
  | Some st =>
      (* 32 rounds double past any [int] *)
      f ← format_loop 32 ap st;
      match f with
      | OutputError st => mret st
      | AllocFailure st => mret (stats_log_end st)
      | Formatted fmt_len st => emit prefix fmt_len st
      end
  end.

(** The three variadic functions; [text] is what their format expands to. *)
Definition stats_debug_log (text : bytes) st : M log_state :=
  if st.(g_level) <=? STATSRELAY_LOG_DEBUG
  then stats_vlog (Some (lit "DEBUG: ")) (Args text) st else mret st.

Definition stats_log (text : bytes) st : M log_state :=
  if st.(g_level) <=? STATSRELAY_LOG_INFO then stats_vlog None (Args text) st else mret st.

Definition stats_error_log (text : bytes) st : M log_state :=
  if st.(g_level) <=? STATSRELAY_LOG_ERROR then
    let orig_verbose := st.(g_verbose) in
    st ← stats_vlog (Some (lit "ERROR: ")) (Args text) (stats_log_verbose true st);
    mret (stats_log_verbose orig_verbose st)
  else mret st.
End code.

(** ** What reaches stderr and syslog *)

(** The bytes that the calls [l], made after [tr], write to stderr. *)
Fixpoint written `{OS} (tr : trace) (l : list call) : bytes :=
  match l with
  | [] => []
  | c :: l =>
      match c with
      | Fwrite d => take (Z.to_nat (os tr (Fwrite d))) d
      | _ => []
      end ++ written (tr ++ [c]) l
  end.

Definition is_fwrite (c : call) : Prop :=
  match c with Fwrite _ => True | _ => False end.

(** stderr takes at least a byte of every non-empty write. *)
Class StderrOpen `{OS} : Prop :=
  stderr_open : forall tr d, d <> [] -> 0 < os tr (Fwrite d).

(** The format buffer is NULL with size 0, or has the initial size: long messages
    shrink it again. *)
Definition log_ok (st : log_state) : Prop :=
  match st.(fmt_buf) with
  | None => st.(fmt_buf_size) = 0
  | Some c => st.(fmt_buf_size) = STATSRELAY_LOG_BUF_SIZE /\ len c = STATSRELAY_LOG_BUF_SIZE
  end.

(** A message that the initial buffer holds and that is no format. *)
Definition plain (text : bytes) : Prop :=
  len text < STATSRELAY_LOG_BUF_SIZE /\ (NUL ∉ text) /\ (PERCENT ∉ text).

(** What one message does: [text] to syslog, once and last, and with [verbose] to
    stderr, after the prefix.  stderr may stop taking bytes, which loses the rest of
    the message; the prefix is written once only, even if a part of it is lost. *)
Definition logged `{OS} (verbose : bool) (prefix : option bytes) (text : bytes)
    (tr tr' : trace) : Prop :=
  exists l, tr' = tr ++ l ++ [Syslog text] /\
    Forall (fun c => is_malloc c \/ is_fwrite c) l /\
    if verbose then
      exists k t, written tr l = take k (default [] prefix) ++ t /\
        t `prefix_of` text ++ [LF] /\ (StderrOpen -> t = text ++ [LF])
    else written tr l = [].

Section lemmas.
Context `{OSLaws}.
Implicit Types (st : log_state) (text : bytes) (tr : trace).

Lemma written_app tr l1 l2 : written tr (l1 ++ l2) = written tr l1 ++ written (tr ++ l1) l2.
Proof.
  revert tr. induction l1 as [|c l1 IH]; intros tr; cbn; [by rewrite app_nil_r|].
  by rewrite IH, <- !app_assoc.
Qed.

Lemma written_malloc tr l : Forall is_malloc l -> written tr l = [].
Proof. intros Hl. revert tr. induction Hl as [|[] l ? _ IH]; intros tr; try done; apply IH. Qed.

Lemma syslog_plain args text : (PERCENT ∉ text) -> syslog_format args text = Some text.
Proof.
  induction text as [|c text IH]; intros Hp; cbn; [done|].
  apply not_elem_of_cons in Hp as [Hc Hp]. rewrite decide_False by congruence. by rewrite IH.
Qed.

(** The loop writes the message from where it stands, up to the first refusal. *)
Lemma write_loop_spec fuel text rest total tr :
  0 <= total <= len text -> len text - total <= Z.of_nat fuel ->
  wp (write_loop fuel (text ++ rest) total (len text)) (fun n tr' => exists l,
    tr' = tr ++ l /\ Forall is_fwrite l /\ total <= n <= len text /\
    written tr l = take (Z.to_nat (n - total)) (drop (Z.to_nat total) text) /\
    (StderrOpen -> n = len text)) tr.
Proof.
  revert total tr. induction fuel as [|fuel IH]; intros total tr Ht Hf; cbn [write_loop];
    (destruct (Z.ltb_spec total (len text)) as [Hlt|]; [|apply wp_ret; exists []; rewrite app_nil_r]).
  - lia.
  - split_and!; [done|done|lia|lia| |lia].
    replace total with (len text) by lia. by rewrite Z.sub_diag.
  - set (d := take _ (drop _ _)).
    assert (Hd : d = drop (Z.to_nat total) text).
    { unfold d. rewrite drop_app_le by (unfold len in *; lia). rewrite take_app_le by lens.
      rewrite take_ge; [done|lens]. }
    apply wp_bind, (wp_sys (Fwrite d)). pose proof (fwrite_at_most tr d) as Hbw.
    set (bw := os tr (Fwrite d)) in *.
    assert (Hlen : len d = len text - total) by (rewrite Hd; lens).
    destruct (Z.eqb_spec bw 0) as [Hz|Hz].
    + apply wp_ret. exists [Fwrite d]. split_and!; [done|by repeat constructor|lia|lia| |].
      * rewrite Z.sub_diag. cbn. fold bw. by rewrite Hz.
      * intros Hopen. assert (d <> []) as Hne by (intros E; rewrite E, len_nil in Hlen; lia).
        pose proof (Hopen tr d Hne) as Hop. fold bw in Hop. lia.
    + eapply wp_mono; [apply IH; lia|]. intros n tr' (l & -> & Hl & Hn & Hw & Hall).
      exists (Fwrite d :: l). rewrite <- app_assoc. split_and!; [done|by constructor|lia|lia| |done].
      cbn [written]. fold bw. rewrite Hw, Hd.
      replace (Z.to_nat (n - total)) with (Z.to_nat bw + Z.to_nat (n - (total + bw)))%nat by lia.
      rewrite <- take_take_drop, drop_drop. do 3 f_equal. lia.
  - split_and!; [done|done|lia|lia| |lia].
    replace total with (len text) by lia. by rewrite Z.sub_diag.
Qed.

Lemma write_stderr_spec prefix text rest tr :
  wp (write_stderr prefix (text ++ rest) (len text)) (fun _ tr' => exists l,
    tr' = tr ++ l /\ Forall is_fwrite l /\
    exists k t, written tr l = take k (default [] prefix) ++ t /\
      t `prefix_of` text ++ [LF] /\ (StderrOpen -> t = text ++ [LF])) tr.
Proof.
  unfold write_stderr. apply wp_bind.
  apply (wp_mono _ (fun _ tr' => exists l, tr' = tr ++ l /\ Forall is_fwrite l /\
    exists k, written tr l = take k (default [] prefix))).
  { destruct prefix as [p|]; wp_steps.
    - exists [Fwrite p]. split_and!; [done|by repeat constructor|].
      eexists. cbn. by rewrite app_nil_r.
    - exists []. rewrite app_nil_r. split_and!; [done|done|]. by exists 0%nat. }
  intros _ tr1 (l1 & -> & Hl1 & k & Hw1). pose proof (len_nonneg text).
  apply wp_bind. eapply wp_mono; [apply write_loop_spec; lia|].
  intros n tr2 (l2 & -> & Hl2 & Hn & Hw2 & Hall).
  rewrite Z.sub_0_r, drop_0 in Hw2. rewrite <- app_assoc.
  destruct (Z.leb_spec (len text) n) as [Hge|Hlt].
  - rewrite take_ge in Hw2 by lens. apply wp_bind, (wp_sys (Fwrite [LF])), wp_ret.
    exists (l1 ++ l2 ++ [Fwrite [LF]]). rewrite <- !app_assoc. split_and!; [done| |].
    { rewrite !Forall_app. split_and!; [done..|by repeat constructor]. }
    exists k, (text ++ take (Z.to_nat (os ((tr ++ l1) ++ l2) (Fwrite [LF]))) [LF]).
    rewrite !written_app, Hw1, Hw2. cbn. rewrite app_nil_r, <- !app_assoc. split_and!; [done| |].
    + apply prefix_app, prefix_take.
    + intros Hopen. f_equal. rewrite app_assoc. apply take_ge. cbn.
      pose proof (Hopen ((tr ++ l1) ++ l2) [LF] ltac:(done)). lia.
  - apply wp_ret. exists (l1 ++ l2). split_and!; [done|by rewrite Forall_app|].
    exists k, (take (Z.to_nat n) text). rewrite written_app, Hw1, Hw2. split_and!; [done| |].
    + etrans; [apply prefix_take|by apply prefix_app_r].
    + intros Hopen. specialize (Hall Hopen). lia.
Qed.
End lemmas.

(** ** Short messages *)

Section messages.
Context `{OSLaws}.
Implicit Types (st : log_state) (text : bytes) (tr : trace).

(** One round formats a short message. *)
Lemma format_loop_short n text c st tr :
  st.(fmt_buf) = Some c -> st.(fmt_buf_size) = STATSRELAY_LOG_BUF_SIZE ->
  len c = STATSRELAY_LOG_BUF_SIZE -> len text < STATSRELAY_LOG_BUF_SIZE ->
  exists rest, len (text ++ NUL :: rest) = STATSRELAY_LOG_BUF_SIZE /\
  format_loop (S n) (Args text) st tr = Some (Formatted (len text)
    (set_fmt_buf STATSRELAY_LOG_BUF_SIZE (Some (text ++ NUL :: rest)) st), tr).
Proof.
  intros Hc Hsz Hlen Hshort. exists (drop (S (length text)) c).
  change STATSRELAY_LOG_BUF_SIZE with 256 in *.
  split; [lens|]. cbn [format_loop]. unfold mbind, M_bind. rewrite Hc. cbn [defined mret M_ret].
  unfold vsnprintf. rewrite Hsz. cbn. rewrite take_ge by lens.
  assert (E : (len c <? len (text ++ [NUL])) = false) by (apply Z.ltb_ge; lens). rewrite E. cbn.
  assert (E1 : (len text <? 2 ^ 31) = true) by (apply Z.ltb_lt; lia).
  assert (E2 : (len text <? 0) = false) by (apply Z.ltb_ge; lens).
  assert (E3 : (len text <? 256) = true) by (apply Z.ltb_lt; lia).
  change 2147483648 with (2 ^ 31). rewrite E1, E2, E3, length_app, <- app_assoc. cbn.
  by rewrite Nat.add_1_r.
Qed.

Lemma emit_short prefix text rest st tr :
  plain text -> len (text ++ NUL :: rest) = STATSRELAY_LOG_BUF_SIZE ->
  wp (emit prefix (len text)
        (set_fmt_buf STATSRELAY_LOG_BUF_SIZE (Some (text ++ NUL :: rest)) st)) (fun st' tr' =>
    st' = set_fmt_buf STATSRELAY_LOG_BUF_SIZE (Some (text ++ NUL :: rest)) st /\
    logged st.(g_verbose) prefix text tr tr') tr.
Proof.
  intros (Hshort & Hnul & Hperc) Hlen. unfold emit. cbn [fmt_buf set_fmt_buf].
  apply wp_bind, wp_ret, wp_bind. cbn [g_verbose set_fmt_buf].
  eapply (wp_mono _ (fun _ tr' => exists l, tr' = tr ++ l /\ Forall is_fwrite l /\
    if st.(g_verbose) then
      exists k t, written tr l = take k (default [] prefix) ++ t /\
        t `prefix_of` text ++ [LF] /\ (StderrOpen -> t = text ++ [LF])
    else written tr l = [])).
  { destruct (g_verbose st); [apply write_stderr_spec|].
    apply wp_ret. exists []. by rewrite app_nil_r. }
  intros _ tr1 (l & -> & Hl & Hw). rewrite cstr_app_nul, syslog_plain by done.
  apply wp_bind, wp_ret, wp_bind, (wp_sys (Syslog text)). cbn [fmt_buf_size set_fmt_buf].
  rewrite Z.ltb_irrefl. apply wp_ret. split; [done|]. exists l. rewrite <- app_assoc.
  split_and!; [done|eapply Forall_impl; [done|by right]|done].
Qed.

(** The buffer is there, or cannot be allocated. *)
Lemma first_buffer_spec st tr :
  log_ok st ->
  wp (first_buffer st) (fun r tr' => match r with
    | Some st' => grows is_malloc tr tr' /\ exists c,
        st' = set_fmt_buf STATSRELAY_LOG_BUF_SIZE (Some c) st /\ len c = STATSRELAY_LOG_BUF_SIZE
    | None => os tr (Malloc STATSRELAY_LOG_BUF_SIZE) = None /\
        tr' = tr ++ [Malloc STATSRELAY_LOG_BUF_SIZE]
    end) tr.
Proof.
  unfold log_ok, first_buffer. intros Hok. destruct st as [v l n [c|]]; cbn [fmt_buf fmt_buf_size] in *.
  - destruct Hok as [-> Hlen]. apply wp_ret. split; [done|by exists c].
  - unfold malloc. apply wp_bind, wp_bind, (wp_sys (Malloc _)), wp_ret, wp_ret.
    destruct (os tr (Malloc _)) as [g|] eqn:E; [|done].
    split; [by apply grows_one|]. eexists. split; [done|]. unfold len. by rewrite length_resize.
Qed.

Lemma vlog_spec prefix text st tr :
  log_ok st -> plain text ->
  wp (stats_vlog prefix (Args text) st) (fun st' tr' =>
    log_ok st' /\ st'.(g_verbose) = st.(g_verbose) /\ st'.(g_level) = st.(g_level) /\
    (logged st.(g_verbose) prefix text tr tr' \/
     os tr (Malloc STATSRELAY_LOG_BUF_SIZE) = None /\ tr' = tr ++ [Malloc STATSRELAY_LOG_BUF_SIZE])) tr.
Proof.
  intros Hok Htext. unfold stats_vlog. apply wp_bind.
  eapply wp_mono; [by apply first_buffer_spec|]. intros [st1|] tr1; [|intros Hnull].
  2:{ apply wp_ret. split_and!; [done..|by right]. }
  intros ((l0 & -> & Hl0) & c & -> & Hlen).
  destruct (format_loop_short 31 text c (set_fmt_buf STATSRELAY_LOG_BUF_SIZE (Some c) st)
    (tr ++ l0) eq_refl eq_refl Hlen (proj1 Htext)) as (rest & Hl & E).
  apply wp_bind. eapply wp_run; [exact E|]. eapply wp_mono; [by apply emit_short|].
  intros st' tr' [-> (l & -> & Hlog & Hw)]. split_and!; [done..|left].
  exists (l0 ++ l). rewrite <- !app_assoc. split_and!; [done| |].
  - apply Forall_app. split; [|done]. eapply Forall_impl; [exact Hl0|by left].
  - rewrite written_app, (written_malloc tr l0) by done. exact Hw.
Qed.
End messages.

(** ** Messages that break the logger *)

(** A message with a string conversion and only [%]-free text before it. *)
Definition directive (text : bytes) : Prop :=
  exists pre post, (PERCENT ∉ pre) /\ (NUL ∉ pre) /\ text = pre ++ lit "%s" ++ post.

Section broken.
Context `{OSLaws, !Plenty}.
Implicit Types (st : log_state) (text : bytes) (tr : trace).

(** The second round reads the arguments again. *)
Lemma format_loop_long n text c st tr :
  len c = STATSRELAY_LOG_BUF_SIZE -> STATSRELAY_LOG_BUF_SIZE <= len text < 2 ^ 31 ->
  format_loop (S (S n)) (Args text) (set_fmt_buf STATSRELAY_LOG_BUF_SIZE (Some c) st) tr = None.
Proof.
  intros Hc Hlen. change STATSRELAY_LOG_BUF_SIZE with 256 in *. cbn [format_loop].
  unfold mbind, M_bind. cbn [defined fmt_buf set_fmt_buf mret M_ret fmt_buf_size]. unfold vsnprintf.
  set (w := if 0 <? 256 then _ else _).
  assert (Hw : len w = 256) by (unfold w; cbn [Z.ltb Z.compare]; lens).
  assert (E : (len c <? len w) = false) by (apply Z.ltb_ge; lia).
  assert (E1 : (len text <? 2 ^ 31) = true) by (apply Z.ltb_lt; lia).
  assert (E2 : (len text <? 0) = false) by (apply Z.ltb_ge; lia).
  assert (E3 : (len text <? 256) = false) by (apply Z.ltb_ge; lia).
  rewrite E, E1. cbn [defined mret M_ret]. rewrite E2, E3. change (2 ^ 31 <=? 2 * 256) with false.
  unfold realloc, malloc, sys, mbind, M_bind. destruct (plenty tr (2 * 256)) as [g Hg]; [done|].
  cbn beta iota. by rewrite Hg.
Qed.

Lemma syslog_directive n pre post :
  (PERCENT ∉ pre) -> syslog_format n (pre ++ lit "%s" ++ post) = None.
Proof.
  induction pre as [|c pre IH]; intros Hp; [done|]. apply not_elem_of_cons in Hp as [Hc Hp].
  cbn. rewrite decide_False by congruence. cbn in IH. by rewrite IH.
Qed.

Lemma cstr_no_nul_prefix pre rest : NUL ∉ pre -> cstr (pre ++ rest) = pre ++ cstr rest.
Proof.
  induction pre as [|c pre IH]; intros Hp; [done|]. apply not_elem_of_cons in Hp as [Hc Hp].
  cbn. rewrite decide_False by congruence. by rewrite IH.
Qed.

(** Once the buffer is there, what makes the rest undefined makes all undefined. *)
Lemma vlog_undefined prefix text st tr :
  log_ok st ->
  (forall c tr1, len c = STATSRELAY_LOG_BUF_SIZE ->
    (f ← format_loop 32 (Args text) (set_fmt_buf STATSRELAY_LOG_BUF_SIZE (Some c) st);
     match f with
     | OutputError st => mret st
     | AllocFailure st => mret (stats_log_end st)
     | Formatted fmt_len st => emit prefix fmt_len st
     end) tr1 = None) ->
  stats_vlog prefix (Args text) st tr = None.
Proof.
  intros Hok Hrest. unfold stats_vlog. unfold mbind at 1, M_bind at 1.
  destruct (wp_inv _ _ _ (first_buffer_spec st tr Hok)) as ([st'|] & tr1 & -> & Hr).
  - destruct Hr as (_ & c & -> & Hc). by apply Hrest.
  - destruct Hr as [Hnull _]. destruct (plenty tr STATSRELAY_LOG_BUF_SIZE) as [g Hg]; [done|congruence].
Qed.

Lemma emit_directive prefix text rest st tr :
  directive text ->
  emit prefix (len text) (set_fmt_buf STATSRELAY_LOG_BUF_SIZE (Some (text ++ NUL :: rest)) st) tr = None.
Proof.
  intros (pre & post & Hp & Hn & ->). unfold emit, mbind, M_bind.
  cbn [fmt_buf g_verbose set_fmt_buf defined mret M_ret]. rewrite <- !app_assoc, (cstr_no_nul_prefix pre) by done.
  change (cstr (lit "%s" ++ post ++ NUL :: rest)) with (lit "%s" ++ cstr (post ++ NUL :: rest)).
  rewrite syslog_directive by done. by destruct (if g_verbose st then _ else _) as [[]|].
Qed.

Lemma vlog_long prefix text st tr :
  log_ok st -> STATSRELAY_LOG_BUF_SIZE <= len text < 2 ^ 31 ->
  stats_vlog prefix (Args text) st tr = None.
Proof.
  intros Hok Hlen. apply vlog_undefined; [done|]. intros c tr1 Hc.
  unfold mbind, M_bind. by rewrite (format_loop_long 30).
Qed.

Lemma vlog_directive prefix text st tr :
  log_ok st -> len text < STATSRELAY_LOG_BUF_SIZE -> directive text ->
  stats_vlog prefix (Args text) st tr = None.
Proof.
  intros Hok Hlen Hd. apply vlog_undefined; [done|]. intros c tr1 Hc.
  destruct (format_loop_short 31 text c (set_fmt_buf STATSRELAY_LOG_BUF_SIZE (Some c) st) tr1
    eq_refl eq_refl Hc Hlen) as (rest & _ & E).
  unfold mbind, M_bind. rewrite E. by apply (emit_directive prefix text rest st).
Qed.
End broken.

(** ** The three functions *)

Inductive severity := Debug | Info | Error.

Section severities.
Context `{OS}.
Implicit Types (sev : severity).

Definition log_at sev (text : bytes) (st : log_state) : M log_state :=
  match sev with
  | Debug => stats_debug_log text st
  | Info => stats_log text st
  | Error => stats_error_log text st
  end.

Definition threshold sev : Z :=
  match sev with
  | Debug => STATSRELAY_LOG_DEBUG
  | Info => STATSRELAY_LOG_INFO
  | Error => STATSRELAY_LOG_ERROR
  end.

Definition message_prefix sev : option bytes :=
  match sev with
  | Debug => Some (lit "DEBUG: ")
  | Info => None
  | Error => Some (lit "ERROR: ")
  end.

(** Errors go to stderr always, other messages only when the program is verbose. *)
Definition to_stderr sev (st : log_state) : bool :=
  match sev with Error => true | _ => st.(g_verbose) end.
End severities.

Section theorems.
Context `{OSLaws}.
Implicit Types (st : log_state) (text : bytes) (tr : trace) (sev : severity).

(** C35. log.c, every branch of the three functions.  A message below the level
    does nothing at all.  Any other short message without percent signs
    reaches syslog exactly once, and stderr when it is an error or the program is
    verbose, unless the very first allocation fails, which loses it.  The settings
    and the invariant of the buffer survive, so that this holds of message after
    message. *)
Theorem log_at_levels sev text st tr :
  log_ok st -> plain text ->
  wp (log_at sev text st) (fun st' tr' =>
    log_ok st' /\ st'.(g_verbose) = st.(g_verbose) /\ st'.(g_level) = st.(g_level) /\
    if st.(g_level) <=? threshold sev then
      logged (to_stderr sev st) (message_prefix sev) text tr tr' \/
      os tr (Malloc STATSRELAY_LOG_BUF_SIZE) = None /\ tr' = tr ++ [Malloc STATSRELAY_LOG_BUF_SIZE]
    else st' = st /\ tr' = tr) tr.
Proof.
  intros Hok Htext. destruct sev; unfold log_at, threshold; cbn [message_prefix to_stderr];
    unfold stats_debug_log, stats_log, stats_error_log;
    (destruct (_ <=? _) eqn:E; [|by apply wp_ret]); [by apply vlog_spec..|].
  apply wp_bind. eapply wp_mono; [by apply (vlog_spec _ _ (stats_log_verbose true st))|].
  intros st' tr' (Hok' & _ & Hl & Hlog). apply wp_ret. by split_and!.
Qed.
End theorems.

Section unsafe.
Context `{OSLaws, !Plenty}.

(** C36. log.c, the messages it cannot print.  A message of 256 bytes or more makes
    [stats_vlog] read its [va_list] a second time, and a message that contains
    a string conversion is handed to syslog as a format with an [int] for the
    pointer: both are undefined behaviour.  Received lines are logged, so that a client
    can reach both. *)
Theorem log_at_undefined sev text st tr :
  log_ok st -> st.(g_level) <= threshold sev -> len text < 2 ^ 31 ->
  STATSRELAY_LOG_BUF_SIZE <= len text \/ directive text ->
  log_at sev text st tr = None.
Proof.
  intros Hok Hlevel Hlen Hbad. apply Z.leb_le in Hlevel.
  assert (Hvlog : forall prefix st', log_ok st' -> stats_vlog prefix (Args text) st' tr = None).
  { intros prefix st' Hok'. destruct (Z.leb_spec STATSRELAY_LOG_BUF_SIZE (len text)).
    - by apply vlog_long.
    - apply vlog_directive; [done..|]. by destruct Hbad; [lia|]. }
  destruct sev; cbn in *; unfold stats_debug_log, stats_log, stats_error_log;
    cbn; rewrite Hlevel; [by apply Hvlog..|].
  unfold mbind, M_bind. by rewrite Hvlog.
Qed.
End unsafe.

(** ** Witnesses *)

Lemma log_at_levels_witness :
  @wp _ (@log_at quiet_os Error (lit "hello") log_start) (fun st' tr' => log_ok st' /\
    tr' <> []) [].
Proof.
  eapply wp_mono.
  - apply (@log_at_levels quiet_os quiet_laws Error (lit "hello") log_start []).
    + reflexivity.
    + split_and!; [reflexivity|by apply no_nul_lit|by apply (bool_decide_unpack _); vm_compute].
  - intros st' tr' (Hok & _ & _ & Hlog). split; [done|]. cbn in Hlog.
    destruct Hlog as [(l & -> & _)|[_ ->]]; [by destruct l|done].
Defined.

Lemma log_at_undefined_witness :
  @log_at quiet_os Error (lit "invalid line: %s") log_start [] = None.
Proof.
  apply (@log_at_undefined quiet_os quiet_plenty); [reflexivity|by vm_compute|reflexivity|right].
  exists (lit "invalid line: "), [].
  split_and!; [by apply (bool_decide_unpack _); vm_compute|by apply no_nul_lit|reflexivity].
Defined.
