(* ===== verification/Main.v ===== *)
(** * main.c: options, configuration, start and stop

    [getopt_long] is the list of its answers, with [optarg]; its end is the answer
    -1.  What a file holds is the parameter [files]: [None] when it cannot be
    opened, else whether libyaml initialises and the events it then delivers.  libev's
    loop is the step from one state to the next of Service; here is what happens
    before the loop, in the handlers of signals with the events that are pending then,
    and after it. *)
From S2P Require Import Prelude Libc Sys SList Hashring Tcpclient YamlConfig ParserType Backend Listener.
From S2P Require Import Server StatsLaws Service Log.

(** ** The code *)

Definition default_config : bytes := lit "/etc/statsrelay.yaml".

(** The globals: [servers], and the statics of log.c. *)
Record process := Process {
  servers : server_collection;
  logging : log_state;
}.

Definition set_servers x p := Process x p.(logging).
Definition set_logging x p := Process p.(servers) x.

(** Globals start as zeros. *)
Definition process_start : process :=
  Process (Collection false None init_server init_server) log_start.

(** How the loop over the options ends: with a choice between running and only
    checking, with [return code], or with [goto err]. *)
Inductive parsed :=
  | Options (just_check_config : bool) (p : process)
  | Returned (code : Z) (p : process)
  | Failed (p : process).

(** How [main] reaches the event loop, or does not. *)
Inductive started :=
  | Exited (code : Z) (p : process) (w : world)
  | Running (p : process) (cfg : config) (w : world).

(** The watchers of the loop: those of the servers, and those of the signals. *)
Inductive loop_event :=
  | WatcherEvent (ev : event)
  | ShutdownSignal
  | HangupSignal.

(** [tolower] in the C locale. *)
Definition tolower (c : ascii) : ascii :=
  if (65 <=? char_code c) && (char_code c <=? 90)
  then ascii_of_nat (nat_of_ascii c + 32) else c.

Section code.
Context `{OS}.
Context (files : bytes -> option (bool * list yaml_event)) (PACKAGE_STRING : bytes).
Implicit Types (p : process) (w : world).

(** The copy is read before anyone asks whether there is one. *)
Definition to_lower (input : bytes) : M bytes :=
  output ← strdup input;
  output ← defined output;
  mret (tolower <$> output).

Definition handle_level (lower : bytes) (st : log_state) : log_state :=
  if decide (lower = lit "debug") then stats_log_verbose true (stats_set_log_level STATSRELAY_LOG_DEBUG st)
  else if decide (lower = lit "warn") then stats_set_log_level STATSRELAY_LOG_WARN st
  else if decide (lower = lit "error") then stats_set_log_level STATSRELAY_LOG_ERROR st
  else st.

(** The [switch], for an answer other than -1. *)
Definition handle_option (c : Z) (optarg : option bytes) (just_check_config : bool) p : M parsed :=
  if (c =? 0) || (c =? char_code "h") then mret (Returned 1 p)
  else if c =? char_code "v" then
    mret (Options just_check_config (set_logging (stats_log_verbose true p.(logging)) p))
  else if c =? char_code "V" then mret (Returned 0 p)
  else if c =? char_code "l" then
    optarg ← defined optarg;
    lower ← to_lower optarg;
    mret (Options just_check_config (set_logging (handle_level lower p.(logging)) p))
  else if c =? char_code "c" then
    optarg ← defined optarg;
    col ← init_server_collection optarg;
    mret (Options just_check_config (set_servers col p))
  else if c =? char_code "t" then
    optarg ← defined optarg;
    col ← init_server_collection optarg;
    mret (Options true (set_servers col p))
  else mret (Failed p).

Fixpoint handle_options (answers : list (Z * option bytes)) (just_check_config : bool) p : M parsed :=
  match answers with
  | [] => mret (Options just_check_config p)
  | (c, optarg) :: answers =>
      if int8 c =? -1 then mret (Options just_check_config p) else
      r ← handle_option (int8 c) optarg just_check_config p;
      match r with
      | Options just_check_config p => handle_options answers just_check_config p
      | r => mret r
      end
  end.

Definition log_info (text : bytes) p : M process :=
  st ← stats_log text p.(logging); mret (set_logging st p).

Definition log_error (text : bytes) p : M process :=
  st ← stats_error_log text p.(logging); mret (set_logging st p).

Definition load_config (filename : option bytes) p : M (option config * process) :=
  filename ← defined filename;
  match files filename with
  | None =>
      name ← defined p.(servers).(config_file);
      p ← log_error (lit "failed to open file " ++ name) p;
      mret (None, p)
  | Some (init_ok, events) =>
      cfg ← parse_config init_ok events;
      mret (cfg, p)
  end.

(** The labels [success] and [err]. *)
Definition finish (cfg : option config) p w : M (process * world) :=
  '(col, w) ← destroy_server_collection p.(servers) w;
  _ ← (match cfg with Some cfg => destroy_config cfg | None => mret () end);
  mret (Process col (stats_log_end p.(logging)), w).

Definition main_exit (code : Z) (cfg : option config) p w : M started :=
  '(p, w) ← finish cfg p w; mret (Exited code p w).

(** From the configuration to [ev_run]. *)
Definition main_run (just_check_config : bool) (cfg : option config) p w : M started :=
  match cfg with
  | None =>
      p ← log_error (lit "failed to parse config") p;
      main_exit 1 None p w
  | Some cfg =>
      if just_check_config then main_exit 0 (Some cfg) p w else
      '(worked, col, w) ← connect_server_collection p.(servers) cfg w;
      let p := set_servers col p in
      if negb worked then main_exit 1 (Some cfg) p w else
      p ← log_info (lit "main: Starting event loop") p;
      mret (Running p cfg w)
  end.

Definition main_start (answers : list (Z * option bytes)) p w : M started :=
  let col := p.(servers) in
  let p := Process (Collection false col.(config_file) col.(statsd_server) col.(carbon_server))
             (stats_set_log_level STATSRELAY_LOG_INFO p.(logging)) in
  r ← handle_options answers false p;
  match r with
  | Returned code p => mret (Exited code p w)
  | Failed p => main_exit 1 None p w
  | Options just_check_config p =>
      p ← log_info PACKAGE_STRING p;
      p ← (if p.(servers).(initialized) then mret p else
           col ← init_server_collection default_config; mret (set_servers col p));
      '(cfg, p) ← load_config p.(servers).(config_file) p;
      main_run just_check_config cfg p w
  end.

(** ** Signals *)

(** SIGINT and SIGTERM.  As ev(3) says of [ev_break], it ends the loop only after the
    outstanding events have been processed: [run_pending]. *)
Definition graceful_shutdown p w : M (process * world) :=
  p ← log_info (lit "Received signal, shutting down.") p;
  '(col, w) ← destroy_server_collection p.(servers) w;
  mret (set_servers col p, w).

(** SIGHUP; [server] is the pointer of stats.h, with what it points to. *)
Definition reload_config (server : option (server_params * stats_server_t)) p
    : M (option (server_params * stats_server_t) * process) :=
  p ← log_info (lit "Received SIGHUP, reloading.") p;
  match server with
  | None => mret (None, p)
  | Some (ps, s) =>
      s ← stats_server_reload ps.(sp_config) s;
      mret (Some (ps, s), p)
  end.

(** What the loop can call: [server] is never assigned, so that it is NULL on SIGHUP.
    Stopping a watcher also clears its pending event (ev(3)), so that only an event of
    a watcher that is still active is run. *)
Definition run_loop_event (ev : loop_event) p w : M (process * world) :=
  match ev with
  | WatcherEvent ev => fun tr =>
      if possible w tr ev then (w ← run_event ev w; mret (p, w)) tr else Some ((p, w), tr)
  | ShutdownSignal => graceful_shutdown p w
  | HangupSignal => '(_, p) ← reload_config None p; mret (p, w)
  end.

Fixpoint run_pending (pending : list loop_event) p w : M (process * world) :=
  match pending with
  | [] => mret (p, w)
  | ev :: pending => '(p, w) ← run_loop_event ev p w; run_pending pending p w
  end.

(** From the signal to the end of [main]; [pending] are the events that libev had
    collected together with the signal. *)
Definition main_stop (cfg : config) (pending : list loop_event) p w : M started :=
  '(p, w) ← graceful_shutdown p w;
  '(p, w) ← run_pending pending p w;
  main_exit 0 (Some cfg) p w.
End code.

(** Without memory for the copy of a level, the check for it comes too late. *)
Lemma to_lower_no_memory `{OS} input tr :
  os tr (Malloc (len input + 1)) = None -> to_lower input tr = None.
Proof.
  intros E. unfold to_lower, strdup, malloc, sys, mbind, M_bind. cbn. by rewrite E.
Qed.

(** ** The options that are accepted *)

(** The name of a file that fits in a message. *)
Definition file_name (f : bytes) : Prop := (NUL ∉ f) /\ (PERCENT ∉ f) /\ len f < 200.

Definition option_ok (a : Z * option bytes) : Prop :=
  a.1 = char_code "v" \/
  (a.1 = char_code "l" /\ exists t, a.2 = Some t /\ len t < 2 ^ 62) \/
  ((a.1 = char_code "c" \/ a.1 = char_code "t") /\ exists f, a.2 = Some f /\ file_name f).

Definition is_check (a : Z * option bytes) : bool := a.1 =? char_code "t".

(** The last file that is named, [f] if there is none. *)
Fixpoint named (f : option bytes) (answers : list (Z * option bytes)) : option bytes :=
  match answers with
  | [] => f
  | (c, optarg) :: answers =>
      named (if (c =? char_code "c") || (c =? char_code "t") then optarg else f) answers
  end.

(** The collection before it is connected. *)
Definition servers_named (f : option bytes) : server_collection :=
  Collection (bool_decide (is_Some f)) f init_server init_server.

(** Calls that concern no socket and no watcher. *)
Definition quiet_call (c : call) : Prop :=
  match c with Malloc _ | Fwrite _ | Syslog _ => True | _ => False end.

Lemma quiet_socket c : quiet_call c -> socket_call c.
Proof. intros Hc k. by destruct c. Qed.

Lemma quiet_malloc c : is_malloc c -> quiet_call c.
Proof. by destruct c. Qed.

Lemma quiet_start tr : grows quiet_call [] tr -> quiet_trace tr.
Proof.
  intros Hg. assert (Hs : grows socket_call [] tr) by (eapply grows_mono; [apply quiet_socket|done]).
  split.
  - intros a. rewrite (frontend_watchers a [] tr); [done|]. by apply socket_frontend.
  - intros k x. by rewrite (socket_active k x [] tr).
Qed.

Section proofs.
Context `{OSLaws, !Plenty}.
Context (files : bytes -> option (bool * list yaml_event)) (PACKAGE_STRING : bytes).
Implicit Types (p : process) (w : world) (tr : trace).

Lemma log_at_quiet sev text st tr :
  log_ok st -> plain text ->
  wp (log_at sev text st) (fun st' tr' => log_ok st' /\ grows quiet_call tr tr') tr.
Proof.
  assert (Hlogged : forall v prefix tr', logged v prefix text tr tr' -> grows quiet_call tr tr').
  { intros v prefix tr' (l & -> & Hl & _). exists (l ++ [Syslog text]). split; [done|].
    apply Forall_app. split; [|by apply Forall_singleton]. eapply Forall_impl; [exact Hl|].
    intros c [Hc|Hc]; by destruct c. }
  assert (Hvlog : forall prefix st, log_ok st -> plain text -> wp (stats_vlog prefix (Args text) st)
    (fun st' tr' => log_ok st' /\ grows quiet_call tr tr') tr).
  { intros prefix st' Hok Hp. eapply wp_mono; [by apply vlog_spec|].
    intros st1 tr1 (Hok1 & _ & _ & [Hlog|[_ ->]]); split; [done|by eapply Hlogged|done|by apply grows_one]. }
  intros Hok Hp. destruct sev; cbn [log_at]; unfold stats_debug_log, stats_log, stats_error_log;
    (destruct (_ <=? _); [|by apply wp_ret]); [by apply Hvlog..|].
  apply wp_bind. eapply wp_mono; [by apply Hvlog|]. intros st1 tr1 [Hok1 Hg1]. by apply wp_ret.
Qed.

Lemma log_info_spec text p tr :
  log_ok p.(logging) -> plain text ->
  wp (log_info text p) (fun p' tr' => log_ok p'.(logging) /\ p'.(servers) = p.(servers) /\
    grows quiet_call tr tr') tr.
Proof.
  intros Hok Hp. apply wp_bind. eapply wp_mono; [by apply (log_at_quiet Info)|].
  intros st tr' [Hst Hg]. by apply wp_ret.
Qed.

Lemma log_error_spec text p tr :
  log_ok p.(logging) -> plain text ->
  wp (log_error text p) (fun p' tr' => log_ok p'.(logging) /\ p'.(servers) = p.(servers) /\
    grows quiet_call tr tr') tr.
Proof.
  intros Hok Hp. apply wp_bind. eapply wp_mono; [by apply (log_at_quiet Error)|].
  intros st tr' [Hst Hg]. by apply wp_ret.
Qed.

Lemma dup_plenty t (Q : option bytes -> trace -> Prop) tr :
  len t < 2 ^ 62 -> (forall tr', grows is_malloc tr tr' -> Q (Some t) tr') -> wp (dup t) Q tr.
Proof.
  intros Ht HQ. pose proof (len_nonneg t). unfold dup. apply wp_bind, wp_malloc_plenty; [lia|].
  intros _ _. apply wp_ret, HQ. by apply grows_one.
Qed.

Lemma init_collection_spec f tr :
  file_name f ->
  wp (init_server_collection f) (fun col tr' => col = servers_named (Some f) /\ grows quiet_call tr tr') tr.
Proof.
  intros (_ & _ & Hf). apply wp_bind, dup_plenty; [lia|]. intros tr' Hg. apply wp_ret. split; [done|].
  eapply grows_mono; [apply quiet_malloc|done].
Qed.

Lemma handle_level_ok lower st : log_ok st -> log_ok (handle_level lower st).
Proof. intros Hst. unfold handle_level. by repeat case_decide. Qed.

Lemma handle_options_spec answers just p f tr :
  Forall option_ok answers -> log_ok p.(logging) -> p.(servers) = servers_named f ->
  wp (handle_options answers just p) (fun r tr' => grows quiet_call tr tr' /\
    exists p', r = Options (just || existsb is_check answers) p' /\
      log_ok p'.(logging) /\ p'.(servers) = servers_named (named f answers)) tr.
Proof.
  intros Ha. revert just p f tr. induction Ha as [|[c optarg] answers Ha _ IH]; intros just p f tr Hok Hf.
  { apply wp_ret. split; [done|]. exists p. by rewrite orb_false_r. }
  assert (Hnext : forall just' p' f' tr1, grows quiet_call tr tr1 -> log_ok p'.(logging) ->
    p'.(servers) = servers_named f' -> just || existsb is_check ((c, optarg) :: answers) = just' || existsb is_check answers ->
    named f ((c, optarg) :: answers) = named f' answers ->
    wp (handle_options answers just' p') (fun r tr' => grows quiet_call tr tr' /\
      exists p'', r = Options (just || existsb is_check ((c, optarg) :: answers)) p'' /\
        log_ok p''.(logging) /\ p''.(servers) = servers_named (named f ((c, optarg) :: answers))) tr1).
  { intros just' p' f' tr1 Hg1 Hok' Hf' -> ->. eapply wp_mono; [by apply IH|].
    intros r tr' [Hg Hr]. split; [by etrans|done]. }
  destruct Ha as [Ha|[[Ha (t & Ht & Hlen)]|[Ha (t & Ht & Hname)]]]; cbn in Ha; [|cbn in Ht..].
  - subst c. apply wp_bind, wp_ret. by apply (Hnext _ _ f).
  - subst c optarg. apply wp_bind, wp_bind, wp_ret, wp_bind, wp_bind. pose proof (len_nonneg t).
    apply wp_bind, wp_malloc_plenty; [lia|]. intros _ _. apply wp_ret, wp_bind, wp_ret, wp_ret, wp_ret.
    apply (Hnext _ _ f); [by apply grows_one|by apply handle_level_ok|done..].
  - assert (Hrun : forall (k : server_collection -> M parsed) Q, (forall tr1, grows quiet_call tr tr1 ->
      wp (k (servers_named (Some t))) Q tr1) -> wp (optarg ← defined optarg;
        col ← init_server_collection optarg; k col) Q tr).
    { intros k Q Hk. subst optarg. apply wp_bind, wp_ret, wp_bind.
      eapply wp_mono; [by apply init_collection_spec|]. intros col tr1 [-> Hg]. by apply Hk. }
    destruct Ha as [-> | ->]; cbn [handle_options]; apply wp_bind; apply Hrun; intros tr1 Hg1;
      apply wp_ret; (eapply Hnext; [done|done|cbn; reflexivity| |by subst]).
    + done.
    + cbn. by rewrite orb_true_r.
Qed.

(** ** The configuration *)

(** The parser does not run into a section without a name, and the file has a size. *)
Definition file_ok (name : bytes) : Prop :=
  match files name with
  | None => True
  | Some (init_ok, es) => init_ok = true /\ Forall event_sized es /\ len es < 2 ^ 32 /\
      forall tr, is_Some (parse_config true es tr)
  end.

(** What the file makes of the configuration. *)
Definition loaded (name : bytes) (cfg : option config) : Prop :=
  match files name with
  | None => cfg = None
  | Some (_, es) => exists tr tr', parse_config true es tr = Some (cfg, tr')
  end.

Lemma load_config_spec name p tr :
  file_ok name -> file_name name -> log_ok p.(logging) -> p.(servers) = servers_named (Some name) ->
  wp (load_config files (Some name) p) (fun '(cfg, p') tr' =>
    loaded name cfg /\ (forall c, cfg = Some c -> config_typed (2 ^ 32 - 1) c) /\
    log_ok p'.(logging) /\ p'.(servers) = p.(servers) /\ grows quiet_call tr tr') tr.
Proof.
  unfold file_ok, loaded, load_config. intros Hfile (Hnul & Hpc & Hlen) Hok Hs. apply wp_bind, wp_ret.
  destruct (files name) as [[init es]|].
  - destruct Hfile as (-> & Hsz & Hn & Hdef). destruct (Hdef tr) as [[cfg tr'] E].
    apply wp_bind. eapply wp_run; [exact E|]. apply wp_ret.
    destruct (wlp_run _ _ _ _ _ (parse_config_keeps es Hsz ltac:(lia) tr) E) as [Hg Ht].
    split_and!; [by exists tr, tr'| |done|done|eapply grows_mono; [apply quiet_malloc|done]].
    intros c Hc. eapply config_typed_le; [by apply Ht|lia].
  - rewrite Hs. apply wp_bind, wp_ret, wp_bind.
    eapply wp_mono; [apply log_error_spec; [done|]|].
    { split_and!; [|apply not_elem_of_app; split; [by apply no_nul_lit|done]|].
      - rewrite len_app. change (len (lit "failed to open file ")) with 20. unfold STATSRELAY_LOG_BUF_SIZE. lia.
      - apply not_elem_of_app. split; [|done]. by apply (bool_decide_unpack _); vm_compute. }
    intros p' tr' (Hok' & Hs' & Hg). apply wp_ret. by rewrite Hs', Hs.
Qed.

Lemma default_name : file_name default_config.
Proof. split_and!; [by apply no_nul_lit|by apply (bool_decide_unpack _); vm_compute|done]. Qed.

Lemma named_ok f answers :
  Forall option_ok answers -> (forall n, f = Some n -> file_name n) ->
  forall n, named f answers = Some n -> file_name n.
Proof.
  intros Ha. revert f. induction Ha as [|[c optarg] answers Ha _ IH]; intros f Hf n; cbn [named]; [auto|].
  apply IH. destruct Ha as [Ha|[[Ha _]|[_ (t & Ht & Hn)]]]; cbn in *; [subst c; exact Hf..|].
  subst optarg. destruct (_ || _); [|exact Hf]. by intros ? [= <-].
Qed.

(** The program up to the configuration, for options that are accepted. *)
Definition the_file answers : bytes := default default_config (named None answers).

Lemma main_start_spec answers w Q tr :
  Forall option_ok answers -> file_ok (the_file answers) -> plain PACKAGE_STRING ->
  (forall cfg p tr', loaded (the_file answers) cfg ->
    (forall c, cfg = Some c -> config_typed (2 ^ 32 - 1) c) -> log_ok p.(logging) ->
    p.(servers) = servers_named (Some (the_file answers)) -> grows quiet_call tr tr' ->
    wp (main_run (existsb is_check answers) cfg p w) Q tr') ->
  wp (main_start files PACKAGE_STRING answers process_start w) Q tr.
Proof.
  intros Ha Hfile Hpkg Hrun. unfold main_start. apply wp_bind.
  eapply wp_mono; [by apply (handle_options_spec answers false _ None)|].
  intros r tr1 (Hg1 & p1 & -> & Hok1 & Hs1). cbn [orb]. apply wp_bind.
  eapply wp_mono; [by apply log_info_spec|]. intros p2 tr2 (Hok2 & Hs2 & Hg2). rewrite Hs1 in Hs2.
  assert (Hname : forall n, named None answers = Some n -> file_name n) by (by apply named_ok).
  assert (Hload : forall p3 tr3, log_ok p3.(logging) -> p3.(servers) = servers_named (Some (the_file answers)) ->
    grows quiet_call tr2 tr3 ->
    wp ('(cfg, p) ← load_config files p3.(servers).(config_file) p3;
        main_run (existsb is_check answers) cfg p w) Q tr3).
  { intros p3 tr3 Hok3 Hs3 Hg3. rewrite Hs3. apply wp_bind. eapply wp_mono; [apply load_config_spec; try done|].
    - unfold the_file. destruct (named None answers) eqn:E; [by apply Hname|apply default_name].
    - intros [cfg p4] tr4 (Hld & Hty & Hok4 & Hs4 & Hg4). apply Hrun; [done..|by rewrite Hs4|].
      etrans; [exact Hg1|]. etrans; [exact Hg2|]. by etrans. }
  apply wp_bind. rewrite Hs2. unfold the_file, servers_named in *. destruct (named None answers) as [n|].
  - rewrite bool_decide_true by done. cbn [initialized]. by apply wp_ret, Hload.
  - rewrite bool_decide_false by (by intros [? ?]). cbn [initialized]. apply wp_bind.
    eapply wp_mono; [apply init_collection_spec, default_name|]. intros col tr3 [-> Hg3].
    by apply wp_ret, Hload.
Qed.

(** ** Leaving *)

(** No server, no watcher of a backend, no UDP listener. *)
Definition nothing_left (p : process) w tr : Prop :=
  p.(servers).(initialized) = false /\ w.(stats_of) = ∅ /\ (forall a, watchers a tr = idle) /\
  (forall k, active UdpEv k tr = false).

Lemma exit_unconnected code cfg p f w (Q : started -> trace -> Prop) tr :
  p.(servers) = servers_named f -> (forall c, cfg = Some c -> config_typed (2 ^ 32 - 1) c) ->
  (forall p', p'.(servers).(initialized) = false -> Q (Exited code p' w) tr) ->
  wp (main_exit code cfg p w) Q tr.
Proof.
  intros Hs Hty HQ. unfold main_exit, finish. rewrite Hs. apply wp_bind, wp_bind.
  assert (Hd : destroy_server_collection (servers_named f) w tr =
    Some ((Collection false f init_server init_server, w), tr)).
  { unfold destroy_server_collection, servers_named. by destruct f. }
  eapply wp_run; [exact Hd|]. apply wp_bind.
  assert (Hcfg : forall Q' : unit -> trace -> Prop, Q' () tr ->
    wp (match cfg with Some cfg => destroy_config cfg | None => mret () end) Q' tr).
  { intros Q' HQ'. destruct cfg as [c|]; [|by apply wp_ret]. by eapply destroy_config_typed; [apply Hty|]. }
  apply Hcfg. by apply wp_ret, wp_ret, HQ.
Qed.

(** Destroying the servers of a relay and leaving, with the configuration it had. *)
Lemma exit_relay conf lines L code cfg p w tr :
  relay_ok conf lines L p.(servers) w tr -> config_typed (2 ^ 32 - 1) cfg ->
  wp (main_exit code (Some cfg) p w) (fun r tr' =>
    exists p' w', r = Exited code p' w' /\ nothing_left p' w' tr') tr.
Proof.
  intros Hrel Hty. unfold main_exit, finish. apply wp_bind, wp_bind.
  eapply wp_mono; [by apply (destroy_collection_spec conf lines L)|].
  intros [c' w'] tr' (Hi & Hd & Hw & _ & Hu). apply wp_bind.
  eapply destroy_config_typed; [exact Hty|]. apply wp_ret, wp_ret. eexists _, _. split; [done|].
  split_and!; [done..|by eapply stopped_udp_off].
Qed.

Lemma typed_config_ok cfg :
  config_typed (2 ^ 32 - 1) cfg ->
  exists lines, forall sec, config_ok (get_section sec cfg) (lines sec).
Proof.
  intros Hty. destruct (Hty Carbon) as (lc & lsc & bc & ? & ? & ? & ? & ? & _).
  destruct (Hty Statsd) as (ld & lsd & bd & ? & ? & ? & ? & ? & _).
  exists (fun sec => match sec with Carbon => lsc | Statsd => lsd end).
  intros []; split; [by exists lc|done|lia|by exists bc|by exists ld|done|lia|by exists bd].
Qed.

(** How the servers were connected, with the result [worked], messages apart. *)
Definition connecting_ended base (file : bytes) (cfg : config) (worked : bool) (c : server_collection) w
    (tr1 : trace) : Prop :=
  exists tr0, grows quiet_call [] tr0 /\
    connect_server_collection (servers_named (Some file)) cfg (world_start base) tr0 =
      Some ((worked, c, w), tr1).

(** C2. main.c, starting: with options that are accepted and a configuration file on which
    the parser is defined, the program reaches the event loop exactly when the parser
    accepts the file and the servers could be connected: it is then in a state of
    Service, connected with what the parser made of the file, with at least one stats
    server, and the lines to which its servers relay are those of the two rings.
    It exits, with code 1 and its servers destroyed, only when the parser refuses the
    file or connecting failed. *)
Theorem main_serves answers base :
  Forall option_ok answers -> existsb is_check answers = false -> file_ok (the_file answers) ->
  plain PACKAGE_STRING ->
  wp (main_start files PACKAGE_STRING answers process_start (world_start base)) (fun r tr' =>
    match r with
    | Running p cfg w => loaded (the_file answers) (Some cfg) /\ log_ok p.(logging) /\
        config_typed (2 ^ 32 - 1) cfg /\
        (exists tr1, connecting_ended base (the_file answers) cfg true p.(servers) w tr1 /\
          grows quiet_call tr1 tr') /\
        (exists sec s, w.(stats_of) !! sec = Some (params_of sec (get_section sec cfg), s)) /\
        exists lines, (forall sec, config_ok (get_section sec cfg) (lines sec)) /\
          served (fun sec => get_section sec cfg) lines p.(servers) w tr'
    | Exited code p w => code = 1 /\ nothing_left p w tr' /\
        (loaded (the_file answers) None \/
         exists cfg p1 w1 tr1, loaded (the_file answers) (Some cfg) /\
           connecting_ended base (the_file answers) cfg false p1.(servers) w1 tr1 /\
           main_exit 1 (Some cfg) p1 w1 tr1 = Some (Exited code p w, tr'))
    end) [].
Proof.
  intros Ha Hnc Hfile Hpkg. apply main_start_spec; [done..|]. rewrite Hnc.
  intros cfg p tr Hld Hty Hok Hs Hg. pose proof (quiet_start tr Hg) as Hq. unfold main_run.
  destruct cfg as [cfg|].
  - specialize (Hty cfg eq_refl). destruct (typed_config_ok cfg Hty) as [lines Hlines].
    set (conf := fun sec => get_section sec cfg). assert (Hcfg : cfg = the_config conf) by (by destruct cfg).
    assert (Hstart : p.(servers).(initialized) = true /\ p.(servers).(carbon_server) = init_server /\
      p.(servers).(statsd_server) = init_server) by (by rewrite Hs).
    destruct Hstart as (Hi & Hc & Hd). apply wp_bind. rewrite Hcfg at 1.
    eapply wp_mono; [by apply wp_ran, (connect_collection_spec conf lines)|].
    intros [[r c] w] tr1 [(L & Hrel & Hup) Hrun]. rewrite <- Hcfg in Hrun.
    assert (Hend : connecting_ended base (the_file answers) cfg r c w tr1).
    { exists tr. split; [done|]. by rewrite <- Hs. }
    destruct r; cbn [negb].
    + apply wp_bind. eapply wp_mono; [apply log_info_spec; [done|]|].
      { split_and!; [done|by apply no_nul_lit|by apply (bool_decide_unpack _); vm_compute]. }
      intros p2 tr2 (Hok2 & Hs2 & Hg2). apply wp_ret. cbn [servers set_servers] in Hs2.
      split_and!; [done..|by exists tr1; rewrite Hs2| |].
      { destruct (Hup eq_refl) as [sec Hsec]. exists sec.
        destruct (up_server conf lines _ _ _ _ (wi_stats _ _ _ _ _ (ro_world _ _ _ _ _ _ Hrel)) Hsec)
          as (st & Hst1 & _). by exists st. }
      exists lines. split; [done|].
      rewrite Hs2. rewrite Hcfg in Hrun. eapply served_other; [by eapply served_start|].
      eapply grows_mono; [apply quiet_socket|done].
    + eapply wp_mono; [by eapply wp_ran, (exit_relay conf lines)|].
      intros r tr2 [(p' & w' & -> & Hn) Hexit]. split; [done|]. split; [done|]. right.
      by exists cfg, (set_servers c p), w, tr1.
  - apply wp_bind. eapply wp_mono; [apply log_error_spec; [done|]|].
    { split_and!; [done|by apply no_nul_lit|by apply (bool_decide_unpack _); vm_compute]. }
    intros p2 tr2 (Hok2 & Hs2 & Hg2). rewrite Hs in Hs2. eapply exit_unconnected; [done..|].
    intros p' Hi. split; [done|]. destruct (quiet_start tr2) as [Hw Hact]; [by etrans|].
    split; [by split_and!|by left].
Qed.

(** C19. main.c, checking a configuration (-t): the exit code is 0 exactly when the parser
    accepts the file, no server is made, and nothing is asked of the system but memory
    and log messages. *)
Theorem main_checks answers w tr :
  Forall option_ok answers -> existsb is_check answers = true -> file_ok (the_file answers) ->
  plain PACKAGE_STRING ->
  wp (main_start files PACKAGE_STRING answers process_start w) (fun r tr' =>
    grows quiet_call tr tr' /\ exists code p, r = Exited code p w /\
      ((code = 0 /\ exists cfg, loaded (the_file answers) (Some cfg)) \/
       (code = 1 /\ loaded (the_file answers) None))) tr.
Proof.
  intros Ha Hc Hfile Hpkg. apply main_start_spec; [done..|]. rewrite Hc.
  intros cfg p tr1 Hld Hty Hok Hs Hg. unfold main_run. destruct cfg as [cfg|].
  - eapply exit_unconnected; [done..|]. intros p' _. split; [done|]. eexists _, _. split; [done|].
    left. split; [done|]. by exists cfg.
  - apply wp_bind. eapply wp_mono; [apply log_error_spec; [done|]|].
    { split_and!; [done|by apply no_nul_lit|by apply (bool_decide_unpack _); vm_compute]. }
    intros p2 tr2 (Hok2 & Hs2 & Hg2). rewrite Hs in Hs2. eapply exit_unconnected; [done..|].
    intros p' _. split; [by etrans|]. eexists _, _. split; [done|]. by right.
Qed.

(** ** Stopping *)

(** The event of a session, which the signal has left without its server. *)
Definition stale w tr (ev : loop_event) : bool :=
  match ev with
  | WatcherEvent (TcpEvent k revents) => negb (Tcpserver.ev_error revents) && active TcpEv k tr &&
      match w.(tcp).(objects) !! k with Some (Tcpserver.RecvWatcher _) => true | _ => false end
  | _ => false
  end.

(** The process after the signal: [w1] is what destroying the servers has left. *)
Record stopping w tr p w1 tr1 : Prop := {
  sp_init : p.(servers).(initialized) = false;
  sp_log : log_ok p.(logging);
  sp_stats : w1.(stats_of) = ∅;
  sp_shut : shut_down w tr w1 tr1;
  sp_only : forall k, active TcpEv k tr1 = true ->
    exists sess, w.(tcp).(objects) !! k = Some (Tcpserver.RecvWatcher (Some sess));
}.

Lemma stopping_quiet w tr p p' w1 tr1 tr2 :
  stopping w tr p w1 tr1 -> p'.(servers).(initialized) = false -> log_ok p'.(logging) ->
  grows quiet_call tr1 tr2 -> stopping w tr p' w1 tr2.
Proof.
  intros [_ _ Hst [Hc Hl Hu Huf Hs Ha Hd] Ho] Hi Hlog Hg.
  apply (grows_mono _ _ _ _ quiet_socket) in Hg. pose proof (socket_frontend _ _ Hg) as [Hfr _].
  assert (Hact : forall k x, active k x tr2 = active k x tr1) by (intros; by apply socket_active).
  split; [done|done|done| |intros k; rewrite Hact; apply Ho]. split.
  - intros a. by rewrite (frontend_watchers a tr1 tr2).
  - intros k l Hk Hk'. rewrite Hact. by eapply Hl.
  - intros k. by rewrite Hact.
  - done.
  - intros k sess Hk. rewrite Hact. by apply Hs.
  - intros k. rewrite Hact. apply Ha.
  - intros k revents tr3. rewrite Hact. apply Hd.
Qed.

Lemma graceful_shutdown_again w tr p w1 tr1 :
  stopping w tr p w1 tr1 ->
  wp (graceful_shutdown p w1) (fun '(p', w') tr' => w' = w1 /\ stopping w tr p' w1 tr') tr1.
Proof.
  intros Hst. apply wp_bind. eapply wp_mono; [apply log_info_spec; [apply Hst|]|].
  { split_and!; [done|by apply no_nul_lit|by apply (bool_decide_unpack _); vm_compute]. }
  intros p2 tr2 (Hok2 & Hs2 & Hg2). apply wp_bind. unfold destroy_server_collection.
  rewrite Hs2, (sp_init _ _ _ _ _ Hst). apply wp_ret, wp_ret. split; [done|].
  eapply stopping_quiet; [done|apply Hst|done|done].
Qed.

(** A pending event finds its watcher stopped, or is that of a session. *)
Lemma pending_event_spec w tr ev p w1 tr1 :
  stopping w tr p w1 tr1 -> stale w tr ev = false ->
  wp (run_loop_event ev p w1) (fun '(p', w') tr' => w' = w1 /\ stopping w tr p' w1 tr') tr1.
Proof.
  intros Hst Hev. pose proof (sp_shut _ _ _ _ _ Hst) as Hsd. destruct ev as [ev| |]; cbn [run_loop_event].
  - unfold wp. destruct (possible w1 tr1 ev) eqn:Hpos; [|done]. destruct ev as [a e|k revents|k revents]; cbn in Hpos.
    + unfold watched in Hpos. rewrite (sd_clients _ _ _ _ Hsd) in Hpos. by destruct e.
    + destruct (sp_only _ _ _ _ _ Hst k Hpos) as [sess Hk]. pose proof (sd_active _ _ _ _ Hsd k Hpos) as Ha.
      cbn [stale] in Hev. rewrite Hk, Ha, !andb_true_r in Hev. apply negb_false_iff in Hev.
      pose proof (proj1 (sd_sessions _ _ _ _ Hsd k _ Hk)) as Hk1.
      unfold run_event, Tcpserver.tcp_event, Tcpserver.tcpsession_recv_callback, mbind, M_bind.
      rewrite Hk1. cbn. rewrite Hev. cbn. split; [by destruct w1|exact Hst].
    + by rewrite (sd_udp _ _ _ _ Hsd) in Hpos.
  - by apply graceful_shutdown_again.
  - apply wp_bind, wp_bind. eapply wp_mono; [apply log_info_spec; [apply Hst|]|].
    { split_and!; [done|by apply no_nul_lit|by apply (bool_decide_unpack _); vm_compute]. }
    intros p2 tr2 (Hok2 & Hs2 & Hg2). do 2 apply wp_ret. split; [done|].
    eapply stopping_quiet; [done|by rewrite Hs2; apply Hst|done|done].
Qed.

Lemma pending_event_stale w tr ev p w1 tr1 :
  stopping w tr p w1 tr1 -> stale w tr ev = true -> run_loop_event ev p w1 tr1 = None.
Proof.
  intros Hst Hev. pose proof (sp_shut _ _ _ _ _ Hst) as Hsd.
  destruct ev as [[a e|k revents|k revents]| |]; try done. cbn [stale] in Hev.
  rewrite !andb_true_iff, negb_true_iff in Hev. destruct Hev as [[Hev Ha] Hk].
  destruct (w.(tcp).(objects) !! k) as [[l|sess]|] eqn:E; try done.
  assert (Ha1 : active TcpEv k tr1 = true) by (by rewrite (proj2 (sd_sessions _ _ _ _ Hsd k _ E))).
  cbn [run_loop_event possible]. rewrite Ha1. unfold mbind, M_bind.
  by rewrite (sd_dangling _ _ _ _ Hsd k revents tr1 Ha1 Hev).
Qed.

Lemma run_pending_spec w tr pending p w1 tr1 :
  stopping w tr p w1 tr1 ->
  if existsb (stale w tr) pending then run_pending pending p w1 tr1 = None
  else wp (run_pending pending p w1) (fun '(p', w') tr' => w' = w1 /\ stopping w tr p' w1 tr') tr1.
Proof.
  revert p tr1. induction pending as [|ev pending IH]; intros p tr1 Hst; cbn [existsb run_pending]; [by apply wp_ret|].
  destruct (stale w tr ev) eqn:Hev; cbn [orb].
  { unfold mbind, M_bind. by rewrite (pending_event_stale w tr). }
  destruct (wp_inv _ _ _ (pending_event_spec w tr ev p w1 tr1 Hst Hev)) as ([p2 w2] & tr2 & E & -> & Hst2).
  unfold mbind, M_bind, wp in *. rewrite E. by apply IH.
Qed.

(** The first call of the handler. *)
Lemma graceful_shutdown_spec conf lines p w tr :
  served conf lines p.(servers) w tr -> log_ok p.(logging) ->
  wp (graceful_shutdown p w) (fun '(p', w1) tr1 => stopping w tr p' w1 tr1) tr.
Proof.
  intros [L Hrel]%served_inv Hok. apply wp_bind. eapply wp_mono; [apply log_info_spec; [done|]|].
  { split_and!; [done|by apply no_nul_lit|by apply (bool_decide_unpack _); vm_compute]. }
  intros p1 tr1 (Hok1 & Hs1 & Hg1). apply (grows_mono _ _ _ _ quiet_socket) in Hg1.
  assert (Hact : forall k x, active k x tr1 = active k x tr) by (intros; by apply socket_active).
  apply wp_bind. rewrite Hs1.
  assert (Hrel1 : relay_ok conf lines L p.(servers) w tr1) by (by eapply relay_ok_quiet).
  eapply wp_mono; [by apply (destroy_collection_spec conf lines L)|].
  intros [c' w1] tr2 (Hi & Hd & Hw & Ht & Hu). apply wp_ret.
  pose proof (shut_down_spec conf lines L _ w tr1 w1 tr2 Hrel1 Hd Hw Ht Hu) as [Hc Hl Hud Huf Hs Ha Hda].
  split; [done|done|done| |].
  - split; [done| |done| | | |done].
    + intros k l Hk Hk'. apply (Hl k l Hk). by rewrite Hact.
    + intros k Hk. apply Huf. by rewrite Hact.
    + intros k sess Hk. rewrite <- Hact. by apply Hs.
    + intros k Hk. rewrite <- Hact. by apply Ha.
  - intros k Hk. pose proof (Ha k Hk) as Ha1.
    destruct Hrel1 as [[_ [_ Hactive] _ Hwi] _ _ _ _ _ Htcp _]. destruct (Hactive k Ha1) as (x & Hx & _).
    pose proof (Hwi k x Hx) as Hwired. destruct x as [l|[sess|]]; [|by eexists|done].
    destruct (Hl k l Hx Ha1). congruence.
Qed.

End proofs.
