(* ===== verification/Stathasher.v ===== *)
(** * stathasher.c: which shard a key goes to

    A second client of hashring.c: its backends are copies of the lines of the
    configuration.  [getopt_long] and files are as in Main; what [getline] reads is a list
    of lines.  The value of the program is its exit code and what it prints for the
    keys; messages about options are left out. *)
From S2P Require Import Prelude Libc Sys Buffer SList Hashlib Hashring Protocol Validate Tcpclient.
From S2P Require Import Backend Stats Server StatsLaws Service YamlConfig ParserType.

(** ** The code *)

(** The copies that are allocated. *)
Record strings := Strings {
  text_of : gmap nat bytes;
  next_text : nat;
}.

Definition no_strings : strings := Strings ∅ 0.

(** [isspace] in the C locale. *)
Definition isspace (c : ascii) : bool :=
  let n := char_code c in (n =? 32) || (9 <=? n) && (n <=? 13).

(** The first white space of the line ends it. *)
Fixpoint trim (line : bytes) : bytes :=
  match line with
  | [] => []
  | c :: line => if isspace c then NUL :: line else c :: trim line
  end.

(** [%d] for a [uint32_t]. *)
Definition print_shard (shard : Z) : bytes :=
  if shard <? 2 ^ 31 then print_dec shard else lit "-" ++ print_dec (2 ^ 32 - shard).

Section code.
Context `{OS}.
Context (files : bytes -> option (bool * list yaml_event)).
Implicit Types (st : strings).

Definition my_strdup (str : bytes) st : M (option nat * strings) :=
  r ← strdup str;
  match r with
  | None => mret (None, st)
  | Some s => mret (Some st.(next_text), Strings (<[st.(next_text) := s]> st.(text_of)) (S st.(next_text)))
  end.

(** [free], of a block that is allocated. *)
Definition free_text (a : nat) st : M strings :=
  _ ← defined (st.(text_of) !! a);
  mret (Strings (delete a st.(text_of)) st.(next_text)).

#[export] Instance text_alloc : RingAlloc nat strings := {|
  ra_alloc := my_strdup;
  ra_dealloc := free_text;
|}.

(** The part for one ring; [line] is the memory of the line. *)
Definition print_choice (name : bytes) (ring : option (hashring nat)) (line : bytes) st : M bytes :=
  match ring with
  | None => mret []
  | Some _ =>
      choice ← hashring_choose ring line;
      match choice with
      | None => mret []
      | Some (a, shard) =>
          text ← defined (st.(text_of) !! a);
          mret (lit " " ++ name ++ lit "=" ++ text ++ lit " " ++ name ++ lit "_shard=" ++ print_shard shard)
      end
  end.

Definition hash_line (carbon_ring statsd_ring : option (hashring nat)) (line : bytes) st : M bytes :=
  let line := trim line ++ [NUL] in
  carbon ← print_choice (lit "carbon") carbon_ring line st;
  statsd ← print_choice (lit "statsd") statsd_ring line st;
  mret (lit "key=" ++ cstr line ++ carbon ++ statsd ++ [LF]).

Fixpoint hash_lines (carbon_ring statsd_ring : option (hashring nat)) (input : list bytes) st : M bytes :=
  match input with
  | [] => mret []
  | line :: input =>
      out ← hash_line carbon_ring statsd_ring line st;
      rest ← hash_lines carbon_ring statsd_ring input st;
      mret (out ++ rest)
  end.

(** The loop over the options: [inl] is [return], [inr] the name of the file. *)
Fixpoint read_options (answers : list (Z * option bytes)) (config_name : bytes) : M (Z + bytes) :=
  match answers with
  | [] => mret (inr config_name)
  | (c, optarg) :: answers =>
      let c := int8 c in
      if c =? -1 then mret (inr config_name)
      else if (c =? 0) || (c =? char_code "h") then mret (inl 0)
      else if c =? char_code "c" then
        config_name ← defined optarg; read_options answers config_name
      else mret (inl 1)
  end.

Definition load_ring (cfg : proto_config) st : M (option (hashring nat) * strings) :=
  if cfg.(initialized) then
    ring ← defined cfg.(ring);
    hashring_load_from_config ring st
  else mret (None, st).

(** From the configuration to the end. *)
Definition hash_input (app_cfg : config) (input : list bytes) st : M (bytes * strings) :=
  '(carbon_ring, st) ← load_ring app_cfg.(carbon_config) st;
  '(statsd_ring, st) ← load_ring app_cfg.(statsd_config) st;
  _ ← destroy_config app_cfg;
  out ← hash_lines carbon_ring statsd_ring input st;
  st ← hashring_dealloc carbon_ring st;
  st ← hashring_dealloc statsd_ring st;
  mret (out, st).

Definition stathasher_main (default_config : bytes) (answers : list (Z * option bytes)) (optind : Z)
    (input : list bytes) : M (Z * bytes * strings) :=
  r ← read_options answers default_config;
  match r with
  | inl code => mret (code, [], no_strings)
  | inr config_name =>
      if negb (optind =? 1) && negb (optind =? 3) then mret (1, [], no_strings) else
      match files config_name with
      | None => mret (1, [], no_strings)
      | Some (init_ok, events) =>
          cfg ← parse_config init_ok events;
          match cfg with
          | None => mret (1, [], no_strings)
          | Some app_cfg =>
              '(out, st) ← hash_input app_cfg input no_strings;
              mret (0, out, st)
          end
      end
  end.
End code.

(** ** What it should print *)

(** The word at the start of a line. *)
Fixpoint word (line : bytes) : bytes :=
  match line with
  | [] => []
  | c :: line => if isspace c || bool_decide (c = NUL) then [] else c :: word line
  end.

(** The part for a section whose ring has [lines]. *)
Definition shard_report (name : bytes) (lines : list bytes) (key : bytes) : bytes :=
  let shard := shard_of key (len lines) in
  match lines !! Z.to_nat shard with
  | None => []
  | Some text => lit " " ++ name ++ lit "=" ++ text ++ lit " " ++ name ++ lit "_shard=" ++ print_shard shard
  end.

Definition used_lines (cfg : proto_config) (lines : list bytes) : list bytes :=
  if cfg.(initialized) then lines else [].

Definition key_report (carbon statsd : list bytes) (line : bytes) : bytes :=
  lit "key=" ++ word line ++ shard_report (lit "carbon") carbon (word line) ++
  shard_report (lit "statsd") statsd (word line) ++ [LF].

Lemma trim_word line : exists junk, trim line ++ [NUL] = word line ++ NUL :: junk.
Proof.
  induction line as [|c line [junk IH]]; cbn; [by exists []|]. destruct (isspace c); cbn; [by eexists|].
  case_bool_decide as Hc; [subst; by eexists|]. exists junk. cbn. by rewrite IH.
Qed.

Lemma word_nul line : NUL ∉ word line.
Proof.
  induction line as [|c line IH]; cbn; [apply not_elem_of_nil|].
  destruct (_ || _) eqn:E; [apply not_elem_of_nil|]. apply orb_false_iff in E as [_ Hc%bool_decide_eq_false].
  by apply not_elem_of_cons.
Qed.

Lemma len_word line : len (word line) <= len line.
Proof. induction line as [|c line IH]; cbn; [done|]. destruct (_ || _); lens. Qed.

(** ** The copies *)

(** [xs] are the copies of [lines], and the others are those of [m]. *)
Record copied (m : gmap nat bytes) (lines : list bytes) (xs : list nat) (st : strings) (tr : trace) : Prop := {
  cp_text : Forall2 (fun line x => st.(text_of) !! x = Some line) lines xs;
  cp_nodup : NoDup xs;
  cp_new : forall x, x ∈ xs -> m !! x = None;
  cp_old : forall a, a ∉ xs -> st.(text_of) !! a = m !! a;
  cp_next : forall a, is_Some (st.(text_of) !! a) -> (a < st.(next_text))%nat;
}.

(** [xs] are to be freed, which leaves [m]. *)
Record to_free (m : gmap nat bytes) (xs : list nat) (st : strings) (tr : trace) : Prop := {
  tf_nodup : NoDup xs;
  tf_new : forall x, x ∈ xs -> is_Some (st.(text_of) !! x) /\ m !! x = None;
  tf_old : forall a, a ∉ xs -> st.(text_of) !! a = m !! a;
}.

Lemma to_free_nil m st tr : to_free m [] st tr -> st.(text_of) = m.
Proof. intros [_ _ Hold]. apply map_eq. intros a. apply Hold, not_elem_of_nil. Qed.

Section proofs.
Context `{OSLaws, !Plenty}.
Implicit Types (st : strings) (tr : trace) (m : gmap nat bytes).

Lemma my_strdup_spec line st tr :
  len line < 2 ^ 30 ->
  wp (my_strdup line st) (fun p tr' => p = (Some st.(next_text),
    Strings (<[st.(next_text) := line]> st.(text_of)) (S st.(next_text)))) tr.
Proof.
  intros Hl. pose proof (len_nonneg line). apply wp_bind, wp_bind, wp_malloc_plenty; [lia|].
  intros _ _. by apply wp_ret, wp_ret.
Qed.

#[export] Instance text_dealloc_laws m : RingDeallocLaws (RA := text_alloc) (to_free m).
Proof.
  split. intros x xs st tr [Hnd Hnew Hold]. apply NoDup_cons in Hnd as [Hx Hnd].
  destruct (Hnew x) as [[s Hs] Hm]; [apply list_elem_of_here|]. cbn. unfold free_text. rewrite Hs.
  apply wp_bind, wp_ret, wp_ret. split; cbn; [done| |].
  - intros y Hy. rewrite lookup_delete_ne by (intros <-; done). apply Hnew. by apply list_elem_of_further.
  - intros a Ha. destruct (decide (a = x)) as [->|Hne]; [by rewrite lookup_delete_eq|].
    rewrite lookup_delete_ne by done. apply Hold. by apply not_elem_of_cons.
Qed.

Lemma copied_to_free m lines xs st tr : copied m lines xs st tr -> to_free m xs st tr.
Proof.
  intros [Ht Hnd Hnew Hold _]. split; [done| |done]. intros x Hx. split; [|by apply Hnew].
  apply list_elem_of_lookup in Hx as [i Hi]. destruct (Forall2_lookup_r _ _ _ _ _ Ht Hi) as (l & _ & ->). by eexists.
Qed.

Lemma to_free_distinct m xs st tr : to_free m xs st tr -> to_free m (distinct xs) st tr.
Proof.
  assert (Hel : forall x, x ∈ distinct xs <-> x ∈ xs).
  { intros x. unfold distinct. rewrite elem_of_distinct_from. set_solver. }
  intros [_ Hnew Hold]. split; [apply NoDup_distinct_from| |].
  - intros x Hx%Hel. by apply Hnew.
  - intros a Ha. apply Hold. by rewrite <- Hel.
Qed.

#[export] Instance text_alloc_laws m : RingAllocLaws (RA := text_alloc) (copied m) (to_free m).
Proof.
  split.
  - intros lines xs line st tr [Ht Hnd Hnew Hold Hnext] [_ Hl] _. cbn.
    eapply wp_mono; [by apply my_strdup_spec|]. intros p tr' ->. cbn [fst snd].
    set (x := st.(next_text)) in *. assert (Hfresh : st.(text_of) !! x = None).
    { destruct (_ !! x) eqn:E; [|done]. specialize (Hnext x ltac:(by eexists)). unfold x in Hnext. lia. }
    assert (Hx : x ∉ xs).
    { intros [i Hi]%list_elem_of_lookup. destruct (Forall2_lookup_r _ _ _ _ _ Ht Hi) as (l & _ & Hx). congruence. }
    split; cbn.
    + apply Forall2_app; [|by constructor; [apply lookup_insert_eq|]].
      eapply Forall2_impl; [exact Ht|]. intros l y Hy. rewrite lookup_insert_ne; [done|]. congruence.
    + apply NoDup_app. split_and!; [done| |apply NoDup_singleton]. intros y Hy ->%list_elem_of_singleton. done.
    + intros y [Hy| ->%list_elem_of_singleton]%elem_of_app; [by apply Hnew|]. rewrite <- Hold by done. done.
    + intros a Ha. apply not_elem_of_app in Ha as [Ha Hne]. rewrite lookup_insert_ne by set_solver. by apply Hold.
    + intros a Ha. destruct (decide (a = x)) as [->|Hne]; [lia|]. rewrite lookup_insert_ne in Ha by done.
      specialize (Hnext a Ha). lia.
  - intros lines xs st tr Hc. by eapply to_free_distinct, copied_to_free.
  - apply _.
  - intros lines xs st tr tr' _ []. by split.
Qed.

(** ** Rings *)

Definition ring_has (ring : option (hashring nat)) (xs : list nat) : Prop :=
  match ring with
  | None => xs = []
  | Some r => exists l, r = Hashring (Some l) /\ rep l xs
  end.

Lemma load_ring_spec cfg l ls st tr :
  cfg.(ring) = Some l -> rep l (Some <$> ls) -> Forall address_ok ls -> len ls < 2 ^ 32 ->
  (forall a, is_Some (st.(text_of) !! a) -> (a < st.(next_text))%nat) ->
  wp (load_ring cfg st) (fun '(r, st') tr' => exists xs, ring_has r xs /\
    copied st.(text_of) (used_lines cfg ls) xs st' tr') tr.
Proof.
  intros Hring Hrep Hls Hn Hnext. unfold load_ring, used_lines.
  assert (Hnil : copied st.(text_of) [] [] st tr).
  { split; [constructor|constructor|by intros x ?%elem_of_nil|done|done]. }
  destruct cfg.(initialized); [|apply wp_ret; by exists []]. rewrite Hring. apply wp_bind, wp_ret.
  assert (Htotal : forall lines xs line st1 tr1, copied st.(text_of) lines xs st1 tr1 -> address_ok line ->
    wp (ra_alloc line st1) (fun (p : option nat * strings) _ => is_Some p.1) tr1).
  { intros lines xs line st1 tr1 _ [_ Hl]. cbn. eapply wp_mono; [by apply my_strdup_spec|].
    intros p tr2 ->. by eexists. }
  eapply wp_mono.
  { apply wp_conj; [by apply (load_from_config_spec (RA := text_alloc) l ls); [..|lia|exact Hnil]|].
    by apply (load_from_config_total (RA := text_alloc) Htotal l ls); [..|lia|exact Hnil]. }
  intros [r st'] tr' [Hpost [r' Hr]]. cbn [fst] in Hr. subst r.
  destruct Hpost as (l' & xs & -> & Hl' & Hc & _). exists xs. split; [by exists l'|done].
Qed.

Lemma print_choice_spec name ring xs ls key junk st tr :
  ring_has ring xs -> Forall2 (fun line x => st.(text_of) !! x = Some line) ls xs ->
  len ls < 2 ^ 32 -> key_ok key ->
  print_choice name ring (key ++ NUL :: junk) st tr = Some (shard_report name ls key, tr).
Proof.
  intros Hring Ht Hn Hk. assert (Hlen : len xs = len ls) by (unfold len; by rewrite (Forall2_length _ _ _ Ht)).
  unfold print_choice, shard_report. destruct ring as [r|].
  - destruct Hring as (l & -> & Hl). unfold mbind, M_bind at 1.
    rewrite (choose_lookup l xs) by (done || lia). rewrite Hlen.
    destruct (ls !! _) as [text|] eqn:E.
    + destruct (Forall2_lookup_l _ _ _ _ _ Ht E) as (x & -> & Hx). cbn. unfold M_bind. by rewrite Hx.
    + assert (E' : xs !! Z.to_nat (shard_of key (len ls)) = None).
      { apply lookup_ge_None. rewrite <- (Forall2_length _ _ _ Ht). by apply lookup_ge_None. }
      by rewrite E'.
  - cbn in Hring. subst xs. apply Forall2_nil_inv_r in Ht as ->. by rewrite lookup_nil.
Qed.

Lemma hash_lines_spec ring1 xs1 ls1 ring2 xs2 ls2 input st tr :
  ring_has ring1 xs1 -> Forall2 (fun line x => st.(text_of) !! x = Some line) ls1 xs1 -> len ls1 < 2 ^ 32 ->
  ring_has ring2 xs2 -> Forall2 (fun line x => st.(text_of) !! x = Some line) ls2 xs2 -> len ls2 < 2 ^ 32 ->
  Forall (fun line => len line < 2 ^ 32) input ->
  hash_lines ring1 ring2 input st tr = Some (concat (key_report ls1 ls2 <$> input), tr).
Proof.
  intros Hr1 Ht1 Hn1 Hr2 Ht2 Hn2 Hin. induction Hin as [|line input Hl _ IH]; cbn [hash_lines]; [done|].
  assert (Hline : hash_line ring1 ring2 line st tr = Some (key_report ls1 ls2 line, tr)).
  { unfold hash_line. destruct (trim_word line) as [junk ->].
    assert (Hk : key_ok (word line)) by (split; [apply word_nul|pose proof (len_word line); lia]).
    rewrite cstr_app_nul by apply word_nul. unfold mbind, M_bind.
    rewrite (print_choice_spec _ ring1 xs1 ls1), (print_choice_spec _ ring2 xs2 ls2) by done.
    unfold key_report. by rewrite <- ?app_assoc. }
  unfold mbind, M_bind. by rewrite Hline, IH.
Qed.

Lemma dealloc_spec m ring xs st tr :
  ring_has ring xs -> to_free m xs st tr ->
  wp (hashring_dealloc ring st) (fun st' _ => st'.(text_of) = m) tr.
Proof.
  intros Hring Hf. destruct ring as [r|].
  - destruct Hring as (l & -> & Hl).
    eapply wp_mono; [apply (dealloc_ring_owed (owed := to_free m) l xs); [done|by apply to_free_distinct]|].
    intros st' tr' Hf'. by eapply to_free_nil.
  - cbn in Hring. subst xs. apply wp_ret. by eapply to_free_nil.
Qed.

(** The lines of a section of the configuration. *)
Definition section_lines (cfg : proto_config) (ls : list bytes) : Prop :=
  exists l, cfg.(ring) = Some l /\ rep l (Some <$> ls) /\ Forall address_ok ls /\ len ls < 2 ^ 32.

Lemma used_len cfg ls : len (used_lines cfg ls) <= len ls.
Proof. unfold used_lines. destruct cfg.(initialized); [done|apply len_nonneg]. Qed.

Lemma hash_input_spec n cfg carbon statsd input tr :
  config_typed n cfg -> section_lines cfg.(carbon_config) carbon -> section_lines cfg.(statsd_config) statsd ->
  Forall (fun line => len line < 2 ^ 32) input ->
  wp (hash_input cfg input no_strings) (fun '(out, st) _ =>
    out = concat (key_report (used_lines cfg.(carbon_config) carbon) (used_lines cfg.(statsd_config) statsd) <$> input) /\
    st.(text_of) = ∅) tr.
Proof.
  intros Hty (lc & Hc & Hrc & Hlc & Hnc) (ls & Hs & Hrs & Hls & Hns) Hin. unfold hash_input.
  pose proof (used_len cfg.(carbon_config) carbon). pose proof (used_len cfg.(statsd_config) statsd).
  apply wp_bind. eapply wp_mono.
  { apply (load_ring_spec _ lc carbon); [done..|]. intros a [s Ha]. cbn in Ha. by rewrite lookup_empty in Ha. }
  intros [r1 st1] tr1 (xs1 & Hr1 & [Ht1 Hnd1 _ Hold1 Hnext1]). apply wp_bind.
  eapply wp_mono; [by apply (load_ring_spec _ ls statsd)|].
  intros [r2 st2] tr2 (xs2 & Hr2 & [Ht2 Hnd2 Hnew2 Hold2 _]). apply wp_bind, (destroy_config_typed n); [done|].
  assert (Hapart : forall x, x ∈ xs1 -> x ∉ xs2).
  { intros x [i Hi]%list_elem_of_lookup Hx. destruct (Forall2_lookup_r _ _ _ _ _ Ht1 Hi) as (l & _ & E).
    rewrite Hnew2 in E by done. done. }
  assert (Ht1' : Forall2 (fun line x => st2.(text_of) !! x = Some line) (used_lines cfg.(carbon_config) carbon) xs1).
  { apply Forall2_same_length_lookup. split; [by eapply Forall2_length|]. intros i l x Hl Hx.
    rewrite Hold2 by (by apply Hapart, list_elem_of_lookup_2 with i). exact (Forall2_lookup_lr _ _ _ _ _ _ Ht1 Hl Hx). }
  apply wp_bind. eapply wp_run; [apply (hash_lines_spec _ _ _ _ _ _ _ _ _ Hr1 Ht1' ltac:(lia) Hr2 Ht2 ltac:(lia) Hin)|].
  set (m := filter (fun p => p.1 ∈ xs2) st2.(text_of)).
  assert (Hm1 : to_free m xs1 st2 tr2).
  { split; [done| |].
    - intros x Hx. split; [|apply map_lookup_filter_None; right; intros s _; by apply Hapart].
      apply list_elem_of_lookup in Hx as [i Hi]. destruct (Forall2_lookup_r _ _ _ _ _ Ht1' Hi) as (l & _ & ->). by eexists.
    - intros a Ha. destruct (decide (a ∈ xs2)) as [Ha2|Ha2].
      + apply option_eq. intros s. unfold m. rewrite map_lookup_filter_Some. naive_solver.
      + rewrite Hold2, Hold1 by done. cbn. rewrite lookup_empty. symmetry. apply map_lookup_filter_None. by right. }
  apply wp_bind. eapply wp_mono; [by apply (dealloc_spec m r1 xs1)|]. intros st3 tr3 Hst3.
  apply wp_bind. eapply wp_mono; [apply (dealloc_spec ∅ r2 xs2 st3); [done|]|].
  { split; [done| |].
    - intros x Hx. split; [|apply lookup_empty]. rewrite Hst3. pose proof Hx as Hx'.
      apply list_elem_of_lookup in Hx as [i Hi]. destruct (Forall2_lookup_r _ _ _ _ _ Ht2 Hi) as (l & _ & E).
      exists l. by apply map_lookup_filter_Some.
    - intros a Ha. rewrite Hst3, lookup_empty. apply map_lookup_filter_None. by right. }
  intros st4 tr4 Hst4. by apply wp_ret.
Qed.

Lemma stathasher_main_spec files default_config answers optind name es cfg carbon statsd input tr tr1 :
  read_options answers default_config tr = Some (inr name, tr) -> optind = 1 \/ optind = 3 ->
  files name = Some (true, es) -> Forall event_sized es -> len es < 2 ^ 32 ->
  parse_config true es tr = Some (Some cfg, tr1) ->
  section_lines cfg.(carbon_config) carbon -> section_lines cfg.(statsd_config) statsd ->
  Forall (fun line => len line < 2 ^ 32) input ->
  wp (stathasher_main files default_config answers optind input) (fun '(code, out, st) _ =>
    code = 0 /\ st.(text_of) = ∅ /\
    out = concat (key_report (used_lines cfg.(carbon_config) carbon)
                             (used_lines cfg.(statsd_config) statsd) <$> input)) tr.
Proof.
  intros Hopt Hind Hfile Hsz Hlen Hparse Hc Hs Hin.
  destruct (wlp_run _ _ _ _ _ (parse_config_keeps es Hsz ltac:(lia) tr) Hparse) as [_ Hty].
  specialize (Hty cfg eq_refl). unfold stathasher_main. apply wp_bind. eapply wp_run; [exact Hopt|].
  assert (Hind' : negb (optind =? 1) && negb (optind =? 3) = false) by (by destruct Hind as [-> | ->]).
  rewrite Hind', Hfile. apply wp_bind. eapply wp_run; [exact Hparse|]. apply wp_bind.
  eapply wp_mono; [by eapply hash_input_spec|]. intros [out st] tr2 [-> Hst]. by apply wp_ret.
Qed.

(** C17. stathasher.c: on a file that the parser accepts, the program prints for every input
    line its first word and, for each section that the file has, the line of the ring with
    index [hash(word) mod n] and that index; it exits with code 0 and frees every copy of
    a line. *)
Theorem stathasher_reports files default_config answers optind name es cfg input tr tr1 :
  read_options answers default_config tr = Some (inr name, tr) -> optind = 1 \/ optind = 3 ->
  files name = Some (true, es) -> Forall event_sized es -> len es < 2 ^ 32 ->
  parse_config true es tr = Some (Some cfg, tr1) ->
  Forall (fun line => len line < 2 ^ 32) input ->
  exists carbon statsd,
    section_lines cfg.(carbon_config) carbon /\ section_lines cfg.(statsd_config) statsd /\
    wp (stathasher_main files default_config answers optind input) (fun '(code, out, st) _ =>
      code = 0 /\ st.(text_of) = ∅ /\
      out = concat (key_report (used_lines cfg.(carbon_config) carbon)
                               (used_lines cfg.(statsd_config) statsd) <$> input)) tr.
Proof.
  intros Hopt Hind Hfile Hsz Hlen Hparse Hin.
  destruct (wlp_run _ _ _ _ _ (parse_config_keeps es Hsz ltac:(lia) tr) Hparse) as [_ Hty].
  specialize (Hty cfg eq_refl).
  assert (Hlines : forall sec, exists ls, section_lines (get_section sec cfg) ls).
  { intros sec. destruct (Hty sec) as (l & ls & b & ? & ? & ? & ? & _). exists ls, l. split_and!; [done..|lia]. }
  destruct (Hlines Carbon) as [carbon Hc], (Hlines Statsd) as [statsd Hs]. exists carbon, statsd.
  split; [done|]. split; [done|]. by eapply stathasher_main_spec.
Qed.

(** ** The tool and the relay *)

Lemma word_line key : (NUL ∉ key) -> Forall (fun c => isspace c = false) key -> word (key ++ [LF]) = key.
Proof.
  intros Hn Hk. induction Hk as [|c key Hc _ IH]; cbn; [done|]. apply not_elem_of_cons in Hn as [Hne Hn].
  rewrite Hc, bool_decide_false by done. cbn. by rewrite IH.
Qed.

(** The line of the section [sec] in what is printed for [key]: the part of carbon
    comes right after the key and the part of statsd ends the line. *)
Definition prints_shard sec (key address : bytes) (shard : Z) (out : bytes) : Prop :=
  exists before after,
    out = before ++ lit " " ++ section_name sec ++ lit "=" ++ address ++
          lit " " ++ section_name sec ++ lit "_shard=" ++ print_dec shard ++ after /\
    match sec with Carbon => before = lit "key=" ++ key | Statsd => after = [LF] end.

Lemma key_report_shard sec key address (ls : section -> list bytes) :
  ls sec !! Z.to_nat (shard_of key (len (ls sec))) = Some address -> len (ls sec) < 2 ^ 31 ->
  (NUL ∉ key) -> Forall (fun c => isspace c = false) key ->
  prints_shard sec key address (shard_of key (len (ls sec))) (key_report (ls Carbon) (ls Statsd) (key ++ [LF])).
Proof.
  intros Ha Hlen Hn Hk. unfold key_report. rewrite word_line by done.
  assert (Hrep : shard_report (section_name sec) (ls sec) key = lit " " ++ section_name sec ++ lit "=" ++ address ++
    lit " " ++ section_name sec ++ lit "_shard=" ++ print_dec (shard_of key (len (ls sec)))).
  { unfold shard_report. rewrite Ha. unfold print_shard. rewrite (proj2 (Z.ltb_lt _ _)); [done|].
    assert (Hpos : 0 < len (ls sec)) by (destruct (ls sec); [done|lens]).
    pose proof (Z.mod_pos_bound (murmur_ref key HASHLIB_SEED) (len (ls sec)) Hpos). unfold shard_of. lia. }
  destruct sec; cbn [section_name] in *; rewrite Hrep.
  - exists (lit "key=" ++ key). eexists. split; [by rewrite <- !app_assoc|done].
  - exists (lit "key=" ++ key ++ shard_report (lit "carbon") (ls Carbon) key), [LF].
    split; [by rewrite <- !app_assoc|done].
Qed.

(** C16. The tool tells where the relay sends.  A relay runs with the configuration that
    the parser made of a file; stathasher, run on the same file with the key of a line as
    its input, exits with code 0, and when a server of the relay accepts that line, it is
    queued on the backend whose address the tool has printed for the section of the
    server, with the index of its shard. *)
Theorem stathasher_predicts files default_config answers optind name es cfg tr0 tr1
    lines line c w tr sec ps s (lkey := line_key (sep_of sec) line) :
  read_options answers default_config tr0 = Some (inr name, tr0) -> optind = 1 \/ optind = 3 ->
  files name = Some (true, es) -> Forall event_sized es -> len es < 2 ^ 31 ->
  parse_config true es tr0 = Some (Some cfg, tr1) ->
  served (fun sec => get_section sec cfg) lines c w tr ->
  w.(stats_of) !! sec = Some (ps, s) -> NUL ∉ line -> len line < 2 ^ 31 ->
  key_length (sep_of sec) line < KEY_BUFFER_SIZE -> Forall (fun c => isspace c = false) lkey ->
  wp (stathasher_main files default_config answers optind [lkey ++ [LF]]) (fun '(code, out, _) _ =>
    code = 0 /\
    wp (stats_relay_line ps (line ++ [LF; NUL]) (len line) s) (fun '(r, s') _ =>
      r = 0 -> exists address a b b',
        prints_shard sec lkey address (shard_of lkey (len (lines sec))) out /\
        s.(mem) !! a = Some b /\ backend_key address = Some b.(stats).(key) /\
        s'.(mem) = <[a := b']> s.(mem) /\
        buffer_data b'.(client).(send_queue) =
          buffer_data b.(client).(send_queue) ++ line ++ [LF]) tr) tr0.
Proof.
  intros Hopt Hind Hfile Hsz Hlen Hparse Hs Hd Hn Hl Hk Hsp. pose proof (len_nonneg line).
  destruct (wlp_run _ _ _ _ _ (parse_config_keeps es Hsz ltac:(lia) tr0) Hparse) as [_ Hty].
  specialize (Hty cfg eq_refl). pose proof (served_config _ _ _ _ _ Hs) as Hcfg.
  assert (Hlines : forall sec, section_lines (get_section sec cfg) (lines sec)).
  { intros sec'. destruct (Hcfg sec') as [(l & Hring & Hrep) Haddr Hn' _]. by exists l. }
  assert (Hused : forall sec, used_lines (get_section sec cfg) (lines sec) = lines sec /\ len (lines sec) < 2 ^ 31).
  { intros sec'. destruct (Hlines sec') as (l & Hring & Hrep & _).
    destruct (Hty sec') as (l' & ls & b & Hring' & Hrep' & _ & Hle & _ & _ & Hini).
    assert (l' = l) as -> by congruence.
    assert (ls = lines sec') as ->
      by (apply (inj (fmap Some)); exact (rep_inj _ _ _ Hrep' Hrep)).
    split; [|lia]. unfold used_lines. by destruct Hini as [-> | ->]; [destruct (YamlConfig.initialized _)|]. }
  assert (Hkl : len lkey <= len line) by (unfold lkey, line_key, len; rewrite length_take; lia).
  eapply wp_mono.
  { apply (stathasher_main_spec files default_config answers optind name es cfg (lines Carbon) (lines Statsd)
      [lkey ++ [LF]] tr0 tr1);
      [done..|lia|done|apply (Hlines Carbon)|apply (Hlines Statsd)|].
    apply Forall_singleton. rewrite len_app. change (len [LF]) with 1. lia. }
  intros [[code out] st] tr2 (-> & _ & ->). split; [done|]. cbn [fmap list_fmap concat]. rewrite app_nil_r.
  change (carbon_config cfg) with (get_section Carbon cfg). change (statsd_config cfg) with (get_section Statsd cfg).
  rewrite (proj1 (Hused Carbon)), (proj1 (Hused Statsd)).
  eapply wp_mono; [apply (routes_spec (fun sec => get_section sec cfg) lines line c w tr sec); [done|done|done|lia|done]|].
  intros [r s'] tr' Hr Hz. destruct (Hr Hz) as (address & a & b & b' & Ha & Hb & Hkey & Hm & Hq & _).
  exists address, a, b, b'. split; [|done]. apply key_report_shard; [done|apply Hused| |done].
  intros Hin. apply Hn. by eapply subseteq_take.
Qed.
End proofs.
