(* ===== verification/Demo.v ===== *)
(** * Examples of a running relay

    A concrete environment and a server created in it for two lines that share
    a backend: the theorems about rings, backends, sessions and the whole relay
    applied there. *)
From S2P Require Import Prelude Libc Sys Buffer SList Hashlib.
From S2P Require Import Hashring Protocol Validate YamlConfig Tcpclient Backend Stats Session.
From S2P Require Import ParserType Listener Server StatsLaws Service Log Main Stathasher.
From S2P Require Tcpserver Udpserver.

(** ** The environment *)

(** As [quiet_os], but every descriptor receives the same line again and again
    (an empty line if there is no room for it), sends take everything, and
    connections are in progress. *)
Definition DEMO_LINE : bytes := lit "ab:1|c".

Definition demo_piece (n : Z) : bytes :=
  if len DEMO_LINE <? n then DEMO_LINE ++ [LF] else if 0 <? n then [LF] else [].

Definition line_os : OS := fun tr cl =>
  match cl return answer cl with
  | Recv _ n => Some (demo_piece n)
  | Send _ d => len d
  | Connect _ => EINPROGRESS
  | cl => quiet_os tr cl
  end.

Lemma line_laws : @OSLaws line_os.
Proof.
  split; unfold os, line_os, quiet_os; intros; [done| | |split; [done|apply len_nonneg]].
  - destruct (Z.ltb_spec n (2 ^ 63)) in *; [lia|discriminate].
  - injection H as <-. unfold demo_piece. change (len DEMO_LINE) with 6.
    destruct (Z.ltb_spec 6 n); [change (len (DEMO_LINE ++ [LF])) with 7; lia|].
    destruct (Z.ltb_spec 0 n); [change (len [LF]) with 1; lia|]. apply Z.le_max_l.
Qed.

Lemma line_plenty : @Plenty line_os.
Proof. intros tr n Hn. unfold os, line_os, quiet_os. by rewrite (proj2 (Z.ltb_lt n _)). Qed.

(** Two lines that name the same backend. *)
Definition demo_lines : list bytes := [lit "h:1"; lit "h:1:tcp"].

Definition demo_ring : slist (option bytes) :=
  SList 2 2 (Some (Some <$> (Some <$> demo_lines))).

Definition demo_cfg : proto_config :=
  ProtoConfig true (Some (lit "127.0.0.1:8125")) true true false 4096 (Some demo_ring).

Definition demo_params : server_params := @statsd_params line_os demo_cfg.

Lemma demo_ring_rep : rep demo_ring (Some <$> demo_lines).
Proof.
  split; [done|by exists []|right; exists 1; by split_and!|done].
Qed.

Lemma demo_addresses : Forall address_ok demo_lines.
Proof.
  apply Forall_cons; split; [split; [by apply no_nul_lit|done]|].
  apply Forall_cons; split; [split; [by apply no_nul_lit|done]|done].
Qed.

#[export] Instance demo_protocol : @LineProtocol line_os demo_params COLON statsd_line :=
  @statsd_protocol line_os line_plenty demo_cfg.

(** The server is created. *)
Lemma demo_created : exists s tr,
  @stats_server_create line_os 1 demo_params [] = Some (Some s, tr).
Proof.
  assert (E : match @stats_server_create line_os 1 demo_params [] with
              | Some (Some _, _) => true | _ => false end = true) by (vm_compute; reflexivity).
  destruct (@stats_server_create _ _ _ _) as [[[s|] tr]|]; [by eexists _, _|discriminate..].
Qed.

Lemma demo_ready : exists s tr, server_ready demo_cfg 1 demo_lines s tr.
Proof.
  destruct demo_created as (s & tr & E). exists s, tr.
  refine (wp_elim _ (fun r tr' => match r with
    | Some s => server_ready demo_cfg 1 demo_lines s tr' | None => untouched 1 tr' end) _ _ _ _ E).
  apply (@server_create_spec line_os line_laws line_plenty demo_cfg 1 demo_params demo_ring
    demo_lines []); [reflexivity|reflexivity|exact demo_ring_rep|exact demo_addresses|reflexivity|].
  intros a _. reflexivity.
Qed.

Lemma demo_running : exists xs s tr, running demo_cfg 1 xs s tr.
Proof.
  destruct demo_ready as (s & tr & Hr).
  destruct (ready_running demo_cfg 1 s tr demo_lines Hr eq_refl) as (xs & Hrun & _).
  by exists xs, s, tr.
Qed.

(** The lines of its input are benign, whatever is received when. *)
Lemma demo_line_nul : NUL ∉ DEMO_LINE.
Proof. by apply no_nul_lit. Qed.

Lemma demo_line_benign : benign COLON DEMO_LINE.
Proof. by split_and!; [exact demo_line_nul| |]. Qed.

Lemma demo_piece_lines n d :
  Forall (benign COLON) (split_lines d).1 ->
  Forall (benign COLON) (split_lines (demo_piece n ++ d)).1.
Proof.
  intros Hd. unfold demo_piece.
  destruct (_ <? n); [|destruct (0 <? n)]; [rewrite <- app_assoc; cbn [app]| |done].
  - rewrite split_lines_line by (by apply (bool_decide_unpack _); vm_compute).
    apply Forall_cons. split; [exact demo_line_benign|done].
  - change ([LF] ++ d) with ([] ++ LF :: d). rewrite split_lines_line by apply not_elem_of_nil.
    apply Forall_cons.
    split; [|done]. split_and!; [apply not_elem_of_nil|done|done].
Qed.

Lemma demo_benign_stream tr : @benign_stream line_os COLON 7 [] tr.
Proof.
  intros tr' ds Hd. cbn [app]. induction Hd as [|tr tr1 tr' d ds (tr2 & n & _ & _ & _ & [= <-]) _ IH].
  - apply Forall_nil_2.
  - cbn [concat]. by apply demo_piece_lines.
Qed.

Lemma demo_benign_input tr : @benign_input line_os COLON 7 [] tr.
Proof.
  intros tr1 n d _ _ [= <-]. cbn [app]. rewrite <- (app_nil_r (demo_piece n)).
  apply demo_piece_lines, Forall_nil_2.
Qed.

Lemma demo_benign_datagram sec fd tr : @benign_datagram line_os (sep_of sec) fd tr.
Proof.
  intros d [= <-]. apply Forall_cons; split; [|done].
  split_and!; [exact demo_line_nul|done|by destruct sec].
Qed.

(** ** Rings and servers *)

Lemma hashring_load_builds_witness :
  @wp _ (hashring_load_from_config (RA := server_alloc (H := line_os) demo_cfg) (H := line_os) demo_ring
    (Server 0 0 0 0 0 0 None RNull ∅ 1))
    (fun p tr' => load_post (built := backends_built demo_cfg 1) (owed := backends_owed demo_cfg 1) demo_lines p tr') [].
Proof.
  apply (@hashring_load_builds line_os line_laws line_plenty _ _ _ _ _ _
    (@server_alloc_laws line_os line_laws line_plenty demo_cfg 1)
    demo_ring demo_lines _ [] demo_ring_rep demo_addresses eq_refl).
  apply backends_built_nil. intros a _. reflexivity.
Defined.

Lemma stats_server_create_backends_witness : exists s tr,
  @stats_server_create line_os 1 demo_params [] = Some (Some s, tr) /\
  server_inv demo_cfg 1 s tr.
Proof.
  destruct demo_created as (s & tr & E). exists s, tr. split; [exact E|].
  refine (proj1 (wp_elim _ _ _ _ _ (@stats_server_create_backends line_os line_laws line_plenty
    1 demo_params demo_ring demo_lines [] eq_refl demo_ring_rep demo_addresses eq_refl
    (fun a _ => eq_refl)) E s eq_refl)).
Defined.

Lemma stats_server_reload_kills_witness : exists xs s tr,
  running demo_cfg 1 xs s tr /\
  is_Some (@stats_server_destroy line_os demo_cfg s tr).
Proof.
  destruct demo_running as (xs & s & tr & Hr). exists xs, s, tr. split; [exact Hr|].
  exact (proj1 (@stats_server_reload_kills line_os line_laws line_plenty 1 xs s demo_params tr Hr)).
Defined.

(** ** Lines and sessions *)

Lemma stats_relay_line_routes_witness : exists xs s tr,
  running demo_cfg 1 xs s tr /\
  wp (@stats_relay_line line_os demo_params (DEMO_LINE ++ [LF; NUL]) (len DEMO_LINE) s)
    (fun '(r, s') tr' => running demo_cfg 1 xs s' tr' /\
       relayed demo_params COLON statsd_line xs DEMO_LINE s r s') tr.
Proof.
  destruct demo_running as (xs & s & tr & Hrun). exists xs, s, tr. split; [exact Hrun|].
  exact (@stats_relay_line_routes line_os line_laws demo_params COLON statsd_line
    demo_protocol 1 xs DEMO_LINE s tr Hrun demo_line_nul eq_refl eq_refl).
Defined.

Definition demo_buffer : buffer := Buffer (Cells (lit "....")) 0 0 4.

Lemma demo_buffer_wf : buffer_wf demo_buffer.
Proof. by apply buffer_wf_intro. Qed.

Lemma stats_recv_lines_witness : exists xs s tr,
  running demo_cfg 1 xs s tr /\
  wp (@stats_recv line_os demo_params 7 (Session demo_buffer 7) s)
    (fun '(r, session, s') tr' => running demo_cfg 1 xs s' tr') tr.
Proof.
  destruct demo_running as (xs & s & tr & Hrun). exists xs, s, tr. split; [exact Hrun|].
  eapply wp_mono; [exact (@stats_recv_lines line_os line_laws line_plenty demo_params COLON
    statsd_line demo_protocol 1 xs 7 demo_buffer 7 s tr Hrun demo_buffer_wf eq_refl
    (demo_benign_input tr))|].
  intros [[r session] s'] tr' [Hrun' _]. exact Hrun'.
Defined.

(** Three calls in a row. *)
Lemma session_stream_pieces_witness : exists xs s tr,
  running demo_cfg 1 xs s tr /\
  wp (@recv_calls line_os demo_params 3 7 (Session demo_buffer 7) s) (fun '(session, s') tr' =>
    running demo_cfg 1 xs s' tr' /\
    @stream_result line_os demo_params COLON statsd_line xs 3 7 demo_buffer s tr session s' tr') tr.
Proof.
  destruct demo_running as (xs & s & tr & Hrun). exists xs, s, tr. split; [exact Hrun|].
  exact (@session_stream_pieces line_os line_laws line_plenty demo_params COLON
    statsd_line demo_protocol 1 xs 3 7 demo_buffer 7 s tr Hrun demo_buffer_wf eq_refl
    ltac:(apply not_elem_of_nil) (demo_benign_stream tr)).
Defined.

Lemma stats_udp_recv_lines_witness : exists xs s tr,
  running demo_cfg 1 xs s tr /\
  wp (@stats_udp_recv line_os demo_params 8 s) (fun '(r, s') tr' =>
    running demo_cfg 1 xs s' tr' /\
    lines_run demo_params COLON statsd_line xs false
      (set_recv_udp (wrap64 (s.(bytes_recv_udp) + 7)) s) [DEMO_LINE] r s') tr.
Proof.
  destruct demo_running as (xs & s & tr & Hrun). exists xs, s, tr. split; [exact Hrun|].
  exact (@stats_udp_recv_lines line_os line_laws demo_params COLON
    statsd_line demo_protocol 1 xs 8 s tr Hrun (demo_benign_datagram Statsd 8 tr)).
Defined.

Lemma stats_status_response_witness : exists xs s tr,
  running demo_cfg 1 xs s tr /\
  wp (@handle_line line_os demo_params (Session demo_buffer 7) (STATUS ++ [LF; NUL]) (len STATUS) s)
    (fun '(r, s') tr' => r = 0 /\ s' = s) tr.
Proof.
  destruct demo_running as (xs & s & tr & Hrun). exists xs, s, tr. split; [exact Hrun|].
  eapply wp_mono; [exact (@stats_status_response line_os line_laws line_plenty demo_params
    1 xs (Session demo_buffer 7) s tr Hrun)|].
  intros [r s'] tr' (Hr & Hs & _). exact (conj Hr Hs).
Defined.

(** A line whose key has 8192 bytes, when nothing is validated. *)
Definition long_key : bytes := replicate (Z.to_nat KEY_BUFFER_SIZE) "k"%char.

Definition open_params : server_params :=
  @statsd_params line_os (ProtoConfig true None false true false 4096 None).

#[export] Instance open_protocol : @LineProtocol line_os open_params COLON statsd_line :=
  @statsd_protocol line_os line_plenty _.

Lemma replicate_len n (c : ascii) : len (replicate n c) = Z.of_nat n.
Proof. unfold len. by rewrite length_replicate. Qed.

Lemma replicate_not_in n (c d : ascii) : c <> d -> d ∉ replicate n c.
Proof. intros Hne [? _]%elem_of_replicate. done. Qed.

Lemma long_key_length : key_length COLON (long_key ++ [COLON]) = 8192.
Proof.
  unfold key_length, long_key. rewrite index_of_app by (by apply replicate_not_in).
  rewrite length_replicate. reflexivity.
Qed.

Lemma long_key_nul : NUL ∉ long_key ++ [COLON].
Proof.
  intros [Hin|Hin]%elem_of_app; [|by apply list_elem_of_singleton in Hin].
  by eapply replicate_not_in in Hin.
Qed.

Lemma stats_key_overflow_witness :
  @stats_relay_line line_os open_params ((long_key ++ [COLON]) ++ [LF; NUL])
    (len (long_key ++ [COLON])) (Server 0 0 0 0 0 0 None RNull ∅ 1) [] = None.
Proof.
  apply (@stats_key_overflow line_os open_params COLON statsd_line open_protocol).
  - exact long_key_nul.
  - rewrite len_app. unfold long_key. rewrite replicate_len. reflexivity.
  - intros Hv. discriminate Hv.
  - rewrite long_key_length. unfold KEY_BUFFER_SIZE. lia.
Defined.

(** A session buffer with a line of 65537 bytes. *)
Definition long_line : bytes := replicate (S (Z.to_nat MAX_UDP_LENGTH)) "x"%char.

Definition long_buffer : buffer :=
  Buffer (Cells (long_line ++ [LF])) 0 (MAX_UDP_LENGTH + 2) (MAX_UDP_LENGTH + 2).

Lemma long_line_len : len long_line = MAX_UDP_LENGTH + 1.
Proof. unfold long_line. rewrite replicate_len. unfold MAX_UDP_LENGTH. lia. Qed.

Lemma long_buffer_wf : buffer_wf long_buffer.
Proof.
  apply buffer_wf_intro; rewrite ?len_app, ?long_line_len; change (len [LF]) with 1;
    unfold MAX_UDP_LENGTH; lia.
Qed.

Lemma long_buffer_data : buffer_data long_buffer = long_line ++ LF :: [].
Proof.
  unfold buffer_data, long_buffer. cbn [ptr head tail]. rewrite drop_0. apply take_ge.
  pose proof long_line_len as Hl. unfold len in Hl. rewrite length_app. cbn [length]. lia.
Qed.

Lemma stats_line_overflow_witness :
  @stats_process_lines line_os open_params (Session long_buffer 7)
    (Server 0 0 0 0 0 0 None RNull ∅ 1) [] = None.
Proof.
  apply (@stats_line_overflow line_os open_params long_line []).
  - exact long_buffer_wf.
  - exact long_buffer_data.
  - apply replicate_not_in. discriminate.
  - rewrite long_line_len. lia.
Defined.

(** ** The relay *)

(** Both servers are connected, then libev reports a connection to the first listener,
    the one of the carbon server; the fourth object is a session of it. *)
Definition demo_config_file : YamlConfig.config := Config demo_cfg demo_cfg.
Definition demo_conf (sec : section) : proto_config := get_section sec demo_config_file.
Definition demo_text (sec : section) : list bytes := demo_lines.
Definition demo_collection : server_collection :=
  Collection true (Some (lit "relay.yaml")) init_server init_server.

Abbreviation demo_connect :=
  (@connect_server_collection line_os demo_collection (the_config demo_conf) (world_start 1) []).

Definition demo_event : event := TcpEvent 0 EV_READ.

(** Data of that session. *)
Definition session_data_event : loop_event := WatcherEvent (TcpEvent 2 EV_READ).

Definition demo_check (o : option ((bool * server_collection * world) * trace)) : bool :=
  match o with
  | Some ((_, c, w), tr) =>
      active TcpEv 0 tr && bool_decide (is_Some (w.(stats_of) !! Statsd)) &&
      bool_decide (is_Some (w.(stats_of) !! Statsd ≫= fun p => p.2.(mem) !! 2%nat)) &&
      match w.(tcp).(objects) !! 0%nat with Some (Tcpserver.AcceptWatcher _) => true | _ => false end &&
      match @run_event line_os demo_event w tr with
      | Some (w', tr') => active UdpEv 0 tr' && active TcpEv 2 tr' && stale w' tr' session_data_event
      | None => false
      end
  | None => false
  end.

Lemma demo_checked : demo_check demo_connect = true.
Proof. vm_compute. reflexivity. Qed.

Lemma demo_config sec : config_ok (demo_conf sec) (demo_text sec).
Proof.
  assert (demo_conf sec = demo_cfg) as -> by (by destruct sec).
  split; [exists demo_ring; split; [reflexivity|exact demo_ring_rep]|exact demo_addresses|reflexivity|].
  by eexists.
Qed.

Lemma demo_quiet : quiet_trace [].
Proof. by split. Qed.

Abbreviation demo_relay := (@served line_os demo_conf demo_text).

(** The relay before and after the connection. *)
Lemma demo_served_by o : demo_connect = o -> demo_check o = true -> exists c w tr w' tr',
  demo_relay c w tr /\ demo_relay c w' tr' /\
  (exists ps s b, w.(stats_of) !! Statsd = Some (ps, s) /\ s.(mem) !! 2%nat = Some b) /\
  active TcpEv 0 tr = true /\ active UdpEv 0 tr' = true /\ active TcpEv 2 tr' = true /\
  stale w' tr' session_data_event = true.
Proof.
  unfold demo_check. destruct o as [[[[r c] w] tr]|]; intros E Hc; [|discriminate Hc].
  rewrite !andb_true_iff in Hc. destruct Hc as [[[[Ha Hs] Hb] Ho] He].
  destruct (@run_event line_os demo_event w tr) as [[w' tr']|] eqn:Ee; [|discriminate He].
  rewrite !andb_true_iff in He. destruct He as [[Hu Ht] Hst]. apply bool_decide_eq_true in Hs as [[ps s] Hs], Hb as [b Hb].
  rewrite Hs in Hb. cbn in Hb.
  assert (Hrel : demo_relay c w tr).
  { eapply (@served_start line_os demo_conf demo_text demo_collection 1);
      [exact demo_quiet|exact demo_config|reflexivity..|exact E]. }
  exists c, w, tr, w', tr'. split; [exact Hrel|]. split.
  - eapply (@served_event line_os demo_conf demo_text _ _ _ demo_event); [exact Hrel|exact Ha| |exact Ee].
    intros sess x Hx. rewrite Hx in Ho. discriminate Ho.
  - split; [exists ps, s, b; exact (conj Hs Hb)|exact (conj Ha (conj Hu (conj Ht Hst)))].
Qed.

Definition demo_served := demo_served_by demo_connect eq_refl demo_checked.

Lemma service_safe_witness : exists c w tr,
  demo_relay c w tr /\ is_Some (@run_event line_os (UdpEvent 0 EV_READ) w tr).
Proof.
  destruct demo_served as (c & _ & _ & w & tr & _ & Hs & _ & _ & Ha & _). exists c, w, tr. split; [exact Hs|].
  apply (@service_safe line_os line_laws line_plenty demo_conf demo_text c w tr (UdpEvent 0 EV_READ) Hs Ha).
  intros l _. apply demo_benign_datagram.
Defined.

Lemma service_connects_witness :
  @wp _ (@connect_server_collection line_os demo_collection (the_config demo_conf) (world_start 1))
    (fun '(r, c', w') tr' => forall sec ps s, w'.(stats_of) !! sec = Some (ps, s) ->
      exists base xs, running demo_cfg base xs s tr' /\ slots_of demo_lines xs s) [].
Proof.
  eapply wp_mono; [apply (@service_connects line_os line_laws line_plenty demo_conf demo_text
    demo_collection 1 [] demo_quiet demo_config); reflexivity|].
  intros [[r c'] w'] tr' [_ Hs] sec ps s Hd. destruct sec; exact (proj2 (Hs _ ps s Hd)).
Defined.

Lemma service_accounts_witness : exists c w tr ps s b,
  demo_relay c w tr /\ w.(stats_of) !! Statsd = Some (ps, s) /\ s.(mem) !! 2%nat = Some b /\
  wrap64 (b.(stats).(bytes_queued) - b.(stats).(bytes_sent))
    = len (buffer_data b.(client).(send_queue)).
Proof.
  destruct demo_served as (c & w & tr & _ & _ & Hs & _ & (ps & s & b & Hd & Hb) & _).
  exists c, w, tr, ps, s, b. split; [exact Hs|]. split; [exact Hd|]. split; [exact Hb|].
  exact (proj1 (@service_accounts line_os line_laws line_plenty demo_conf demo_text c w tr Statsd ps s
    2 b Hs Hd Hb)).
Defined.

Lemma service_routes_witness : exists c w tr ps s,
  demo_relay c w tr /\
  wp (@stats_relay_line line_os ps (DEMO_LINE ++ [LF; NUL]) (len DEMO_LINE) s)
    (fun '(r, s') tr' => r = 0 -> exists address a b,
      demo_lines !! Z.to_nat (shard_of (lit "ab") 2) = Some address /\
      s.(mem) !! a = Some b /\ backend_key address = Some b.(stats).(key)) tr.
Proof.
  destruct demo_served as (c & w & tr & _ & _ & Hs & _ & (ps & s & _ & Hd & _) & _).
  exists c, w, tr, ps, s. split; [exact Hs|].
  eapply wp_mono; [exact (@service_routes line_os line_laws line_plenty demo_conf demo_text DEMO_LINE
    c w tr Statsd ps s Hs Hd demo_line_nul eq_refl eq_refl)|].
  intros [r s'] tr' Hr Hz. destruct (Hr Hz) as (address & a & b & b' & Ha & Hb & Hk & _).
  exists address, a, b. split; [exact Ha|]. split; [exact Hb|exact Hk].
Defined.


(** ** The program *)

Definition demo_settings : settings :=
  Settings (lit "127.0.0.1:8125") true true false 4096 demo_lines.

(** There is one file. *)
Definition demo_files (name : bytes) : option (bool * list yaml_event) :=
  if decide (name = lit "relay.yaml") then Some (true, config_events demo_settings demo_settings) else None.

Definition demo_answers : list (Z * option bytes) :=
  [(char_code "v", None); (char_code "l", Some (lit "WARN")); (char_code "c", Some (lit "relay.yaml"))].

Definition demo_package : bytes := lit "statsrelay 1.0".

Lemma demo_plain : plain demo_package.
Proof. split_and!; [done|by apply no_nul_lit|by apply (bool_decide_unpack _); vm_compute]. Qed.

Lemma demo_settings_ok : settings_ok demo_settings.
Proof.
  split; [by apply no_nul_lit|done|repeat constructor; by apply no_nul_lit|done|repeat constructor].
Qed.

Lemma demo_name : file_name (lit "relay.yaml").
Proof. split_and!; [by apply no_nul_lit|by apply (bool_decide_unpack _); vm_compute|done]. Qed.

Lemma demo_options_ok c : (c = char_code "c" \/ c = char_code "t") ->
  Forall option_ok [(char_code "v", None); (char_code "l", Some (lit "WARN")); (c, Some (lit "relay.yaml"))].
Proof.
  intros Hc. repeat (apply Forall_cons; split); [by left| | |done].
  - right. left. split; [done|]. by eexists.
  - right. right. split; [done|]. eexists. split; [done|exact demo_name].
Qed.

Lemma demo_file_ok : @file_ok line_os demo_files (lit "relay.yaml").
Proof.
  unfold file_ok, demo_files. rewrite decide_True by done. split; [done|]. split; [|split; [done|]].
  - repeat constructor.
  - intros tr. pose proof (@parse_rendered line_os line_laws line_plenty _ _ tr demo_settings_ok demo_settings_ok) as Hw.
    destruct (wp_inv _ _ _ Hw) as (a & tr' & E & _). by eexists.
Qed.

Lemma main_serves_witness :
  @wp _ (@main_start line_os demo_files demo_package demo_answers process_start (world_start 1)) (fun r tr' =>
    match r with
    | Running p cfg w => exists lines, @served line_os (fun sec => get_section sec cfg) lines p.(servers) w tr'
    | Exited code p w => code = 1
    end) [].
Proof.
  eapply wp_mono; [exact (@main_serves line_os line_laws line_plenty demo_files demo_package demo_answers 1
    (demo_options_ok _ (or_introl eq_refl)) eq_refl demo_file_ok demo_plain)|].
  intros [code p w|p cfg w] tr' Hr; [exact (proj1 Hr)|].
  destruct Hr as (_ & _ & _ & _ & _ & lines & _ & Hs). by exists lines.
Defined.

Lemma main_checks_witness :
  @wp _ (@main_start line_os demo_files demo_package [(char_code "t", Some (lit "none.yaml"))] process_start
    (world_start 1)) (fun r tr' => exists p w, r = Exited 1 p w) [].
Proof.
  assert (Ha : Forall option_ok [(char_code "t", Some (lit "none.yaml"))]).
  { apply Forall_singleton. right. right. split; [by right|]. eexists. split; [done|].
    split_and!; [by apply no_nul_lit|by apply (bool_decide_unpack _); vm_compute|done]. }
  assert (Hf : demo_files (lit "none.yaml") = None) by (by vm_compute).
  eapply wp_mono; [apply (@main_checks line_os line_laws line_plenty demo_files demo_package _ _ _ Ha eq_refl)|].
  - change (@file_ok line_os demo_files (lit "none.yaml")). unfold file_ok. by rewrite Hf.
  - exact demo_plain.
  - intros r tr' (_ & code & p & -> & [[_ (cfg & Hl)]|[-> _]]); [|by eexists _, _].
    change (@loaded line_os demo_files (lit "none.yaml") (Some cfg)) in Hl. unfold loaded in Hl.
    rewrite Hf in Hl. discriminate Hl.
Defined.

Lemma demo_cfg_typed : config_typed (2 ^ 32 - 1) (the_config demo_conf).
Proof.
  intros sec. exists demo_ring, demo_lines, (lit "127.0.0.1:8125").
  destruct sec; (split_and!; [reflexivity|exact demo_ring_rep|exact demo_addresses|done|reflexivity|by apply no_nul_lit|by right]).
Qed.


(** ** The tool *)

Definition demo_input : list bytes := [lit "ab more" ++ [LF]; lit "cd" ++ [LF]].

Lemma stathasher_reports_witness : exists carbon statsd,
  @wp _ (@stathasher_main line_os demo_files default_config [(char_code "c", Some (lit "relay.yaml"))] 3 demo_input)
    (fun '(code, out, st) _ => code = 0 /\ exists r1 r2, out =
       lit "key=ab" ++ shard_report (lit "carbon") carbon (lit "ab") ++ shard_report (lit "statsd") statsd (lit "ab") ++ r1 ++
       lit "key=cd" ++ r2) [].
Proof.
  destruct (wp_inv _ _ _ (@parse_rendered line_os line_laws line_plenty _ _ [] demo_settings_ok demo_settings_ok))
    as (r & tr1 & E & cfg & -> & _).
  assert (Hin : Forall (fun line => len line < 2 ^ 32) demo_input) by (repeat constructor).
  assert (Hsz : Forall event_sized (config_events demo_settings demo_settings)) by (repeat constructor).
  destruct (@stathasher_reports line_os line_laws line_plenty demo_files default_config
    [(char_code "c", Some (lit "relay.yaml"))] 3 (lit "relay.yaml") (config_events demo_settings demo_settings)
    cfg demo_input [] tr1 eq_refl (or_intror eq_refl) eq_refl Hsz eq_refl E Hin) as (carbon & statsd & _ & _ & Hw).
  eexists _, _. eapply wp_mono; [exact Hw|]. intros [[code out] st] tr (Hcode & _ & ->). split; [exact Hcode|].
  unfold demo_input, key_report. cbn [fmap list_fmap concat]. eexists [LF], _.
  rewrite <- !app_assoc. reflexivity.
Defined.

(** The relay above runs with what the parser makes of the file. *)
Lemma demo_parsed_file : exists tr1,
  @parse_config line_os true (config_events demo_settings demo_settings) [] = Some (Some demo_config_file, tr1).
Proof. eexists. vm_compute. reflexivity. Qed.

Lemma stathasher_predicts_witness : exists c w tr ps s,
  demo_relay c w tr /\ w.(stats_of) !! Statsd = Some (ps, s) /\
  wp (@stathasher_main line_os demo_files default_config [(char_code "c", Some (lit "relay.yaml"))] 3
      [lit "ab" ++ [LF]]) (fun '(code, out, _) _ => code = 0 /\
    wp (@stats_relay_line line_os ps (DEMO_LINE ++ [LF; NUL]) (len DEMO_LINE) s)
      (fun '(r, s') _ => r = 0 -> exists address a b,
        prints_shard Statsd (lit "ab") address (shard_of (lit "ab") 2) out /\
        s.(mem) !! a = Some b /\ backend_key address = Some b.(stats).(key)) tr) [].
Proof.
  destruct demo_served as (c & w & tr & _ & _ & Hs & _ & (ps & s & _ & Hd & _) & _).
  destruct demo_parsed_file as [tr1 E].
  assert (Hsp : Forall (fun c => isspace c = false) (line_key (sep_of Statsd) DEMO_LINE)) by (repeat constructor).
  assert (Hsz : Forall event_sized (config_events demo_settings demo_settings)) by (repeat constructor).
  exists c, w, tr, ps, s. split; [exact Hs|]. split; [exact Hd|].
  eapply wp_mono; [exact (@stathasher_predicts line_os line_laws line_plenty demo_files default_config
    [(char_code "c", Some (lit "relay.yaml"))] 3 (lit "relay.yaml") (config_events demo_settings demo_settings)
    demo_config_file [] tr1 demo_text DEMO_LINE c w tr Statsd ps s eq_refl (or_intror eq_refl) eq_refl Hsz eq_refl E
    Hs Hd demo_line_nul eq_refl eq_refl Hsp)|].
  intros [[code out] st] tr2 [Hcode Hw]. split; [exact Hcode|]. eapply wp_mono; [exact Hw|].
  intros [r s'] tr' Hr Hz. destruct (Hr Hz) as (address & a & b & b' & Hp & Hb & Hk & _).
  exists address, a, b. split; [exact Hp|]. split; [exact Hb|exact Hk].
Defined.
